(* ===== verification/_CoqProject ===== *)
-Q . S2P
Prelude.v
Schedules.v
Digest.v
Fips180.v
Paths.v
Text.v
Common.v
Events.v
FileIdentity.v
FileIdentityFacts.v
Operations.v
Canonicalize.v
CanonInvariant.v
CanonRenaming.v
CanonAttribution.v
CanonProduct.v
CanonLockstep.v
CanonSchedule.v
CanonLocality.v
Merkle.v
Attestation.v
AttestationFacts.v
Workspace.v
WorkspacePaths.v
Slice.v
SliceSearch.v
SliceOps.v
SliceSpec.v
SliceOrder.v
SliceRenaming.v
SliceSchedule.v
Dsse.v
Stability.v
ShellText.v
Report.v
ReportFacts.v
Tracer.v
TracerFacts.v
Collect.v
TracerProcesses.v
TracerReports.v
TracerExamples.v
Setup.v
SetupFacts.v
Ebpf.v
EbpfRecords.v
EbpfFilter.v
EbpfRefine.v
EbpfPairing.v
EbpfTree.v
EbpfCompose.v
EbpfExamples.v
EbpfAttach.v
Cli.v
CliFacts.v
Harness.v
CliExamples.v
Rebuild.v
TestFiles.v
SliceTests.v
CanonTests.v
FileTests.v
TracerTests.v
DocumentTests.v
