(* ===== verification/Prelude.v ===== *)
(** * repx, verified

    repx runs a build command under eBPF tracepoints, turns what the kernel
    reports into a trace of process and file events, canonicalises the trace into
    a set of operations that does not depend on scheduling or process numbers,
    and commits to that set with a Merkle root inside an attestation that can be
    stored, compared, signed and verified.  This library models the userspace
    program, from its subcommands down, under [repx/src/], the kernel probes of [repx-ebpf/src/main.rs] and the
    event layout of [repx-common/src/lib.rs] that they share.

    ** How the program's parts map to files

    The data flow of [repx trace] is: [trace_command] sets up the kernel side and
    the watch; the probes filter system calls and submit records; the event collector turns ring-buffer records into [TracedEvent]s;
    workspace snapshots before and after give the outputs; the output slice (or
    the full canonicalisation) turns events into operations; the operations become
    leaves of a Merkle tree, and the attestation commits to its root, the command,
    the selection and the outputs; an envelope may sign the document; and the
    stability report compares the documents of repeated runs.  [repx verify] makes
    the run again and compares the roots.

    - [repx-common/src/lib.rs]: [Common] (event kinds, [repr(C)] layout computed
      from field lists, little-endian decoding of the records, offset keys).
    - [repx-ebpf/src/main.rs]: [Ebpf] (the record [Kernel] holds the BPF maps and the
      submitted records; one definition per helper and per [try_] handler; [fire]
      dispatches a tracepoint, and a run is a list of firings).  Its theorems are in
      [EbpfRecords] (bytes written and read), [EbpfFilter] (the prefix filter
      against the collector's), [EbpfAttach] (probes, events and offsets),
      [EbpfRefine] (bounded against unbounded maps),
      [EbpfPairing] (entry and exit of a call), [EbpfTree] (what a run reports),
      [EbpfCompose] (from the probes to the trace) and [EbpfExamples] (runs).
    - [repx/src/tracer.rs], types: [Events] ([ProcessLifetime], [ProcessInstance],
      [TracedEvent], descriptor inheritance across forks, path-prefix rewriting).
    - [repx/src/tracer.rs], collector: [Tracer] (the record [Collector] is
      [EventCollectorState]; one definition per method and per arm of
      [process_event]; [drain_ring], [process_buffered_events],
      [finish_with_sort] and [trace], the collection without its polling);
      [TracerFacts], [TracerProcesses], [TracerReports] and
      [TracerExamples] hold its theorems and a concrete run.
    - [repx/src/tracer.rs], polling: [Collect] (the wait for the stopped child, the
      loop of [collect_events] and the wait for silence, over streams of answers).
    - [repx/src/tracer.rs], setup: [Setup] (search for the bytecode, tracepoint
      offset discovery from format files, attachment of the probes, watch prefixes,
      executable lookup, [trace_command] as a whole); [SetupFacts].
    - [repx/src/file_identity.rs]: [FileIdentity] (path classes, normalisation of
      paths and of the two Go control-file formats, observation of files);
      [FileIdentityFacts].
    - [repx/src/canonicalize.rs]: [Operations] (operation, digest, [finalize_ops])
      and [Canonicalize] (the loop of [canonicalize_events]: the record [CanonState]
      holds its eight variables, one definition per arm); [CanonInvariant],
      [CanonRenaming], [CanonAttribution]; [CanonProduct] is its specification, a
      state for each process lifetime, and [CanonLockstep] the simulation of the
      shared tables by it; [CanonSchedule] has what follows for schedules and
      [CanonLocality] for unrelated process trees.
    - [repx/src/workspace.rs]: [Workspace] (snapshot, walk, changed and selected
      outputs) and [WorkspacePaths] (lexical normalisation).
    - [repx/src/slice.rs]: [Slice] (scan, rename fixup, backward search, emission);
      [SliceSearch], [SliceOps], [SliceSpec], [SliceOrder], [SliceRenaming],
      [SliceSchedule].
    - [repx/src/merkle.rs]: [Merkle].
    - [repx/src/attestation.rs]: [Attestation]; [AttestationFacts].
    - [repx/src/dsse.rs]: [Dsse].
    - [repx/src/stability.rs]: [Stability].
    - [repx/src/main.rs]: [ShellText] (the display of a command, with the shell's
      reading of it as the specification), [Report] (document metadata, the lines of
      [explain] and [diff]; [ReportFacts]) and [Cli] (one definition per subcommand
      in the monad [cli]: the files, the log of what is printed and written, and how
      the command ends; [CliFacts]).
    - [repx/src/harness.rs]: [Harness], with the dispatch of [main].
    - [CliExamples] runs the commands on a concrete world, and [Rebuild] composes
      them with the canonicalisations.
    - The unit tests of the program are definitions too, one per test function, in
      [SliceTests], [CanonTests], [FileTests], [TracerTests] and [DocumentTests]
      (with [TestFiles]); examples check that the model passes them.  The digests
      frozen in [attestation.rs] are recomputed with [Fips180], an executable
      SHA-256.

    [Schedules] is about interleavings of commuting steps in general.  [Prelude] (this file) has the notations, tactics, hint databases and lemmas
    that the components share; [Paths] and [Text] model what the program uses of
    [std::path] and [str]; [Digest] is the interface to SHA-256.

    ** How the code is rendered

    A Rust string or byte vector is a [string] of bytes; machine integers are [Z]
    with saturation or wrap-around written out; a [HashMap] or [HashSet] is a
    finite map or set.  Where the program's behaviour depends on the order in
    which it visits a hash table, that order is a parameter ([HashOrder] in
    [Slice], [moment_fds] in [Tracer]).  Mutable state is a record passed through
    the steps; [anyhow::Result] is [result], and computations that may panic are
    [partial].  Code outside the repository enters as classes with the operations
    the program calls and, separately, the laws their documentation states:
    [Sha256] and [Sha256Laws], [Base64], [Hex], [Ed25519], [CommitmentJson],
    [AttestationJson], [AttestationVec], [EnvelopeJson], [OpsJson], [F64].  The operating system is a parameter as well: [FileSystem]
    and [WalkFs] answer file operations, [Env] and [Moment] answer what one event's
    processing asks of [/proc] and of files, [Machine] what one call of
    [trace_command] asks, [Ctx] what one probe asks of the kernel, and [World] holds
    these for one invocation of a command, with the files it may write.  No theorem assumes that SHA-256 is injective: a theorem
    that needs two hashes not to collide names the hashed strings in a
    [no_collision] hypothesis.

    ** What the theorems show

    - Probes.  Whatever fires in whatever order: records are about descendants of
      the traced child, or exist in watch mode only, and read back as written; the
      prefix filter lets every watched absolute path through; and a run with drop
      count 0 is the run of a kernel without bounds.  In such a run a wanted open is
      reported once with its own arguments, and a successful rename of absolute
      paths that fit a record is in the trace with these paths, if the sort keeps
      its two halves in order.
    - Tracing.  The order in which per-CPU buffers are drained does not reach the
      trace; the loss count is 0 exactly when no record was lost, malformed or
      unpaired; forks give fresh lifetimes with the parent's descriptors; external
      processes are reported only for watched paths; the root's exit carries the
      status of [waitpid]; offset discovery fails closed, its parser reads back
      format lines, and watch prefixes are armed whole or refused; the polling loops
      end when the child does and the ring buffer falls silent, and a successful
      [trace_command] is one [trace] of what was delivered by then, with every
      required probe attached and its offsets known.
    - Canonicalisation.  The loop computes the product of the programs of its
      lifetimes; so it commits to the same leaves under other process numbers and
      every schedule that keeps the events of a lifetime, forks and conflicting
      closes in order, and to the operations of unrelated process trees
      independently.  It keeps its invariant, credits the contents of the last
      close by a holder of the descriptor to the executable that opened it,
      and ignores what it should ignore; [finalize_ops] yields a sorted set;
      digests determine operations up to process indices.
    - Output slice.  It always ends, its leaves are exactly the digests of an
      inductively specified set of operations, the backward search computes the
      backward closure, every output is accounted for, writers are credited with
      final names, iteration order matters only in one fallback, and the leaves are
      the same under every schedule that keeps the order of a lifetime, of forks,
      and of renames and the writes they move.
    - Commitment.  [root_from_leaves] computes the root of the padded perfect tree
      and binds lists of one length; the v0.3 encoding is injective; validation
      accepts exactly the right documents and reports the documented errors; the
      root of a v0.3 document binds what it commits to, and its leaves where these
      are as [repx] writes them; documents survive their files; an accepted envelope
      is authentic unless it holds a forged signature, and its encoding is injective.
    - Workspace and files.  Snapshots end on cyclic directory graphs, and fail only
      because of a path they reach; changed
      and selected outputs are characterised; path normalisation is idempotent; the
      Go normalisations erase exactly what varies between sessions.
    - Commands.  [trace] writes a document that reads back whole or, when events are
      lost, nothing; [verify] accepts only when the build was run again without
      loss and has the root and the policy of the document, and, for version 0.3,
      its outputs; it accepts every rebuild with the same outputs and the same
      events, whatever its process numbers and its schedule, where the tool of an
      orphaned output is not in doubt; the signature of a document that [repx] wrote,
      made with a generated key, verifies; [diff] explains every difference; the
      harness says that all runs are identical exactly when their roots are, for the
      watch prefixes it resolved at its start; a displayed command reads back as the
      command.
    - Limits that the model exposes are theorems too: unframed operation digests
      ([op_hash_write_ambiguous]), a root that does not bind the number of leaves
      ([root_leaf_count_ambiguous], [validate_accepts_collapsed_leaves]) or leaves
      that are no digests ([undigested_leaves_ambiguous]), old documents whose
      outputs [verify] does not look at ([legacy_outputs_unbound]), watch prefixes
      the harness resolves too early ([harness_prefixes_diverge]), the
      order-dependent fallback ([slice_orphan_nondeterministic]), the
      panic off ASCII ([observe_file_panics_only_off_ascii]), the equal timestamps
      of a rename's halves ([rename_tie_unstable]), a PID tracked after its process
      is gone ([dead_child_retracked]), opens whose path cannot be read
      ([unread_open_misreported]), mappings of descriptor -1
      ([anonymous_mmap_reported]), a leaf count nobody checks
      ([leaf_count_not_validated]), old documents that no run can match
      ([verify_v0_2_needs_collision]) or whose envelopes are rejected
      ([legacy_envelope_rejected]), a wait for silence that chatter keeps from
      ending ([chatter_never_ends]), offsets borrowed from another event
      ([renameat2_borrows]), a private key left unrestricted
      ([private_key_unrestricted]) and an inherited write whose contents depend on
      which process closes it last ([logs_swapped_differs]).

    ** Bounds and fuel

    [bfs] runs with one unit of fuel per process that wrote anything, since a
    process is enqueued once; [reduce_levels] with the length of the level, which
    halves; both are proved to be enough, and the definitions that use them are
    proved to return.  [walk] takes fuel; more than the number of directories is
    proved to be enough, since a directory is entered once.  The polling loops take
    fuel for the answers they read, since they end when the world lets them;
    [collection_ends] says how much is enough.  [trim], [last_word]
    and [hex_u32] recurse on fuel that covers the length of the text and the eight
    digits of a 32-bit number.  The probes have no fuel: their loops are bounded in
    the source.  [kernel_limits] has the capacities of the maps; [unlimited] is the
    specification without them.

    ** What is not modelled

    The test [serialized_tree_omits_internal_nodes], which is about the printer of
    [serde_json] alone; parsing of arguments by [clap]; the text around the values that a line prints,
    and failures of printing; writes that fail midway (a write succeeds whole or
    not at all); the random draw of a key pair; the system calls themselves
    (loading and attaching of probes, [fork], [waitpid], [poll]), of which the model
    takes the answers.  The files a command reads and writes are a map beside the file system that
    snapshots walk: that a document is written into the workspace is not seen by
    the snapshots, which are taken before; what a later run of the harness sees is
    in the world of that run.
    The probes are modelled as atomic steps: two CPUs that race inside
    [record_drop] are not.  [to_string_lossy] is the identity on
    the byte strings of the model, which is what it is on valid UTF-8. *)
From stdpp Require Export base gmap sets list strings sorting pretty.
From Stdlib Require Export ZArith Lia Ascii.
#[local] Set Default Proof Using "Type".

(** ** Notation scope and tactics *)

Declare Scope repx_scope.
Delimit Scope repx_scope with repx.
Open Scope repx_scope.

(** Boolean equality with the decision procedure of the type. *)
Notation "x =?= y" := (bool_decide (x = y))
  (at level 70, no associativity) : repx_scope.

(** Lexicographic order on bytes: [Ord] of Rust's [String]. *)
Notation "s ≤ₛ t" := (String.le s t)
  (at level 70, no associativity) : repx_scope.

(** The lemmas that close the routine goals of the components. *)
Create HintDb repx discriminated.
Create Rewrite HintDb repx.

(** Case analysis on every [if] and [match] of the goal, then on the
    equations and boolean tests it leaves. *)
Ltac repx_bool :=
  repeat match goal with
  | H : _ && _ = true |- _ => apply andb_true_iff in H as [? ?]
  | H : negb _ = true |- _ => apply negb_true_iff in H
  | H : negb _ = false |- _ => apply negb_false_iff in H
  | H : bool_decide _ = true |- _ => apply bool_decide_eq_true in H
  | H : bool_decide _ = false |- _ => apply bool_decide_eq_false in H
  end.

Ltac repx_cases :=
  repeat (case_match; simplify_eq/=); repx_bool; simplify_eq/=.

Ltac repx_auto := repx_cases; eauto with repx lia.

(** ** Machine integers

    [u32], [i32], [u64] and [usize] values are [Z]; the operations of the code
    that can leave the width are written with these functions. *)

Definition U32_MAX : Z := 4294967295.
Definition U64_MAX : Z := 18446744073709551615.

(** Release-mode [+] and [as u32]: arithmetic modulo 2^32. *)
Definition wrap_u32 (z : Z) : Z := z `mod` 4294967296.

(** [u32::saturating_add] and [u64::saturating_add]. *)
Definition sat_add_u32 (x y : Z) : Z := Z.min U32_MAX (x + y).
Definition sat_add_u64 (x y : Z) : Z := Z.min U64_MAX (x + y).

Lemma wrap_u32_small z : (0 ≤ z ≤ U32_MAX)%Z → wrap_u32 z = z.
Proof. unfold wrap_u32, U32_MAX. intros. apply Z.mod_small. lia. Qed.

Lemma wrap_u32_range z : (0 ≤ wrap_u32 z ≤ U32_MAX)%Z.
Proof.
  unfold wrap_u32, U32_MAX.
  pose proof (Z.mod_pos_bound z 4294967296 ltac:(lia)). lia.
Qed.

#[export] Hint Resolve wrap_u32_range : repx.

(** ** Computations that may panic *)

Inductive partial (A : Type) :=
  | Returns (a : A)
  | Panics.
Arguments Returns {A} a.
Arguments Panics {A}.

#[export] Instance partial_ret : MRet partial := λ A a, Returns a.
#[export] Instance partial_bind : MBind partial := λ A B f x,
  match x with Returns a => f a | Panics => Panics end.

Lemma partial_bind_Returns {A B} (f : A → partial B) x b :
  x ≫= f = Returns b ↔ ∃ a, x = Returns a ∧ f a = Returns b.
Proof. destruct x; simpl; naive_solver. Qed.

(** ** Fallible computations: [anyhow::Result] with the failures of the code *)

Inductive result (E A : Type) :=
  | Ok (a : A)
  | Err (e : E).
Arguments Ok {E A} a.
Arguments Err {E A} e.

#[export] Instance result_ret {E} : MRet (result E) := λ A a, Ok a.
#[export] Instance result_bind {E} : MBind (result E) := λ A B f x,
  match x with Ok a => f a | Err e => Err e end.

Lemma result_bind_Ok {E A B} (f : A → result E B) x b :
  x ≫= f = Ok b ↔ ∃ a, x = Ok a ∧ f a = Ok b.
Proof. destruct x; simpl; naive_solver. Qed.

(** ** Byte strings

    A Rust [String], [str], [Vec<u8>] or [[u8]] is a [string]: the sequence of
    its bytes. *)

Lemma str_app_assoc (s t u : string) : (s +:+ t) +:+ u = s +:+ (t +:+ u).
Proof. induction s as [|c s IH]; [done|]. simpl. unfold String.append in *. by rewrite IH. Qed.

Lemma str_app_nil_r (s : string) : s +:+ "" = s.
Proof. induction s as [|c s IH]; [done|]. unfold String.append in *. simpl. by rewrite IH. Qed.

Lemma str_length_app (s t : string) :
  String.length (s +:+ t) = String.length s + String.length t.
Proof. induction s as [|c s IH]; [done|]. unfold String.append in *. simpl. by rewrite IH. Qed.

Lemma str_app_cons (c : ascii) (s t : string) :
  String c s +:+ t = String c (s +:+ t).
Proof. done. Qed.

(** Concatenations whose left parts have one length split in one way. *)
Lemma str_app_inj_length (s1 s2 t1 t2 : string) :
  String.length s1 = String.length s2 →
  s1 +:+ t1 = s2 +:+ t2 → s1 = s2 ∧ t1 = t2.
Proof.
  revert s2. induction s1 as [|c1 s1 IH]; intros [|c2 s2] Hlen Heq; try done.
  rewrite !str_app_cons in Heq. simplify_eq/=.
  destruct (IH s2) as [-> ->]; done.
Qed.

Lemma str_length_nil (s : string) : String.length s = 0 → s = "".
Proof. by destruct s. Qed.

(** [s.starts_with(p)] for a string pattern. *)
Fixpoint starts_with (p s : string) : bool :=
  match p, s with
  | "", _ => true
  | String a p, String b s => (a =?= b) && starts_with p s
  | String _ _, "" => false
  end.

(** [s.strip_prefix(p)]. *)
Fixpoint strip_prefix (p s : string) : option string :=
  match p, s with
  | "", _ => Some s
  | String a p, String b s => if a =?= b then strip_prefix p s else None
  | String _ _, "" => None
  end.

Lemma strip_prefix_Some p s t : strip_prefix p s = Some t ↔ s = p +:+ t.
Proof.
  revert s. induction p as [|a p IH]; intros s; simpl.
  - split; [by intros [= ->]|by intros ->].
  - destruct s as [|b s]; [done|]. rewrite str_app_cons.
    case_bool_decide; simplify_eq.
    + rewrite IH. split; [by intros ->|by intros [= ->]].
    + split; [done|]. intros [= -> ->]. done.
Qed.

Lemma starts_with_spec p s : starts_with p s = true ↔ ∃ t, s = p +:+ t.
Proof.
  revert s. induction p as [|a p IH]; intros s; simpl.
  - split; [intros _; by exists s|done].
  - destruct s as [|b s].
    + split; [done|]. by intros [t ?].
    + rewrite andb_true_iff, bool_decide_eq_true, IH. setoid_rewrite str_app_cons.
      split; [by intros [-> [t ->]]; exists t|].
      intros [t [= -> ->]]. eauto.
Qed.

Lemma starts_with_strip_prefix p s :
  starts_with p s = bool_decide (is_Some (strip_prefix p s)).
Proof.
  apply eq_bool_prop_intro. rewrite !Is_true_true, starts_with_spec, bool_decide_eq_true.
  split; intros [t Ht]; exists t; by apply strip_prefix_Some.
Qed.

Lemma starts_with_app p s : starts_with p (p +:+ s) = true.
Proof. apply starts_with_spec. eauto. Qed.

#[export] Hint Resolve starts_with_app : repx.

(** Byte-indexed slices [&s[..n]] and [&s[n..]]. *)
Fixpoint str_take (n : nat) (s : string) : string :=
  match n, s with
  | S n, String c s => String c (str_take n s)
  | _, _ => ""
  end.

Fixpoint str_drop (n : nat) (s : string) : string :=
  match n, s with
  | 0, _ => s
  | S n, String _ s => str_drop n s
  | S _, "" => ""
  end.

Lemma str_take_drop n s : str_take n s +:+ str_drop n s = s.
Proof.
  revert s. induction n as [|n IH]; intros [|c s]; try done.
  simpl. rewrite str_app_cons. by rewrite IH.
Qed.

Lemma str_take_app s t : str_take (String.length s) (s +:+ t) = s.
Proof.
  induction s as [|c s IH]; [by destruct t|]. rewrite str_app_cons. simpl. by rewrite IH.
Qed.

Lemma str_drop_app s t : str_drop (String.length s) (s +:+ t) = t.
Proof. induction s as [|c s IH]; [done|]. rewrite str_app_cons. simpl. by rewrite IH. Qed.

Lemma str_length_take n s : String.length (str_take n s) = n `min` String.length s.
Proof. revert s. induction n as [|n IH]; intros [|c s]; simpl; auto. Qed.
Lemma str_length_drop n s : String.length (str_drop n s) = String.length s - n.
Proof. revert s. induction n as [|n IH]; intros [|c s]; simpl; auto. Qed.

(** [s.strip_suffix(p)] and [s.ends_with(p)]. *)
Definition strip_suffix (p s : string) : option string :=
  let n := String.length s - String.length p in
  if str_drop n s =?= p then Some (str_take n s) else None.

Lemma strip_suffix_Some p s t : strip_suffix p s = Some t ↔ s = t +:+ p.
Proof.
  unfold strip_suffix. split.
  - case_bool_decide as Hp; [|done]. intros [= <-].
    rewrite <- (str_take_drop (String.length s - String.length p) s) at 1. by rewrite Hp.
  - intros ->. rewrite str_length_app, Nat.add_sub, str_drop_app, str_take_app.
    by rewrite bool_decide_true.
Qed.

(** [s.find(p)], [s.rfind(p)] and [s.contains(p)]: byte offsets. *)
Fixpoint str_find (p s : string) : option nat :=
  if starts_with p s then Some 0
  else match s with
       | "" => None
       | String _ s => S <$> str_find p s
       end.

Fixpoint str_rfind (p s : string) : option nat :=
  match s with
  | "" => if starts_with p "" then Some 0 else None
  | String _ s' =>
      match str_rfind p s' with
      | Some n => Some (S n)
      | None => if starts_with p s then Some 0 else None
      end
  end.

Definition str_contains (p s : string) : bool := bool_decide (is_Some (str_find p s)).

(** [s.chars().all(f)], [s.bytes().all(f)] for predicates on ASCII. *)
Fixpoint str_all (f : ascii → bool) (s : string) : bool :=
  match s with
  | "" => true
  | String c s => f c && str_all f s
  end.

(** [s.bytes().take_while(f).count()]. *)
Fixpoint count_while (f : ascii → bool) (s : string) : nat :=
  match s with
  | "" => 0
  | String c s => if f c then S (count_while f s) else 0
  end.

(** [s.trim_start_matches(c)] and [s.trim_end_matches(c)] for one character. *)
Fixpoint trim_start_char (c : ascii) (s : string) : string :=
  match s with
  | "" => ""
  | String d s' => if d =?= c then trim_start_char c s' else s
  end.

Fixpoint trim_end_char (c : ascii) (s : string) : string :=
  match s with
  | "" => ""
  | String d s' =>
      match trim_end_char c s' with
      | "" => if d =?= c then "" else String d ""
      | t => String d t
      end
  end.

(** The number of a byte, and byte classes of [u8]/[char]. *)
Definition byte_val (c : ascii) : N := N_of_ascii c.
Definition byte_in (lo hi : ascii) (c : ascii) : bool :=
  (byte_val lo <=? byte_val c)%N && (byte_val c <=? byte_val hi)%N.
Definition is_ascii_digit : ascii → bool := byte_in "0" "9".
Definition is_ascii_alphanumeric (c : ascii) : bool :=
  byte_in "0" "9" c || byte_in "a" "z" c || byte_in "A" "Z" c.

Lemma str_all_app f s t : str_all f (s +:+ t) = str_all f s && str_all f t.
Proof.
  induction s as [|c s IH]; [done|]. rewrite str_app_cons. simpl. rewrite IH. by rewrite andb_assoc.
Qed.

(** [bytes.concat()]. *)
Definition str_concat (l : list string) : string := foldr String.append "" l.

(** [enc] is a prefix-free code on the values that satisfy [P]. *)
Class PrefixCode {A} (P : A → Prop) (enc : A → string) : Prop :=
  prefix_code a b x y : P a → P b → enc a +:+ x = enc b +:+ y → a = b ∧ x = y.

(** Equal concatenations of equally many words of such a code. *)
Lemma str_concat_inj {A} (P : A → Prop) (enc : A → string) `{!PrefixCode P enc} l1 l2 x y :
  Forall P l1 → Forall P l2 → length l1 = length l2 →
  str_concat (enc <$> l1) +:+ x = str_concat (enc <$> l2) +:+ y → l1 = l2 ∧ x = y.
Proof.
  intros Hl1. revert l2. induction Hl1 as [|a l1 Ha Hl1 IH];
    intros l2 Hl2 Hlen Heq; destruct l2 as [|b l2]; try done.
  apply Forall_cons in Hl2 as [Hb Hl2]. simpl in *. rewrite !str_app_assoc in Heq.
  apply prefix_code in Heq as [-> Heq]; [|done..].
  apply IH in Heq as [-> ->]; [done|done|lia].
Qed.

Lemma str_concat_app l1 l2 : str_concat (l1 ++ l2) = str_concat l1 +:+ str_concat l2.
Proof. induction l1 as [|s l1 IH]; [done|]. simpl. by rewrite IH, str_app_assoc. Qed.

(** ** Sorting and deduplication

    [slice::sort], [sort_by_key] and [sort_by] are stable; [dedup_by] keeps the
    first element of a run of equal ones. *)

Section sorting.
Context {A : Type} (key : A → string).

Fixpoint insert_by_key (x : A) (l : list A) : list A :=
  match l with
  | [] => [x]
  | y :: l' => if String.leb (key x) (key y) then x :: l else y :: insert_by_key x l'
  end.

(** [v.sort_by_key(key)]. *)
Definition sort_by_key (l : list A) : list A := foldr insert_by_key [] l.

Definition key_le (x y : A) : Prop := key x ≤ₛ key y.

#[export] Instance key_le_trans : Transitive key_le.
Proof. intros x y z. unfold key_le. apply transitivity. Qed.

Lemma insert_by_key_perm x l : insert_by_key x l ≡ₚ x :: l.
Proof.
  induction l as [|y l IH]; simpl; [done|]. case_match; [done|].
  rewrite IH. apply Permutation_swap.
Qed.

Lemma sort_by_key_perm l : sort_by_key l ≡ₚ l.
Proof. induction l as [|x l IH]; simpl; [done|]. by rewrite insert_by_key_perm, IH. Qed.

Lemma insert_by_key_sorted x l :
  StronglySorted key_le l → StronglySorted key_le (insert_by_key x l).
Proof.
  induction 1 as [|y l Hl IH Hy]; simpl; [by repeat constructor|].
  destruct (String.leb (key x) (key y)) eqn:Hxy.
  - assert (key_le x y) by (unfold key_le, String.le; by rewrite Hxy).
    constructor; [by constructor|]. constructor; [done|].
    eapply Forall_impl; [exact Hy|]. intros z ?. by trans y.
  - constructor; [done|]. rewrite insert_by_key_perm. constructor; [|done].
    unfold key_le. destruct (total (String.le) (key y) (key x)) as [|Hle]; [done|].
    unfold String.le in Hle. by rewrite Hxy in Hle.
Qed.

Lemma sort_by_key_sorted l : StronglySorted key_le (sort_by_key l).
Proof. induction l; simpl; [constructor|by apply insert_by_key_sorted]. Qed.

(** Sorting a sorted list changes nothing (stability on runs). *)
Lemma sort_by_key_id l : StronglySorted key_le l → sort_by_key l = l.
Proof.
  induction 1 as [|x l Hl IH Hx]; simpl; [done|]. rewrite IH.
  destruct l as [|y l]; [done|]. simpl.
  apply Forall_cons in Hx as [Hxy _]. unfold key_le, String.le in Hxy.
  by destruct (String.leb (key x) (key y)).
Qed.
End sorting.

(** [v.sort()] on strings. *)
Definition sort_strings (l : list string) : list string := sort_by_key id l.

Section dedup.
Context {A : Type} (same : A → A → bool).

Fixpoint dedup_from (prev : A) (l : list A) : list A :=
  match l with
  | [] => []
  | x :: l' =>
      if same x prev then dedup_from prev l' else x :: dedup_from x l'
  end.

(** [v.dedup_by(|a, b| same(a, b))]: [b] is the element kept before [a]. *)
Definition dedup_by (l : list A) : list A :=
  match l with [] => [] | x :: l' => x :: dedup_from x l' end.

Lemma dedup_from_subset prev l x : x ∈ dedup_from prev l → x ∈ l.
Proof.
  revert prev. induction l as [|y l IH]; intros prev; simpl; [done|].
  case_match; rewrite ?elem_of_cons; naive_solver.
Qed.

Lemma dedup_by_subset l x : x ∈ dedup_by l → x ∈ l.
Proof.
  destruct l as [|y l]; [done|]. simpl. rewrite !elem_of_cons.
  naive_solver eauto using dedup_from_subset.
Qed.
End dedup.

(** Strictly increasing lists of strings: what "sorted set" means below. *)
Definition str_lt (s t : string) : Prop := s ≤ₛ t ∧ s ≠ t.
Definition strictly_sorted (l : list string) : Prop := StronglySorted str_lt l.

Lemma strictly_sorted_sorted l : strictly_sorted l → StronglySorted String.le l.
Proof.
  induction 1 as [|x l Hl IH Hx]; constructor; [done|].
  eapply Forall_impl; [exact Hx|]. by intros y [? _].
Qed.

Lemma strictly_sorted_NoDup l : strictly_sorted l → NoDup l.
Proof.
  induction 1 as [|x l Hl IH Hx]; constructor; [|done].
  intros Hin. rewrite Forall_forall in Hx. by destruct (Hx x Hin).
Qed.

(** A strictly sorted list is determined by its set of elements. *)
Lemma strictly_sorted_unique l1 l2 :
  strictly_sorted l1 → strictly_sorted l2 → (∀ s, s ∈ l1 ↔ s ∈ l2) → l1 = l2.
Proof.
  intros H1 H2 Hin. apply (StronglySorted_unique String.le).
  - by apply strictly_sorted_sorted.
  - by apply strictly_sorted_sorted.
  - apply NoDup_Permutation; auto using strictly_sorted_NoDup.
Qed.

Section sort_dedup.
Context {A : Type} (key : A → string).
Let same (a b : A) : bool := key a =?= key b.

Lemma dedup_from_sorted prev l :
  StronglySorted (key_le key) (prev :: l) →
  Forall (λ x, str_lt (key prev) (key x)) (dedup_from same prev l) ∧
  StronglySorted (λ x y, str_lt (key x) (key y)) (dedup_from same prev l).
Proof.
  revert prev. induction l as [|x l IH]; intros prev Hs; simpl; [by repeat constructor|].
  apply StronglySorted_inv in Hs as [Hxl Hprev].
  apply Forall_cons in Hprev as [Hpx Hpl].
  destruct (same x prev) eqn:Heq; unfold same in Heq; repx_bool.
  - apply IH. constructor; [by apply StronglySorted_inv in Hxl as []|done].
  - destruct (IH x Hxl) as [Hlt Hss].
    assert (Hprevx : str_lt (key prev) (key x)) by done.
    split; [|by constructor]. constructor; [done|].
    eapply Forall_impl; [exact Hlt|]. intros y [Hxy Hne].
    split; [by trans (key x)|]. intros Heqy.
    apply Heq. apply (anti_symm String.le); [by rewrite Heqy|done].
Qed.

(** [sort_by_key] then [dedup_by] on the same key. *)
Definition sort_dedup (l : list A) : list A := dedup_by same (sort_by_key key l).

Lemma dedup_from_keys prev l s :
  s ∈ key <$> (prev :: dedup_from same prev l) ↔ s ∈ key <$> (prev :: l).
Proof.
  revert prev. induction l as [|x l IH]; intros prev; simpl; [done|].
  specialize (IH (if same x prev then prev else x)).
  destruct (same x prev) eqn:Heq; unfold same in Heq; repx_bool;
    simpl in *; rewrite ?elem_of_cons in *; naive_solver.
Qed.

Lemma sort_dedup_keys l s : s ∈ key <$> sort_dedup l ↔ s ∈ key <$> l.
Proof.
  unfold sort_dedup. transitivity (s ∈ key <$> sort_by_key key l).
  - destruct (sort_by_key key l) as [|x l']; [done|]. apply dedup_from_keys.
  - by rewrite (sort_by_key_perm key l).
Qed.

Lemma sort_dedup_strict l : strictly_sorted (key <$> sort_dedup l).
Proof.
  unfold sort_dedup. pose proof (sort_by_key_sorted key l) as Hs.
  destruct (sort_by_key key l) as [|x l']; [constructor|].
  apply dedup_from_sorted in Hs as [Hlt Hss]. simpl. constructor.
  - eapply StronglySorted_fmap; [|exact Hss]. done.
  - by apply Forall_fmap.
Qed.

Lemma sort_dedup_subset l x : x ∈ sort_dedup l → x ∈ l.
Proof. intros Hx%dedup_by_subset. by rewrite sort_by_key_perm in Hx. Qed.

(** The keys that survive depend on the set of keys only. *)
Lemma sort_dedup_keys_ext l1 l2 :
  (∀ s, s ∈ key <$> l1 ↔ s ∈ key <$> l2) →
  key <$> sort_dedup l1 = key <$> sort_dedup l2.
Proof.
  intros Heq. apply strictly_sorted_unique; [apply sort_dedup_strict..|].
  intros s. by rewrite !sort_dedup_keys.
Qed.

Lemma dedup_from_strict_id prev l :
  Forall (λ x, str_lt (key prev) (key x)) l →
  StronglySorted (λ x y, str_lt (key x) (key y)) l → dedup_from same prev l = l.
Proof.
  intros Hp Hs. revert prev Hp. induction Hs as [|x l Hl IH Hx]; intros prev Hp; [done|].
  apply Forall_cons in Hp as [[_ Hne] Hp]. simpl.
  destruct (same x prev) eqn:Heq; unfold same in Heq; repx_bool; [congruence|].
  by rewrite IH.
Qed.

Lemma sort_dedup_strict_id l :
  StronglySorted (λ x y, str_lt (key x) (key y)) l → sort_dedup l = l.
Proof.
  intros Hs. unfold sort_dedup. rewrite sort_by_key_id.
  - destruct Hs as [|x l Hl Hx]; [done|]. simpl. by rewrite dedup_from_strict_id.
  - induction Hs as [|x l Hl IH Hx]; constructor; [done|].
    eapply Forall_impl; [exact Hx|]. by intros y [? _].
Qed.

Lemma sort_dedup_strict_elems l :
  StronglySorted (λ x y, str_lt (key x) (key y)) (sort_dedup l).
Proof.
  unfold sort_dedup. pose proof (sort_by_key_sorted key l) as Hs.
  destruct (sort_by_key key l) as [|x l']; [constructor|].
  apply dedup_from_sorted in Hs as [Hlt Hss]. by constructor.
Qed.

Lemma sort_dedup_idemp l : sort_dedup (sort_dedup l) = sort_dedup l.
Proof. apply sort_dedup_strict_id, sort_dedup_strict_elems. Qed.
End sort_dedup.

Lemma sort_strings_perm l : sort_strings l ≡ₚ l.
Proof. apply sort_by_key_perm. Qed.

Lemma sort_strings_sorted l : StronglySorted String.le (sort_strings l).
Proof. apply (sort_by_key_sorted id). Qed.

Lemma sort_strings_perm_eq l1 l2 : l1 ≡ₚ l2 → sort_strings l1 = sort_strings l2.
Proof.
  intros Hp. apply (StronglySorted_unique String.le); [apply sort_strings_sorted..|].
  by rewrite !sort_strings_perm.
Qed.

Lemma sort_strings_idemp l : sort_strings (sort_strings l) = sort_strings l.
Proof. apply sort_strings_perm_eq, sort_strings_perm. Qed.

#[export] Hint Resolve sort_strings_perm sort_strings_sorted sort_dedup_strict : repx.
#[export] Hint Rewrite sort_strings_idemp @sort_dedup_idemp : repx.

(** ** Numbers as text *)

Definition hex_digit (n : N) : ascii :=
  if (n <? 10)%N then ascii_of_N (48 + n) else ascii_of_N (87 + n).

Fixpoint hex_go (fuel : nat) (n : N) (acc : string) : string :=
  match fuel with
  | 0 => acc
  | S fuel =>
      let acc := String (hex_digit (n `mod` 16)) acc in
      if (n <? 16)%N then acc else hex_go fuel (n / 16) acc
  end.

(** [format!("{n:#x}")] for an unsigned 32-bit [n]: at most eight digits. *)
Definition hex_u32 (z : Z) : string := "0x" +:+ hex_go 8 (Z.to_N z) "".

(** [format!("{n}")]. *)
Definition decimal (z : Z) : string := pretty z.

(** [s.is_char_boundary(n)] and [s.split_at(n)] for well-formed UTF-8 text. *)
Definition is_char_boundary (n : nat) (s : string) : bool :=
  (n =?= 0%nat) || (n =?= String.length s)
  || match str_drop n s with
     | "" => false
     | String c _ => negb (byte_in "128" "191" c)
     end.

Definition str_split_at (n : nat) (s : string) : partial (string * string) :=
  if is_char_boundary n s then Returns (str_take n s, str_drop n s) else Panics.
