(* ===== verification/Schedules.v ===== *)
(** * Schedules: the interleavings of independent steps

    A run is a list of occurrences of steps.  If steps that the independence
    relation relates commute, up to an equivalence of states that the steps
    respect, then a permutation of a run that keeps the order of dependent
    occurrences ends in an equivalent state.  [CanonSchedule] and
    [SliceSchedule] apply this to the two ways of canonicalising a trace. *)
From S2P Require Export Prelude.

(** ** Order of occurrence *)

(** In [l], [x] is scheduled before [y]. *)
Definition before {A} (l : list A) (x y : A) : Prop := ∃ a b c, l = a ++ x :: b ++ y :: c.

Lemma before_cons {A} (x y z : A) l : before (x :: l) y z → (y = x ∧ z ∈ l) ∨ before l y z.
Proof.
  intros ([|w a] & b & c & [= -> ->]).
  - left. split; [done|]. set_solver.
  - right. by exists a, b, c.
Qed.

Lemma before_app_cons {A} (x y : A) pre post : before (pre ++ x :: post) x y → NoDup (pre ++ x :: post) → y ∈ post.
Proof.
  intros (a & b & c & Heq) Hnd. revert pre Heq Hnd. induction a as [|w a IH]; intros [|v pre] Heq Hnd; simpl in *.
  - injection Heq as Heq. rewrite Heq. set_solver.
  - injection Heq as Hv Heq. apply NoDup_cons in Hnd as [Hn _]. rewrite Hv in Hn. set_solver.
  - injection Heq as Hv Heq. apply NoDup_cons in Hnd as [Hn _]. rewrite Heq in Hn. set_solver.
  - injection Heq as _ Heq. apply NoDup_cons in Hnd as [_ Hnd]. by apply (IH pre).
Qed.

Lemma before_skip {A} (x y z : A) pre post : y ≠ x → z ≠ x → before (pre ++ x :: post) y z → before (pre ++ post) y z.
Proof.
  intros Hy Hz (a & b & c & Heq). apply app_eq_app in Heq as [l [[-> Hr]|[-> Hr]]].
  - destruct l as [|w l]; simpl in Hr; injection Hr as Hw Hr; [by destruct Hy|]. subst w.
    apply app_eq_app in Hr as [k [[Hb Hr]|[Hl Hr]]].
    + destruct k as [|w k]; simpl in Hr; injection Hr as Hw Hr; [by destruct Hz|]. subst.
      exists a, (l ++ k), c. by rewrite <- !app_assoc.
    + destruct k as [|w k]; simpl in Hr; injection Hr as Hw Hr; [by destruct Hz|]. subst.
      exists a, b, (k ++ post). rewrite <- !app_assoc. simpl. by rewrite <- !app_assoc.
  - destruct l as [|w l]; simpl in Hr; injection Hr as Hw Hr; [by destruct Hy|]. subst.
    exists (pre ++ l), b, c. by rewrite <- app_assoc.
Qed.

Lemma before_snoc {A} (l : list A) x y z : before l x y → before (l ++ [z]) x y.
Proof. intros (a & b & c & ->). exists a, b, (c ++ [z]). rewrite <- app_assoc. simpl. by rewrite <- app_assoc. Qed.

Lemma before_last {A} (l : list A) x z : x ∈ l → before (l ++ [z]) x z.
Proof. intros (a & b & ->)%list_elem_of_split. exists a, b, []. by rewrite <- app_assoc. Qed.

Lemma before_asym {A} (l : list A) x y : NoDup l → before l x y → ¬ before l y x.
Proof.
  intros Hnd (a & b & c & ->) Hyx.
  change (a ++ x :: b ++ y :: c) with (a ++ [x] ++ b ++ y :: c) in *.
  rewrite !app_assoc in Hnd, Hyx.
  apply before_app_cons in Hyx; [|done]. apply NoDup_app in Hnd as (_ & Hd & _).
  apply (Hd x); [set_solver|by right].
Qed.

(** The pairs of occurrences of a list in their order. *)
Fixpoint pairs {A} (l : list A) : list (A * A) :=
  match l with [] => [] | x :: l => (pair x <$> l) ++ pairs l end.

Lemma before_pairs {A} (l : list A) x y : before l x y ↔ (x, y) ∈ pairs l.
Proof.
  induction l as [|z l IH]; simpl.
  - split; [|by intros ?%elem_of_nil]. intros ([|? ?] & b & c & [=]).
  - rewrite elem_of_app, list_elem_of_fmap. split.
    + intros [[-> Hy]|Hb]%before_cons; [left; by exists y|right; by apply IH].
    + intros [(w & [= -> ->] & Hw)|(a & b & c & ->)%IH]; [|by exists (z :: a), b, c].
      apply list_elem_of_split in Hw as (b & c & ->). by exists [], b, c.
Qed.

(** ** Interleavings *)

Section interleaving.
Context {X S : Type} (step : S → X → S) (equivalent : relation S) (dependent : relation X).
Context `{!Equivalence equivalent, Hstep : !∀ x, Proper (equivalent ==> equivalent) (λ a, step a x), !RelDecision dependent}.
Hypothesis commute : ∀ a x y, ¬ dependent x y → ¬ dependent y x → equivalent (step (step a x) y) (step (step a y) x).

#[local] Instance run_proper : Proper (equivalent ==> (=) ==> equivalent) (foldl step).
Proof.
  intros a b Hab s ? <-. revert a b Hab. induction s as [|x s IH]; intros a b Hab; simpl; [done|].
  apply IH. exact (Hstep x a b Hab).
Qed.

(** Moving an occurrence to the front, past those it does not depend on. *)
Lemma move_to_front a x pre post : Forall (λ y, ¬ dependent y x ∧ ¬ dependent x y) pre →
  equivalent (foldl step a (pre ++ x :: post)) (foldl step a (x :: pre ++ post)).
Proof.
  intros Hpre. revert a. induction Hpre as [|y pre [Hy Hx] _ IH]; intros a; [done|].
  cbn [app foldl]. rewrite IH. cbn [foldl]. by rewrite (commute a y x).
Qed.

Lemma schedule_irrelevant s1 s2 a : s1 ≡ₚ s2 → NoDup s1 →
  (∀ x y, dependent x y ∨ dependent y x → before s1 x y → before s2 x y) →
  equivalent (foldl step a s1) (foldl step a s2).
Proof.
  revert s2 a. induction s1 as [|x s1 IH]; intros s2 a Hp Hnd Hord.
  { by apply Permutation_nil in Hp as ->. }
  pose proof Hnd as [Hx Hnd1]%NoDup_cons.
  assert (Hnd2 : NoDup s2) by (by rewrite <- Hp).
  assert (Hin : x ∈ s2) by (rewrite <- Hp; by left).
  apply list_elem_of_split in Hin as (pre & post & ->). pose proof (Permutation_cons_app_inv _ _ Hp) as Hp'.
  rewrite (move_to_front a x).
  - cbn [foldl]. apply IH; [done|done|]. intros y z Hdep Hb.
    assert (y ≠ x ∧ z ≠ x) as [Hy Hz].
    { destruct Hb as (u & v & w & ->). split; intros ->; apply Hx; set_solver. }
    apply (before_skip x); [done|done|]. apply Hord; [done|].
    destruct Hb as (u & v & w & ->). by exists (x :: u), v, w.
  - apply Forall_forall. intros y Hy. destruct (decide (dependent x y ∨ dependent y x)) as [Hdep|]; [exfalso|tauto].
    assert (Hb : before (x :: s1) x y).
    { assert (y ∈ s1) as Hys by (rewrite Hp'; set_solver).
      apply list_elem_of_split in Hys as (b & c & ->). by exists [], b, c. }
    apply Hord in Hb; [|done]. apply before_app_cons in Hb; [|done]. apply NoDup_app in Hnd2 as (_ & Hd & _).
    apply (Hd y Hy). by right.
Qed.
End interleaving.

(** A run reorders another if every pair that must keep its order does. *)
Section reordering.
Context {X : Type} `{EqDecision X} (must_precede : X → X → bool).

Definition reorders (s1 s2 : list X) : bool :=
  forallb (λ '(x, y), negb (must_precede x y) || bool_decide ((x, y) ∈ pairs s2)) (pairs s1).

Lemma reorders_spec s1 s2 : reorders s1 s2 = true →
  ∀ x y, must_precede x y = true → before s1 x y → before s2 x y.
Proof.
  unfold reorders. rewrite forallb_forall. intros Hall x y Hc Hb%before_pairs%list_elem_of_In.
  specialize (Hall _ Hb). cbn beta iota in Hall. rewrite Hc in Hall.
  apply before_pairs. by apply bool_decide_eq_true in Hall.
Qed.
End reordering.
