(* ===== verification/Digest.v ===== *)
(** * SHA-256 digests

    The program hashes with the [sha2] crate and prints digests with
    [format!("sha256:{:x}", ...)].  The hash function is code outside the
    repository: it is the operation of the class [Sha256], and what the crate
    documents about it (a digest of 32 bytes, printed as 64 lower-case
    hexadecimal digits) is the class [Sha256Laws].  Nothing assumes that the
    function is injective: where a theorem needs that two hashed strings do not
    collide, [no_collision] names those strings. *)
From S2P Require Export Prelude.

Class Sha256 := {
  (** [format!("{:x}", Sha256::digest(bytes))]. *)
  sha256_hex : string → string
}.

Definition is_lower_hex (c : ascii) : bool := byte_in "0" "9" c || byte_in "a" "f" c.

Class Sha256Laws `{Sha256} : Prop := {
  sha256_hex_length s : String.length (sha256_hex s) = 64;
  sha256_hex_digits s : str_all is_lower_hex (sha256_hex s) = true
}.

Section digest.
Context `{Sha256}.

(** [format!("sha256:{:x}", hasher.finalize())] after feeding [bytes]. *)
Definition digest (bytes : string) : string := "sha256:" +:+ sha256_hex bytes.

(** The strings of [inputs] have pairwise different digests. *)
Definition no_collision (inputs : list string) : Prop :=
  ∀ x y, x ∈ inputs → y ∈ inputs → sha256_hex x = sha256_hex y → x = y.

Lemma digest_inj_on inputs x y :
  no_collision inputs → x ∈ inputs → y ∈ inputs → digest x = digest y → x = y.
Proof. intros Hnc Hx Hy Heq%(inj (String.append "sha256:")). by apply Hnc. Qed.

Lemma no_collision_mono inputs1 inputs2 :
  (∀ x, x ∈ inputs1 → x ∈ inputs2) → no_collision inputs2 → no_collision inputs1.
Proof. unfold no_collision. eauto. Qed.

#[export] Instance no_collision_dec inputs : Decision (no_collision inputs).
Proof.
  destruct (decide (Forall (λ x, Forall (λ y, sha256_hex x = sha256_hex y → x = y) inputs)
                     inputs)) as [Hf|Hf]; [left|right].
  - intros x y Hx Hy. rewrite Forall_forall in Hf. specialize (Hf x Hx).
    rewrite Forall_forall in Hf. by apply Hf.
  - intros Hnc. apply Hf. apply Forall_forall. intros x Hx.
    apply Forall_forall. intros y Hy. by apply Hnc.
Defined.

Lemma digest_length `{!Sha256Laws} bytes : String.length (digest bytes) = 71.
Proof. unfold digest. rewrite str_length_app, sha256_hex_length. done. Qed.

Lemma digest_not_empty bytes : digest bytes ≠ "".
Proof. done. Qed.
End digest.

#[export] Hint Resolve digest_length digest_not_empty : repx.

(** ** A concrete hash function

    The examples evaluate the model with a polynomial hash modulo 2^64. *)
Module Toy.
Fixpoint poly (s : string) (acc : N) : N :=
  match s with
  | "" => acc
  | String c s => poly s (N.land (acc * 257 + byte_val c + 1) 18446744073709551615)
  end.

Fixpoint hex_pad (k : nat) (n : N) (acc : string) : string :=
  match k with
  | 0 => acc
  | S k => hex_pad k (n / 16) (String (hex_digit (n `mod` 16)) acc)
  end.

#[export] Instance toy_sha256 : Sha256 := {| sha256_hex s := hex_pad 64 (poly s 0) "" |}.

Lemma hex_pad_length k n acc : String.length (hex_pad k n acc) = k + String.length acc.
Proof. revert n acc. induction k as [|k IH]; intros n acc; simpl; [done|]. rewrite IH. simpl. lia. Qed.

Lemma hex_digit_lower n : (n < 16)%N → is_lower_hex (hex_digit n) = true.
Proof.
  intros Hn.
  assert (Hall : forallb (λ m, is_lower_hex (hex_digit (N.of_nat m))) (seq 0 16) = true)
    by (vm_compute; reflexivity).
  rewrite forallb_forall in Hall. rewrite <- (N2Nat.id n).
  apply Hall, in_seq. lia.
Qed.

Lemma hex_pad_digits k n acc :
  str_all is_lower_hex acc = true → str_all is_lower_hex (hex_pad k n acc) = true.
Proof.
  revert n acc. induction k as [|k IH]; intros n acc Hacc; simpl; [done|].
  apply IH. simpl. rewrite Hacc, andb_true_r. apply hex_digit_lower. by apply N.mod_lt.
Qed.

#[export] Instance toy_sha256_laws : Sha256Laws.
Proof.
  split; intros s; cbn [sha256_hex toy_sha256]; generalize (poly s 0); intros n.
  - exact (hex_pad_length 64 n "").
  - exact (hex_pad_digits 64 n "" eq_refl).
Qed.
End Toy.
