(* ===== verification/Fips180.v ===== *)
(** * SHA-256, executable

    The hash function that the [sha2] crate documents, written after FIPS 180-4
    over 32-bit words in [N].  The development's theorems hold for every hash
    function of the class [Sha256]; this instance lets the expected digests that
    the repository's own tests contain be checked against the model. *)
From S2P Require Export Digest.

Module Fips180.
#[local] Open Scope N_scope.

Definition mask : N := 0xffffffff.
Definition add32 (a b : N) : N := N.land (a + b) mask.
Definition rotr (n x : N) : N := N.lor (N.shiftr x n) (N.land (N.shiftl x (32 - n)) mask).
Definition choose (x y z : N) : N := N.lxor (N.land x y) (N.land (N.lxor x mask) z).
Definition majority (x y z : N) : N := N.lxor (N.lxor (N.land x y) (N.land x z)) (N.land y z).
Definition big_sigma0 (x : N) : N := N.lxor (N.lxor (rotr 2 x) (rotr 13 x)) (rotr 22 x).
Definition big_sigma1 (x : N) : N := N.lxor (N.lxor (rotr 6 x) (rotr 11 x)) (rotr 25 x).
Definition sigma0 (x : N) : N := N.lxor (N.lxor (rotr 7 x) (rotr 18 x)) (N.shiftr x 3).
Definition sigma1 (x : N) : N := N.lxor (N.lxor (rotr 17 x) (rotr 19 x)) (N.shiftr x 10).

(** ** Constants: the first 32 bits of the fractional parts of the cube roots of
    the first 64 primes, and of the square roots of the first 8 *)

Definition divides (d n : nat) : bool := (n mod d =? 0)%nat.
Definition is_prime (n : nat) : bool := forallb (λ d, negb (divides d n)) (seq 2 (n - 2)).
Definition primes : list N := N.of_nat <$> List.filter is_prime (seq 2 310).

(** The cube root of [n], bit by bit from bit [b] down, on top of [r]. *)
Fixpoint cube_root (b : nat) (r n : N) : N :=
  let r' := r + 2 ^ N.of_nat b in
  let next := if r' * r' * r' <=? n then r' else r in
  match b with O => next | S b => cube_root b next n end.

Definition round_constants : list N :=
  Eval vm_compute in (λ p, N.land (cube_root 35 0 (p * 2 ^ 96)) mask) <$> take 64 primes.
Definition initial_hash : list N :=
  Eval vm_compute in (λ p, N.land (N.sqrt (p * 2 ^ 64)) mask) <$> take 8 primes.

(** ** The message in blocks of sixteen words *)

Fixpoint bytes_of (s : string) : list N :=
  match s with "" => [] | String c s => byte_val c :: bytes_of s end.

(** The low [k] bytes of [n], the most significant first. *)
Fixpoint big_endian (k : nat) (n : N) : list N :=
  match k with O => [] | S k => big_endian k (n / 256) ++ [n mod 256] end.

(** A one bit, zeros up to eight bytes before the end of a block, and the length
    in bits. *)
Definition padded (message : list N) : list N :=
  let len := length message in
  message ++ 0x80 :: repeat 0 ((119 - len mod 64) mod 64)%nat ++ big_endian 8 (8 * N.of_nat len).

Fixpoint words (bytes : list N) : list N :=
  match bytes with
  | a :: b :: c :: d :: rest => (((a * 256 + b) * 256 + c) * 256 + d) :: words rest
  | _ => []
  end.

(** The first [k] blocks of a list of words. *)
Fixpoint blocks (k : nat) (ws : list N) : list (list N) :=
  match k with O => [] | S k => take 16 ws :: blocks k (drop 16 ws) end.

(** [k] more words of the schedule after [past], the latest word first. *)
Fixpoint extend (k : nat) (past : list N) : list N :=
  match k with
  | O => past
  | S k =>
      let w i := nth i past 0 in
      extend k (add32 (add32 (sigma1 (w 1%nat)) (w 6%nat)) (add32 (sigma0 (w 14%nat)) (w 15%nat)) :: past)
  end.
Definition schedule (block : list N) : list N := rev (extend 48 (rev block)).

(** ** Compression *)

Definition round (hash : list N) (k_w : N * N) : list N :=
  match hash with
  | [a; b; c; d; e; f; g; h] =>
      let t1 := add32 (add32 (add32 h (big_sigma1 e)) (add32 (choose e f g) k_w.1)) k_w.2 in
      let t2 := add32 (big_sigma0 a) (majority a b c) in
      [add32 t1 t2; a; b; c; add32 d t1; e; f; g]
  | _ => hash
  end.

Definition compress (hash block : list N) : list N :=
  zip_with add32 hash (foldl round hash (zip round_constants (schedule block))).

Definition sha256 (message : string) : N :=
  let bytes := padded (bytes_of message) in
  foldl (λ acc w, acc * 4294967296 + w) 0
    (foldl compress initial_hash (blocks (length bytes / 64) (words bytes))).

#[export] Instance fips_sha256 : Sha256 := {| sha256_hex s := Toy.hex_pad 64 (sha256 s) "" |}.

#[export] Instance fips_sha256_laws : Sha256Laws.
Proof.
  split; intros s; cbn [sha256_hex fips_sha256]; generalize (sha256 s); intros n.
  - exact (Toy.hex_pad_length 64 n "").
  - exact (Toy.hex_pad_digits 64 n "" eq_refl).
Qed.

(** Every message is padded to whole blocks. *)
Lemma padded_blocks message : (length (padded message) mod 64 = 0)%nat.
Proof.
  unfold padded. rewrite length_app, length_cons, length_app, repeat_length.
  assert (Hbe : ∀ k n, length (big_endian k n) = k).
  { induction k as [|k IH]; intros n; simpl; [done|]. rewrite length_app, IH. simpl. lia. }
  rewrite Hbe. set (len := length message).
  pose proof (Nat.div_mod len 64 ltac:(lia)). pose proof (Nat.mod_upper_bound len 64 ltac:(lia)).
  destruct (Nat.le_gt_cases (len mod 64) 55).
  - assert (Hz : ((119 - len mod 64) mod 64 = 55 - len mod 64)%nat).
    { replace (119 - len mod 64)%nat with (55 - len mod 64 + 1 * 64)%nat by lia.
      rewrite Nat.Div0.mod_add. apply Nat.mod_small. lia. }
    rewrite Hz. replace (len + S (55 - len mod 64 + 8))%nat with ((len / 64 + 1) * 64)%nat by lia.
    apply Nat.Div0.mod_mul.
  - rewrite (Nat.mod_small (119 - len mod 64)) by lia.
    replace (len + S (119 - len mod 64 + 8))%nat with ((len / 64 + 2) * 64)%nat by lia.
    apply Nat.Div0.mod_mul.
Qed.

(** ** The vectors of the standard *)

Example sha256_empty :
  sha256_hex "" = "e3b0c44298fc1c149afbf4c8996fb92427ae41e4649b934ca495991b7852b855".
Proof. vm_compute. reflexivity. Qed.

Example sha256_one_block :
  sha256_hex "abc" = "ba7816bf8f01cfea414140de5dae2223b00361a396177a9cb410ff61f20015ad".
Proof. vm_compute. reflexivity. Qed.

Example sha256_two_blocks :
  sha256_hex "abcdbcdecdefdefgefghfghighijhijkijkljklmklmnlmnomnopnopq"
  = "248d6a61d20638b8e5c026930c3e6039a33ce45964ff2167f6ecedd419db06c1".
Proof. vm_compute. reflexivity. Qed.
End Fips180.
