(* ===== verification/Paths.v ===== *)
(** * The parts of [std::path] and of [str] the program uses

    Paths are the byte strings the program handles; [components] is the
    normalising iterator of [std::path::Path] on Unix, and the other functions
    are defined from it as the library documents them. *)
From S2P Require Export Prelude.

(** ** Splitting text *)

(** [s.split(c)]: always at least one piece. *)
Fixpoint str_split (c : ascii) (s : string) : list string :=
  match s with
  | "" => [""]
  | String d s' =>
      if d =?= c then "" :: str_split c s'
      else match str_split c s' with
           | [] => [String d ""]
           | p :: ps => String d p :: ps
           end
  end.

(** [s.split_inclusive(c)]: pieces keep their terminator. *)
Fixpoint str_split_inclusive (c : ascii) (s : string) : list string :=
  match s with
  | "" => []
  | String d s' =>
      if d =?= c then String d "" :: str_split_inclusive c s'
      else match str_split_inclusive c s' with
           | [] => [String d ""]
           | p :: ps => String d p :: ps
           end
  end.

(** [s.split_once(c)]. *)
Fixpoint str_split_once (c : ascii) (s : string) : option (string * string) :=
  match s with
  | "" => None
  | String d s' =>
      if d =?= c then Some ("", s')
      else '(l, r) ← str_split_once c s'; Some (String d l, r)
  end.

(** [std::str::from_utf8(bytes).is_ok()]: well-formed UTF-8 (Unicode table 3-7). *)
Definition byte_between (lo hi : N) (c : ascii) : bool :=
  (lo <=? byte_val c)%N && (byte_val c <=? hi)%N.
Definition utf8_cont : ascii → bool := byte_between 128 191.

Fixpoint utf8_valid (s : string) : bool :=
  match s with
  | "" => true
  | String a s1 =>
      if byte_between 0 127 a then utf8_valid s1
      else if byte_between 194 223 a then
        match s1 with
        | String b s2 => utf8_cont b && utf8_valid s2
        | _ => false
        end
      else if byte_between 224 239 a then
        match s1 with
        | String b (String c s3) =>
            (if byte_between 224 224 a then byte_between 160 191 b
             else if byte_between 237 237 a then byte_between 128 159 b
             else utf8_cont b) && utf8_cont c && utf8_valid s3
        | _ => false
        end
      else if byte_between 240 244 a then
        match s1 with
        | String b (String c (String d s4)) =>
            (if byte_between 240 240 a then byte_between 144 191 b
             else if byte_between 244 244 a then byte_between 128 143 b
             else utf8_cont b) && utf8_cont c && utf8_cont d && utf8_valid s4
        | _ => false
        end
      else false
  end.

(** ** Components *)

Inductive component :=
  | RootDir
  | CurDir
  | ParentDir
  | Normal (name : string).

#[export] Instance component_eq_dec : EqDecision component.
Proof. solve_decision. Defined.

(** [component.as_os_str()]. *)
Definition component_str (c : component) : string :=
  match c with
  | RootDir => "/"
  | CurDir => "."
  | ParentDir => ".."
  | Normal s => s
  end.

Definition piece_components (p : string) : list component :=
  if p =?= "" then [] else if p =?= "." then []
  else if p =?= ".." then [ParentDir] else [Normal p].

Definition path_is_absolute (p : string) : bool := starts_with "/" p.

(** [Path::new(p).components()]: repeated separators and [.] pieces are
    skipped, except a leading [.] of a relative path. *)
Definition components (p : string) : list component :=
  let pieces := str_split "/" p in
  if path_is_absolute p then RootDir :: (pieces ≫= piece_components)
  else match pieces with
       | "." :: rest => CurDir :: (rest ≫= piece_components)
       | _ => pieces ≫= piece_components
       end.

(** [PathBuf::push] and [Path::join]. *)
Definition path_push (buf p : string) : string :=
  if path_is_absolute p then p
  else if buf =?= "" then p
  else if bool_decide (is_Some (strip_suffix "/" buf)) then buf +:+ p
  else buf +:+ "/" +:+ p.

Definition path_of_components (cs : list component) : string :=
  foldl (λ buf c, path_push buf (component_str c)) "" cs.

(** [Path::file_name]. *)
Definition path_file_name (p : string) : option string :=
  match last (components p) with
  | Some (Normal s) => Some s
  | _ => None
  end.

(** The components of [Path::parent]: none for a root or an empty path. *)
Definition path_parent (p : string) : option (list component) :=
  match last (components p) with
  | None | Some RootDir => None
  | Some _ => Some (removelast (components p))
  end.

(** [Path::starts_with] and [Path::ends_with] compare whole components. *)
Definition path_starts_with (p base : string) : bool :=
  bool_decide (components base `prefix_of` components p).
Definition path_ends_with (p child : string) : bool :=
  bool_decide (components child `suffix_of` components p).

Example components_1 :
  components "/a//b/./../c/" = [RootDir; Normal "a"; Normal "b"; ParentDir; Normal "c"].
Proof. reflexivity. Qed.
Example components_2 : components "./a/." = [CurDir; Normal "a"].
Proof. reflexivity. Qed.
Example components_3 : components "" = [].
Proof. reflexivity. Qed.
