(* ===== verification/Text.v ===== *)
(** * White space, lines, words and numbers in texts

    The functions of [str] that read the kernel's format files and key files:
    [trim], [lines], the last word of [split_whitespace] and [parse::<u32>]. *)
From S2P Require Export Paths.

(** The UTF-8 encodings of Unicode [White_Space], which [str::trim] removes. *)
Definition white_space : list string :=
  ((λ n, String (ascii_of_N n) "") <$> [9; 10; 11; 12; 13; 32]%N)
  ++ [String "194" (String "133" ""); String "194" (String "160" "");
      String "225" (String "154" (String "128" ""))]
  ++ ((λ n, String "226" (String "128" (String (ascii_of_N n) "")))
        <$> [128; 129; 130; 131; 132; 133; 134; 135; 136; 137; 138; 168; 169; 175]%N)
  ++ [String "226" (String "129" (String "159" "")); String "227" (String "128" (String "128" ""))].

Fixpoint trim_start (fuel : nat) (s : string) : string :=
  match fuel with
  | 0 => s
  | S fuel =>
      match head (omap (λ w, strip_prefix w s) white_space) with
      | Some s => trim_start fuel s
      | None => s
      end
  end.

Fixpoint trim_end (fuel : nat) (s : string) : string :=
  match fuel with
  | 0 => s
  | S fuel =>
      match head (omap (λ w, strip_suffix w s) white_space) with
      | Some s => trim_end fuel s
      | None => s
      end
  end.

(** [s.trim()]: each step removes a byte at least. *)
Definition trim (s : string) : string :=
  let s := trim_start (String.length s) s in trim_end (String.length s) s.

(** [s.split_whitespace().last()]. The scan keeps the word read so far. *)
Fixpoint last_word_from (fuel : nat) (s word : string) : option string :=
  match fuel with
  | 0 => None
  | S fuel =>
      match head (omap (λ w, strip_prefix w s) white_space) with
      | Some s' =>
          match last_word_from fuel s' "" with
          | Some later => Some later
          | None => if word =?= "" then None else Some word
          end
      | None =>
          match s with
          | "" => if word =?= "" then None else Some word
          | String c s => last_word_from fuel s (word +:+ String c "")
          end
      end
  end.
Definition last_word (s : string) : option string :=
  last_word_from (S (String.length s)) s "".

(** [s.lines()]: the terminator is removed, with the carriage return before it. *)
Definition strip_line_end (line : string) : string :=
  match strip_suffix (String "010" "") line with
  | Some line => default line (strip_suffix (String "013" "") line)
  | None => line
  end.
Definition str_lines (s : string) : list string := strip_line_end <$> str_split_inclusive "010" s.

(** [s.parse::<u32>()]. *)
Fixpoint parse_digits (s : string) (acc : Z) : option Z :=
  match s with
  | "" => Some acc
  | String c s =>
      if is_ascii_digit c then
        let acc := (acc * 10 + (Z.of_N (byte_val c) - 48))%Z in
        if (acc <=? U32_MAX)%Z then parse_digits s acc else None
      else None
  end.
Definition parse_u32 (s : string) : option Z :=
  match default s (strip_prefix "+" s) with
  | "" => None
  | digits => parse_digits digits 0
  end.

(** Text made of lower-case hexadecimal digits. *)
Definition hex_text (s : string) : bool :=
  str_all (λ c, byte_in "0" "9" c || byte_in "a" "f" c) s.

Example last_word_1 : last_word "const char * filename" = Some "filename".
Proof. vm_compute. reflexivity. Qed.
Example last_word_2 : last_word " a  " = Some "a".
Proof. vm_compute. reflexivity. Qed.
Example str_lines_1 : str_lines ("a" +:+ String "013" (String "010" "b")) = ["a"; "b"].
Proof. reflexivity. Qed.
Example parse_u32_1 : parse_u32 "4294967295" = Some 4294967295%Z ∧ parse_u32 "4294967296" = None.
Proof. by vm_compute. Qed.

(** ** Trimming *)

Lemma white_space_bytes w : w ∈ white_space →
  str_all (λ c, negb (byte_in "0" "9" c || byte_in "a" "f" c)) w = true ∧ w ≠ "".
Proof.
  intros Hw.
  assert (Hall : Forall (λ w, str_all (λ c, negb (byte_in "0" "9" c || byte_in "a" "f" c)) w = true
    ∧ w ≠ "") white_space).
  { apply (bool_decide_unpack (Forall _ _)). vm_compute. done. }
  rewrite Forall_forall in Hall. by apply Hall.
Qed.

Lemma not_both f s : str_all f s = true → str_all (λ c, negb (f c)) s = true → s = "".
Proof. destruct s as [|c s]; [done|]. simpl. by destruct (f c). Qed.

Lemma omap_head_None {A B} (f : A → option B) l : (∀ x, x ∈ l → f x = None) → omap f l = [].
Proof.
  induction l as [|x l IH]; intros Hf; [done|]. csimpl. rewrite Hf by set_solver.
  apply IH. set_solver.
Qed.

Lemma trim_start_hex fuel s t : hex_text s = true → s ≠ "" → trim_start fuel (s +:+ t) = s +:+ t.
Proof.
  intros Hs Hne. destruct fuel as [|fuel]; [done|]. cbn [trim_start].
  rewrite omap_head_None; [done|]. intros w Hw. destruct (strip_prefix w (s +:+ t)) eqn:Hp; [|done].
  apply strip_prefix_Some in Hp. apply white_space_bytes in Hw as [Hw Hwne].
  destruct w as [|c w]; [done|]. destruct s as [|d s]; [done|]. exfalso.
  rewrite !str_app_cons in Hp. injection Hp as -> _. unfold hex_text in Hs. simpl in Hs, Hw.
  by destruct (_ || _).
Qed.

Lemma trim_end_hex fuel s : hex_text s = true → trim_end fuel s = s.
Proof.
  intros Hs. destruct fuel as [|fuel]; [done|]. cbn [trim_end].
  rewrite omap_head_None; [done|]. intros w Hw. destruct (strip_suffix w s) as [r|] eqn:Hp; [|done].
  apply strip_suffix_Some in Hp as ->. apply white_space_bytes in Hw as [Hw Hwne].
  unfold hex_text in Hs. rewrite str_all_app in Hs. apply andb_true_iff in Hs as [_ Hs].
  exfalso. apply Hwne. exact (not_both _ _ Hs Hw).
Qed.

Lemma trim_end_newline fuel s : hex_text s = true → s ≠ "" →
  trim_end (S fuel) (s +:+ String "010" "") = s.
Proof.
  intros Hs Hne. cbn [trim_end].
  assert (Hh : head (omap (λ w, strip_suffix w (s +:+ String "010" "")) white_space) = Some s).
  { change white_space with (String "009" "" :: String "010" "" :: drop 2 white_space).
    cbn [omap list_omap]. replace (strip_suffix (String "009" "") (s +:+ String "010" "")) with (@None string).
    2:{ symmetry. destruct (strip_suffix _ _) as [r|] eqn:Hr; [|done].
        apply strip_suffix_Some in Hr.
        assert (Hlen : String.length s = String.length r).
        { apply (f_equal String.length) in Hr. rewrite !str_length_app in Hr. simpl in Hr. lia. }
        by apply str_app_inj_length in Hr as [_ ?]. }
    replace (strip_suffix (String "010" "") (s +:+ String "010" "")) with (Some s); [done|].
    symmetry. by apply strip_suffix_Some. }
  rewrite Hh. by apply trim_end_hex.
Qed.

Lemma trim_hex_line s : hex_text s = true → s ≠ "" → trim (s +:+ String "010" "") = s.
Proof.
  intros Hs Hne. unfold trim. rewrite trim_start_hex by done.
  rewrite str_length_app, Nat.add_comm. change (String.length (String "010" "") + ?n) with (S n).
  by apply trim_end_newline.
Qed.


(** ** Splitting at a character *)

(** Texts without [c] before a [c] split in one way. *)
Lemma split_at_char (c : ascii) s1 s2 t1 t2 :
  str_all (λ d, negb (d =?= c)) s1 = true → str_all (λ d, negb (d =?= c)) s2 = true →
  s1 +:+ String c t1 = s2 +:+ String c t2 → s1 = s2 ∧ t1 = t2.
Proof.
  revert s2. induction s1 as [|a s1 IH]; intros [|b s2] H1 H2 Heq; simpl in H1, H2.
  - by injection Heq.
  - injection Heq as <- _. by rewrite bool_decide_true in H2.
  - injection Heq as -> _. by rewrite bool_decide_true in H1.
  - injection Heq as -> Heq. apply andb_true_iff in H1 as [_ H1], H2 as [_ H2].
    by destruct (IH s2 H1 H2 Heq) as [-> ->].
Qed.


Lemma str_find_char (c : ascii) s t :
  str_all (λ d, negb (d =?= c)) s = true → str_find (String c "") (s +:+ String c t) = Some (String.length s).
Proof.
  induction s as [|d s IH]; intros Hs.
  - simpl. by rewrite bool_decide_true.
  - simpl in Hs. apply andb_true_iff in Hs as [Hd Hs]. rewrite str_app_cons. simpl.
    rewrite bool_decide_false by (intros <-; by rewrite bool_decide_true in Hd). simpl.
    change (str_find (String c "") (s +:+ String c t)) with (str_find (String c "") (s +:+ String c t)).
    by rewrite IH.
Qed.

(** ** Decimal numbers *)

Lemma pretty_N_go_digits n s :
  str_all is_ascii_digit s = true → str_all is_ascii_digit (pretty_N_go n s) = true.
Proof.
  revert s. induction (N.lt_wf_0 n) as [n _ IH]; intros s Hs.
  destruct (decide (n = 0)%N) as [->|Hn]; [by rewrite pretty_N_go_0|].
  rewrite pretty_N_go_step by lia. apply IH; [by apply N.div_lt; lia|].
  simpl. rewrite Hs, andb_true_r.
  unfold pretty_N_char. by repeat case_match.
Qed.

Lemma digit_value d : (d < 10)%N →
  is_ascii_digit (pretty_N_char d) = true ∧ byte_val (pretty_N_char d) = (48 + d)%N.
Proof.
  intros Hd.
  assert (Hall : Forall (λ d, is_ascii_digit (pretty_N_char d) = true ∧
    byte_val (pretty_N_char d) = (48 + d)%N) (N.of_nat <$> seq 0 10)) by (repeat constructor).
  rewrite Forall_forall in Hall. apply Hall, list_elem_of_fmap. exists (N.to_nat d).
  rewrite elem_of_seq. lia.
Qed.

Lemma parse_digits_pretty n s : (Z.of_N n ≤ U32_MAX)%Z →
  parse_digits (pretty_N_go n s) 0 = parse_digits s (Z.of_N n).
Proof.
  revert s. induction (N.lt_wf_0 n) as [n _ IH]; intros s Hn.
  destruct (decide (n = 0)%N) as [->|Hne]; [by rewrite pretty_N_go_0|].
  rewrite pretty_N_go_step by lia.
  pose proof (N.div_mod n 10 ltac:(lia)) as Hdm. pose proof (N.mod_lt n 10 ltac:(lia)) as Hlt.
  generalize dependent (n `mod` 10)%N. generalize dependent (n / 10)%N. intros q r Hdm Hlt.
  rewrite IH by lia. simpl. destruct (digit_value r Hlt) as [Hd Hv]. rewrite Hd, Hv.
  replace (Z.of_N q * 10 + (Z.of_N (48 + r) - 48))%Z with (Z.of_N n) by lia.
  rewrite (proj2 (Z.leb_le _ _)) by done. done.
Qed.

Lemma decimal_digits z : (0 ≤ z)%Z → str_all is_ascii_digit (decimal z) = true ∧ decimal z ≠ "".
Proof.
  intros Hz. unfold decimal. destruct z as [|p|p]; [done| |lia].
  change (pretty (Zpos p)) with (pretty (Npos p)). unfold pretty, pretty_N. case_decide; [done|].
  split; [by apply pretty_N_go_digits|]. rewrite pretty_N_go_step by lia.
  assert (Hne : ∀ n s, s ≠ "" → pretty_N_go n s ≠ "").
  { clear. intros n. induction (N.lt_wf_0 n) as [n _ IH]; intros s Hs.
    destruct (decide (n = 0)%N) as [->|Hn]; [by rewrite pretty_N_go_0|].
    rewrite pretty_N_go_step by lia. apply IH; [apply N.div_lt; lia|done]. }
  by apply Hne.
Qed.

Lemma parse_u32_decimal z : (0 ≤ z ≤ U32_MAX)%Z → parse_u32 (decimal z) = Some z.
Proof.
  intros Hz. destruct (decimal_digits z) as [Hd Hne]; [lia|]. unfold parse_u32.
  assert (Hplus : strip_prefix "+" (decimal z) = None).
  { destruct (decimal z) as [|c s]; [done|]. simpl in *. apply andb_true_iff in Hd as [Hd _].
    rewrite bool_decide_false; [done|]. by intros <-. }
  rewrite Hplus. cbn [default]. destruct (decimal z) as [|c s] eqn:Hdec; [done|].
  rewrite <- Hdec. unfold decimal. destruct z as [|p|p]; [done| |lia].
  change (pretty (Zpos p)) with (pretty (Npos p)). unfold pretty, pretty_N. case_decide; [done|].
  rewrite parse_digits_pretty by lia. done.
Qed.

(** ** Words *)

Definition is_ascii_space (c : ascii) : bool := byte_in "009" "013" c || (c =?= " "%char).
Definition ascii_text (s : string) : bool := str_all (byte_in "000" "127") s.

(** On ASCII text the white space is single bytes. *)
Lemma white_space_step c s : byte_in "000" "127" c = true →
  head (omap (λ w, strip_prefix w (String c s)) white_space)
  = if is_ascii_space c then Some s else None.
Proof. destruct c as [[] [] [] [] [] [] [] []]; intros Hc; try discriminate Hc; reflexivity. Qed.

Lemma trim_start_step fuel c s : byte_in "000" "127" c = true →
  trim_start (S fuel) (String c s) = if is_ascii_space c then trim_start fuel s else String c s.
Proof. intros Hc. cbn [trim_start]. rewrite white_space_step by done. by destruct (is_ascii_space c). Qed.

Definition is_word_byte (c : ascii) : bool := is_ascii_alphanumeric c || (c =?= "_"%char).

Lemma word_byte c : is_word_byte c = true →
  byte_in "000" "127" c = true ∧ is_ascii_space c = false ∧ c ≠ ";"%char.
Proof. destruct c as [[] [] [] [] [] [] [] []]; intros Hc; try discriminate Hc; by split_and!. Qed.

Lemma last_word_from_word fuel name word :
  str_all is_word_byte name = true → String.length name < fuel → word +:+ name ≠ "" →
  last_word_from fuel name word = Some (word +:+ name).
Proof.
  revert fuel word. induction name as [|c name IH]; intros fuel word Hn Hf Hne;
    (destruct fuel as [|fuel]; [simpl in Hf; lia|]).
  - rewrite str_app_nil_r in *. cbn [last_word_from].
    replace (head (omap (λ w, strip_prefix w "") white_space)) with (@None string) by reflexivity.
    by rewrite bool_decide_false.
  - simpl in Hn, Hf. apply andb_true_iff in Hn as [Hc Hn].
    apply word_byte in Hc as (Ha & Hs & _). cbn [last_word_from].
    rewrite white_space_step, Hs by done. rewrite IH; [|done|lia|].
    + by rewrite str_app_assoc, str_app_cons.
    + by rewrite str_app_assoc, str_app_cons; destruct word.
Qed.

Lemma last_word_from_decl fuel decl name word :
  ascii_text decl = true → str_all is_word_byte name = true → name ≠ "" →
  String.length (decl +:+ String " " name) < fuel →
  last_word_from fuel (decl +:+ String " " name) word = Some name.
Proof.
  intros Hd Hn Hne. revert fuel word Hd.
  induction decl as [|c decl IH]; intros fuel word Hd Hf;
    (destruct fuel as [|fuel]; [lia|]).
  - change ("" +:+ String " " name) with (String " " name) in *. cbn [last_word_from].
    cbn [String.length] in Hf. rewrite white_space_step by done. simpl.
    by rewrite last_word_from_word by (done || lia).
  - unfold ascii_text in Hd. simpl in Hd. apply andb_true_iff in Hd as [Hc Hd].
    rewrite str_app_cons in Hf |- *. cbn [last_word_from]. cbn [String.length] in Hf.
    rewrite white_space_step by done. destruct (is_ascii_space c).
    + rewrite IH by (done || lia). done.
    + by rewrite IH by (done || lia).
Qed.

Lemma last_word_decl decl name :
  ascii_text decl = true → str_all is_word_byte name = true → name ≠ "" →
  last_word (decl +:+ String " " name) = Some name.
Proof. intros. apply last_word_from_decl; auto with lia. Qed.

(** Trimming the end stops before a byte that no white space contains. *)
Lemma app_suffix_char (c : ascii) a b w s' :
  str_all (λ d, negb (d =?= c)) w = true → a +:+ String c b = s' +:+ w →
  ∃ b', s' = a +:+ String c b'.
Proof.
  intros Hw. revert s'. induction a as [|x a IH]; intros s' Heq.
  - destruct s' as [|y s'].
    + change ("" +:+ w) with w in Heq. subst w. simpl in Hw.
      by rewrite bool_decide_true in Hw.
    + rewrite str_app_cons in Heq. injection Heq as <- _. by exists s'.
  - destruct s' as [|y s'].
    + change ("" +:+ w) with w in Heq. subst w. exfalso. clear IH.
      change (String x a +:+ String c b) with (String x a +:+ String c b) in Hw.
      rewrite str_all_app in Hw. apply andb_true_iff in Hw as [_ Hw]. simpl in Hw.
      by rewrite bool_decide_true in Hw.
    + rewrite !str_app_cons in Heq. injection Heq as <- Heq.
      destruct (IH s' Heq) as [b' ->]. by exists b'.
Qed.

Lemma trim_end_keeps (c : ascii) fuel a b :
  Forall (λ w, str_all (λ d, negb (d =?= c)) w = true) white_space →
  ∃ b', trim_end fuel (a +:+ String c b) = a +:+ String c b'.
Proof.
  intros Hc. revert b. induction fuel as [|fuel IH]; intros b; [by exists b|]. cbn [trim_end].
  destruct (head (omap _ white_space)) as [s'|] eqn:Hh; [|by exists b].
  assert (Hs : s' ∈ omap (λ w, strip_suffix w (a +:+ String c b)) white_space)
    by (destruct (omap _ white_space); simplify_eq/=; by left).
  apply list_elem_of_omap in Hs as (w & Hw & Hs%strip_suffix_Some).
  rewrite Forall_forall in Hc. apply (app_suffix_char c) in Hs as [b' ->]; [apply IH|by apply Hc].
Qed.
