(* ===== verification/Common.v ===== *)
(** * The event layout shared with the kernel ([repx-common/src/lib.rs])

    Event kinds, the [repr(C)] layout of the events in the ring buffer and the
    keys of the tracepoint offset table.  A struct is described by the list of
    its fields; [offset_of] and [size_of] follow the rules of [repr(C)], and the
    decoders read little-endian fields at those offsets (both sides of the
    ring buffer run on one little-endian machine). *)
From S2P Require Export Prelude.

Definition MAX_PATH_LEN : nat := 256.
Definition MAX_WATCH_PREFIXES : nat := 8.
Definition MAX_PREFIX_LEN : nat := 128.

(** ** Event kinds *)

Inductive EventKind :=
  | KindFileOpen
  | KindFileClose
  | KindProcessExec
  | KindProcessExit
  | KindFileMmap
  | KindFileRenameSource
  | KindFileRenameDestination
  | KindFileUnlink
  | KindProcessFork.

#[export] Instance EventKind_eq_dec : EqDecision EventKind.
Proof. solve_decision. Defined.

(** The discriminants: [kind as u32]. *)
Definition kind_repr (k : EventKind) : Z :=
  match k with
  | KindFileOpen => 1
  | KindFileClose => 2
  | KindProcessExec => 3
  | KindProcessExit => 4
  | KindFileMmap => 5
  | KindFileRenameSource => 6
  | KindFileRenameDestination => 7
  | KindFileUnlink => 8
  | KindProcessFork => 9
  end.

(** [EventKind::try_from]. *)
Definition kind_try_from (value : Z) : option EventKind :=
  match value with
  | 1 => Some KindFileOpen
  | 2 => Some KindFileClose
  | 3 => Some KindProcessExec
  | 4 => Some KindProcessExit
  | 5 => Some KindFileMmap
  | 6 => Some KindFileRenameSource
  | 7 => Some KindFileRenameDestination
  | 8 => Some KindFileUnlink
  | 9 => Some KindProcessFork
  | _ => None
  end%Z.

(** ** Layout of [repr(C)] structs *)

(** The field types of the events. *)
Inductive field_type :=
  | U8
  | U32
  | I32
  | U64
  | Bytes (n : nat).

Definition field_size (t : field_type) : nat :=
  match t with U8 => 1 | U32 | I32 => 4 | U64 => 8 | Bytes n => n end.
Definition field_align (t : field_type) : nat :=
  match t with U8 | Bytes _ => 1 | U32 | I32 => 4 | U64 => 8 end.

(** The next multiple of [a] from [n] on. *)
Definition align_up (n a : nat) : nat := (n + a - 1) / a * a.

Fixpoint offsets_from (n : nat) (fields : list field_type) : list nat * nat :=
  match fields with
  | [] => ([], n)
  | t :: fields =>
      let o := align_up n (field_align t) in
      let '(os, last) := offsets_from (o + field_size t) fields in (o :: os, last)
  end.

Definition struct_align (fields : list field_type) : nat := foldr (λ t, max (field_align t)) 1 fields.
Definition offset_of (fields : list field_type) (i : nat) : nat :=
  nth i (offsets_from 0 fields).1 0.
Definition size_of (fields : list field_type) : nat :=
  align_up (offsets_from 0 fields).2 (struct_align fields).

Definition file_open_fields : list field_type :=
  [U32; U32; I32; I32; U32; Bytes MAX_PATH_LEN; U32].
Definition file_close_fields : list field_type := [U32; U32; I32].
Definition process_exec_fields : list field_type := [U32; U32; Bytes MAX_PATH_LEN; U32].
Definition process_exit_fields : list field_type := [U32; U32; I32].
Definition process_fork_fields : list field_type := [U32; U32].
Definition file_mmap_fields : list field_type := [U32; U32; I32; U32; U32].
Definition file_path_fields : list field_type :=
  [U32; U32; I32; U32; U64; Bytes MAX_PATH_LEN; U32].

(** The union [EventPayload]: its largest member, at its strictest alignment. *)
Definition payload_structs : list (list field_type) :=
  [file_open_fields; file_close_fields; file_mmap_fields; file_path_fields;
   process_exec_fields; process_exit_fields; process_fork_fields;
   [Bytes (size_of file_open_fields)]].
Definition payload_align : nat := foldr (λ fs, max (struct_align fs)) 1 payload_structs.
Definition payload_size : nat :=
  align_up (foldr (λ fs, max (size_of fs)) 0 payload_structs) payload_align.

(** [Event] before its payload: kind, source, padding, timestamp. *)
Definition event_header : list field_type := [U32; U8; Bytes 3; U64].
Definition payload_offset : nat := align_up (offsets_from 0 event_header).2 payload_align.
Definition event_size : nat :=
  align_up (payload_offset + payload_size) (max payload_align (struct_align event_header)).

(** ** Reading and writing fields *)

(** The [n] low bytes of [v], least significant first. *)
Fixpoint le_bytes (n : nat) (v : Z) : string :=
  match n with
  | 0 => ""
  | S n => String (ascii_of_N (Z.to_N (v `mod` 256))) (le_bytes n (v / 256))
  end.

Fixpoint le_value (s : string) : Z :=
  match s with
  | "" => 0
  | String c s => (Z.of_N (byte_val c) + 256 * le_value s)%Z
  end.

Definition bytes_at (o n : nat) (s : string) : string := str_take n (str_drop o s).

Definition read_u32 (o : nat) (s : string) : Z := le_value (bytes_at o 4 s).
Definition read_u64 (o : nat) (s : string) : Z := le_value (bytes_at o 8 s).
(** Two's complement. *)
Definition read_i32 (o : nat) (s : string) : Z :=
  let v := read_u32 o s in if (v <? 2147483648)%Z then v else (v - 4294967296)%Z.

Record FileOpenEvent := mkFileOpen {
  fo_pid : Z; fo_tgid : Z; fo_fd : Z; fo_dfd : Z; fo_flags : Z; fo_path : string; fo_path_len : Z
}.
Record FileCloseEvent := mkFileClose { fc_pid : Z; fc_tgid : Z; fc_fd : Z }.
Record ProcessExecEvent := mkProcessExec {
  pe_pid : Z; pe_tgid : Z; pe_filename : string; pe_filename_len : Z
}.
Record ProcessExitEvent := mkProcessExit { px_pid : Z; px_tgid : Z; px_exit_code : Z }.
Record ProcessForkEvent := mkProcessFork { pf_parent_pid : Z; pf_child_pid : Z }.
Record FileMmapEvent := mkFileMmap {
  fm_pid : Z; fm_tgid : Z; fm_fd : Z; fm_prot : Z; fm_flags : Z
}.
Record FilePathEvent := mkFilePath {
  fp_pid : Z; fp_tgid : Z; fp_dfd : Z; fp_flags : Z; fp_operation_id : Z; fp_path : string;
  fp_path_len : Z
}.

(** [&event.payload.file_open] and the other members of the union, read from
    the payload's bytes. *)
Definition payload_file_open (s : string) : FileOpenEvent :=
  let o := offset_of file_open_fields in
  mkFileOpen (read_u32 (o 0) s) (read_u32 (o 1) s) (read_i32 (o 2) s) (read_i32 (o 3) s)
    (read_u32 (o 4) s) (bytes_at (o 5) MAX_PATH_LEN s) (read_u32 (o 6) s).
Definition payload_file_close (s : string) : FileCloseEvent :=
  let o := offset_of file_close_fields in
  mkFileClose (read_u32 (o 0) s) (read_u32 (o 1) s) (read_i32 (o 2) s).
Definition payload_process_exec (s : string) : ProcessExecEvent :=
  let o := offset_of process_exec_fields in
  mkProcessExec (read_u32 (o 0) s) (read_u32 (o 1) s) (bytes_at (o 2) MAX_PATH_LEN s)
    (read_u32 (o 3) s).
Definition payload_process_exit (s : string) : ProcessExitEvent :=
  let o := offset_of process_exit_fields in
  mkProcessExit (read_u32 (o 0) s) (read_u32 (o 1) s) (read_i32 (o 2) s).
Definition payload_process_fork (s : string) : ProcessForkEvent :=
  let o := offset_of process_fork_fields in
  mkProcessFork (read_u32 (o 0) s) (read_u32 (o 1) s).
Definition payload_file_mmap (s : string) : FileMmapEvent :=
  let o := offset_of file_mmap_fields in
  mkFileMmap (read_u32 (o 0) s) (read_u32 (o 1) s) (read_i32 (o 2) s) (read_u32 (o 3) s)
    (read_u32 (o 4) s).
Definition payload_file_path (s : string) : FilePathEvent :=
  let o := offset_of file_path_fields in
  mkFilePath (read_u32 (o 0) s) (read_u32 (o 1) s) (read_i32 (o 2) s) (read_u32 (o 3) s)
    (read_u64 (o 4) s) (bytes_at (o 5) MAX_PATH_LEN s) (read_u32 (o 6) s).

Record Event := mkEvent {
  ev_kind : Z; ev_source : Z; ev_timestamp_ns : Z; ev_payload : string
}.

(** [(data.as_ptr() as *const Event).read_unaligned()]. *)
Definition read_event (data : string) : Event :=
  let o := offset_of event_header in
  mkEvent (read_u32 (o 0) data) (le_value (bytes_at (o 1) 1 data)) (read_u64 (o 3) data)
    (bytes_at payload_offset payload_size data).

(** ** Watched prefixes: an array of [MAX_PREFIX_LEN] bytes and a length *)

Record WatchedPrefix := mkPrefix { wp_prefix : string; wp_len : Z }.

Fixpoint zero_bytes (n : nat) : string :=
  match n with 0 => "" | S n => String "000" (zero_bytes n) end.

Lemma zero_bytes_length n : String.length (zero_bytes n) = n.
Proof. induction n as [|n IH]; simpl; congruence. Qed.

(** ** Keys of the tracepoint offset table ([tp_offsets]) *)

Definition OPENAT_ENTER_DFD : Z := 0.
Definition OPENAT_ENTER_FILENAME : Z := 1.
Definition OPENAT_ENTER_FLAGS : Z := 2.
Definition OPENAT_EXIT_RET : Z := 3.
Definition RENAME_ENTER_OLD_PATH : Z := 4.
Definition RENAME_ENTER_NEW_PATH : Z := 5.
Definition RENAMEAT_ENTER_OLD_DFD : Z := 6.
Definition RENAMEAT_ENTER_OLD_PATH : Z := 7.
Definition RENAMEAT_ENTER_NEW_DFD : Z := 8.
Definition RENAMEAT_ENTER_NEW_PATH : Z := 9.
Definition RENAMEAT2_ENTER_FLAGS : Z := 10.
Definition UNLINK_ENTER_PATH : Z := 11.
Definition UNLINKAT_ENTER_DFD : Z := 12.
Definition UNLINKAT_ENTER_PATH : Z := 13.
Definition UNLINKAT_ENTER_FLAGS : Z := 14.
Definition CLOSE_ENTER_FD : Z := 15.
Definition MMAP_ENTER_PROT : Z := 16.
Definition MMAP_ENTER_FLAGS : Z := 17.
Definition MMAP_ENTER_FD : Z := 18.
Definition EXEC_DATA_LOC_FILENAME : Z := 19.
Definition FORK_CHILD_PID : Z := 20.
Definition CLONE_EXIT_RET : Z := 21.
Definition CLONE3_EXIT_RET : Z := 22.
Definition RENAME_EXIT_RET : Z := 23.
Definition RENAMEAT_EXIT_RET : Z := 24.
Definition RENAMEAT2_EXIT_RET : Z := 25.
Definition UNLINK_EXIT_RET : Z := 26.
Definition UNLINKAT_EXIT_RET : Z := 27.
Definition MAX_OFFSET_KEY : Z := 28.

(** ** The layout the other side relies on *)

(** [drain_ring_into_buffer] reads the timestamp from bytes 8 to 16; a record
    stays within the 320 bytes the ring buffer was sized for. *)
Example event_layout :
  offset_of event_header 3 = 8 ∧ payload_offset = 16 ∧ event_size = 304 ∧
  Forall (λ fields, payload_offset + size_of fields ≤ event_size) payload_structs.
Proof. split_and!; [reflexivity..|]. apply (bool_decide_unpack _). by vm_compute. Qed.

(** The discriminants and [try_from] agree. *)
Lemma kind_try_from_repr v k : kind_try_from v = Some k ↔ v = kind_repr k.
Proof.
  split; [|intros ->; by destruct k]. intros Hk. unfold kind_try_from in Hk.
  repeat case_match; simplify_eq; done.
Qed.
