(* ===== verification/Events.v ===== *)
(** * Process identities and traced events

    The types of [repx/src/tracer.rs] that every consumer of a trace shares:
    process lifetimes, executable images within a lifetime, and the events the
    tracer emits; with [FileObservation] of [repx/src/file_identity.rs]. *)
From S2P Require Export Prelude.

(** One kernel process lifetime; [generation] tells reused PIDs apart. *)
Record ProcessLifetime := mkLifetime {
  pid : Z;
  generation : Z
}.

(** One executable image within a lifetime. *)
Record ProcessInstance := mkInstance {
  lifetime : ProcessLifetime;
  exec_epoch : Z
}.

#[export] Instance ProcessLifetime_eq_dec : EqDecision ProcessLifetime.
Proof. solve_decision. Defined.
#[export] Instance ProcessInstance_eq_dec : EqDecision ProcessInstance.
Proof. solve_decision. Defined.

#[export] Instance ProcessLifetime_countable : Countable ProcessLifetime.
Proof.
  apply (inj_countable' (λ l, (pid l, generation l)) (λ x, mkLifetime x.1 x.2)).
  by intros [].
Defined.
#[export] Instance ProcessInstance_countable : Countable ProcessInstance.
Proof.
  apply (inj_countable' (λ p, (lifetime p, exec_epoch p)) (λ x, mkInstance x.1 x.2)).
  by intros [].
Defined.

(** [#[derive(PartialOrd, Ord)]]: lexicographic in declaration order. *)
Definition instance_le (p q : ProcessInstance) : Prop :=
  (pid (lifetime p) < pid (lifetime q) ∨
   (pid (lifetime p) = pid (lifetime q) ∧
    (generation (lifetime p) < generation (lifetime q) ∨
     (generation (lifetime p) = generation (lifetime q) ∧
      exec_epoch p ≤ exec_epoch q))))%Z.

#[export] Instance instance_le_dec : RelDecision instance_le.
Proof. intros p q. unfold instance_le. apply _. Defined.

#[export] Instance instance_le_total : Total instance_le.
Proof. intros p q. unfold instance_le. lia. Qed.

#[export] Instance instance_le_po : PartialOrder instance_le.
Proof.
  split; [split|].
  - intros p. unfold instance_le. lia.
  - intros p q r. unfold instance_le. lia.
  - intros [[a b] c] [[d e] f]. unfold instance_le. simpl. intros.
    assert (a = d ∧ b = e ∧ c = f)%Z as (-> & -> & ->) by lia. done.
Qed.

(** ** File observations *)

(** The payload of the last three is a hash of the normalised path. *)
Inductive FileObservation :=
  | Content (hash : string)
  | Missing (path_hash : string)
  | Unreadable (path_hash : string)
  | NonRegular (path_hash : string).

#[export] Instance FileObservation_eq_dec : EqDecision FileObservation.
Proof. solve_decision. Defined.

(** [FileObservation::identity]. *)
Definition identity (o : FileObservation) : string :=
  match o with
  | Content hash => hash
  | Missing path_hash => "missing:" +:+ path_hash
  | Unreadable path_hash => "unreadable:" +:+ path_hash
  | NonRegular path_hash => "non-regular:" +:+ path_hash
  end.

(** [FileObservation::content_hash]. *)
Definition content_hash (o : FileObservation) : option string :=
  match o with
  | Content hash => Some hash
  | _ => None
  end.

(** ** Traced events *)

Inductive TracedEvent :=
  | Exec (process : ProcessInstance) (observation : FileObservation)
  | Fork (parent child : ProcessInstance)
  | FileOpen (process : ProcessInstance) (path : string) (flags : Z) (fd : Z)
      (external : bool) (observation : FileObservation)
  | FileClose (process : ProcessInstance) (fd : Z) (path : option string)
      (external : bool) (observation : option FileObservation)
  | FileMmap (process : ProcessInstance) (fd : Z) (prot flags : Z)
      (path : option string) (external : bool) (observation : option FileObservation)
  | FileRename (process : ProcessInstance) (from_path to_path : string) (flags : Z)
      (external : bool) (observation : FileObservation)
  | FileUnlink (process : ProcessInstance) (path : string) (flags : Z)
      (external : bool) (observation : FileObservation)
  | Exit (process : ProcessInstance) (exit_code : Z).

(** ** Access modes

    Linux [O_ACCMODE]: 0 is read-only, 1 write-only, 2 read-write. *)
Definition access_mode (flags : Z) : Z := Z.land flags 3.
Definition can_read (flags : Z) : bool := negb (access_mode flags =?= 1%Z).
Definition can_write (flags : Z) : bool := negb (access_mode flags =?= 0%Z).

(** A mapping writes back when it is writable and [MAP_SHARED]. *)
Definition mmap_is_write (prot flags : Z) : bool :=
  negb (Z.land prot 2 =?= 0%Z) && negb (Z.land flags 1 =?= 0%Z).

(** ** Rewriting a path along a rename

    [rewrite_path_prefix] of [slice.rs] and of [tracer.rs] (the same function,
    written twice). *)
Definition rewrite_path_prefix (path from_path to_path : string) : option string :=
  if path =?= from_path then Some to_path
  else suffix ← strip_prefix from_path path;
       if starts_with "/" suffix then Some (to_path +:+ suffix) else None.

(** The rewritten path is the old one with the directory prefix replaced, and
    only at a component boundary. *)
Lemma rewrite_path_prefix_Some path from to q :
  rewrite_path_prefix path from to = Some q ↔
  (path = from ∧ q = to) ∨
  (∃ rest, path = from +:+ String "/" rest ∧ q = to +:+ String "/" rest).
Proof.
  assert (Hself : ∀ rest, from ≠ from +:+ String "/" rest).
  { intros rest Heq%(f_equal String.length). rewrite str_length_app in Heq. simpl in Heq. lia. }
  unfold rewrite_path_prefix. case_bool_decide as Hp.
  - subst. split; [intros [= <-]; by left|].
    intros [[_ ->]|(rest & Heq & _)]; [done|]. by apply Hself in Heq.
  - destruct (strip_prefix from path) as [suffix|] eqn:Hs; cbn [mbind option_bind].
    + apply strip_prefix_Some in Hs as ->. destruct (starts_with "/" suffix) eqn:Hb.
      * apply starts_with_spec in Hb as [rest ->]. split.
        { intros [= <-]. right. by exists rest. }
        intros [[Heq _]|(rest' & Heq & ->)]; [done|].
        by apply (inj (String.append from)) in Heq as ->.
      * split; [done|]. intros [[Heq _]|(rest & Heq & ->)]; [done|].
        apply (inj (String.append from)) in Heq. by subst suffix.
    + split; [done|]. intros [[Heq _]|(rest & -> & _)]; [done|].
      assert (strip_prefix from (from +:+ String "/" rest) = Some (String "/" rest)) as Heq
        by by apply strip_prefix_Some. congruence.
Qed.

(** ** Descriptors inherited across a fork

    Three components keep a table keyed by lifetime and descriptor and, on a
    fork, collect the entries of the parent and insert them under the child. *)

(** The (descriptor, entry) pairs of the parent. *)
Definition inherited {A} (parent : ProcessLifetime)
    (pending : gmap (ProcessLifetime * Z) A) : list (Z * A) :=
  omap (λ '((l, fd), x), if l =?= parent then Some (fd, x) else None)
    (map_to_list pending).

Definition inherit_pending {A} (parent child : ProcessLifetime)
    (pending : gmap (ProcessLifetime * Z) A) : gmap (ProcessLifetime * Z) A :=
  foldl (λ m '(fd, x), <[(child, fd) := x]> m) pending (inherited parent pending).


Lemma elem_of_inherited {A} (parent : ProcessLifetime)
    (pending : gmap (ProcessLifetime * Z) A) (fd : Z) (x : A) :
  (fd, x) ∈ inherited parent pending ↔ pending !! (parent, fd) = Some x.
Proof.
  unfold inherited. rewrite list_elem_of_omap. split.
  - intros ([[l fd'] x'] & Hin & Hsome). apply elem_of_map_to_list in Hin.
    case_bool_decide; by simplify_eq.
  - intros Hx. exists ((parent, fd), x). rewrite elem_of_map_to_list.
    by rewrite bool_decide_true.
Qed.

Lemma foldl_insert_lookup_ne {A} (child l : ProcessLifetime) (fd : Z) (es : list (Z * A))
    (m : gmap (ProcessLifetime * Z) A) :
  l ≠ child ∨ (∀ x, (fd, x) ∉ es) →
  foldl (λ m '(fd, x), <[(child, fd) := x]> m) m es !! (l, fd)
  = m !! (l, fd).
Proof.
  revert m. induction es as [|[fd' x'] es IH]; intros m Hne; simpl; [done|].
  rewrite IH by (destruct Hne; [by left|right; set_solver]).
  apply lookup_insert_ne. intros [= -> ->]. destruct Hne as [|Hne]; [done|].
  apply (Hne x'). set_solver.
Qed.

Lemma foldl_insert_lookup {A} (child : ProcessLifetime) (fd : Z) (x : A)
    (es : list (Z * A)) (m : gmap (ProcessLifetime * Z) A) :
  (fd, x) ∈ es → (∀ y, (fd, y) ∈ es → y = x) →
  foldl (λ m '(fd, x), <[(child, fd) := x]> m) m es !! (child, fd) = Some x.
Proof.
  revert m. induction es as [|[fd' x'] es IH]; intros m Hin Huniq; simpl; [set_solver|].
  destruct (decide (fd ∈ es.*1)) as [Hes|Hes].
  - apply list_elem_of_fmap in Hes as ([fd0 y] & -> & Hy). simpl in *.
    assert (y = x) as -> by set_solver. apply IH; set_solver.
  - assert (Hnot : ∀ y, (fd, y) ∉ es).
    { intros y Hy. apply Hes, list_elem_of_fmap. by exists (fd, y). }
    assert ((fd', x') = (fd, x)) as [= -> ->] by set_solver.
    rewrite foldl_insert_lookup_ne by (by right). by rewrite lookup_insert_eq.
Qed.

(** A child's table holds the parent's entries over whatever was recorded under
    its own lifetime; the order in which the entries are visited is immaterial. *)
Lemma lookup_inherit_pending {A} (parent child : ProcessLifetime)
    (m : gmap (ProcessLifetime * Z) A) (l : ProcessLifetime) (fd : Z) :
  inherit_pending parent child m !! (l, fd) =
  if decide (l = child) then
    match m !! (parent, fd) with Some x => Some x | None => m !! (child, fd) end
  else m !! (l, fd).
Proof.
  unfold inherit_pending. destruct (decide (l = child)) as [->|Hne].
  - destruct (m !! (parent, fd)) as [x|] eqn:Hx.
    + apply foldl_insert_lookup; [by apply elem_of_inherited|].
      intros y Hy%elem_of_inherited. congruence.
    + apply foldl_insert_lookup_ne. right. intros x Hin%elem_of_inherited. congruence.
  - apply foldl_insert_lookup_ne. by left.
Qed.
