(* ===== verification/FileIdentity.v ===== *)
(** * File identities ([repx/src/file_identity.rs])

    Classification of paths (system state, watched prefixes), normalisation of
    the paths and of the two Go control-file formats whose contents vary from
    run to run, and the observation of a file.  The file system is the class
    [FileSystem]: a snapshot of what [fs::metadata], [open] and the reads of
    one call return. *)
From S2P Require Export Digest Paths Events.

Definition SYSTEM_STATE_SENTINEL : string :=
  "SYSTEM_STATE:0000000000000000000000000000000000000000000000000000000000000000".
Definition EMPTY_CONTENT_HASH : string :=
  "sha256:e3b0c44298fc1c149afbf4c8996fb92427ae41e4649b934ca495991b7852b855".

Definition SYSTEM_STATE_DIRS : list string := ["/proc"; "/sys"].
Definition SYSTEM_STATE_FILES : list string :=
  ["/etc/hostname"; "/etc/os-release"; "/etc/machine-id"; "/dev/urandom";
   "/dev/random"; "/dev/null"; "/dev/zero"].

Definition MAX_NORMALIZED_CONTROL_FILE_SIZE : Z := 16 * 1024 * 1024.
Definition GO_CACHE_ENTRY_SIZE : Z := 175.

(** ** Path classification *)

Definition is_go_telemetry_path (path : string) : bool :=
  str_contains "/go/telemetry/" path.

Definition is_system_state (path : string) : bool :=
  existsb (λ prefix, (path =?= prefix) || starts_with (prefix +:+ "/") path)
    SYSTEM_STATE_DIRS
  || existsb (λ f, path =?= f) SYSTEM_STATE_FILES
  || is_go_telemetry_path path.

Definition is_path_within (path prefix : string) : bool :=
  let prefix := trim_end_char "/" prefix in
  (prefix =?= "") || (path =?= prefix) || starts_with (prefix +:+ "/") path.

(** ** Normalisation of unavailable paths *)

Definition is_session_temp_component (component : string) : bool :=
  match strip_prefix "tmp." component with
  | Some suffix =>
      (6 <=? String.length suffix)%nat && str_all is_ascii_alphanumeric suffix
  | None => false
  end.

Definition is_go_work_dir_component (component : string) : bool :=
  match strip_prefix "go-build" component with
  | Some suffix => negb (suffix =?= "") && str_all is_ascii_digit suffix
  | None => false
  end.

Definition normalize_compiler_temp_component (component : string) : string :=
  let '(stem, extension) :=
    match str_split_once "." component with
    | Some (stem, extension) => (stem, Some extension)
    | None => (component, None)
    end in
  let generated :=
    (starts_with "cc" stem && (8 <=? String.length stem)%nat)
    || (starts_with "rustc" stem && (10 <=? String.length stem)%nat) in
  if generated && str_all is_ascii_alphanumeric stem then
    match extension with
    | None => "<compiler-temp>"
    | Some extension => "<compiler-temp>." +:+ extension
    end
  else component.

Definition normalize_unavailable_component (under_temp : bool) (value : string) : string :=
  if under_temp && is_session_temp_component value then "<session>"
  else if under_temp && is_go_work_dir_component value then "<go-work>"
  else if under_temp then normalize_compiler_temp_component value
  else value.

Definition normalize_unavailable_path (path : string) : string :=
  if starts_with "/dev/pts/" path && str_all is_ascii_digit (str_drop 9 path)
  then "/dev/pts/<session>"
  else
    let under_temp := starts_with "/tmp/" path || starts_with "/var/tmp/" path in
    foldl (λ normalized c,
        path_push normalized
          (normalize_unavailable_component under_temp (component_str c)))
      "" (components path).

Section hash_path.
Context `{Sha256}.

Definition hash_path (path : string) : string :=
  digest ("repx-path-v1" +:+ String "000" (normalize_unavailable_path path)).
End hash_path.

(** ** Go [importcfg] files *)

Definition is_go_import_config_path (path : string) : bool :=
  let is_import_config :=
    match path_file_name path with
    | Some name => (name =?= "importcfg") || (name =?= "importcfg.link")
    | None => false
    end in
  is_import_config
  && existsb (λ c, is_go_work_dir_component (component_str c)) (components path).

Definition normalize_go_work_path (path : string) : option string :=
  let marker := "/go-build" in
  start ← str_rfind marker path;
  let suffix := str_drop (start + String.length marker) path in
  let digit_count := count_while is_ascii_digit suffix in
  if (digit_count =?= 0) || negb (str_take 1 (str_drop digit_count suffix) =?= "/")
  then None
  else Some ("$WORK" +:+ str_drop digit_count suffix).

(** One iteration of the loop over lines: [None] is the early [return None];
    [Some (text, changed)] is the text pushed for the line. *)
Definition normalize_go_import_line (line_with_ending : string) : option (string * bool) :=
  let '(line, ending) :=
    match strip_suffix (String "010" "") line_with_ending with
    | Some line => (line, String "010" "")
    | None => (line_with_ending, "")
    end in
  match match strip_prefix "packagefile " line with
        | Some rest => Some rest
        | None => strip_prefix "packageshlib " line
        end with
  | Some rest =>
      equals ← str_find "=" rest;
      let value_offset := String.length line - String.length rest + equals + 1 in
      let value := str_drop value_offset line in
      match normalize_go_work_path value with
      | Some work_relative =>
          Some (str_take value_offset line +:+ work_relative +:+ ending, true)
      | None => Some (line +:+ ending, false)
      end
  | None =>
      if negb ((line =?= "") || (line =?= "# import config")
               || starts_with "importmap " line || starts_with "modinfo " line)
      then None
      else Some (line +:+ ending, false)
  end.

Fixpoint normalize_go_import_lines (lines : list string) (normalized : string)
    (changed : bool) : option (string * bool) :=
  match lines with
  | [] => Some (normalized, changed)
  | line :: lines =>
      '(text, replaced) ← normalize_go_import_line line;
      normalize_go_import_lines lines (normalized +:+ text) (changed || replaced)
  end.

Definition normalize_go_import_config (contents : string) : option string :=
  if utf8_valid contents then
    '(normalized, changed) ←
      normalize_go_import_lines (str_split_inclusive "010" contents) "" false;
    if changed : bool then Some normalized else None
  else None.

(** ** Go action-cache entries *)

Definition is_go_cache_entry_path (path : string) : bool :=
  match name ← path_file_name path; strip_suffix "-a" name with
  | None => false
  | Some hash =>
      (String.length hash =?= 64%nat) && str_all is_lower_hex hash
      && match path_parent path with
         | Some parent =>
             match last parent with
             | Some (Normal name) => name =?= str_take 2 hash
             | _ => false
             end
         | None => false
         end
  end.

Definition is_padded_decimal (field : string) : bool :=
  let digits := trim_start_char " " field in
  negb (digits =?= "") && str_all is_ascii_digit digits.

(** [format!("{:>20}", 0)]. *)
Definition padded_zero : string := "                   0".

(** [str::split_at] panics unless its index is a character boundary, so the
    function may panic before the checks on the fields are made. *)
Definition normalize_go_cache_entry (contents : string) : partial (option string) :=
  if negb (utf8_valid contents) then Returns None
  else
    match rest ← strip_prefix "v1 " contents; strip_suffix (String "010" "") rest with
    | None => Returns None
    | Some rest =>
        if negb (String.length rest =?= (64 + 1 + 64 + 1 + 20 + 1 + 20)%nat)
        then Returns None
        else
          '(action_id, rest) ← str_split_at 64 rest;
          match strip_prefix " " rest with
          | None => Returns None
          | Some rest =>
              '(output_id, rest) ← str_split_at 64 rest;
              match strip_prefix " " rest with
              | None => Returns None
              | Some rest =>
                  '(size, rest) ← str_split_at 20 rest;
                  match strip_prefix " " rest with
                  | None => Returns None
                  | Some timestamp =>
                      if str_all is_lower_hex action_id && str_all is_lower_hex output_id
                         && is_padded_decimal size && is_padded_decimal timestamp
                      then Returns (Some ("v1 " +:+ action_id +:+ " " +:+ output_id +:+ " "
                                      +:+ size +:+ " " +:+ padded_zero +:+ String "010" ""))
                      else Returns None
                  end
              end
          end
    end.

(** ** Observing a file *)

Inductive ErrorKind := NotFound | OtherError.

Inductive io_result (A : Type) :=
  | IoOk (a : A)
  | IoErr (kind : ErrorKind).
Arguments IoOk {A} a.
Arguments IoErr {A} kind.

Record Metadata := { is_file : bool; file_len : Z }.

(** What an open file answers during one call: [metadata()], whether
    [seek(Start(0))] succeeds, and its contents ([None]: a read fails). *)
Record File := {
  file_metadata : io_result Metadata;
  file_seek : bool;
  file_contents : option string
}.

Class FileSystem := {
  fs_metadata : string → io_result Metadata;
  fs_open : string → io_result File
}.

(** [Ok(None)]: the path is not a regular file. *)
Definition open_regular `{FileSystem} (path : string) : io_result (option File) :=
  match fs_metadata path with
  | IoErr k => IoErr k
  | IoOk md =>
      if is_file md then
        match fs_open path with
        | IoOk file => IoOk (Some file)
        | IoErr k => IoErr k
        end
      else IoOk None
  end.

Section observe.
Context `{Sha256}.

(** The last part of [observe_file]: the plain contents are hashed. *)
Definition observe_contents (file : File) (path_hash : string) : FileObservation :=
  match file_contents file with
  | Some contents => Content (digest contents)
  | None => Unreadable path_hash
  end.

Definition observe_file (file : File) (path : string) : partial FileObservation :=
  let path_hash := hash_path path in
  match file_metadata file with
  | IoErr NotFound => Returns (Missing path_hash)
  | IoErr OtherError => Returns (Unreadable path_hash)
  | IoOk md =>
      if negb (is_file md) then Returns (NonRegular path_hash)
      else if negb (file_seek file) then Returns (Unreadable path_hash)
      else
        import_config ←
          (if (file_len md <=? MAX_NORMALIZED_CONTROL_FILE_SIZE)%Z
              && is_go_import_config_path path
           then match file_contents file with
                | None => Returns (Some (Unreadable path_hash))
                | Some contents =>
                    match normalize_go_import_config contents with
                    | Some normalized =>
                        Returns (Some (Content (digest
                          ("repx-go-importcfg-v1" +:+ String "000" normalized))))
                    | None => Returns None
                    end
                end
           else Returns None);
        match import_config with
        | Some observation => Returns observation
        | None =>
            cache_entry ←
              (if (file_len md =?= GO_CACHE_ENTRY_SIZE) && is_go_cache_entry_path path
               then match file_contents file with
                    | None => Returns (Some (Unreadable path_hash))
                    | Some contents =>
                        normalized ← normalize_go_cache_entry contents;
                        match normalized with
                        | Some normalized =>
                            Returns (Some (Content (digest
                              ("repx-go-cache-entry-v1" +:+ String "000" normalized))))
                        | None => Returns None
                        end
                    end
               else Returns None);
            match cache_entry with
            | Some observation => Returns observation
            | None => Returns (observe_contents file path_hash)
            end
        end
  end.

Definition observe_path `{FileSystem} (path : string) : partial FileObservation :=
  let path_hash := hash_path path in
  match open_regular path with
  | IoOk (Some file) => observe_file file path
  | IoOk None => Returns (NonRegular path_hash)
  | IoErr NotFound => Returns (Missing path_hash)
  | IoErr OtherError => Returns (Unreadable path_hash)
  end.

Definition hash_file_contents `{FileSystem} (path : string) : partial (option string) :=
  observation ← observe_path path; Returns (content_hash observation).
End observe.
