(* ===== verification/FileIdentityFacts.v ===== *)
(** * What the file-identity normalisations guarantee

    Prefix tests respect component boundaries; the two Go control-file formats
    lose exactly what varies from run to run; and the one panic of the module. *)
From S2P Require Export FileIdentity.

(** ** Watched prefixes *)

Lemma trim_end_char_split c s :
  ∃ t, s = trim_end_char c s +:+ t ∧ str_all (λ d, d =?= c) t = true.
Proof.
  induction s as [|d s (t & Ht & Hc)]; [by exists ""|]. simpl.
  destruct (trim_end_char c s) as [|e u] eqn:He.
  - change (s = t) in Ht. subst t. case_bool_decide as Hd; [|by exists s].
    exists (String d s). split; [done|]. simpl. by rewrite bool_decide_true.
  - exists t. split; [|done]. by rewrite Ht at 1.
Qed.

(** Trimming stops at the last byte that differs from [c]. *)
Lemma trim_end_char_last c s t : trim_end_char c s ≠ t +:+ String c "".
Proof.
  revert t. induction s as [|d s IH]; intros t; simpl; [by destruct t|].
  destruct (trim_end_char c s) as [|e u] eqn:He.
  - case_bool_decide as Hd; [by destruct t|].
    destruct t as [|x t]; [by intros [= ->]|by destruct t].
  - destruct t as [|x t]; [done|]. rewrite str_app_cons. intros [= _ Heq]. by apply (IH t).
Qed.

(** [base] itself and what continues it after a separator. *)
Definition subtree (base path : string) : Prop :=
  base = "" ∨ path = base ∨ ∃ rest, path = base +:+ "/" +:+ rest.

(** [is_path_within] is the subtree test: [prefix] is some [base] that does
      not end in a separator, followed by separators, and the paths within it are
      [base] itself and the paths that continue it after a separator (every path
      when [base] is empty). In particular what lies below a watched path is
      watched, and a sibling whose name merely extends the base is not. *)
Theorem is_path_within_subtree prefix :
  ∃ base slashes, prefix = base +:+ slashes ∧ str_all (λ d, d =?= "/"%char) slashes = true ∧
    (∀ t, base ≠ t +:+ "/") ∧
    (∀ path, is_path_within path prefix = true ↔
       subtree base path) ∧
    (∀ path rest, is_path_within path prefix = true →
       is_path_within (path +:+ "/" +:+ rest) prefix = true) ∧
    (∀ c rest, base ≠ "" → c ≠ "/"%char →
       is_path_within (base +:+ String c rest) prefix = false).
Proof.
  destruct (trim_end_char_split "/" prefix) as (slashes & Heq & Hsl).
  set (base := trim_end_char "/" prefix) in *.
  unfold subtree. assert (Hiff : ∀ path, is_path_within path prefix = true ↔
       base = "" ∨ path = base ∨ ∃ rest, path = base +:+ "/" +:+ rest).
  { intros path. unfold is_path_within. fold base.
    rewrite !orb_true_iff, !bool_decide_eq_true, starts_with_spec.
    setoid_rewrite str_app_assoc. tauto. }
  exists base, slashes. do 2 (split; [done|]). split; [apply trim_end_char_last|].
  split; [done|]. split.
  - intros path rest. rewrite !Hiff. intros [?|[->|[r ->]]]; [by left|eauto|].
    right. right. exists (r +:+ "/" +:+ rest). by rewrite !str_app_assoc.
  - intros c rest Hb Hc. apply not_true_is_false. rewrite Hiff.
    intros [?|[Hp|[r Hr]]]; [done| |].
    + apply (f_equal String.length) in Hp. rewrite str_length_app in Hp. simpl in Hp. lia.
    + apply (inj (String.append base)) in Hr. by injection Hr.
Qed.

(** ** Go work directories *)

Definition go_marker : string := "/go-build".

Lemma str_rfind_app p s t n :
  str_rfind p t = Some n → str_rfind p (s +:+ t) = Some (String.length s + n).
Proof.
  intros Hn. induction s as [|c s IH]; [done|]. rewrite str_app_cons. simpl. by rewrite IH.
Qed.

Lemma str_rfind_skip_none s t :
  str_all (λ c, negb (c =?= "/"%char)) s = true →
  str_rfind go_marker t = None → str_rfind go_marker (s +:+ t) = None.
Proof.
  intros Hs Ht. induction s as [|c s IH]; [done|]. rewrite str_app_cons.
  simpl in Hs. repx_bool. simpl. rewrite IH by done.
  by rewrite bool_decide_false by congruence.
Qed.

Lemma str_all_impl (f g : ascii → bool) s :
  (∀ c, f c = true → g c = true) → str_all f s = true → str_all g s = true.
Proof.
  intros Hfg. induction s as [|c s IH]; [done|]. simpl. intros. repx_bool.
  by rewrite (Hfg c), IH.
Qed.

Lemma digit_not c d : is_ascii_digit d = false → is_ascii_digit c = true → negb (c =?= d) = true.
Proof. intros Hd Hc. case_bool_decide; [congruence|done]. Qed.

Lemma count_while_app f s t :
  str_all f s = true → count_while f (s +:+ t) = String.length s + count_while f t.
Proof.
  induction s as [|c s IH]; [done|]. rewrite str_app_cons. simpl. intros Hs.
  apply andb_true_iff in Hs as [-> Hs]. by rewrite IH.
Qed.

(** The part of a path after the last work directory does not name another. *)
Definition no_go_work (rest : string) : Prop := str_rfind go_marker ("/" +:+ rest) = None.

Definition go_digits (digits : string) : Prop :=
  digits ≠ "" ∧ str_all is_ascii_digit digits = true.

Lemma normalize_go_work_path_spec pre digits rest :
  go_digits digits → no_go_work rest →
  normalize_go_work_path (pre +:+ go_marker +:+ digits +:+ "/" +:+ rest)
    = Some ("$WORK/" +:+ rest).
Proof.
  intros [Hne Hd] Hr. unfold normalize_go_work_path. fold go_marker.
  assert (Htail : str_rfind go_marker ("go-build" +:+ digits +:+ "/" +:+ rest) = None).
  { apply str_rfind_skip_none; [done|]. apply str_rfind_skip_none; [|done].
    eapply str_all_impl; [|done]. intros c. by apply digit_not. }
  assert (H0 : str_rfind go_marker (go_marker +:+ digits +:+ "/" +:+ rest) = Some 0).
  { change (go_marker +:+ digits +:+ "/" +:+ rest)
      with (String "/" ("go-build" +:+ digits +:+ "/" +:+ rest)).
    cbn [str_rfind]. rewrite Htail. done. }
  rewrite (str_rfind_app _ _ _ _ H0). cbn [mbind option_bind]. rewrite Nat.add_0_r.
  rewrite <- (str_app_assoc pre), <- str_length_app, str_drop_app.
  rewrite count_while_app by done. change (count_while is_ascii_digit ("/" +:+ rest)) with 0.
  rewrite Nat.add_0_r, str_drop_app. change (str_take 1 ("/" +:+ rest)) with "/".
  destruct digits; [done|]. done.
Qed.

(** ** Go [importcfg] files *)

Lemma str_split_inclusive_line c line rest :
  str_all (λ d, negb (d =?= c)) line = true →
  str_split_inclusive c (line +:+ String c rest)
    = (line +:+ String c "") :: str_split_inclusive c rest.
Proof.
  induction line as [|d line IH]; intros Hl.
  - simpl. by rewrite bool_decide_true.
  - simpl in Hl. repx_bool. rewrite !str_app_cons. simpl. rewrite IH by done.
    by rewrite bool_decide_false.
Qed.

Lemma strip_suffix_app p s : strip_suffix p (s +:+ p) = Some s.
Proof. by apply strip_suffix_Some. Qed.

Lemma strip_prefix_app p s : strip_prefix p (p +:+ s) = Some s.
Proof. by apply strip_prefix_Some. Qed.

Lemma str_find_app c s t :
  str_all (λ d, negb (d =?= c)) s = true →
  str_find (String c "") (s +:+ String c t) = Some (String.length s).
Proof.
  induction s as [|d s IH]; intros Hs.
  - simpl. rewrite bool_decide_true by done. by destruct t.
  - simpl in Hs. repx_bool. rewrite str_app_cons. simpl.
    rewrite bool_decide_false by congruence. simpl. by rewrite IH.
Qed.

(** A [packagefile] line for [name], whose archive lies in the work directory
    [pre/go-build<digits>]; and the line it is normalised to. *)
Record ImportEntry := mkEntry {
  entry_name : string; entry_pre : string; entry_digits : string; entry_rest : string
}.

Definition import_line (e : ImportEntry) : string :=
  "packagefile " +:+ entry_name e +:+ "=" +:+ entry_pre e +:+ go_marker +:+ entry_digits e
  +:+ "/" +:+ entry_rest e.
Definition import_line_normalized (e : ImportEntry) : string :=
  "packagefile " +:+ entry_name e +:+ "=$WORK/" +:+ entry_rest e.
Definition newline : string := String "010" "".

Definition entry_ok (e : ImportEntry) : Prop :=
  str_all (λ c, negb (c =?= "="%char)) (entry_name e) = true ∧
  str_all (λ c, negb (c =?= "010"%char)) (import_line e) = true ∧
  go_digits (entry_digits e) ∧ no_go_work (entry_rest e).

Lemma normalize_go_import_line_spec e : entry_ok e →
  normalize_go_import_line (import_line e +:+ newline)
    = Some (import_line_normalized e +:+ newline, true).
Proof.
  intros (Hn & Hl & Hd & Hr). unfold normalize_go_import_line. fold newline.
  rewrite strip_suffix_app. unfold import_line. rewrite strip_prefix_app.
  set (value := entry_pre e +:+ go_marker +:+ entry_digits e +:+ "/" +:+ entry_rest e).
  change ("=" +:+ value) with (String "=" value).
  rewrite str_find_app by done. cbn [mbind option_bind].
  set (name := entry_name e).
  replace (_ - _ + _ + 1) with (String.length ("packagefile " +:+ name +:+ "=")).
  2:{ change (String "=" value) with ("=" +:+ value). rewrite !str_length_app.
      change (String.length "=") with 1. lia. }
  replace ("packagefile " +:+ name +:+ String "=" value)
    with (("packagefile " +:+ name +:+ "=") +:+ value) by by rewrite !str_app_assoc.
  rewrite str_drop_app, str_take_app. unfold value.
  rewrite normalize_go_work_path_spec by done. unfold import_line_normalized.
  by rewrite !str_app_assoc.
Qed.

Definition import_file (line : ImportEntry → string) (es : list ImportEntry) : string :=
  str_concat ((λ e, line e +:+ newline) <$> es).

Lemma normalize_go_import_lines_spec es acc changed : Forall entry_ok es →
  normalize_go_import_lines (str_split_inclusive "010" (import_file import_line es)) acc changed
  = Some (acc +:+ import_file import_line_normalized es, changed || negb (es =?= [])).
Proof.
  intros Hes. revert acc changed. induction Hes as [|e es He Hes IH]; intros acc changed.
  - simpl. by rewrite str_app_nil_r, orb_false_r.
  - change (import_file import_line (e :: es)) with
      ((import_line e +:+ newline) +:+ import_file import_line es).
    rewrite str_app_assoc. change (newline +:+ ?x) with (String "010" x).
    rewrite str_split_inclusive_line by apply He. cbn [normalize_go_import_lines].
    fold newline. rewrite normalize_go_import_line_spec by done. cbn [mbind option_bind].
    rewrite IH, str_app_assoc, orb_true_r. simpl. by rewrite orb_true_r.
Qed.

(** A Go import configuration hashes to the same contents in every session:
      the file whose lines name packages below work directories normalises to
      the file that writes [$WORK] for each of them, whatever directories and
      session numbers they had. *)
Theorem go_import_config_session_independent es :
  es ≠ [] → Forall entry_ok es → utf8_valid (import_file import_line es) = true →
  normalize_go_import_config (import_file import_line es)
    = Some (import_file import_line_normalized es).
Proof.
  intros Hne Hes Hutf. unfold normalize_go_import_config. rewrite Hutf.
  rewrite normalize_go_import_lines_spec by done. simpl.
  by rewrite bool_decide_false.
Qed.

(** ** Go action-cache entries *)

Definition is_ascii (c : ascii) : bool := (byte_val c <? 128)%N.

Lemma byte_in_ascii lo hi c : (byte_val hi < 128)%N → byte_in lo hi c = true → is_ascii c = true.
Proof.
  unfold byte_in, is_ascii. rewrite andb_true_iff, !N.leb_le, N.ltb_lt. lia.
Qed.

Lemma ascii_not_cont c : is_ascii c = true → byte_in "128" "191" c = false.
Proof.
  unfold byte_in, is_ascii. rewrite N.ltb_lt, andb_false_iff, N.leb_gt.
  change (byte_val "128") with 128%N. lia.
Qed.

Lemma utf8_valid_ascii s : str_all is_ascii s = true → utf8_valid s = true.
Proof.
  induction s as [|c s IH]; [done|]. simpl. intros [Hc Hs]%andb_true_iff.
  assert (byte_between 0 127 c = true) as ->; [|by apply IH].
  unfold byte_between. unfold is_ascii in Hc. apply N.ltb_lt in Hc.
  rewrite andb_true_iff, !N.leb_le. lia.
Qed.

Lemma str_split_at_Returns n s a b :
  str_split_at n s = Returns (a, b) → n ≤ String.length s → s = a +:+ b ∧ String.length a = n.
Proof.
  unfold str_split_at. case_match; [|done]. intros [= <- <-] Hn.
  rewrite str_take_drop, str_length_take. split; [done|lia].
Qed.

Lemma str_split_at_ascii a b :
  str_all is_ascii b = true → str_split_at (String.length a) (a +:+ b) = Returns (a, b).
Proof.
  intros Hb. unfold str_split_at. rewrite str_take_app, str_drop_app.
  destruct (is_char_boundary _ _) eqn:Hc; [done|]. unfold is_char_boundary in Hc.
  rewrite str_drop_app in Hc. destruct b as [|c b].
  - rewrite str_app_nil_r, (bool_decide_true (String.length a = String.length a)) in Hc by done.
    by rewrite orb_true_r in Hc.
  - simpl in Hb. apply andb_true_iff in Hb as [Hb _]. rewrite ascii_not_cont in Hc by done.
    by rewrite orb_true_r in Hc.
Qed.

Lemma lower_hex_ascii s : str_all is_lower_hex s = true → str_all is_ascii s = true.
Proof.
  apply str_all_impl. unfold is_lower_hex. intros c [Hc|Hc]%orb_true_iff;
    by eapply byte_in_ascii; [|exact Hc].
Qed.

Lemma padded_decimal_ascii s : is_padded_decimal s = true → str_all is_ascii s = true.
Proof.
  unfold is_padded_decimal. intros [_ Hd]%andb_true_iff.
  induction s as [|c s IH]; [done|]. simpl in *. case_bool_decide as Hc.
  - subst. rewrite IH by done. done.
  - change (str_all is_ascii (String c s) = true). eapply str_all_impl; [|exact Hd].
    intros d. apply byte_in_ascii. vm_compute. done.
Qed.

(** An entry of the action cache: the two identifiers, the size of the output
    and the time at which the entry was written. *)
Definition go_cache_entry (action_id output_id size timestamp : string) : string :=
  "v1 " +:+ action_id +:+ " " +:+ output_id +:+ " " +:+ size +:+ " " +:+ timestamp +:+ newline.

Definition go_fields_ok (action_id output_id size timestamp : string) : Prop :=
  (String.length action_id = 64 ∧ str_all is_lower_hex action_id = true) ∧
  (String.length output_id = 64 ∧ str_all is_lower_hex output_id = true) ∧
  (String.length size = 20 ∧ is_padded_decimal size = true) ∧
  (String.length timestamp = 20 ∧ is_padded_decimal timestamp = true).

#[export] Instance go_fields_ok_dec a o z t : Decision (go_fields_ok a o z t).
Proof. unfold go_fields_ok. apply _. Defined.

Ltac ascii_parts :=
  rewrite ?str_all_app;
  repeat match goal with H : str_all is_ascii _ = true |- _ => rewrite H; clear H end;
  done.

Lemma normalize_go_cache_entry_complete a o z t : go_fields_ok a o z t →
  normalize_go_cache_entry (go_cache_entry a o z t)
    = Returns (Some (go_cache_entry a o z padded_zero)).
Proof.
  intros ((Ha & Hxa) & (Ho & Hxo) & (Hz & Hpz) & (Ht & Hpt)).
  pose proof (lower_hex_ascii _ Hxa). pose proof (lower_hex_ascii _ Hxo).
  pose proof (padded_decimal_ascii _ Hpz). pose proof (padded_decimal_ascii _ Hpt).
  unfold normalize_go_cache_entry, go_cache_entry.
  rewrite utf8_valid_ascii by ascii_parts.
  cbn [negb]. rewrite strip_prefix_app. cbn [mbind option_bind]. fold newline.
  replace (a +:+ _) with ((a +:+ " " +:+ o +:+ " " +:+ z +:+ " " +:+ t) +:+ newline)
    by by rewrite !str_app_assoc.
  rewrite strip_suffix_app. rewrite bool_decide_true.
  2:{ rewrite !str_length_app. change (String.length " ") with 1. lia. }
  cbn [negb]. rewrite <- Ha at 1.
  rewrite str_split_at_ascii by ascii_parts.
  cbn [mbind partial_bind]. rewrite strip_prefix_app, <- Ho at 1.
  rewrite str_split_at_ascii by ascii_parts.
  cbn [mbind partial_bind]. rewrite strip_prefix_app, <- Hz at 1.
  rewrite str_split_at_ascii by ascii_parts.
  cbn [mbind partial_bind]. by rewrite strip_prefix_app, Hxa, Hxo, Hpz, Hpt.
Qed.

Lemma normalize_go_cache_entry_sound contents r :
  normalize_go_cache_entry contents = Returns (Some r) →
  ∃ a o z t, go_fields_ok a o z t ∧ contents = go_cache_entry a o z t ∧
             r = go_cache_entry a o z padded_zero.
Proof.
  unfold normalize_go_cache_entry. case_match; [done|].
  destruct (strip_prefix "v1 " contents) as [rest|] eqn:Hp; [|done]. cbn [mbind option_bind].
  apply strip_prefix_Some in Hp as ->. fold newline.
  destruct (strip_suffix newline rest) as [body|] eqn:Hs; [|done].
  apply strip_suffix_Some in Hs as ->. case_bool_decide as Hlen; [|done]. cbn [negb].
  intros ([a r1] & H1 & Hr)%partial_bind_Returns.
  apply str_split_at_Returns in H1 as [-> Ha]; [|lia]. rewrite str_length_app in Hlen.
  destruct (strip_prefix " " r1) as [r1'|] eqn:Hp1; [|done].
  apply strip_prefix_Some in Hp1 as ->. rewrite str_length_app in Hlen.
  change (String.length " ") with 1 in Hlen.
  apply partial_bind_Returns in Hr as ([o r2] & H2 & Hr).
  apply str_split_at_Returns in H2 as [-> Ho]; [|lia]. rewrite str_length_app in Hlen.
  destruct (strip_prefix " " r2) as [r2'|] eqn:Hp2; [|done].
  apply strip_prefix_Some in Hp2 as ->. rewrite str_length_app in Hlen.
  change (String.length " ") with 1 in Hlen.
  apply partial_bind_Returns in Hr as ([z r3] & H3 & Hr).
  apply str_split_at_Returns in H3 as [-> Hz]; [|lia]. rewrite str_length_app in Hlen.
  destruct (strip_prefix " " r3) as [t|] eqn:Hp3; [|done].
  apply strip_prefix_Some in Hp3 as ->. rewrite str_length_app in Hlen.
  change (String.length " ") with 1 in Hlen.
  destruct (_ && _) eqn:Hb; [|done]. injection Hr as <-. repx_bool.
  exists a, o, z, t. split; [repeat split; (done || lia)|].
  unfold go_cache_entry. by rewrite !str_app_assoc.
Qed.

(** [normalize_go_cache_entry] succeeds on exactly the well-formed entries of
      Go's action cache, without panicking, and replaces nothing but the
      timestamp: two entries normalise to one text when they agree on the other
      three fields. *)
Theorem normalize_go_cache_entry_iff contents r :
  normalize_go_cache_entry contents = Returns (Some r) ↔
  ∃ action_id output_id size timestamp,
    go_fields_ok action_id output_id size timestamp ∧
    contents = go_cache_entry action_id output_id size timestamp ∧
    r = go_cache_entry action_id output_id size padded_zero.
Proof.
  split; [apply normalize_go_cache_entry_sound|].
  intros (a & o & z & t & Hok & -> & ->). by apply normalize_go_cache_entry_complete.
Qed.

(** ** The panic *)

Lemma str_all_take_drop f n s :
  str_all f s = true → str_all f (str_take n s) = true ∧ str_all f (str_drop n s) = true.
Proof.
  intros Hs. rewrite <- (str_take_drop n s), str_all_app in Hs. by apply andb_true_iff in Hs.
Qed.

Lemma str_split_at_ascii_total n s : n ≤ String.length s → str_all is_ascii s = true →
  str_split_at n s = Returns (str_take n s, str_drop n s) ∧ str_all is_ascii (str_drop n s) = true.
Proof.
  intros Hn Hs. apply (str_all_take_drop _ n) in Hs as [_ Hd]. split; [|done].
  rewrite <- (str_take_drop n s) at 1.
  assert (Hl : String.length (str_take n s) = n) by (rewrite str_length_take; lia).
  rewrite <- Hl at 1. by apply str_split_at_ascii.
Qed.

Lemma str_all_strip_prefix f p s t :
  strip_prefix p s = Some t → str_all f s = true → str_all f t = true.
Proof. intros ->%strip_prefix_Some. rewrite str_all_app. by intros [_ ?]%andb_true_iff. Qed.

Lemma str_length_strip_prefix p s t :
  strip_prefix p s = Some t → String.length s = String.length p + String.length t.
Proof. intros ->%strip_prefix_Some. apply str_length_app. Qed.

Lemma normalize_go_cache_entry_ascii contents :
  str_all is_ascii contents = true → normalize_go_cache_entry contents ≠ Panics.
Proof.
  intros Ha. unfold normalize_go_cache_entry. case_match; [done|].
  destruct (strip_prefix "v1 " contents) as [rest|] eqn:Hp; [|done]. cbn [mbind option_bind].
  apply (str_all_strip_prefix _ _ _ _ Hp) in Ha. fold newline.
  destruct (strip_suffix newline rest) as [body|] eqn:Hs; [|done].
  apply strip_suffix_Some in Hs as ->. rewrite str_all_app in Ha.
  apply andb_true_iff in Ha as [Ha _]. case_bool_decide as Hlen; [|done]. cbn [negb].
  clear Hp. destruct (str_split_at_ascii_total 64 body) as [-> H1]; [lia|done|].
  pose proof (str_length_drop 64 body) as L1. cbn [mbind partial_bind].
  destruct (strip_prefix " " (str_drop 64 body)) as [r1|] eqn:Hp1; [|done].
  apply (str_all_strip_prefix _ _ _ _ Hp1) in H1.
  apply str_length_strip_prefix in Hp1. change (String.length " ") with 1 in Hp1.
  destruct (str_split_at_ascii_total 64 r1) as [-> H2]; [lia|done|].
  pose proof (str_length_drop 64 r1) as L2. cbn [mbind partial_bind].
  destruct (strip_prefix " " (str_drop 64 r1)) as [r2|] eqn:Hp2; [|done].
  apply (str_all_strip_prefix _ _ _ _ Hp2) in H2.
  apply str_length_strip_prefix in Hp2. change (String.length " ") with 1 in Hp2.
  destruct (str_split_at_ascii_total 20 r2) as [-> _]; [lia|done|].
  cbn [mbind partial_bind]. by repeat case_match.
Qed.

(** A file of the size of an action-cache entry, in its place, whose 64th byte
    after the header is the first of a two-byte character. *)
Definition split_entry : string :=
  "v1 " +:+ Toy.hex_pad 63 0 "" +:+ String "195" (String "169" "")
  +:+ Toy.hex_pad 106 0 "" +:+ newline.
Definition split_entry_file : File :=
  {| file_metadata := IoOk {| is_file := true; file_len := 175 |};
     file_seek := true; file_contents := Some split_entry |}.
Definition split_entry_path : string :=
  "/root/.cache/go-build/00/" +:+ Toy.hex_pad 64 0 "-a".

(** C40. Observing a file never panics when its text is ASCII, and can panic
      otherwise: [split_at] aborts the tracer on a 175-byte UTF-8 file at the path
      of an action-cache entry, because the fields are split at byte offsets
      before they are checked to be hexadecimal. *)
Theorem observe_file_panics_only_off_ascii `{Sha256} :
  (∀ file path,
     match file_contents file with Some c => str_all is_ascii c | None => true end = true →
     observe_file file path ≠ Panics) ∧
  utf8_valid split_entry = true ∧ String.length split_entry = 175 ∧
  observe_file split_entry_file split_entry_path = Panics.
Proof.
  split; [|split; [vm_compute; done|split; [vm_compute; done|]]].
  - intros file path Ha. unfold observe_file. destruct (file_contents file) as [c|] eqn:Hc.
    + apply normalize_go_cache_entry_ascii in Ha. repeat case_match; simpl; try done;
        destruct (normalize_go_cache_entry c); simpl; repeat case_match; done.
    + repeat case_match; done.
  - unfold observe_file. cbn [file_metadata split_entry_file is_file negb file_seek file_len].
    change (is_go_import_config_path split_entry_path) with false.
    rewrite andb_false_r. cbn [mbind partial_bind file_contents].
    replace (bool_decide _ && _) with true by (vm_compute; done).
    replace (normalize_go_cache_entry split_entry) with (@Panics (option string))
      by (vm_compute; done). done.
Qed.

(** ** Examples *)

Module FileIdentityExamples.
Definition entries : list ImportEntry :=
  [mkEntry "fmt" "/tmp" "4051" "b002/_pkg_.a"; mkEntry "os" "/var/tmp" "77" "b3/_pkg_.a"].

Lemma go_import_config_session_independent_witness :
  normalize_go_import_config (import_file import_line entries)
  = Some ("packagefile fmt=$WORK/b002/_pkg_.a" +:+ newline
          +:+ "packagefile os=$WORK/b3/_pkg_.a" +:+ newline).
Proof.
  apply (go_import_config_session_independent entries); [done| |done].
  repeat constructor; done.
Defined.
End FileIdentityExamples.
