(* ===== verification/Operations.v ===== *)
(** * Canonical operations and their set ([repx/src/canonicalize.rs])

    The operation type, its digest, and [finalize_ops], which turns a list of
    operations into a list sorted by digest with one operation per digest.
    Both consumers of a trace ([Canonicalize] and [Slice]) end with it. *)
From S2P Require Export Digest Events.

Inductive OpType :=
  | OpExec
  | OpFileRead
  | OpFileWrite
  | OpFileRename
  | OpFileDelete
  | OpSystemStateRead
  | OpExit
  | OpExternalFileRead
  | OpExternalFileWrite
  | OpExternalFileRename
  | OpExternalFileDelete.

#[export] Instance OpType_eq_dec : EqDecision OpType.
Proof. solve_decision. Defined.

Record CanonicalOp := mkOp {
  op_type : OpType;
  process_index : Z;
  tool_hash : option string;
  args : list string;
  input_hashes : list string;
  output_hashes : list string
}.

#[export] Instance CanonicalOp_eq_dec : EqDecision CanonicalOp.
Proof. solve_decision. Defined.

Definition op_tag (op : CanonicalOp) : string :=
  match op_type op with
  | OpExec => "exec"
  | OpFileRead => "file_read"
  | OpFileWrite => "file_write"
  | OpFileRename => "file_rename"
  | OpFileDelete => "file_delete"
  | OpSystemStateRead => "system_state_read"
  | OpExit => "exit"
  | OpExternalFileRead => "external_file_read"
  | OpExternalFileWrite => "external_file_write"
  | OpExternalFileRename => "external_file_rename"
  | OpExternalFileDelete => "external_file_delete"
  end.

(** The bytes [CanonicalOp::hash] feeds to the hasher, in order. *)
Definition op_bytes (op : CanonicalOp) : string :=
  op_tag op
  +:+ default "" (tool_hash op)
  +:+ str_concat ((λ arg, arg +:+ String "000" "") <$> args op)
  +:+ str_concat (input_hashes op)
  +:+ str_concat (output_hashes op).

(** The loop at the head of [finalize_ops]: the three lists are sorted. *)
Definition sort_op_lists (op : CanonicalOp) : CanonicalOp :=
  mkOp (op_type op) (process_index op) (tool_hash op)
    (sort_strings (args op)) (sort_strings (input_hashes op))
    (sort_strings (output_hashes op)).

Section operations.
Context `{Sha256}.
Implicit Types (op : CanonicalOp) (ops : list CanonicalOp).

(** [CanonicalOp::hash]. *)
Definition op_hash (op : CanonicalOp) : string := digest (op_bytes op).

Definition finalize_ops (ops : list CanonicalOp) : list CanonicalOp :=
  let ops := sort_op_lists <$> ops in
  let ops := sort_by_key op_hash ops in
  dedup_by (λ a b, op_hash a =?= op_hash b) ops.

(** The leaves an operation list commits to. *)
Definition leaves_of (ops : list CanonicalOp) : list string :=
  op_hash <$> finalize_ops ops.

(** ** The digest ignores the process index and the order in each list *)

Lemma op_hash_process_index op i :
  op_hash (mkOp (op_type op) i (tool_hash op) (args op) (input_hashes op)
             (output_hashes op)) = op_hash op.
Proof. done. Qed.

Lemma sort_op_lists_idemp op : sort_op_lists (sort_op_lists op) = sort_op_lists op.
Proof. unfold sort_op_lists. simpl. by autorewrite with repx. Qed.

Lemma finalize_ops_sort_dedup ops :
  finalize_ops ops = sort_dedup op_hash (sort_op_lists <$> ops).
Proof. done. Qed.

Lemma finalize_ops_sorted_lists ops op :
  op ∈ finalize_ops ops → sort_op_lists op = op.
Proof.
  rewrite finalize_ops_sort_dedup. intros Hin%sort_dedup_subset.
  apply list_elem_of_fmap in Hin as (op' & -> & _). apply sort_op_lists_idemp.
Qed.

Lemma fmap_sort_op_lists_id ops :
  Forall (λ op, sort_op_lists op = op) ops → sort_op_lists <$> ops = ops.
Proof. induction 1; [done|]. csimpl. by f_equal. Qed.

(** ** [finalize_ops] as a set *)

(** Which leaves there are depends only on the set of (normalised) digests. *)
Lemma normalised_hashes_elem ops s :
  s ∈ op_hash <$> (sort_op_lists <$> ops) ↔
  ∃ op, op ∈ ops ∧ s = op_hash (sort_op_lists op).
Proof.
  rewrite list_elem_of_fmap. setoid_rewrite list_elem_of_fmap. naive_solver.
Qed.

Lemma leaves_of_elem ops s :
  s ∈ leaves_of ops ↔ ∃ op, op ∈ ops ∧ s = op_hash (sort_op_lists op).
Proof.
  unfold leaves_of. rewrite finalize_ops_sort_dedup, sort_dedup_keys.
  apply normalised_hashes_elem.
Qed.

Lemma leaves_of_ext ops1 ops2 :
  (∀ s, (∃ op, op ∈ ops1 ∧ s = op_hash (sort_op_lists op)) ↔
        (∃ op, op ∈ ops2 ∧ s = op_hash (sort_op_lists op))) →
  leaves_of ops1 = leaves_of ops2.
Proof.
  intros Heq. unfold leaves_of. rewrite !finalize_ops_sort_dedup.
  apply sort_dedup_keys_ext. intros s. by rewrite !normalised_hashes_elem.
Qed.

Lemma finalize_ops_idemp ops : finalize_ops (finalize_ops ops) = finalize_ops ops.
Proof.
  rewrite (finalize_ops_sort_dedup (finalize_ops ops)).
  rewrite fmap_sort_op_lists_id.
  - apply sort_dedup_idemp.
  - apply Forall_forall. apply finalize_ops_sorted_lists.
Qed.

(** C26. What a trace commits to is a sorted set: [finalize_ops] yields strictly
    increasing (hence distinct) digests, exactly the digests of the operations
    it is given with their lists sorted, and a second pass changes nothing. *)
Theorem finalize_ops_sorted_set ops :
  strictly_sorted (op_hash <$> finalize_ops ops) ∧
  (∀ s, s ∈ op_hash <$> finalize_ops ops ↔
        ∃ op, op ∈ ops ∧ s = op_hash (sort_op_lists op)) ∧
  finalize_ops (finalize_ops ops) = finalize_ops ops.
Proof.
  split; [apply sort_dedup_strict|]. split; [apply leaves_of_elem|apply finalize_ops_idemp].
Qed.

(** Neither the order nor the multiplicity of the operations of a trace,
    nor the process indices, reach the leaves: two lists with the same
    operations up to [process_index] have the same leaves. *)
Theorem leaves_of_order_irrelevant ops1 ops2 :
  (∀ s, s ∈ op_bytes <$> (sort_op_lists <$> ops1) ↔
        s ∈ op_bytes <$> (sort_op_lists <$> ops2)) →
  leaves_of ops1 = leaves_of ops2.
Proof.
  intros Heq. apply leaves_of_ext.
  assert (Hel : ∀ ops s, (∃ op, op ∈ ops ∧ s = op_hash (sort_op_lists op)) ↔
    ∃ b, b ∈ op_bytes <$> (sort_op_lists <$> ops) ∧ s = digest b).
  { intros ops s. setoid_rewrite list_elem_of_fmap. setoid_rewrite list_elem_of_fmap.
    unfold op_hash. naive_solver. }
  intros s. rewrite !Hel. by setoid_rewrite Heq.
Qed.
End operations.

(** ** What a digest determines

    [op_bytes] concatenates its parts with no framing except the NUL after each
    argument.  The digest still determines the operation when the two
    operations have the same profile: a tool hash in both or in neither, and
    as many arguments, inputs and outputs. *)

(** File identities, tool hashes and the system-state sentinel: a prefix-free
    code, each word being one of five prefixes followed by 64 bytes. *)
Definition id_prefixes : list string :=
  ["sha256:"; "missing:sha256:"; "unreadable:sha256:"; "non-regular:sha256:";
   "SYSTEM_STATE:"].

Definition id_code (s : string) : Prop :=
  ∃ p rest, p ∈ id_prefixes ∧ s = p +:+ rest ∧ String.length rest = 64.

Fixpoint nul_free (s : string) : bool :=
  match s with
  | "" => true
  | String c s => negb (c =?= "000"%char) && nul_free s
  end.

Definition same_profile (a b : CanonicalOp) : Prop :=
  (is_Some (tool_hash a) ↔ is_Some (tool_hash b)) ∧
  length (args a) = length (args b) ∧
  length (input_hashes a) = length (input_hashes b) ∧
  length (output_hashes a) = length (output_hashes b).

Definition well_coded (op : CanonicalOp) : Prop :=
  (∀ t, tool_hash op = Some t → id_code t) ∧
  Forall (λ arg, nul_free arg = true) (args op) ∧
  Forall id_code (input_hashes op) ∧ Forall id_code (output_hashes op).

Lemma app_eq_prefix_total p q x y :
  p +:+ x = q +:+ y → starts_with p q = true ∨ starts_with q p = true.
Proof.
  revert q. induction p as [|a p IH]; intros [|b q]; try (simpl; auto; fail).
  rewrite !str_app_cons. intros [= -> Heq]. simpl.
  rewrite bool_decide_true by done. by apply IH.
Qed.

#[export] Instance id_code_prefix_code : PrefixCode id_code id.
Proof.
  unfold id. intros s1 s2 x y (p1 & r1 & Hp1 & -> & Hr1) (p2 & r2 & Hp2 & -> & Hr2) Heq.
  assert (p1 = p2) as <-.
  { rewrite !str_app_assoc in Heq. apply app_eq_prefix_total in Heq. clear Hr1 Hr2 r1 r2.
    unfold id_prefixes in *. set_unfold in Hp1. set_unfold in Hp2.
    destruct_or?; subst; vm_compute in Heq; destruct_or?; done. }
  apply str_app_inj_length; [|done]. rewrite !str_length_app. lia.
Qed.

#[export] Instance nul_arg_prefix_code :
  PrefixCode (λ arg, nul_free arg = true) (λ arg, arg +:+ String "000" "").
Proof.
  intros a b x y. rewrite !str_app_assoc, !str_app_cons.
  change ("" +:+ x) with x. change ("" +:+ y) with y.
  revert b. induction a as [|c a IH]; intros [|d b] Ha Hb Heq; simpl in Ha, Hb.
  - by injection Heq as ->.
  - injection Heq as <- _. by rewrite bool_decide_true in Hb.
  - injection Heq as -> _. by rewrite bool_decide_true in Ha.
  - injection Heq as -> Heq. repx_bool. by destruct (IH b) as [-> ->].
Qed.

Lemma op_tag_inj a b x y : op_tag a +:+ x = op_tag b +:+ y → op_type a = op_type b ∧ x = y.
Proof.
  intros Heq. assert (Ht : op_type a = op_type b).
  { apply app_eq_prefix_total in Heq. unfold op_tag in Heq.
    destruct (op_type a), (op_type b); try done; vm_compute in Heq; destruct_or?; done. }
  split; [done|]. unfold op_tag in Heq. rewrite Ht in Heq.
  by apply (inj (String.append _)) in Heq.
Qed.

Lemma tool_inj (t1 t2 : option string) x y :
  (is_Some t1 ↔ is_Some t2) → (∀ t, t1 = Some t → id_code t) →
  (∀ t, t2 = Some t → id_code t) →
  default "" t1 +:+ x = default "" t2 +:+ y → t1 = t2 ∧ x = y.
Proof.
  intros Hs H1 H2 Heq. destruct t1 as [t1|], t2 as [t2|]; simpl in Heq.
  - apply (prefix_code (enc := id)) in Heq as [-> ->]; auto.
  - by destruct (proj1 Hs ltac:(eauto)).
  - by destruct (proj2 Hs ltac:(eauto)).
  - done.
Qed.

Lemma str_concat_fmap_id l : str_concat (id <$> l) = str_concat l.
Proof. by rewrite list_fmap_id. Qed.

Section digest_determines.
Context `{Sha256}.

(** The digest of an operation determines it, the process index apart:
    two operations of the same profile whose identities have the shape of
    file identities and whose digests do not collide have the same type, tool,
    arguments, inputs and outputs. *)
Theorem op_hash_determines a b :
  same_profile a b → well_coded a → well_coded b →
  no_collision [op_bytes a; op_bytes b] → op_hash a = op_hash b →
  a = mkOp (op_type b) (process_index a) (tool_hash b) (args b) (input_hashes b)
        (output_hashes b).
Proof.
  intros (Htool & Hargs & Hins & Houts) (Ha1 & Ha2 & Ha3 & Ha4) (Hb1 & Hb2 & Hb3 & Hb4)
    Hnc Hhash.
  apply (digest_inj_on _ _ _ Hnc) in Hhash; [|set_solver..]. unfold op_bytes in Hhash.
  apply op_tag_inj in Hhash as [Ht Hhash].
  apply tool_inj in Hhash as [Htl Hhash]; [|done..].
  apply (str_concat_inj (λ arg, nul_free arg = true) (λ arg, arg +:+ String "000" "")) in Hhash; [|done..].
  destruct Hhash as [Har Hhash].
  rewrite <- (str_concat_fmap_id (input_hashes a)) in Hhash.
  rewrite <- (str_concat_fmap_id (input_hashes b)) in Hhash.
  apply (str_concat_inj id_code id) in Hhash as [Hi Hhash]; [|done..].
  rewrite <- (str_app_nil_r (str_concat (output_hashes a))) in Hhash.
  rewrite <- (str_app_nil_r (str_concat (output_hashes b))) in Hhash.
  rewrite <- !(str_concat_fmap_id (output_hashes _)) in Hhash.
  apply (str_concat_inj id_code id) in Hhash as [Ho _]; [|done..].
  destruct a, b; simpl in *; by subst.
Qed.

(** The profile matters: a write by a tool [t] whose descriptor is never
    closed and a write of contents [t] by a process with no known tool have
    one digest, so [finalize_ops] keeps only one of them. *)
Theorem op_hash_write_ambiguous t i j :
  let opened := mkOp OpFileWrite i (Some t) [] [] [] in
  let closed := mkOp OpFileWrite j None [] [] [t] in
  op_hash opened = op_hash closed ∧ finalize_ops [opened; closed] = [opened].
Proof.
  assert (Heq : op_bytes (mkOp OpFileWrite i (Some t) [] [] []) =
                op_bytes (mkOp OpFileWrite j None [] [] [t])).
  { unfold op_bytes. simpl. by rewrite !str_app_nil_r. }
  cbv zeta. split; [unfold op_hash; by rewrite Heq|].
  unfold finalize_ops. simpl. unfold op_hash, sort_op_lists. simpl.
  rewrite Heq.
  destruct (String.leb _ _) eqn:Hleb; simpl; rewrite Heq, bool_decide_true by done; [done|].
  pose proof (reflexivity (R := String.le)
    (digest (op_bytes (mkOp OpFileWrite j None [] [] [t])))) as Hr.
  unfold String.le in Hr. by rewrite Hleb in Hr.
Qed.
End digest_determines.

(** ** Examples with the hash function of [Toy] *)

Module Examples.
Import Toy.

Definition read_op (i : Z) (hash : string) : CanonicalOp :=
  mkOp OpFileRead i (Some (digest "cc")) ["mmap"] [hash] [].

(** A read recorded twice under other process indices, in another order. *)
Lemma leaves_of_order_irrelevant_witness :
  leaves_of [read_op 0 (digest "a"); read_op 1 (digest "b")]
  = leaves_of [read_op 7 (digest "b"); read_op 3 (digest "a"); read_op 4 (digest "b")].
Proof.
  apply leaves_of_order_irrelevant. intros s.
  assert (Hi : ∀ i h, op_bytes (sort_op_lists (read_op i h))
                      = op_bytes (sort_op_lists (read_op 0 h))) by done.
  csimpl. rewrite (Hi 1%Z), (Hi 7%Z), (Hi 3%Z), (Hi 4%Z). set_solver.
Defined.

Lemma op_hash_determines_witness :
  let a := read_op 0 (digest "a") in let b := read_op 5 (digest "a") in
  a = mkOp (op_type b) (process_index a) (tool_hash b) (args b) (input_hashes b)
        (output_hashes b).
Proof.
  assert (Hid : ∀ s, id_code (digest s)).
  { intros s. exists "sha256:", (sha256_hex s).
    split; [set_solver|]. split; [done|apply sha256_hex_length]. }
  assert (Hw : ∀ i, well_coded (read_op i (digest "a"))).
  { intros i. repeat split; simpl; repeat constructor; eauto. intros t [= <-]. eauto. }
  intros a b. apply op_hash_determines; [repeat split; simpl; eauto|apply Hw|apply Hw| |].
  - apply (bool_decide_unpack (no_collision _)). vm_compute. done.
  - vm_compute. done.
Defined.
End Examples.
