(* ===== verification/Canonicalize.v ===== *)
(** * Canonicalisation of a full trace ([repx/src/canonicalize.rs])

    [canonicalize_events] is a loop over the traced events with eight mutable
    variables; they are the fields of [CanonState], each arm of the [match] is
    one definition, and the loop is [foldl canonicalize_event].  The two
    [pending_writes] tables map a process lifetime and a descriptor to the
    index, in [ops] or [external_ops], of the write whose contents are known
    when the descriptor is closed. *)
From S2P Require Export Operations FileIdentity.

Record CanonState := mkState {
  process_to_index : gmap ProcessInstance Z;
  next_index : Z;
  pending_writes : gmap (ProcessLifetime * Z) nat;
  ops : list CanonicalOp;
  external_ops : list CanonicalOp;
  external_pending_writes : gmap (ProcessLifetime * Z) nat;
  fallback_external_processes : gset ProcessLifetime;
  process_to_tool_hash : gmap ProcessInstance string
}.

(** The variables before the loop: the root process has index 0. *)
Definition initial_state (root_process : ProcessInstance) : CanonState :=
  mkState {[root_process := 0%Z]} 1 ∅ [] [] ∅ ∅ ∅.

(** ** Updates of one variable *)

Definition with_ops (f : list CanonicalOp → list CanonicalOp) (st : CanonState) :=
  mkState (process_to_index st) (next_index st) (pending_writes st) (f (ops st))
    (external_ops st) (external_pending_writes st) (fallback_external_processes st)
    (process_to_tool_hash st).
Definition with_external_ops (f : list CanonicalOp → list CanonicalOp) (st : CanonState) :=
  mkState (process_to_index st) (next_index st) (pending_writes st) (ops st)
    (f (external_ops st)) (external_pending_writes st) (fallback_external_processes st)
    (process_to_tool_hash st).
Definition with_pending (m : gmap (ProcessLifetime * Z) nat) (st : CanonState) :=
  mkState (process_to_index st) (next_index st) m (ops st)
    (external_ops st) (external_pending_writes st) (fallback_external_processes st)
    (process_to_tool_hash st).
Definition with_external_pending (m : gmap (ProcessLifetime * Z) nat) (st : CanonState) :=
  mkState (process_to_index st) (next_index st) (pending_writes st) (ops st)
    (external_ops st) m (fallback_external_processes st) (process_to_tool_hash st).
Definition with_fallback (s : gset ProcessLifetime) (st : CanonState) :=
  mkState (process_to_index st) (next_index st) (pending_writes st) (ops st)
    (external_ops st) (external_pending_writes st) s (process_to_tool_hash st).
Definition with_tools (m : gmap ProcessInstance string) (st : CanonState) :=
  mkState (process_to_index st) (next_index st) (pending_writes st) (ops st)
    (external_ops st) (external_pending_writes st) (fallback_external_processes st) m.
Definition with_indices (m : gmap ProcessInstance Z) (next : Z) (st : CanonState) :=
  mkState m next (pending_writes st) (ops st)
    (external_ops st) (external_pending_writes st) (fallback_external_processes st)
    (process_to_tool_hash st).

Definition push_op (op : CanonicalOp) : CanonState → CanonState :=
  with_ops (λ l, l ++ [op]).
Definition push_external (op : CanonicalOp) : CanonState → CanonState :=
  with_external_ops (λ l, l ++ [op]).

(** [if !process_to_index.contains_key(process) { insert(next_index); next_index += 1 }]. *)
Definition assign_index (process : ProcessInstance) (st : CanonState) : CanonState :=
  match process_to_index st !! process with
  | Some _ => st
  | None =>
      with_indices (<[process := next_index st]> (process_to_index st))
        (wrap_u32 (next_index st + 1)) st
  end.

(** [process_to_index[process]], after [assign_index]. *)
Definition index_of (st : CanonState) (process : ProcessInstance) : Z :=
  default 0%Z (process_to_index st !! process).

Definition is_watched_path (path : string) (watch_prefixes : list string) : bool :=
  existsb (λ prefix, is_path_within path prefix) watch_prefixes.

Section events.
Context (root_process : ProcessInstance) (watch_prefixes : list string).

(** The test shared by the open, mmap, rename and unlink arms; [watched] is
    the arm's test on its path or paths. *)
Definition fallback_external (st : CanonState) (process : ProcessInstance)
    (external watched : bool) : bool :=
  negb external
  && negb (lifetime process =?= lifetime root_process)
  && watched
  && (bool_decide (lifetime process ∈ fallback_external_processes st)
      || negb (bool_decide (is_Some (process_to_tool_hash st !! process)))).

Definition mark_fallback (process : ProcessInstance) (st : CanonState) : CanonState :=
  with_fallback ({[lifetime process]} ∪ fallback_external_processes st) st.

Definition on_exec (process : ProcessInstance) (observation : FileObservation)
    (st : CanonState) : CanonState :=
  let st := assign_index process st in
  let proc_idx := index_of st process in
  let tool := identity observation in
  let st := with_tools (<[process := tool]> (process_to_tool_hash st)) st in
  push_op (mkOp OpExec proc_idx (Some tool) [] [] []) st.

Definition on_fork (parent child : ProcessInstance) (st : CanonState) : CanonState :=
  let st :=
    match process_to_tool_hash st !! parent with
    | Some tool => with_tools (<[child := tool]> (process_to_tool_hash st)) st
    | None => st
    end in
  with_pending (inherit_pending (lifetime parent) (lifetime child) (pending_writes st)) st.

Definition on_open (process : ProcessInstance) (path : string) (flags fd : Z)
    (external : bool) (observation : FileObservation) (st : CanonState) : CanonState :=
  if external && negb (is_watched_path path watch_prefixes) then st
  else if external || fallback_external st process external
                        (is_watched_path path watch_prefixes) then
    let st := mark_fallback process st in
    let st :=
      if can_read flags then
        push_external (mkOp OpExternalFileRead U32_MAX None [] [identity observation] []) st
      else st in
    if can_write flags then
      let op_idx := length (external_ops st) in
      let st := push_external (mkOp OpExternalFileWrite U32_MAX None [] [] []) st in
      with_external_pending
        (<[(lifetime process, fd) := op_idx]> (external_pending_writes st)) st
    else st
  else
    let st := assign_index process st in
    let proc_idx := index_of st process in
    let tool := process_to_tool_hash st !! process in
    if is_system_state path then
      push_op (mkOp OpSystemStateRead proc_idx tool [] [SYSTEM_STATE_SENTINEL] []) st
    else
      let st :=
        if can_read flags then
          push_op (mkOp OpFileRead proc_idx tool [] [identity observation] []) st
        else st in
      if can_write flags then
        let op_idx := length (ops st) in
        let st := push_op (mkOp OpFileWrite proc_idx tool [] [] []) st in
        with_pending (<[(lifetime process, fd) := op_idx]> (pending_writes st)) st
      else st.

Definition on_mmap (process : ProcessInstance) (fd prot flags : Z)
    (path : option string) (external : bool) (observation : option FileObservation)
    (st : CanonState) : CanonState :=
  if external && match path with
                 | None => true
                 | Some path => negb (is_watched_path path watch_prefixes)
                 end then st
  else
    match path, observation with
    | Some path, Some observation =>
        let is_write := mmap_is_write prot flags in
        if external || fallback_external st process external
                         (is_watched_path path watch_prefixes) then
          let st := mark_fallback process st in
          let st := push_external
            (mkOp OpExternalFileRead U32_MAX None ["mmap"] [identity observation] []) st in
          if is_write then
            match external_pending_writes st !! (lifetime process, fd) with
            | Some _ => st
            | None =>
                let op_idx := length (external_ops st) in
                let st := push_external (mkOp OpExternalFileWrite U32_MAX None [] [] []) st in
                with_external_pending
                  (<[(lifetime process, fd) := op_idx]> (external_pending_writes st)) st
            end
          else st
        else
          let st := assign_index process st in
          let proc_idx := index_of st process in
          let tool := process_to_tool_hash st !! process in
          if is_system_state path then
            push_op (mkOp OpSystemStateRead proc_idx tool [] [SYSTEM_STATE_SENTINEL] []) st
          else
            let st := push_op
              (mkOp OpFileRead proc_idx tool ["mmap"] [identity observation] []) st in
            if is_write then
              match pending_writes st !! (lifetime process, fd) with
              | Some _ => st
              | None =>
                  let op_idx := length (ops st) in
                  let st := push_op (mkOp OpFileWrite proc_idx tool [] [] []) st in
                  with_pending (<[(lifetime process, fd) := op_idx]> (pending_writes st)) st
              end
            else st
    | _, _ => st
    end.

(** [op.output_hashes = vec![observation.identity()]]. *)
Definition set_output (hash : string) (op : CanonicalOp) : CanonicalOp :=
  mkOp (op_type op) (process_index op) (tool_hash op) (args op) (input_hashes op) [hash].

(** [if let (Some(op), Some(observation)) = (ops.get_mut(op_idx), observation)]:
    [alter] does nothing out of range, as [get_mut] then returns [None]. *)
Definition resolve_write (op_idx : nat) (observation : option FileObservation)
    (l : list CanonicalOp) : list CanonicalOp :=
  match observation with
  | Some observation => alter (set_output (identity observation)) op_idx l
  | None => l
  end.

Definition on_close (process : ProcessInstance) (fd : Z) (path : option string)
    (external : bool) (observation : option FileObservation) (st : CanonState) : CanonState :=
  match path with
  | None => st
  | Some path =>
      let fallback :=
        negb external && negb (lifetime process =?= lifetime root_process)
        && bool_decide (lifetime process ∈ fallback_external_processes st)
        && is_watched_path path watch_prefixes in
      let key := (lifetime process, fd) in
      if external || fallback then
        match external_pending_writes st !! key with
        | Some op_idx =>
            with_external_ops (resolve_write op_idx observation)
              (with_external_pending (delete key (external_pending_writes st)) st)
        | None => st
        end
      else
        match pending_writes st !! key with
        | Some op_idx =>
            with_ops (resolve_write op_idx observation)
              (with_pending (delete key (pending_writes st)) st)
        | None => st
        end
  end.

Definition on_rename (process : ProcessInstance) (from_path to_path : string) (flags : Z)
    (external : bool) (observation : FileObservation) (st : CanonState) : CanonState :=
  let fallback := fallback_external st process external
    (is_watched_path from_path watch_prefixes || is_watched_path to_path watch_prefixes) in
  let id := identity observation in
  let args := ["flags:" +:+ hex_u32 flags] in
  if external || fallback then
    push_external (mkOp OpExternalFileRename U32_MAX None args [id] [id])
      (mark_fallback process st)
  else
    let st := assign_index process st in
    push_op (mkOp OpFileRename (index_of st process) (process_to_tool_hash st !! process)
               args [id] [id]) st.

Definition on_unlink (process : ProcessInstance) (path : string) (flags : Z)
    (external : bool) (observation : FileObservation) (st : CanonState) : CanonState :=
  let fallback := fallback_external st process external
    (is_watched_path path watch_prefixes) in
  let args := ["flags:" +:+ hex_u32 flags] in
  if external || fallback then
    push_external (mkOp OpExternalFileDelete U32_MAX None args [identity observation] [])
      (mark_fallback process st)
  else
    let st := assign_index process st in
    push_op (mkOp OpFileDelete (index_of st process) (process_to_tool_hash st !! process)
               args [identity observation] []) st.

Definition on_exit (process : ProcessInstance) (exit_code : Z) (st : CanonState) : CanonState :=
  match process_to_index st !! process with
  | None => st
  | Some proc_idx =>
      let args :=
        if lifetime process =?= lifetime root_process
        then ["exit:" +:+ decimal exit_code] else [] in
      push_op (mkOp OpExit proc_idx (process_to_tool_hash st !! process) args [] []) st
  end.

(** The body of the loop. *)
Definition canonicalize_event (st : CanonState) (event : TracedEvent) : CanonState :=
  match event with
  | Exec process observation => on_exec process observation st
  | Fork parent child => on_fork parent child st
  | FileOpen process path flags fd external observation =>
      on_open process path flags fd external observation st
  | FileMmap process fd prot flags path external observation =>
      on_mmap process fd prot flags path external observation st
  | FileClose process fd path external observation =>
      on_close process fd path external observation st
  | FileRename process from_path to_path flags external observation =>
      on_rename process from_path to_path flags external observation st
  | FileUnlink process path flags external observation =>
      on_unlink process path flags external observation st
  | Exit process exit_code => on_exit process exit_code st
  end.

Definition run_events (events : list TracedEvent) : CanonState :=
  foldl canonicalize_event (initial_state root_process) events.

(** The operations before [finalize_ops]: [ops.extend(external_ops)]. *)
Definition raw_ops (events : list TracedEvent) : list CanonicalOp :=
  ops (run_events events) ++ external_ops (run_events events).

(** The function always returns [Ok]. *)
Definition canonicalize_events `{Sha256} (events : list TracedEvent) : list CanonicalOp :=
  finalize_ops (raw_ops events).
End events.
