(* ===== verification/CanonInvariant.v ===== *)
(** * Invariant of the canonicalisation loop

    Every operation the loop records has the shape its type promises, the root
    process keeps index 0, and every index in a [pending_writes] table points
    at a write operation of the matching list, so [ops.get_mut(op_idx)] never
    misses.  The invariant is proved for the primitive updates and lifted to
    each arm of the loop by proof search in the [canon] hint database. *)
From S2P Require Export Canonicalize.

Create HintDb canon discriminated.

(** ** Shapes of operations *)

Definition rename_args (l : list string) : Prop := ∃ flags, l = ["flags:" +:+ hex_u32 flags].

(** Operations of the fork tree, in [ops]. *)
Definition tree_shape (op : CanonicalOp) : Prop :=
  match op_type op with
  | OpExec =>
      is_Some (tool_hash op) ∧ args op = [] ∧ input_hashes op = [] ∧ output_hashes op = []
  | OpFileRead =>
      (args op = [] ∨ args op = ["mmap"]) ∧
      (∃ o, input_hashes op = [identity o]) ∧ output_hashes op = []
  | OpFileWrite =>
      args op = [] ∧ input_hashes op = [] ∧
      (output_hashes op = [] ∨ ∃ o, output_hashes op = [identity o])
  | OpFileRename =>
      rename_args (args op) ∧
      ∃ o, input_hashes op = [identity o] ∧ output_hashes op = [identity o]
  | OpFileDelete =>
      rename_args (args op) ∧ (∃ o, input_hashes op = [identity o]) ∧ output_hashes op = []
  | OpSystemStateRead =>
      args op = [] ∧ input_hashes op = [SYSTEM_STATE_SENTINEL] ∧ output_hashes op = []
  | OpExit =>
      (args op = [] ∨ ∃ code, args op = ["exit:" +:+ decimal code]) ∧
      input_hashes op = [] ∧ output_hashes op = []
  | _ => False
  end.

(** Operations of external processes, in [external_ops]: no process, no tool. *)
Definition external_shape (op : CanonicalOp) : Prop :=
  process_index op = U32_MAX ∧ tool_hash op = None ∧
  match op_type op with
  | OpExternalFileRead =>
      (args op = [] ∨ args op = ["mmap"]) ∧
      (∃ o, input_hashes op = [identity o]) ∧ output_hashes op = []
  | OpExternalFileWrite =>
      args op = [] ∧ input_hashes op = [] ∧
      (output_hashes op = [] ∨ ∃ o, output_hashes op = [identity o])
  | OpExternalFileRename =>
      rename_args (args op) ∧
      ∃ o, input_hashes op = [identity o] ∧ output_hashes op = [identity o]
  | OpExternalFileDelete =>
      rename_args (args op) ∧ (∃ o, input_hashes op = [identity o]) ∧ output_hashes op = []
  | _ => False
  end.

(** Every entry of [pending] is the index of an operation of type [ty] in [l]. *)
Definition pending_valid (ty : OpType) (pending : gmap (ProcessLifetime * Z) nat)
    (l : list CanonicalOp) : Prop :=
  ∀ k i, pending !! k = Some i → ∃ op, l !! i = Some op ∧ op_type op = ty.

Record canon_inv (root_process : ProcessInstance) (st : CanonState) : Prop := {
  inv_root : process_to_index st !! root_process = Some 0%Z;
  inv_pending : pending_valid OpFileWrite (pending_writes st) (ops st);
  inv_external : pending_valid OpExternalFileWrite (external_pending_writes st) (external_ops st);
  inv_tree : Forall tree_shape (ops st);
  inv_external_shape : Forall external_shape (external_ops st)
}.

(** ** Primitive updates *)

Lemma pending_valid_app ty pending l l' :
  pending_valid ty pending l → pending_valid ty pending (l ++ l').
Proof.
  intros Hv k i Hi. destruct (Hv k i Hi) as (op & Hop & Hty).
  exists op. split; [|done]. by apply lookup_app_l_Some.
Qed.

Lemma pending_valid_insert ty pending l k op :
  pending_valid ty pending l → op_type op = ty →
  pending_valid ty (<[k := length l]> pending) (l ++ [op]).
Proof.
  intros Hv Hty k' i. rewrite lookup_insert. case_decide as Hk.
  - intros [= <-]. exists op. split; [|done]. by rewrite lookup_app_r, Nat.sub_diag by done.
  - intros Hi. by eapply pending_valid_app.
Qed.

Lemma pending_valid_delete ty pending l k :
  pending_valid ty pending l → pending_valid ty (delete k pending) l.
Proof. intros Hv k' i. rewrite lookup_delete_Some. intros [_ Hi]. eauto. Qed.

Lemma pending_valid_resolve ty pending l j o :
  pending_valid ty pending l → pending_valid ty pending (resolve_write j o l).
Proof.
  intros Hv k i Hi. destruct (Hv k i Hi) as (op & Hop & Hty).
  destruct o as [o|]; simpl; [|eauto]. rewrite list_lookup_alter.
  case_decide; subst; rewrite Hop; eauto.
Qed.

Lemma pending_valid_inherit ty pending l parent child :
  pending_valid ty pending l → pending_valid ty (inherit_pending parent child pending) l.
Proof. intros Hv [k fd] i. rewrite lookup_inherit_pending. repeat case_match; naive_solver. Qed.

#[export] Hint Resolve pending_valid_app pending_valid_insert pending_valid_delete
  pending_valid_resolve pending_valid_inherit : canon.

Lemma Forall_snoc_2 {A} (P : A → Prop) l x : Forall P l → P x → Forall P (l ++ [x]).
Proof. intros. apply Forall_app. by repeat constructor. Qed.

(** Closing a write keeps the shape of every operation of the list. *)
Lemma Forall_resolve_write (P : CanonicalOp → Prop) ty pending k l i o :
  pending_valid ty pending l → pending !! k = Some i → Forall P l →
  (∀ op h, op_type op = ty → P op → P (set_output (identity h) op)) →
  Forall P (resolve_write i o l).
Proof.
  intros Hv Hi Hl HP. destruct o as [o|]; [|done]. simpl.
  destruct (Hv k i Hi) as (op & Hop & Hty). apply Forall_alter; [done|].
  intros op' Hop' ?. simplify_eq. by apply HP.
Qed.

Lemma tree_shape_set_output op o :
  op_type op = OpFileWrite → tree_shape op → tree_shape (set_output (identity o) op).
Proof. intros Hty. unfold tree_shape, set_output. simpl. rewrite Hty. naive_solver. Qed.

Lemma external_shape_set_output op o :
  op_type op = OpExternalFileWrite →
  external_shape op → external_shape (set_output (identity o) op).
Proof. intros Hty. unfold external_shape, set_output. simpl. rewrite Hty. naive_solver. Qed.

#[export] Hint Resolve Forall_snoc_2 tree_shape_set_output external_shape_set_output : canon.

Section invariant.
Context (root_process : ProcessInstance).
Abbreviation inv := (canon_inv root_process).

Lemma inv_initial : inv (initial_state root_process).
Proof.
  split; simpl; [apply lookup_singleton_eq| | |constructor..]; intros k i;
    by rewrite lookup_empty.
Qed.

Lemma inv_assign_index p st : inv st → inv (assign_index p st).
Proof.
  intros []. unfold assign_index. destruct (process_to_index st !! p) eqn:Hp; [done|].
  split; simpl; [|done..]. rewrite lookup_insert_ne; [done|congruence].
Qed.

Lemma inv_push_op op st : inv st → tree_shape op → inv (push_op op st).
Proof. intros [] ?. split; simpl; eauto with canon. Qed.

Lemma inv_push_external op st : inv st → external_shape op → inv (push_external op st).
Proof. intros [] ?. split; simpl; eauto with canon. Qed.

Lemma inv_with_tools m st : inv st → inv (with_tools m st).
Proof. by intros []; split. Qed.

Lemma inv_mark_fallback p st : inv st → inv (mark_fallback p st).
Proof. by intros []; split. Qed.

Lemma inv_inherit parent child st :
  inv st → inv (with_pending (inherit_pending parent child (pending_writes st)) st).
Proof. intros []. split; simpl; eauto with canon. Qed.

Lemma inv_push_write k op st :
  inv st → tree_shape op → op_type op = OpFileWrite →
  inv (with_pending (<[k := length (ops st)]> (pending_writes (push_op op st)))
         (push_op op st)).
Proof. intros [] ??. split; simpl; eauto with canon. Qed.

Lemma inv_push_external_write k op st :
  inv st → external_shape op → op_type op = OpExternalFileWrite →
  inv (with_external_pending
         (<[k := length (external_ops st)]> (external_pending_writes (push_external op st)))
         (push_external op st)).
Proof. intros [] ??. split; simpl; eauto with canon. Qed.

Lemma inv_close k i o st :
  inv st → pending_writes st !! k = Some i →
  inv (with_ops (resolve_write i o) (with_pending (delete k (pending_writes st)) st)).
Proof.
  intros [] Hi. split; simpl; eauto with canon.
  eapply Forall_resolve_write; eauto with canon.
Qed.

Lemma inv_external_close k i o st :
  inv st → external_pending_writes st !! k = Some i →
  inv (with_external_ops (resolve_write i o)
         (with_external_pending (delete k (external_pending_writes st)) st)).
Proof.
  intros [] Hi. split; simpl; eauto with canon.
  eapply Forall_resolve_write; eauto with canon.
Qed.
End invariant.

#[export] Hint Resolve inv_initial inv_assign_index inv_push_op inv_push_external
  inv_with_tools inv_mark_fallback inv_inherit inv_push_write inv_push_external_write
  inv_close inv_external_close : canon.

(** The operations the arms build have their shape. *)
#[export] Hint Extern 2 (tree_shape _) =>
  (unfold tree_shape, rename_args; simpl; eauto 10) : canon.
#[export] Hint Extern 2 (external_shape _) =>
  (unfold external_shape, rename_args; simpl; eauto 10) : canon.
#[export] Hint Extern 1 (op_type _ = _) => reflexivity : canon.

(** ** The arms of the loop *)

(** Opens the definitions of the arms and splits on their guards. *)
Ltac canon_arm :=
  unfold on_exec, on_fork, on_open, on_mmap, on_close, on_rename, on_unlink, on_exit;
  cbv zeta; repeat case_match.

Section loop.
Context (root_process : ProcessInstance) (watch_prefixes : list string).

Lemma inv_event st event :
  canon_inv root_process st →
  canon_inv root_process (canonicalize_event root_process watch_prefixes st event).
Proof.
  intros Hinv. destruct event; unfold canonicalize_event; canon_arm; eauto 8 with canon.
Qed.

Lemma inv_run events :
  canon_inv root_process (run_events root_process watch_prefixes events).
Proof.
  unfold run_events. assert (Hinv := inv_initial root_process). revert Hinv.
  generalize (initial_state root_process).
  induction events as [|e events IH]; intros st Hst; simpl; [done|].
  apply IH. by apply inv_event.
Qed.

(** C11. Type invariant of the loop: after any trace every recorded operation
    has the shape of its type (an external one names no process and no tool),
    the root process has index 0, and every pending write of a descriptor is
    the index of a write operation. *)
Theorem canon_inv_run events :
  canon_inv root_process (run_events root_process watch_prefixes events).
Proof. apply inv_run. Qed.
End loop.
