(* ===== verification/CanonRenaming.v ===== *)
(** * Canonicalisation does not depend on process identifiers

    The kernel chooses PIDs, and the tracer chooses generations; two runs that
    differ only in them are related by an injective renaming of lifetimes.  The
    loop is run on both traces in lockstep: [renamed] relates its states, and
    every arm preserves it, so both runs record the same operations. *)
From S2P Require Export Canonicalize.

Create HintDb renaming discriminated.

Section renaming.
Context (ρ : ProcessLifetime → ProcessLifetime) `{Hρ : !Inj (=) (=) ρ}.
Implicit Types (st : CanonState) (p : ProcessInstance) (l : ProcessLifetime) (fd : Z).

Definition rename_instance (p : ProcessInstance) : ProcessInstance :=
  mkInstance (ρ (lifetime p)) (exec_epoch p).

#[local] Instance rename_instance_inj : Inj (=) (=) rename_instance.
Proof. intros [l1 e1] [l2 e2] [= Hl ->]. by apply (inj ρ) in Hl as ->. Qed.

Definition rename_event (e : TracedEvent) : TracedEvent :=
  match e with
  | Exec p o => Exec (rename_instance p) o
  | Fork p c => Fork (rename_instance p) (rename_instance c)
  | FileOpen p path flags fd ext o => FileOpen (rename_instance p) path flags fd ext o
  | FileClose p fd path ext o => FileClose (rename_instance p) fd path ext o
  | FileMmap p fd prot flags path ext o =>
      FileMmap (rename_instance p) fd prot flags path ext o
  | FileRename p from to flags ext o => FileRename (rename_instance p) from to flags ext o
  | FileUnlink p path flags ext o => FileUnlink (rename_instance p) path flags ext o
  | Exit p code => Exit (rename_instance p) code
  end.

(** The tables agree along the renaming; the recorded operations are equal. *)
Record renamed (st1 st2 : CanonState) : Prop := {
  rn_index p : process_to_index st1 !! p = process_to_index st2 !! rename_instance p;
  rn_next : next_index st1 = next_index st2;
  rn_pending l fd : pending_writes st1 !! (l, fd) = pending_writes st2 !! (ρ l, fd);
  rn_ops : ops st1 = ops st2;
  rn_external_ops : external_ops st1 = external_ops st2;
  rn_external l fd :
    external_pending_writes st1 !! (l, fd) = external_pending_writes st2 !! (ρ l, fd);
  rn_fallback l :
    l ∈ fallback_external_processes st1 ↔ ρ l ∈ fallback_external_processes st2;
  rn_tool p : process_to_tool_hash st1 !! p = process_to_tool_hash st2 !! rename_instance p
}.

(** ** Tables along the renaming *)

Lemma lookup_insert_renamed {A} (m1 m2 : gmap ProcessInstance A) p x q :
  (∀ q, m1 !! q = m2 !! rename_instance q) →
  <[p := x]> m1 !! q = <[rename_instance p := x]> m2 !! rename_instance q.
Proof.
  intros Hm. rewrite !lookup_insert, Hm. repeat case_decide; simplify_eq; done.
Qed.

Lemma lookup_insert_key (m1 m2 : gmap (ProcessLifetime * Z) nat) l fd x l' fd' :
  (∀ l fd, m1 !! (l, fd) = m2 !! (ρ l, fd)) →
  <[(l, fd) := x]> m1 !! (l', fd') = <[(ρ l, fd) := x]> m2 !! (ρ l', fd').
Proof.
  intros Hm. rewrite !lookup_insert, Hm.
  repeat case_decide; simplify_eq; congruence.
Qed.

Lemma lookup_delete_key (m1 m2 : gmap (ProcessLifetime * Z) nat) l fd l' fd' :
  (∀ l fd, m1 !! (l, fd) = m2 !! (ρ l, fd)) →
  delete (l, fd) m1 !! (l', fd') = delete (ρ l, fd) m2 !! (ρ l', fd').
Proof.
  intros Hm. rewrite !lookup_delete, Hm.
  repeat case_decide; simplify_eq; congruence.
Qed.

Lemma lookup_inherit_renamed (m1 m2 : gmap (ProcessLifetime * Z) nat) parent child l fd :
  (∀ l fd, m1 !! (l, fd) = m2 !! (ρ l, fd)) →
  inherit_pending parent child m1 !! (l, fd) =
  inherit_pending (ρ parent) (ρ child) m2 !! (ρ l, fd).
Proof.
  intros Hm. rewrite !lookup_inherit_pending, !Hm.
  repeat case_decide; simplify_eq; congruence.
Qed.

Hint Resolve lookup_insert_renamed lookup_insert_key lookup_delete_key
  lookup_inherit_renamed : renaming.

(** ** Primitive updates *)

Lemma rn_assign_index p st1 st2 :
  renamed st1 st2 → renamed (assign_index p st1) (assign_index (rename_instance p) st2).
Proof.
  intros Hr. pose proof Hr as []. unfold assign_index. rewrite <- rn_index0.
  destruct (process_to_index st1 !! p); [done|].
  split; simpl; auto; [|congruence]. rewrite rn_next0. auto with renaming.
Qed.

Lemma rn_push_op op st1 st2 :
  renamed st1 st2 → renamed (push_op op st1) (push_op op st2).
Proof. intros []. split; simpl; auto. congruence. Qed.

Lemma rn_push_external op st1 st2 :
  renamed st1 st2 → renamed (push_external op st1) (push_external op st2).
Proof. intros []. split; simpl; auto. congruence. Qed.

Lemma rn_mark_fallback p st1 st2 :
  renamed st1 st2 → renamed (mark_fallback p st1) (mark_fallback (rename_instance p) st2).
Proof.
  intros []. split; simpl; auto. intros l. rewrite !elem_of_union, !elem_of_singleton.
  rewrite rn_fallback0. split; (intros [Heq|]; [left|by right]).
  - by subst.
  - by apply (inj ρ).
Qed.

Lemma rn_with_tools p tool st1 st2 :
  renamed st1 st2 →
  renamed (with_tools (<[p := tool]> (process_to_tool_hash st1)) st1)
    (with_tools (<[rename_instance p := tool]> (process_to_tool_hash st2)) st2).
Proof. intros []. split; simpl; auto with renaming. Qed.

Lemma rn_inherit l c st1 st2 :
  renamed st1 st2 →
  renamed (with_pending (inherit_pending l c (pending_writes st1)) st1)
    (with_pending (inherit_pending (ρ l) (ρ c) (pending_writes st2)) st2).
Proof. intros []. split; simpl; auto with renaming. Qed.

Lemma rn_insert_pending l fd st1 st2 st1' st2' :
  renamed st1' st2' → renamed st1 st2 →
  renamed
    (with_pending (<[(l, fd) := length (ops st1')]> (pending_writes st1)) st1)
    (with_pending (<[(ρ l, fd) := length (ops st2')]> (pending_writes st2)) st2).
Proof. intros [] []. split; simpl; auto. rewrite rn_ops0. auto with renaming. Qed.

Lemma rn_insert_external l fd st1 st2 st1' st2' :
  renamed st1' st2' → renamed st1 st2 →
  renamed
    (with_external_pending
      (<[(l, fd) := length (external_ops st1')]> (external_pending_writes st1)) st1)
    (with_external_pending
      (<[(ρ l, fd) := length (external_ops st2')]> (external_pending_writes st2)) st2).
Proof. intros [] []. split; simpl; auto. rewrite rn_external_ops0. auto with renaming. Qed.

Lemma rn_close l fd i o st1 st2 :
  renamed st1 st2 →
  renamed
    (with_ops (resolve_write i o) (with_pending (delete (l, fd) (pending_writes st1)) st1))
    (with_ops (resolve_write i o)
      (with_pending (delete (ρ l, fd) (pending_writes st2)) st2)).
Proof. intros []. split; simpl; auto with renaming. congruence. Qed.

Lemma rn_external_close l fd i o st1 st2 :
  renamed st1 st2 →
  renamed
    (with_external_ops (resolve_write i o)
      (with_external_pending (delete (l, fd) (external_pending_writes st1)) st1))
    (with_external_ops (resolve_write i o)
      (with_external_pending (delete (ρ l, fd) (external_pending_writes st2)) st2)).
Proof. intros []. split; simpl; auto with renaming. congruence. Qed.

Hint Resolve rn_assign_index rn_push_op rn_push_external rn_mark_fallback rn_with_tools
  rn_inherit rn_insert_pending rn_insert_external rn_close rn_external_close : renaming.

(** ** Tests of the arms *)

Lemma rn_is_root p root :
  (lifetime (rename_instance p) =?= lifetime (rename_instance root))
  = (lifetime p =?= lifetime root).
Proof. apply bool_decide_ext. simpl. split; [apply (inj ρ)|congruence]. Qed.

Lemma rn_fallback_external root p ext w st1 st2 :
  renamed st1 st2 →
  fallback_external (rename_instance root) st2 (rename_instance p) ext w
  = fallback_external root st1 p ext w.
Proof.
  intros []. unfold fallback_external. rewrite rn_is_root, <- rn_tool0. simpl.
  f_equal. f_equal. apply bool_decide_ext. by rewrite rn_fallback0.
Qed.

Lemma rn_index_of p st1 st2 :
  renamed st1 st2 → index_of st2 (rename_instance p) = index_of st1 p.
Proof. intros []. unfold index_of. by rewrite rn_index0. Qed.

(** ** The arms *)

Context (root_process : ProcessInstance) (watch_prefixes : list string).
#[local] Abbreviation root' := (rename_instance root_process).

Lemma rn_open p path flags fd ext o st1 st2 :
  renamed st1 st2 →
  renamed (on_open root_process watch_prefixes p path flags fd ext o st1)
    (on_open root' watch_prefixes (rename_instance p) path flags fd ext o st2).
Proof.
  intros Hr. unfold on_open. cbv zeta. rewrite (rn_fallback_external _ _ _ _ st1) by done.
  case_match; [done|]. case_match; [repeat case_match; auto 7 with renaming|].
  pose proof (rn_assign_index p _ _ Hr) as Hs.
  rewrite (rn_index_of _ _ _ Hs), <- (rn_tool _ _ Hs).
  repeat case_match; auto 7 with renaming.
Qed.

Lemma rn_mmap p fd prot flags path ext o st1 st2 :
  renamed st1 st2 →
  renamed (on_mmap root_process watch_prefixes p fd prot flags path ext o st1)
    (on_mmap root' watch_prefixes (rename_instance p) fd prot flags path ext o st2).
Proof.
  intros Hr. unfold on_mmap. cbv zeta. case_match; [done|].
  destruct path as [path|]; [|done]. destruct o as [o|]; [|done].
  rewrite (rn_fallback_external _ _ _ _ st1) by done.
  change (lifetime (rename_instance p)) with (ρ (lifetime p)).
  case_match.
  - pose proof (rn_push_external (mkOp OpExternalFileRead U32_MAX None ["mmap"] [identity o] [])
      _ _ (rn_mark_fallback p _ _ Hr)) as Hs.
    rewrite <- (rn_external _ _ Hs). repeat case_match; auto 7 with renaming.
  - pose proof (rn_assign_index p _ _ Hr) as Hs.
    rewrite (rn_index_of _ _ _ Hs), <- (rn_tool _ _ Hs).
    case_match; [auto with renaming|].
    match goal with |- context [push_op ?op (assign_index p st1)] =>
      pose proof (rn_push_op op _ _ Hs) as Hs' end.
    rewrite <- (rn_pending _ _ Hs'). repeat case_match; auto 7 with renaming.
Qed.

Lemma rn_close_event p fd path ext o st1 st2 :
  renamed st1 st2 →
  renamed (on_close root_process watch_prefixes p fd path ext o st1)
    (on_close root' watch_prefixes (rename_instance p) fd path ext o st2).
Proof.
  intros Hr. unfold on_close. cbv zeta. destruct path as [path|]; [|done].
  rewrite rn_is_root. simpl.
  rewrite <- (rn_external _ _ Hr), <- (rn_pending _ _ Hr).
  rewrite (bool_decide_ext _ _ (rn_fallback _ _ Hr (lifetime p))).
  repeat case_match; auto with renaming.
Qed.

Lemma rn_rename_event p from to flags ext o st1 st2 :
  renamed st1 st2 →
  renamed (on_rename root_process watch_prefixes p from to flags ext o st1)
    (on_rename root' watch_prefixes (rename_instance p) from to flags ext o st2).
Proof.
  intros Hr. unfold on_rename. cbv zeta. rewrite (rn_fallback_external _ _ _ _ st1) by done.
  case_match; [auto with renaming|]. pose proof (rn_assign_index p _ _ Hr) as Hs.
  rewrite (rn_index_of _ _ _ Hs), <- (rn_tool _ _ Hs). auto with renaming.
Qed.

Lemma rn_unlink p path flags ext o st1 st2 :
  renamed st1 st2 →
  renamed (on_unlink root_process watch_prefixes p path flags ext o st1)
    (on_unlink root' watch_prefixes (rename_instance p) path flags ext o st2).
Proof.
  intros Hr. unfold on_unlink. cbv zeta. rewrite (rn_fallback_external _ _ _ _ st1) by done.
  case_match; [auto with renaming|]. pose proof (rn_assign_index p _ _ Hr) as Hs.
  rewrite (rn_index_of _ _ _ Hs), <- (rn_tool _ _ Hs). auto with renaming.
Qed.

Lemma rn_event e st1 st2 :
  renamed st1 st2 →
  renamed (canonicalize_event root_process watch_prefixes st1 e)
    (canonicalize_event root' watch_prefixes st2 (rename_event e)).
Proof.
  intros Hr. destruct e; simpl; auto using rn_open, rn_mmap, rn_close_event,
    rn_rename_event, rn_unlink.
  - unfold on_exec. cbv zeta. pose proof (rn_assign_index process _ _ Hr) as Hs.
    rewrite (rn_index_of _ _ _ Hs). auto with renaming.
  - unfold on_fork. cbv zeta. rewrite <- (rn_tool _ _ Hr).
    case_match; apply (rn_inherit (lifetime parent) (lifetime child)); auto with renaming.
  - unfold on_exit. cbv zeta. rewrite <- (rn_index _ _ Hr), rn_is_root.
    rewrite <- (rn_tool _ _ Hr). case_match; auto with renaming.
Qed.

Lemma rn_initial : renamed (initial_state root_process) (initial_state root').
Proof.
  split; simpl; auto; try (intros; by rewrite !lookup_empty).
  intros p. rewrite !lookup_singleton. repeat case_decide; simplify_eq; done.
Qed.

Lemma rn_run events :
  renamed (run_events root_process watch_prefixes events)
    (run_events root' watch_prefixes (rename_event <$> events)).
Proof.
  unfold run_events. assert (Hr := rn_initial). revert Hr.
  generalize (initial_state root_process), (initial_state root').
  induction events as [|e events IH]; intros st1 st2 Hr; simpl; [done|].
  apply IH. by apply rn_event.
Qed.

(** A trace canonicalises to the same operations, process indices
    included, whatever PIDs and generations the kernel and the tracer gave
    its processes. *)
Theorem canonicalize_events_pid_independent `{Sha256} events :
  canonicalize_events root' watch_prefixes (rename_event <$> events)
  = canonicalize_events root_process watch_prefixes events.
Proof.
  unfold canonicalize_events, raw_ops.
  pose proof (rn_run events) as Hr. by rewrite (rn_ops _ _ Hr), (rn_external_ops _ _ Hr).
Qed.
End renaming.

(** ** Example: every PID moved by 1000, as in another run of one build *)

Module RenamingExamples.
Import Toy.

Definition shift_pid (l : ProcessLifetime) : ProcessLifetime :=
  mkLifetime (pid l + 1000) (generation l).

#[export] Instance shift_pid_inj : Inj (=) (=) shift_pid.
Proof. intros [p g] [q h] [= Hp ->]. f_equal. lia. Qed.

Definition sh : ProcessInstance := mkInstance (mkLifetime 41 0) 0.
Definition cc : ProcessInstance := mkInstance (mkLifetime 42 0) 1.

Definition small_build : list TracedEvent :=
  [Exec sh (Content (digest "sh")); Fork sh cc; Exec cc (Content (digest "cc"));
   FileOpen cc "/w/a.c" 0 3 false (Content (digest "src"));
   FileOpen cc "/w/a.o" 1 4 false (Missing (digest "a.o"));
   FileClose cc 4 (Some "/w/a.o") false (Some (Content (digest "obj")));
   Exit cc 0; Exit sh 0].

Lemma canonicalize_events_pid_independent_witness :
  length (canonicalize_events sh ["/w"] small_build) = 6 ∧
  canonicalize_events (rename_instance shift_pid sh) ["/w"]
    (rename_event shift_pid <$> small_build)
  = canonicalize_events sh ["/w"] small_build.
Proof.
  split; [vm_compute; done|]. apply (canonicalize_events_pid_independent shift_pid).
Defined.
End RenamingExamples.
