(* ===== verification/CanonProduct.v ===== *)
(** * The canonicalisation loop as a product of per-process programs

    [canonicalize_events] is one loop over the interleaved events of all
    processes, with shared tables.  The specification here gives each process
    lifetime a state of its own: an event changes the state of one lifetime,
    looking at one other at most (a fork looks at the parent), and a close
    records the contents of a write in a table of outputs.  Operations carry no
    position in a shared list and no process index.  CanonLockstep proves
    that the loop commits to exactly the operations of this product. *)
From S2P Require Export Canonicalize.

(** ** The state of one process lifetime *)

(** A write is named by the lifetime that opened it and its position among that
    lifetime's operations; it is recorded with the descriptor it was opened at. *)
Abbreviation WriteId := (ProcessLifetime * nat)%type.

Record Log := mkLog {
  entries : list (CanonicalOp * option Z);
  open_writes : gmap Z WriteId
}.

Record Local := mkLocal {
  indexed : gset Z;
  tools : gmap Z string;
  fallback : bool;
  tree : Log;
  external : Log
}.

Definition no_log : Log := mkLog [] ∅.
Definition no_local : Local := mkLocal ∅ ∅ false no_log no_log.

Definition log_push (op : CanonicalOp) (g : Log) : Log :=
  mkLog (entries g ++ [(op, None)]) (open_writes g).
Definition log_write (l : ProcessLifetime) (fd : Z) (op : CanonicalOp) (g : Log) : Log :=
  mkLog (entries g ++ [(op, Some fd)]) (<[fd := (l, length (entries g))]> (open_writes g)).
Definition log_close (fd : Z) (g : Log) : Log := mkLog (entries g) (delete fd (open_writes g)).
Definition log_inherit (parent : Log) (g : Log) : Log :=
  mkLog (entries g) (open_writes parent ∪ open_writes g).

Definition on_tree (f : Log → Log) (me : Local) : Local :=
  mkLocal (indexed me) (tools me) (fallback me) (f (tree me)) (external me).
Definition on_external (f : Log → Log) (me : Local) : Local :=
  mkLocal (indexed me) (tools me) (fallback me) (tree me) (f (external me)).
Definition local_index (epoch : Z) (me : Local) : Local :=
  mkLocal ({[epoch]} ∪ indexed me) (tools me) (fallback me) (tree me) (external me).
Definition local_tool (epoch : Z) (tool : string) (me : Local) : Local :=
  mkLocal (indexed me) (<[epoch := tool]> (tools me)) (fallback me) (tree me) (external me).
Definition local_mark (me : Local) : Local :=
  mkLocal (indexed me) (tools me) true (tree me) (external me).

(** ** One event in the state of its lifetime *)

Section local.
Context (root_process : ProcessInstance) (watch_prefixes : list string).

Definition local_fallback (p : ProcessInstance) (ext watched : bool) (me : Local) : bool :=
  negb ext && negb (lifetime p =?= lifetime root_process) && watched
  && (fallback me || negb (bool_decide (is_Some (tools me !! exec_epoch p)))).

Definition plain_op (ty : OpType) (tool : option string) (args ins outs : list string) : CanonicalOp :=
  mkOp ty 0 tool args ins outs.

Definition local_open (p : ProcessInstance) (path : string) (flags fd : Z) (ext : bool)
    (o : FileObservation) (me : Local) : Local :=
  let watched := is_watched_path path watch_prefixes in
  let l := lifetime p in
  if ext && negb watched then me
  else if ext || local_fallback p ext watched me then
    let me := local_mark me in
    let me := if can_read flags then
                on_external (log_push (plain_op OpExternalFileRead None [] [identity o] [])) me
              else me in
    if can_write flags then on_external (log_write l fd (plain_op OpExternalFileWrite None [] [] [])) me
    else me
  else
    let me := local_index (exec_epoch p) me in
    let tool := tools me !! exec_epoch p in
    if is_system_state path then
      on_tree (log_push (plain_op OpSystemStateRead tool [] [SYSTEM_STATE_SENTINEL] [])) me
    else
      let me := if can_read flags then
                  on_tree (log_push (plain_op OpFileRead tool [] [identity o] [])) me
                else me in
      if can_write flags then on_tree (log_write l fd (plain_op OpFileWrite tool [] [] [])) me
      else me.

Definition local_mmap (p : ProcessInstance) (fd prot flags : Z) (path : option string) (ext : bool)
    (o : option FileObservation) (me : Local) : Local :=
  let l := lifetime p in
  match path, o with
  | Some path, Some o =>
      let watched := is_watched_path path watch_prefixes in
      if ext && negb watched then me
      else if ext || local_fallback p ext watched me then
        let me := on_external (log_push (plain_op OpExternalFileRead None ["mmap"] [identity o] []))
                    (local_mark me) in
        if mmap_is_write prot flags && negb (bool_decide (is_Some (open_writes (external me) !! fd)))
        then on_external (log_write l fd (plain_op OpExternalFileWrite None [] [] [])) me
        else me
      else
        let me := local_index (exec_epoch p) me in
        let tool := tools me !! exec_epoch p in
        if is_system_state path then
          on_tree (log_push (plain_op OpSystemStateRead tool [] [SYSTEM_STATE_SENTINEL] [])) me
        else
          let me := on_tree (log_push (plain_op OpFileRead tool ["mmap"] [identity o] [])) me in
          if mmap_is_write prot flags && negb (bool_decide (is_Some (open_writes (tree me) !! fd)))
          then on_tree (log_write l fd (plain_op OpFileWrite tool [] [] [])) me
          else me
  | _, _ => me
  end.

(** Whether a close concerns the external table. *)
Definition closes_external (p : ProcessInstance) (path : string) (ext : bool) (me : Local) : bool :=
  ext || (negb ext && negb (lifetime p =?= lifetime root_process) && fallback me
          && is_watched_path path watch_prefixes).

Definition local_close (p : ProcessInstance) (fd : Z) (path : option string) (ext : bool) (me : Local)
    : Local :=
  match path with
  | None => me
  | Some path =>
      if closes_external p path ext me then on_external (log_close fd) me else on_tree (log_close fd) me
  end.

Definition local_rename (p : ProcessInstance) (from to : string) (flags : Z) (ext : bool)
    (o : FileObservation) (me : Local) : Local :=
  let args := ["flags:" +:+ hex_u32 flags] in
  if ext || local_fallback p ext
              (is_watched_path from watch_prefixes || is_watched_path to watch_prefixes) me then
    on_external (log_push (plain_op OpExternalFileRename None args [identity o] [identity o]))
      (local_mark me)
  else
    let me := local_index (exec_epoch p) me in
    on_tree (log_push (plain_op OpFileRename (tools me !! exec_epoch p) args [identity o] [identity o])) me.

Definition local_unlink (p : ProcessInstance) (path : string) (flags : Z) (ext : bool)
    (o : FileObservation) (me : Local) : Local :=
  let args := ["flags:" +:+ hex_u32 flags] in
  if ext || local_fallback p ext (is_watched_path path watch_prefixes) me then
    on_external (log_push (plain_op OpExternalFileDelete None args [identity o] [])) (local_mark me)
  else
    let me := local_index (exec_epoch p) me in
    on_tree (log_push (plain_op OpFileDelete (tools me !! exec_epoch p) args [identity o] [])) me.

Definition local_exit (p : ProcessInstance) (code : Z) (me : Local) : Local :=
  if bool_decide (exec_epoch p ∈ indexed me) then
    let args := if lifetime p =?= lifetime root_process then ["exit:" +:+ decimal code] else [] in
    on_tree (log_push (plain_op OpExit (tools me !! exec_epoch p) args [] [])) me
  else me.

Definition local_exec (p : ProcessInstance) (o : FileObservation) (me : Local) : Local :=
  on_tree (log_push (plain_op OpExec (Some (identity o)) [] [] []))
    (local_tool (exec_epoch p) (identity o) (local_index (exec_epoch p) me)).

Definition local_fork (parent child : ProcessInstance) (parent_state me : Local) : Local :=
  on_tree (log_inherit (tree parent_state))
    match tools parent_state !! exec_epoch parent with
    | Some tool => local_tool (exec_epoch child) tool me
    | None => me
    end.

(** The lifetime whose state an event changes, and the one it looks at besides. *)
Definition writer (e : TracedEvent) : ProcessLifetime :=
  match e with
  | Fork _ child => lifetime child
  | Exec p _ | FileOpen p _ _ _ _ _ | FileClose p _ _ _ _ | FileMmap p _ _ _ _ _ _
  | FileRename p _ _ _ _ _ | FileUnlink p _ _ _ _ | Exit p _ => lifetime p
  end.
Definition reader (e : TracedEvent) : ProcessLifetime :=
  match e with Fork parent _ => lifetime parent | _ => writer e end.

Definition local_step (e : TracedEvent) (seen me : Local) : Local :=
  match e with
  | Exec p o => local_exec p o me
  | Fork parent child => local_fork parent child seen me
  | FileOpen p path flags fd ext o => local_open p path flags fd ext o me
  | FileMmap p fd prot flags path ext o => local_mmap p fd prot flags path ext o me
  | FileClose p fd path ext _ => local_close p fd path ext me
  | FileRename p from to flags ext o => local_rename p from to flags ext o me
  | FileUnlink p path flags ext o => local_unlink p path flags ext o me
  | Exit p code => local_exit p code me
  end.

(** The contents that a close adds to a table of outputs: the write, named with
    its descriptor, and the identity observed. *)
Definition closed_output (is_external : bool) (e : TracedEvent) (me : Local)
    : option (WriteId * Z * string) :=
  match e with
  | FileClose p fd (Some path) ext (Some o) =>
      if bool_decide (closes_external p path ext me = is_external) then
        id ← open_writes (if is_external then external me else tree me) !! fd;
        Some (id, fd, identity o)
      else None
  | _ => None
  end.
End local.

(** ** The product *)

Record Product := mkProduct {
  locals : gmap ProcessLifetime Local;
  tree_outputs : gmap (WriteId * Z) string;
  external_outputs : gmap (WriteId * Z) string
}.

Definition local_of (a : Product) (l : ProcessLifetime) : Local := default no_local (locals a !! l).

Definition add_output (o : option (WriteId * Z * string)) (m : gmap (WriteId * Z) string)
    : gmap (WriteId * Z) string :=
  match o with Some (k, h) => <[k := h]> m | None => m end.

Section product.
Context (root_process : ProcessInstance) (watch_prefixes : list string).

Definition product_step (a : Product) (e : TracedEvent) : Product :=
  let me := local_of a (writer e) in
  mkProduct
    (<[writer e := local_step root_process watch_prefixes e (local_of a (reader e)) me]> (locals a))
    (add_output (closed_output root_process watch_prefixes false e me) (tree_outputs a))
    (add_output (closed_output root_process watch_prefixes true e me) (external_outputs a)).

(** The root process has an index before it does anything. *)
Definition initial_product : Product :=
  mkProduct {[lifetime root_process := local_index (exec_epoch root_process) no_local]} ∅ ∅.

Definition run_product (events : list TracedEvent) : Product :=
  foldl product_step initial_product events.
End product.

(** The operation of an entry: a closed write has the contents of its last close. *)
Definition entry_op (outputs : gmap (WriteId * Z) string) (id : WriteId)
    (entry : CanonicalOp * option Z) : CanonicalOp :=
  match entry.2 with
  | Some fd => match outputs !! (id, fd) with Some h => set_output h entry.1 | None => entry.1 end
  | None => entry.1
  end.

(** The operations of a product. *)
Definition log_op (a : Product) (op : CanonicalOp) : Prop :=
  ∃ l n entry,
    entries (tree (local_of a l)) !! n = Some entry ∧ op = entry_op (tree_outputs a) (l, n) entry ∨
    entries (external (local_of a l)) !! n = Some entry ∧ op = entry_op (external_outputs a) (l, n) entry.
