(* ===== verification/CanonLockstep.v ===== *)
(** * The shared loop in lockstep with the product

    The loop of [canonicalize_events] and the product of [CanonProduct] run side
    by side: the shared lists hold the operations of the lifetimes' logs in the
    order of the schedule, a pending position denotes an open write of its
    lifetime, and the process table knows what the lifetimes know.  Each arm
    keeps this, so the leaves of a trace are those of the product. *)
From S2P Require Export CanonProduct.

Create HintDb product discriminated.

(** ** The shared tables and the tables of the lifetimes *)

Lemma option_Forall2_impl {A B} (P Q : A → B → Prop) x y :
  option_Forall2 P x y → (∀ a b, P a b → Q a b) → option_Forall2 Q x y.
Proof. intros [a b Hab|] HPQ; constructor. by apply HPQ. Qed.

Definition erase_index (op : CanonicalOp) : CanonicalOp :=
  mkOp (op_type op) 0 (tool_hash op) (args op) (input_hashes op) (output_hashes op).

Definition update_log (logs : ProcessLifetime → Log) (o : ProcessLifetime) (f : Log → Log)
    (x : ProcessLifetime) : Log :=
  if decide (x = o) then f (logs o) else logs x.

(** [ids] names the operations of the shared list [l] in its order. *)
Record log_rel (ids : list WriteId) (l : list CanonicalOp) (pending : gmap (ProcessLifetime * Z) nat)
    (logs : ProcessLifetime → Log) (outputs : gmap (WriteId * Z) string) : Prop := {
  lr_length : length ids = length l;
  lr_nodup : NoDup ids;
  lr_ops i id : ids !! i = Some id → ∃ entry op,
    entries (logs id.1) !! id.2 = Some entry ∧ l !! i = Some op ∧
    erase_index op = entry_op outputs id entry;
  lr_all o n : n < length (entries (logs o)) → (o, n) ∈ ids;
  lr_pending o fd : option_Forall2
    (λ i id, ids !! i = Some id ∧ ∃ op, entries (logs id.1) !! id.2 = Some (op, Some fd))
    (pending !! (o, fd)) (open_writes (logs o) !! fd);
  lr_outputs id fd : is_Some (outputs !! (id, fd)) → id.2 < length (entries (logs id.1))
}.

Lemma log_rel_ext ids l pending logs logs' outputs :
  (∀ x, logs' x = logs x) → log_rel ids l pending logs outputs → log_rel ids l pending logs' outputs.
Proof.
  intros Heq [Hlen Hnd Hops Hall Hp Hout]. split; [done|done|..].
  - intros i id Hi. rewrite Heq. by apply Hops.
  - intros o n. rewrite Heq. apply Hall.
  - intros o fd. rewrite Heq. eapply option_Forall2_impl; [apply Hp|].
    intros i id. by rewrite Heq.
  - intros id fd. rewrite Heq. apply Hout.
Qed.

(** A log that grows by one entry. *)
Lemma entries_grow (logs : ProcessLifetime → Log) o f entry id e :
  entries (f (logs o)) = entries (logs o) ++ [entry] →
  entries (logs id.1) !! id.2 = Some e → entries (update_log logs o f id.1) !! id.2 = Some e.
Proof.
  intros Hf He. unfold update_log. case_decide as Ho; [|done].
  rewrite Hf. apply lookup_app_l_Some. by rewrite <- Ho.
Qed.

Lemma log_rel_grow ids l pending logs outputs o f entry op pending' :
  log_rel ids l pending logs outputs →
  entries (f (logs o)) = entries (logs o) ++ [entry] → erase_index op = entry.1 →
  (∀ x fd, option_Forall2 (λ i id, (ids ++ [(o, length (entries (logs o)))]) !! i = Some id ∧
      ∃ op, entries (update_log logs o f id.1) !! id.2 = Some (op, Some fd))
    (pending' !! (x, fd)) (open_writes (update_log logs o f x) !! fd)) →
  log_rel (ids ++ [(o, length (entries (logs o)))]) (l ++ [op]) pending' (update_log logs o f) outputs.
Proof.
  intros [Hlen Hnd Hops Hall Hp Hout] Hf Hop Hp'.
  assert (Hnew : entries (update_log logs o f o) !! length (entries (logs o)) = Some entry).
  { unfold update_log. rewrite decide_True by done. rewrite Hf, lookup_app_r, Nat.sub_diag by done. done. }
  assert (Hmono : ∀ x, length (entries (logs x)) ≤ length (entries (update_log logs o f x))).
  { intros x. unfold update_log. case_decide; subst; [rewrite Hf, length_app; lia|done]. }
  split.
  - rewrite !length_app. simpl. lia.
  - apply NoDup_app. split; [done|]. split; [|apply NoDup_singleton].
    intros id Hid ->%list_elem_of_singleton. apply list_elem_of_lookup in Hid as (i & Hi).
    destruct (Hops i _ Hi) as (e & _ & He & _). apply lookup_lt_Some in He. simpl in He. lia.
  - intros i id [Hi|[Hi Heq]]%lookup_app_Some.
    + destruct (Hops i id Hi) as (e & op' & He & Hl & Her). exists e, op'.
      split; [by eapply entries_grow|]. split; [by apply lookup_app_l_Some|done].
    + apply list_lookup_singleton_Some in Heq as [Hz <-]. exists entry, op. split; [exact Hnew|].
      assert (i = length l) as -> by lia. split; [by rewrite lookup_app_r, Nat.sub_diag|].
      rewrite Hop. unfold entry_op. destruct entry.2 as [fd|]; [|done].
      destruct (outputs !! _) as [h|] eqn:Ho; [|done].
      specialize (Hout (o, length (entries (logs o))) fd (mk_is_Some _ _ Ho)). simpl in Hout. lia.
  - intros x n. unfold update_log. case_decide as Hx; [subst|intros Hn; apply elem_of_app; left; by apply Hall].
    rewrite Hf, length_app. simpl. intros Hn. apply elem_of_app.
    destruct (decide (n = length (entries (logs o)))) as [->|]; [right; by apply list_elem_of_singleton|].
    left. apply Hall. lia.
  - exact Hp'.
  - intros id fd Hs. specialize (Hout id fd Hs). specialize (Hmono id.1). lia.
Qed.

(** The pending writes of before are still there when a log has grown. *)
Lemma pending_grow ids l pending logs outputs o f entry x fd i id :
  log_rel ids l pending logs outputs → entries (f (logs o)) = entries (logs o) ++ [entry] →
  ids !! i = Some id ∧ (∃ op, entries (logs id.1) !! id.2 = Some (op, Some fd)) →
  (ids ++ [x]) !! i = Some id ∧ ∃ op, entries (update_log logs o f id.1) !! id.2 = Some (op, Some fd).
Proof.
  intros Hr Hf [Hi [op Hop]]. split; [by apply lookup_app_l_Some|]. exists op. by eapply entries_grow.
Qed.

Lemma log_rel_push ids l pending logs outputs o op op0 :
  log_rel ids l pending logs outputs → erase_index op = op0 →
  ∃ ids', log_rel ids' (l ++ [op]) pending (update_log logs o (log_push op0)) outputs.
Proof.
  intros Hr Hop. eexists. eapply (log_rel_grow _ _ pending); [done|reflexivity|done|].
  intros x fd. eapply option_Forall2_impl.
  - assert (Hw : open_writes (update_log logs o (log_push op0) x) = open_writes (logs x))
      by (unfold update_log; case_decide; by subst).
    rewrite Hw. apply Hr.
  - intros i id. eapply pending_grow; [done|reflexivity].
Qed.

Lemma log_rel_write ids l pending logs outputs o fd op op0 :
  log_rel ids l pending logs outputs → erase_index op = op0 →
  ∃ ids', log_rel ids' (l ++ [op]) (<[(o, fd) := length l]> pending)
    (update_log logs o (log_write o fd op0)) outputs.
Proof.
  intros Hr Hop. eexists. eapply (log_rel_grow _ _ pending); [done|reflexivity|done|].
  intros x fd'. destruct (decide ((x, fd') = (o, fd))) as [[= -> ->]|Hne].
  - rewrite lookup_insert_eq. unfold update_log at 2. rewrite decide_True by done. simpl.
    rewrite lookup_insert_eq. constructor. split.
    + rewrite <- (lr_length _ _ _ _ _ Hr), lookup_app_r, Nat.sub_diag by done. done.
    + exists op0. simpl. unfold update_log. rewrite decide_True by done. simpl.
      by rewrite lookup_app_r, Nat.sub_diag.
  - rewrite lookup_insert_ne by congruence.
    assert (Hw : open_writes (update_log logs o (log_write o fd op0) x) !! fd' = open_writes (logs x) !! fd').
    { unfold update_log. case_decide as Hx; [|done]. subst x. simpl. apply lookup_insert_ne. congruence. }
    rewrite Hw. eapply option_Forall2_impl; [apply Hr|]. intros i id. eapply pending_grow; [done|reflexivity].
Qed.

(** *** Closes and forks *)

Lemma entries_update logs o f x : entries (f (logs o)) = entries (logs o) →
  entries (update_log logs o f x) = entries (logs x).
Proof. unfold update_log. case_decide; by subst. Qed.

Lemma erase_set_output h op : erase_index (set_output h op) = set_output h (erase_index op).
Proof. done. Qed.

Lemma set_output_entry h outputs id entry :
  set_output h (entry_op outputs id entry) = set_output h entry.1.
Proof. unfold entry_op. destruct entry.2; [|done]. by destruct (outputs !! _). Qed.

(** What the lifetime's table says of a descriptor, the shared table says. *)
Lemma log_rel_lookup ids l pending logs outputs o fd : log_rel ids l pending logs outputs →
  match pending !! (o, fd) with
  | Some i => ∃ id, open_writes (logs o) !! fd = Some id ∧ ids !! i = Some id ∧
      ∃ op, entries (logs id.1) !! id.2 = Some (op, Some fd)
  | None => open_writes (logs o) !! fd = None
  end.
Proof. intros Hr. destruct (lr_pending _ _ _ _ _ Hr o fd) as [i id Hid|]; [eauto|done]. Qed.

Lemma log_rel_resolve ids l pending logs outputs i id fd op h :
  log_rel ids l pending logs outputs → ids !! i = Some id →
  entries (logs id.1) !! id.2 = Some (op, Some fd) →
  log_rel ids (alter (set_output h) i l) pending logs (<[(id, fd) := h]> outputs).
Proof.
  intros [Hlen Hnd Hops Hall Hp Hout] Hi He. split; [by rewrite length_alter|done| |done|done|].
  - intros j id' Hj. destruct (Hops j id' Hj) as (entry & op' & He' & Hl & Her).
    destruct (decide (j = i)) as [->|Hne].
    + rewrite Hj in Hi. injection Hi as ->. rewrite He in He'. injection He' as <-.
      exists (op, Some fd), (set_output h op'). split; [done|].
      split; [by rewrite list_lookup_alter_eq, Hl|].
      rewrite erase_set_output, Her, set_output_entry. unfold entry_op. simpl. by rewrite lookup_insert_eq.
    + exists entry, op'. split; [done|]. split; [by rewrite list_lookup_alter_ne|]. rewrite Her.
      unfold entry_op. destruct entry.2 as [fd'|]; [|done]. rewrite lookup_insert_ne; [done|].
      intros [= -> _]. apply Hne. by eapply NoDup_lookup.
  - intros id' fd'. rewrite lookup_insert. case_decide as Hk; [|apply Hout]. injection Hk as <- <-.
    intros _. by eapply lookup_lt_Some.
Qed.

Lemma log_rel_forget ids l pending logs outputs o fd : log_rel ids l pending logs outputs →
  log_rel ids l (delete (o, fd) pending) (update_log logs o (log_close fd)) outputs.
Proof.
  intros [Hlen Hnd Hops Hall Hp Hout].
  assert (He : ∀ x, entries (update_log logs o (log_close fd) x) = entries (logs x))
    by (intros x; by apply entries_update).
  split; [done|done|..].
  - intros i id Hi. rewrite He. by apply Hops.
  - intros x n. rewrite He. apply Hall.
  - intros x fd'. destruct (decide ((x, fd') = (o, fd))) as [[= -> ->]|Hne].
    + rewrite lookup_delete_eq. unfold update_log at 2. rewrite decide_True by done. simpl.
      rewrite lookup_delete_eq. constructor.
    + rewrite lookup_delete_ne by congruence.
      assert (Hw : open_writes (update_log logs o (log_close fd) x) !! fd' = open_writes (logs x) !! fd').
      { unfold update_log. case_decide; [|done]. subst x. simpl. apply lookup_delete_ne. congruence. }
      rewrite Hw. eapply option_Forall2_impl; [apply Hp|]. intros i id. by rewrite He.
  - intros id fd'. rewrite He. apply Hout.
Qed.

Lemma log_rel_inherit ids l pending logs outputs parent child : log_rel ids l pending logs outputs →
  log_rel ids l (inherit_pending parent child pending)
    (update_log logs child (log_inherit (logs parent))) outputs.
Proof.
  intros [Hlen Hnd Hops Hall Hp Hout].
  assert (He : ∀ x, entries (update_log logs child (log_inherit (logs parent)) x) = entries (logs x))
    by (intros x; by apply entries_update).
  split; [done|done|..].
  - intros i id Hi. rewrite He. by apply Hops.
  - intros x n. rewrite He. apply Hall.
  - intros x fd.
    assert (Hw : option_Forall2 (λ i id, ids !! i = Some id ∧
        ∃ op, entries (logs id.1) !! id.2 = Some (op, Some fd))
      (inherit_pending parent child pending !! (x, fd))
      (open_writes (update_log logs child (log_inherit (logs parent)) x) !! fd)).
    { rewrite lookup_inherit_pending. unfold update_log. destruct (decide (x = child)) as [->|]; [|apply Hp].
      simpl. rewrite lookup_union. destruct (Hp parent fd) as [i id Hid|].
      - rewrite union_Some_l. by constructor.
      - rewrite (left_id_L None _). apply Hp. }
    eapply option_Forall2_impl; [exact Hw|]. intros i id. by rewrite He.
  - intros id fd. rewrite He. apply Hout.
Qed.

(** ** The loop and the product in lockstep *)

Record in_step (st : CanonState) (F : ProcessLifetime → Local)
    (touts eouts : gmap (WriteId * Z) string) : Prop := {
  is_indexed p : is_Some (process_to_index st !! p) ↔ exec_epoch p ∈ indexed (F (lifetime p));
  is_tools p : process_to_tool_hash st !! p = tools (F (lifetime p)) !! exec_epoch p;
  is_fallback l : l ∈ fallback_external_processes st ↔ fallback (F l) = true;
  is_tree : ∃ ids, log_rel ids (ops st) (pending_writes st) (λ l, tree (F l)) touts;
  is_external : ∃ ids,
    log_rel ids (external_ops st) (external_pending_writes st) (λ l, external (F l)) eouts
}.

Definition put (F : ProcessLifetime → Local) (l : ProcessLifetime) (me : Local) (x : ProcessLifetime)
    : Local := if decide (x = l) then me else F x.

Lemma put_eq F l me : put F l me l = me.
Proof. unfold put. by rewrite decide_True. Qed.
Lemma put_id F l x : put F l (F l) x = F x.
Proof. unfold put. case_decide; by subst. Qed.

Lemma in_step_ext st F F' touts eouts :
  (∀ x, F' x = F x) → in_step st F touts eouts → in_step st F' touts eouts.
Proof.
  intros Heq [Hi Ht Hf [ids Htr] [ids' Hex]]. split.
  - intros p. by rewrite Heq.
  - intros p. by rewrite Heq.
  - intros l. by rewrite Heq.
  - exists ids. eapply log_rel_ext; [|exact Htr]. intros x. cbn. by rewrite Heq.
  - exists ids'. eapply log_rel_ext; [|exact Hex]. intros x. cbn. by rewrite Heq.
Qed.

(** What a change of the focused state leaves alone. *)
Lemma put_same {A} (g : Local → A) F l me me' x : g me' = g me → g (put F l me' x) = g (put F l me x).
Proof. intros Hg. unfold put. by case_decide. Qed.

(** The state of the lifetime [l] is being changed; the others stay. *)
Section focus.
Context (F : ProcessLifetime → Local) (l : ProcessLifetime).
Implicit Types (st : CanonState) (me : Local) (op : CanonicalOp) (fd : Z).

Definition focus st me (touts eouts : gmap (WriteId * Z) string) : Prop :=
  in_step st (put F l me) touts eouts.

Lemma tree_put me f x : tree (put F l (on_tree f me) x)
  = update_log (λ x, tree (put F l me x)) l f x.
Proof. unfold update_log, put. repeat case_decide; by subst. Qed.
Lemma external_put me f x : external (put F l (on_external f me) x)
  = update_log (λ x, external (put F l me x)) l f x.
Proof. unfold update_log, put. repeat case_decide; by subst. Qed.

Context (touts eouts : gmap (WriteId * Z) string).

(** Changes that leave the logs alone. *)
Lemma focus_logs st me st' me' :
  focus st me touts eouts →
  ops st' = ops st → pending_writes st' = pending_writes st →
  external_ops st' = external_ops st → external_pending_writes st' = external_pending_writes st →
  tree me' = tree me → external me' = external me →
  (∀ p, is_Some (process_to_index st' !! p) ↔ exec_epoch p ∈ indexed (put F l me' (lifetime p))) →
  (∀ p, process_to_tool_hash st' !! p = tools (put F l me' (lifetime p)) !! exec_epoch p) →
  (∀ x, x ∈ fallback_external_processes st' ↔ fallback (put F l me' x) = true) →
  focus st' me' touts eouts.
Proof.
  intros [_ _ _ [ids Ht] [ids' He]] H1 H2 H3 H4 H5 H6 Hi Hto Hf. split; [done..| |].
  - exists ids. rewrite H1, H2. eapply log_rel_ext; [|exact Ht]. intros x. unfold put.
    case_decide; done.
  - exists ids'. rewrite H3, H4. eapply log_rel_ext; [|exact He]. intros x. unfold put.
    case_decide; done.
Qed.

Lemma focus_assign st me p : lifetime p = l → focus st me touts eouts →
  focus (assign_index p st) (local_index (exec_epoch p) me) touts eouts.
Proof.
  intros Hl Hf. pose proof Hf as [Hi Ht Hfb _ _].
  assert (Hsame : ∀ q, exec_epoch q ∈ indexed (put F l (local_index (exec_epoch p) me) (lifetime q)) ↔
    q = p ∨ exec_epoch q ∈ indexed (put F l me (lifetime q))).
  { intros q. unfold put. destruct (decide (lifetime q = l)) as [Hq|Hq]; simpl.
    - rewrite elem_of_union, elem_of_singleton. destruct p as [lp ep], q as [lq eq']; simpl in *. naive_solver.
    - split; [auto|]. intros [->|]; done. }
  unfold assign_index. destruct (process_to_index st !! p) eqn:Hp.
  - eapply focus_logs; [exact Hf|done..| | |];
      [|intros q; by rewrite Ht, (put_same tools F l me (local_index (exec_epoch p) me))|intros x; by rewrite Hfb, (put_same fallback F l me (local_index (exec_epoch p) me))].
    intros q. rewrite Hsame, Hi. split; [auto|]. intros [->|]; [|done]. apply Hi. by rewrite Hp.
  - eapply focus_logs; [exact Hf|done..| | |];
      [|intros q; simpl; by rewrite Ht, (put_same tools F l me (local_index (exec_epoch p) me))
       |intros x; simpl; by rewrite Hfb, (put_same fallback F l me (local_index (exec_epoch p) me))].
    intros q. simpl.
    rewrite Hsame, <- Hi. destruct (decide (q = p)) as [->|Hne].
    + rewrite lookup_insert_eq. split; [auto|]. intros _. by eexists.
    + rewrite lookup_insert_ne by done. split; [auto|]. by intros [|].
Qed.

Lemma focus_tool st me p tool : lifetime p = l → focus st me touts eouts →
  focus (with_tools (<[p := tool]> (process_to_tool_hash st)) st)
    (local_tool (exec_epoch p) tool me) touts eouts.
Proof.
  intros Hl Hf. pose proof Hf as [Hi Ht Hfb _ _].
  eapply focus_logs; [exact Hf|done..| | |].
  - intros q. simpl. by rewrite Hi, (put_same indexed F l me (local_tool (exec_epoch p) tool me)).
  - intros q. simpl. rewrite lookup_insert. unfold put. destruct (decide (p = q)) as [->|Hne].
    + rewrite decide_True by done. simpl. by rewrite lookup_insert_eq.
    + rewrite Ht. unfold put. destruct (decide (lifetime q = l)) as [Hq|]; [|done]. simpl.
      rewrite lookup_insert_ne; [done|]. intros Heq. apply Hne. destruct p, q; simpl in *; congruence.
  - intros x. simpl. by rewrite Hfb, (put_same fallback F l me (local_tool (exec_epoch p) tool me)).
Qed.

Lemma focus_mark st me p : lifetime p = l → focus st me touts eouts →
  focus (mark_fallback p st) (local_mark me) touts eouts.
Proof.
  intros Hl Hf. pose proof Hf as [Hi Ht Hfb _ _].
  eapply focus_logs; [exact Hf|done..| | |].
  - intros q. simpl. by rewrite Hi, (put_same indexed F l me (local_mark me)).
  - intros q. simpl. by rewrite Ht, (put_same tools F l me (local_mark me)).
  - intros x. simpl. rewrite elem_of_union, elem_of_singleton, Hfb, Hl. unfold put. case_decide; simpl; naive_solver.
Qed.

(** Changes of one log. *)
Lemma focus_tree st me f st' touts' :
  focus st me touts eouts →
  process_to_index st' = process_to_index st → process_to_tool_hash st' = process_to_tool_hash st →
  fallback_external_processes st' = fallback_external_processes st →
  external_ops st' = external_ops st → external_pending_writes st' = external_pending_writes st →
  (∀ ids, log_rel ids (ops st) (pending_writes st) (λ x, tree (put F l me x)) touts →
     ∃ ids', log_rel ids' (ops st') (pending_writes st') (update_log (λ x, tree (put F l me x)) l f) touts') →
  focus st' (on_tree f me) touts' eouts.
Proof.
  intros [Hi Ht Hfb [ids Htr] [ids' Hex]] H1 H2 H3 H4 H5 Hlog. split.
  - intros p. by rewrite H1, Hi, (put_same indexed F l me (on_tree f me)).
  - intros p. by rewrite H2, Ht, (put_same tools F l me (on_tree f me)).
  - intros x. by rewrite H3, Hfb, (put_same fallback F l me (on_tree f me)).
  - destruct (Hlog ids Htr) as [ids2 Hr]. exists ids2. eapply log_rel_ext; [|exact Hr]. apply tree_put.
  - exists ids'. rewrite H4, H5. eapply log_rel_ext; [|exact Hex]. intros x. unfold put. by case_decide.
Qed.

Lemma focus_external st me f st' eouts' :
  focus st me touts eouts →
  process_to_index st' = process_to_index st → process_to_tool_hash st' = process_to_tool_hash st →
  fallback_external_processes st' = fallback_external_processes st →
  ops st' = ops st → pending_writes st' = pending_writes st →
  (∀ ids, log_rel ids (external_ops st) (external_pending_writes st) (λ x, external (put F l me x)) eouts →
     ∃ ids', log_rel ids' (external_ops st') (external_pending_writes st')
       (update_log (λ x, external (put F l me x)) l f) eouts') →
  focus st' (on_external f me) touts eouts'.
Proof.
  intros [Hi Ht Hfb [ids Htr] [ids' Hex]] H1 H2 H3 H4 H5 Hlog. split.
  - intros p. by rewrite H1, Hi, (put_same indexed F l me (on_external f me)).
  - intros p. by rewrite H2, Ht, (put_same tools F l me (on_external f me)).
  - intros x. by rewrite H3, Hfb, (put_same fallback F l me (on_external f me)).
  - exists ids. rewrite H4, H5. eapply log_rel_ext; [|exact Htr]. intros x. unfold put. by case_decide.
  - destruct (Hlog ids' Hex) as [ids2 Hr]. exists ids2. eapply log_rel_ext; [|exact Hr]. apply external_put.
Qed.

Lemma focus_push st me op op0 : focus st me touts eouts → erase_index op = op0 →
  focus (push_op op st) (on_tree (log_push op0) me) touts eouts.
Proof.
  intros Hf Hop. eapply focus_tree; [exact Hf|done..|]. intros ids Hr. by apply (log_rel_push ids).
Qed.

Lemma focus_push_external st me op op0 : focus st me touts eouts → erase_index op = op0 →
  focus (push_external op st) (on_external (log_push op0) me) touts eouts.
Proof.
  intros Hf Hop. eapply focus_external; [exact Hf|done..|]. intros ids Hr. by apply (log_rel_push ids).
Qed.

Lemma focus_write st me fd op op0 : focus st me touts eouts → erase_index op = op0 →
  focus (with_pending (<[(l, fd) := length (ops st)]> (pending_writes (push_op op st))) (push_op op st))
    (on_tree (log_write l fd op0) me) touts eouts.
Proof.
  intros Hf Hop. eapply focus_tree; [exact Hf|done..|]. intros ids Hr. by apply (log_rel_write ids).
Qed.

Lemma focus_write_external st me fd op op0 : focus st me touts eouts → erase_index op = op0 →
  focus (with_external_pending (<[(l, fd) := length (external_ops st)]>
      (external_pending_writes (push_external op st))) (push_external op st))
    (on_external (log_write l fd op0) me) touts eouts.
Proof.
  intros Hf Hop. eapply focus_external; [exact Hf|done..|]. intros ids Hr. by apply (log_rel_write ids).
Qed.

Lemma focus_read_tool st me p : lifetime p = l → focus st me touts eouts →
  process_to_tool_hash st !! p = tools me !! exec_epoch p.
Proof. intros Hl [_ Ht _ _ _]. by rewrite Ht, Hl, put_eq. Qed.

Lemma focus_read_index st me p : lifetime p = l → focus st me touts eouts →
  is_Some (process_to_index st !! p) ↔ exec_epoch p ∈ indexed me.
Proof. intros Hl [Hi _ _ _ _]. by rewrite Hi, Hl, put_eq. Qed.

Lemma focus_read_fallback st me : focus st me touts eouts →
  bool_decide (l ∈ fallback_external_processes st) = fallback me.
Proof.
  intros [_ _ Hf _ _]. specialize (Hf l). rewrite put_eq in Hf.
  case_bool_decide as Hin; [by rewrite Hf in Hin|]. destruct (fallback me); [|done]. by destruct Hin; apply Hf.
Qed.

(** The two tables of one lifetime know the same descriptors. *)
Lemma focus_read_pending st me fd : focus st me touts eouts →
  (is_Some (pending_writes st !! (l, fd)) ↔ is_Some (open_writes (tree me) !! fd)) ∧
  (is_Some (external_pending_writes st !! (l, fd)) ↔ is_Some (open_writes (external me) !! fd)).
Proof.
  intros [_ _ _ [ids Ht] [ids' He]].
  pose proof (lr_pending _ _ _ _ _ Ht l fd) as Hp. pose proof (lr_pending _ _ _ _ _ He l fd) as Hq.
  cbn beta in Hp, Hq. rewrite put_eq in Hp, Hq.
  split; [destruct Hp|destruct Hq]; (split; [intros []; first [done|by eexists]|intros []; first [done|by eexists]]).
Qed.

Lemma focus_test root_process st me p ext watched : lifetime p = l → focus st me touts eouts →
  fallback_external root_process st p ext watched = local_fallback root_process p ext watched me.
Proof.
  intros Hl Hf. unfold fallback_external, local_fallback.
  rewrite (focus_read_tool st me p Hl Hf), Hl. by rewrite (focus_read_fallback st me Hf).
Qed.
End focus.

#[export] Hint Resolve focus_assign focus_tool focus_mark focus_push focus_push_external focus_write
  focus_write_external : product.

(** ** The arms *)

Section arms.
Context (root_process : ProcessInstance) (watch_prefixes : list string).
Context (F : ProcessLifetime → Local) (touts eouts : gmap (WriteId * Z) string).
Implicit Types (st : CanonState) (me : Local) (p : ProcessInstance).

(** An operation of the fork tree, up to its index. *)
Lemma erase_tool ty idx t t' a i o : t = t' → erase_index (mkOp ty idx t a i o) = plain_op ty t' a i o.
Proof. by intros ->. Qed.

Lemma open_arm st me p path flags fd ext o : focus F (lifetime p) st me touts eouts →
  focus F (lifetime p) (on_open root_process watch_prefixes p path flags fd ext o st)
    (local_open root_process watch_prefixes p path flags fd ext o me) touts eouts.
Proof.
  intros Hf. unfold on_open, local_open. cbv zeta.
  rewrite (focus_test F (lifetime p) touts eouts root_process st me p) by done.
  destruct (ext && _); [done|]. destruct (ext || _).
  - pose proof (focus_mark F _ _ _ st me p eq_refl Hf) as Hm.
    destruct (can_read flags), (can_write flags); eauto 10 with product.
  - pose proof (focus_assign F _ _ _ st me p eq_refl Hf) as Ha.
    pose proof (focus_read_tool F _ _ _ _ _ p eq_refl Ha) as Ht.
    destruct (is_system_state path); [by apply focus_push; [|apply erase_tool]|].
    destruct (can_read flags), (can_write flags); eauto 10 using erase_tool with product.
Qed.

Lemma mmap_arm st me p fd prot flags path ext o : focus F (lifetime p) st me touts eouts →
  focus F (lifetime p) (on_mmap root_process watch_prefixes p fd prot flags path ext o st)
    (local_mmap root_process watch_prefixes p fd prot flags path ext o me) touts eouts.
Proof.
  intros Hf. unfold on_mmap, local_mmap. cbv zeta.
  destruct path as [path|]; [|by destruct (ext && true)].
  destruct (ext && _); [by destruct o|]. destruct o as [o|]; [|done].
  rewrite (focus_test F (lifetime p) touts eouts root_process st me p) by done.
  destruct (ext || _).
  - pose proof (focus_push_external F _ _ _ _ _
      (mkOp OpExternalFileRead U32_MAX None ["mmap"] [identity o] []) _
      (focus_mark F _ _ _ st me p eq_refl Hf) eq_refl) as Hm.
    destruct (mmap_is_write prot flags); [|exact Hm].
    pose proof (proj2 (focus_read_pending F _ _ _ _ _ fd Hm)) as Hp. cbn [andb].
    case_match eqn:Hk.
    + rewrite bool_decide_true by (apply Hp; by eexists). exact Hm.
    + rewrite bool_decide_false by (by intros [? [=]]%Hp).
      apply focus_write_external; [exact Hm|done].
  - pose proof (focus_assign F _ _ _ st me p eq_refl Hf) as Ha.
    pose proof (focus_read_tool F _ _ _ _ _ p eq_refl Ha) as Ht.
    destruct (is_system_state path); [by apply focus_push; [|apply erase_tool]|].
    pose proof (focus_push F _ _ _ _ _
      (mkOp OpFileRead (index_of (assign_index p st) p) (process_to_tool_hash (assign_index p st) !! p)
         ["mmap"] [identity o] []) _ Ha (erase_tool _ _ _ _ _ _ _ Ht)) as Hm.
    destruct (mmap_is_write prot flags); [|exact Hm].
    pose proof (proj1 (focus_read_pending F _ _ _ _ _ fd Hm)) as Hp. cbn [andb].
    case_match eqn:Hk.
    + rewrite bool_decide_true by (apply Hp; by eexists). exact Hm.
    + rewrite bool_decide_false by (by intros [? [=]]%Hp).
      apply focus_write; [exact Hm|by apply erase_tool].
Qed.

Lemma rename_arm st me p from to flags ext o : focus F (lifetime p) st me touts eouts →
  focus F (lifetime p) (on_rename root_process watch_prefixes p from to flags ext o st)
    (local_rename root_process watch_prefixes p from to flags ext o me) touts eouts.
Proof.
  intros Hf. unfold on_rename, local_rename. cbv zeta.
  rewrite (focus_test F (lifetime p) touts eouts root_process st me p) by done.
  destruct (ext || _); [eauto with product|].
  pose proof (focus_assign F _ _ _ st me p eq_refl Hf) as Ha.
  apply focus_push; [done|]. by apply erase_tool, (focus_read_tool F (lifetime p) touts eouts).
Qed.

Lemma unlink_arm st me p path flags ext o : focus F (lifetime p) st me touts eouts →
  focus F (lifetime p) (on_unlink root_process watch_prefixes p path flags ext o st)
    (local_unlink root_process watch_prefixes p path flags ext o me) touts eouts.
Proof.
  intros Hf. unfold on_unlink, local_unlink. cbv zeta.
  rewrite (focus_test F (lifetime p) touts eouts root_process st me p) by done.
  destruct (ext || _); [eauto with product|].
  pose proof (focus_assign F _ _ _ st me p eq_refl Hf) as Ha.
  apply focus_push; [done|]. by apply erase_tool, (focus_read_tool F (lifetime p) touts eouts).
Qed.

Lemma exit_arm st me p code : focus F (lifetime p) st me touts eouts →
  focus F (lifetime p) (on_exit root_process p code st) (local_exit root_process p code me) touts eouts.
Proof.
  intros Hf. unfold on_exit, local_exit. pose proof (focus_read_index F _ _ _ _ _ p eq_refl Hf) as Hi.
  case_match eqn:Hk.
  - rewrite (bool_decide_true (exec_epoch p ∈ indexed me)) by (apply Hi; by eexists). cbv zeta. apply focus_push; [done|].
    by apply erase_tool, (focus_read_tool F (lifetime p) touts eouts).
  - by rewrite bool_decide_false by (by intros [? [=]]%Hi).
Qed.

Lemma exec_arm st me p o : focus F (lifetime p) st me touts eouts →
  focus F (lifetime p) (on_exec p o st) (local_exec p o me) touts eouts.
Proof. intros Hf. unfold on_exec, local_exec. cbv zeta. eauto with product. Qed.

Lemma fork_arm st me parent child : focus F (lifetime child) st me touts eouts →
  focus F (lifetime child) (on_fork parent child st)
    (local_fork parent child (put F (lifetime child) me (lifetime parent)) me) touts eouts.
Proof.
  intros Hf. unfold on_fork, local_fork. cbv zeta.
  pose proof Hf as [_ Ht _ _ _]. rewrite (Ht parent).
  assert (Hg : ∀ st' me', pending_writes st' = pending_writes st → tree me' = tree me →
    focus F (lifetime child) st' me' touts eouts →
    focus F (lifetime child)
      (with_pending (inherit_pending (lifetime parent) (lifetime child) (pending_writes st')) st')
      (on_tree (log_inherit (tree (put F (lifetime child) me (lifetime parent)))) me') touts eouts).
  { intros st' me' Hp Htr Hf'. eapply focus_tree; [exact Hf'|done..|]. intros ids Hr. exists ids.
    rewrite <- (put_same tree F (lifetime child) me me' _ Htr).
    exact (log_rel_inherit ids _ _ _ _ (lifetime parent) (lifetime child) Hr). }
  destruct (tools _ !! _) as [tool|]; [|by apply Hg].
  apply Hg; [done..|]. by apply focus_tool.
Qed.
End arms.

(** A close changes a table of outputs as well. *)
Section close.
Context (root_process : ProcessInstance) (watch_prefixes : list string).
Context (F : ProcessLifetime → Local) (touts eouts : gmap (WriteId * Z) string).

(** Closing one descriptor in a shared table. *)
Lemma log_rel_close ids l pending logs outputs o fd i id obs :
  log_rel ids l pending logs outputs → pending !! (o, fd) = Some i → open_writes (logs o) !! fd = Some id →
  log_rel ids (resolve_write i obs l) (delete (o, fd) pending) (update_log logs o (log_close fd))
    (add_output (match obs with Some x => Some (id, fd, identity x) | None => None end) outputs).
Proof.
  intros Hr Hi Hid. pose proof (log_rel_lookup ids l pending logs outputs o fd Hr) as Hl.
  rewrite Hi in Hl. destruct Hl as (id' & Hid' & Hids & op & Hop). rewrite Hid in Hid'. injection Hid' as <-.
  apply log_rel_forget. destruct obs as [x|]; [|done]. by eapply log_rel_resolve.
Qed.

(** Without an open write there is nothing to close. *)
Lemma log_close_none fd g : open_writes g !! fd = None → log_close fd g = g.
Proof. intros Hn. destruct g. unfold log_close. simpl in *. by rewrite delete_id. Qed.

Lemma close_arm st me p fd path ext obs : focus F (lifetime p) st me touts eouts →
  let e := FileClose p fd path ext obs in
  focus F (lifetime p) (on_close root_process watch_prefixes p fd path ext obs st)
    (local_close root_process watch_prefixes p fd path ext me)
    (add_output (closed_output root_process watch_prefixes false e me) touts)
    (add_output (closed_output root_process watch_prefixes true e me) eouts).
Proof.
  intros Hf. cbv zeta. unfold on_close, local_close, closed_output. destruct path as [path|]; [|done].
  assert (Htest : (ext || (negb ext && negb (lifetime p =?= lifetime root_process)
      && bool_decide (lifetime p ∈ fallback_external_processes st) && is_watched_path path watch_prefixes))
    = closes_external root_process watch_prefixes p path ext me)
    by (unfold closes_external; by rewrite (focus_read_fallback F (lifetime p) touts eouts st me Hf)).
  cbv zeta. rewrite Htest. destruct (closes_external _ _ _ _ _ _).
  - rewrite (bool_decide_false (true = false)) by done. rewrite bool_decide_true by done.
    replace (match obs with Some _ => None | None => None end) with (@None (WriteId * Z * string))
      by (by destruct obs). cbn [add_output].
    destruct (external_pending_writes st !! (lifetime p, fd)) as [i|] eqn:Hi.
    + eapply focus_external; [exact Hf|done..|]. intros ids Hr. exists ids.
      pose proof (log_rel_lookup _ _ _ _ _ (lifetime p) fd Hr) as Hl. rewrite Hi in Hl.
      destruct Hl as (id & Hid & _). pose proof Hid as Hid'. cbn beta in Hid'. rewrite put_eq in Hid'.
      rewrite Hid'. pose proof (log_rel_close _ _ _ _ _ _ _ _ _ obs Hr Hi Hid) as Hc.
      destruct obs; exact Hc.
    + assert (Hn : open_writes (external me) !! fd = None).
      { apply eq_None_not_Some. intros Hs. apply (focus_read_pending F _ _ _ _ _ fd Hf) in Hs.
        rewrite Hi in Hs. by destruct Hs. }
      rewrite Hn. replace (match obs with Some _ => _ | None => None end) with (@None (WriteId * Z * string))
        by (by destruct obs). unfold on_external. rewrite log_close_none by done. by destruct me.
  - rewrite (bool_decide_false (false = true)) by done. rewrite bool_decide_true by done.
    replace (match obs with Some _ => None | None => None end) with (@None (WriteId * Z * string))
      by (by destruct obs). cbn [add_output].
    destruct (pending_writes st !! (lifetime p, fd)) as [i|] eqn:Hi.
    + eapply focus_tree; [exact Hf|done..|]. intros ids Hr. exists ids.
      pose proof (log_rel_lookup _ _ _ _ _ (lifetime p) fd Hr) as Hl. rewrite Hi in Hl.
      destruct Hl as (id & Hid & _). pose proof Hid as Hid'. cbn beta in Hid'. rewrite put_eq in Hid'.
      rewrite Hid'. pose proof (log_rel_close _ _ _ _ _ _ _ _ _ obs Hr Hi Hid) as Hc.
      destruct obs; exact Hc.
    + assert (Hn : open_writes (tree me) !! fd = None).
      { apply eq_None_not_Some. intros Hs. apply (focus_read_pending F _ _ _ _ _ fd Hf) in Hs.
        rewrite Hi in Hs. by destruct Hs. }
      rewrite Hn. replace (match obs with Some _ => _ | None => None end) with (@None (WriteId * Z * string))
        by (by destruct obs). unfold on_tree. rewrite log_close_none by done. by destruct me.
Qed.
End close.

(** ** Runs *)

Section runs.
Context (root_process : ProcessInstance) (watch_prefixes : list string).
#[local] Abbreviation step := (product_step root_process watch_prefixes).

Definition matches (st : CanonState) (a : Product) : Prop :=
  in_step st (local_of a) (tree_outputs a) (external_outputs a).

Lemma local_of_insert l me m t e x :
  local_of (mkProduct (<[l := me]> m) t e) x = put (local_of (mkProduct m t e)) l me x.
Proof.
  unfold local_of, put. simpl. rewrite lookup_insert. by repeat case_decide; subst.
Qed.

Lemma focus_of_matches st a l : matches st a →
  focus (local_of a) l st (local_of a l) (tree_outputs a) (external_outputs a).
Proof. intros Hm. eapply in_step_ext; [|exact Hm]. apply put_id. Qed.

Lemma product_step_matches st a e : matches st a →
  matches (canonicalize_event root_process watch_prefixes st e) (step a e).
Proof.
  intros Hm. apply (focus_of_matches st a (writer e)) in Hm. destruct a as [m t x].
  unfold matches, product_step. cbv zeta. eapply in_step_ext; [intros y; apply local_of_insert|].
  destruct e as [p o|pa ch|p path fl fd ext o|p fd path ext o|p fd pr fl path ext o|p a b fl ext o
    |p path fl ext o|p code]; cbn [writer reader local_step canonicalize_event closed_output add_output
      tree_outputs external_outputs] in *.
  - by apply exec_arm.
  - eapply fork_arm in Hm. rewrite put_id in Hm. exact Hm.
  - by apply open_arm.
  - exact (close_arm root_process watch_prefixes _ _ _ _ _ _ _ path ext o Hm).
  - by apply mmap_arm.
  - by apply rename_arm.
  - by apply unlink_arm.
  - by apply exit_arm.
Qed.

Lemma initial_matches : matches (initial_state root_process) (initial_product root_process).
Proof.
  assert (Hlog : log_rel [] [] ∅ (λ _, no_log) ∅).
  { split; [done|apply NoDup_nil_2|done|simpl; lia| |].
    - intros o fd. simpl. rewrite !lookup_empty. constructor.
    - intros id fd. rewrite lookup_empty. by intros []. }
  assert (Hroot : ∀ l, local_of (initial_product root_process) l =
    if decide (l = lifetime root_process) then local_index (exec_epoch root_process) no_local else no_local).
  { intros l. unfold local_of, initial_product. simpl. rewrite lookup_singleton. by repeat case_decide; subst. }
  assert (Hsame : ∀ {A} (g : Local → A), g (local_index (exec_epoch root_process) no_local) = g no_local →
    ∀ l, g (local_of (initial_product root_process) l) = g no_local)
    by (intros A g Hg l; rewrite Hroot; by case_decide).
  split.
  - intros p. rewrite Hroot. simpl. rewrite lookup_singleton. destruct (decide (root_process = p)) as [->|Hne].
    + rewrite decide_True by done. simpl. split; [set_solver|by eexists].
    + split; [by intros []|]. case_decide as Hl; simpl; [|set_solver].
      rewrite elem_of_union, elem_of_singleton. intros [He|He]; [|set_solver].
      destruct Hne. destruct p, root_process; simpl in *; congruence.
  - intros p. by rewrite (Hsame _ tools).
  - intros l. rewrite (Hsame _ fallback) by done. simpl. split; [set_solver|done].
  - exists []. eapply log_rel_ext; [|exact Hlog]. intros l. by apply (Hsame _ tree).
  - exists []. eapply log_rel_ext; [|exact Hlog]. intros l. by apply (Hsame _ external).
Qed.

Lemma run_matches events :
  matches (run_events root_process watch_prefixes events) (run_product root_process watch_prefixes events).
Proof.
  unfold run_events, run_product. generalize initial_matches.
  generalize (initial_state root_process), (initial_product root_process).
  induction events as [|e events IH]; intros st a Hm; [done|]. simpl. by apply IH, product_step_matches.
Qed.

(** The operations of the shared lists are those of the logs. *)
Lemma log_rel_elem ids l pending logs outputs op : log_rel ids l pending logs outputs →
  (∃ op', op' ∈ l ∧ erase_index op' = op) ↔
  ∃ x n entry, entries (logs x) !! n = Some entry ∧ op = entry_op outputs (x, n) entry.
Proof.
  intros Hr. split.
  - intros (op' & [i Hi]%list_elem_of_lookup & <-). pose proof (lookup_lt_Some _ _ _ Hi) as Hlt.
    rewrite <- (lr_length _ _ _ _ _ Hr) in Hlt. apply lookup_lt_is_Some in Hlt as [[x n] Hid].
    destruct (lr_ops _ _ _ _ _ Hr i (x, n) Hid) as (entry & op2 & He & Hop2 & Her).
    rewrite Hi in Hop2. injection Hop2 as <-. by exists x, n, entry.
  - intros (x & n & entry & He & ->). pose proof (lookup_lt_Some _ _ _ He) as Hlt.
    apply (lr_all _ _ _ _ _ Hr), list_elem_of_lookup in Hlt as [i Hid].
    destruct (lr_ops _ _ _ _ _ Hr i (x, n) Hid) as (entry' & op2 & He' & Hop2 & Her).
    simpl in He'. rewrite He in He'. injection He' as <-. exists op2. split; [|done].
    by eapply list_elem_of_lookup_2.
Qed.

Lemma raw_ops_product events op :
  (∃ op', op' ∈ raw_ops root_process watch_prefixes events ∧ erase_index op' = op) ↔
  log_op (run_product root_process watch_prefixes events) op.
Proof.
  destruct (run_matches events) as [_ _ _ [ids Ht] [ids' He]].
  pose proof (log_rel_elem _ _ _ _ _ op Ht) as Ht'. pose proof (log_rel_elem _ _ _ _ _ op He) as He'.
  unfold raw_ops, log_op. setoid_rewrite elem_of_app. cbn beta in Ht', He'. split.
  - intros (op' & [Hin|Hin] & Her).
    + destruct (proj1 Ht' (ex_intro _ op' (conj Hin Her))) as (x & n & entry & ? & ?). exists x, n, entry. by left.
    + destruct (proj1 He' (ex_intro _ op' (conj Hin Her))) as (x & n & entry & ? & ?). exists x, n, entry. by right.
  - intros (x & n & entry & [[H1 H2]|[H1 H2]]).
    + destruct (proj2 Ht') as (op' & Hin & Her); [by exists x, n, entry|]. exists op'. auto.
    + destruct (proj2 He') as (op' & Hin & Her); [by exists x, n, entry|]. exists op'. auto.
Qed.
Lemma product_leaves `{Sha256} events s :
  s ∈ op_hash <$> canonicalize_events root_process watch_prefixes events ↔
  ∃ op, log_op (run_product root_process watch_prefixes events) op ∧ s = op_hash (sort_op_lists op).
Proof.
  change (op_hash <$> _) with (leaves_of (raw_ops root_process watch_prefixes events)).
  rewrite leaves_of_elem. split.
  - intros (op' & Hin & ->). exists (erase_index op'). split; [|done]. apply raw_ops_product. eauto.
  - intros (op & (op' & Hin & <-)%raw_ops_product & ->). by exists op'.
Qed.

(** C6. The shared loop computes the product.  The leaves of a trace are exactly the
    digests of the operations that its processes record in states of their own,
    each write with the contents of its last close. *)
Theorem canonicalize_events_product `{Sha256} events s :
  s ∈ op_hash <$> canonicalize_events root_process watch_prefixes events ↔
  ∃ op, log_op (run_product root_process watch_prefixes events) op ∧ s = op_hash (sort_op_lists op).
Proof. apply product_leaves. Qed.
End runs.
