(* ===== verification/CanonSchedule.v ===== *)
(** * Canonicalisation does not depend on the schedule

    Two runs of one build interleave the events of their processes differently.
    In the product of [CanonProduct] an event changes the state of one lifetime
    and a close records what it saw of one write.  So an interleaving commits to
    the same leaves when it keeps the order of the events of each lifetime, of a
    fork and the events of its two sides, and of the closes of one write that saw
    different contents. *)
From S2P Require Export Schedules CanonLockstep CanonRenaming.

(** ** Independent steps *)

(** An occurrence of an event: equal events of one run have different tags. *)
Abbreviation Occurrence := (nat * TracedEvent)%type.

(** A system of lifetimes, in which a step changes the state of its writer and
    looks at the state of its reader. *)
Section distributed.
Context {X S : Type} (writes reads : X → ProcessLifetime) (act : X → S → S → S) (fresh : S).

Definition state_at (m : gmap ProcessLifetime S) (l : ProcessLifetime) : S := default fresh (m !! l).
Definition move (m : gmap ProcessLifetime S) (x : X) : gmap ProcessLifetime S :=
  <[writes x := act x (state_at m (reads x)) (state_at m (writes x))]> m.
Definition unrelated (x y : X) : Prop := writes x ≠ writes y ∧ writes x ≠ reads y ∧ reads x ≠ writes y.

#[export] Instance unrelated_sym : Symmetric unrelated.
Proof. intros x y (? & ? & ?). repeat split; congruence. Qed.
#[export] Instance unrelated_dec : RelDecision unrelated.
Proof. intros x y. unfold unrelated. apply _. Defined.

Lemma state_at_move m x l :
  state_at (move m x) l = if decide (l = writes x) then act x (state_at m (reads x)) (state_at m (writes x)) else state_at m l.
Proof.
  unfold move. unfold state_at at 1. case_decide as Hl; [subst l; by rewrite lookup_insert_eq|].
  by rewrite lookup_insert_ne by done.
Qed.

Lemma move_comm m x y : unrelated x y → move (move m x) y = move (move m y) x.
Proof.
  intros (Hw & Hwr & Hrw). unfold move at 1 3. rewrite !state_at_move.
  rewrite !decide_False by congruence. by apply insert_insert_ne.
Qed.

Lemma distributed_schedule s1 s2 m : s1 ≡ₚ s2 → NoDup s1 →
  (∀ x y, ¬ unrelated x y → before s1 x y → before s2 x y) → foldl move m s1 = foldl move m s2.
Proof.
  intros Hp Hnd Hord. assert (RelDecision (λ x y, ¬ unrelated x y)) by (intros x y; apply _).
  apply (schedule_irrelevant move (=) (λ x y, ¬ unrelated x y)); [|done|done|].
  - intros a x y Hx _. apply move_comm. by apply dec_stable.
  - intros x y [Hd|Hd]; apply Hord; [done|]. intros Hu. by apply Hd; symmetry.
Qed.
End distributed.

(** ** The events of a run and the states they met *)

Section schedule.
Context (root_process : ProcessInstance) (watch_prefixes : list string).
#[local] Abbreviation step := (product_step root_process watch_prefixes).
#[local] Abbreviation init := (initial_product root_process).

(** The occurrences of a run, with the state of the writer before each. *)
Fixpoint met (a : Product) (s : list Occurrence) : list (Occurrence * Local) :=
  match s with
  | [] => []
  | x :: s => (x, local_of a (writer x.2)) :: met (step a x.2) s
  end.

(** What the closes of a run record. *)
Definition closes (b : bool) (s : list Occurrence) : list (Occurrence * (WriteId * Z * string)) :=
  omap (λ '(x, me), pair x <$> closed_output root_process watch_prefixes b x.2 me) (met init s).

Definition conflict (s : list Occurrence) (x y : Occurrence) : Prop :=
  ¬ unrelated writer reader x.2 y.2 ∨
  ∃ b k h h', (x, (k, h)) ∈ closes b s ∧ (y, (k, h')) ∈ closes b s ∧ h ≠ h'.

Lemma met_app a (s1 s2 : list Occurrence) : met a (s1 ++ s2) = met a s1 ++ met (foldl step a s1.*2) s2.
Proof. revert a. induction s1 as [|x s1 IH]; intros a; simpl; [done|by rewrite IH]. Qed.

Lemma met_in a s x me : (x, me) ∈ met a s → x ∈ s.
Proof.
  revert a. induction s as [|y s IH]; intros a; simpl; [by intros ?%elem_of_nil|].
  intros [[= -> _]|Hin]%elem_of_cons; [by left|right; by eapply IH].
Qed.

Lemma run_product_snoc (s : list Occurrence) x :
  run_product root_process watch_prefixes (s ++ [x]).*2 = step (run_product root_process watch_prefixes s.*2) x.2.
Proof. unfold run_product. by rewrite fmap_app, foldl_app. Qed.

Lemma met_snoc s x :
  met init (s ++ [x]) = met init s ++ [(x, local_of (run_product root_process watch_prefixes s.*2) (writer x.2))].
Proof. by rewrite met_app. Qed.

Lemma local_of_step a e l :
  local_of (step a e) l =
  if decide (l = writer e) then local_step root_process watch_prefixes e (local_of a (reader e)) (local_of a (writer e))
  else local_of a l.
Proof.
  unfold product_step, local_of. cbv zeta. cbn [locals].
  case_decide as Hl; [subst l; by rewrite lookup_insert_eq|by rewrite lookup_insert_ne by done].
Qed.

(** Each lifetime records the states its own events met: a state that does not
    depend on the schedule. *)
Definition recording (x : Occurrence) (seen me : Local * list (Occurrence * Local)) : Local * list (Occurrence * Local) :=
  (local_step root_process watch_prefixes x.2 seen.1 me.1, me.2 ++ [(x, me.1)]).
#[local] Abbreviation blank := (no_local, []).
#[local] Abbreviation record_run :=
  (foldl (move (λ x : Occurrence, writer x.2) (λ x : Occurrence, reader x.2) recording blank)
    ((λ me, (me, [])) <$> locals init)).

Lemma recorded (s : list Occurrence) l :
  (state_at blank (record_run s) l).1 = local_of (run_product root_process watch_prefixes s.*2) l ∧
  ∀ x me, (x, me) ∈ (state_at blank (record_run s) l).2 ↔ writer x.2 = l ∧ (x, me) ∈ met init s.
Proof.
  revert l. induction s as [|y s IH] using rev_ind; intros l.
  - unfold state_at, local_of. simpl. rewrite lookup_fmap. destruct (_ !! l); simpl; (split; [done|set_solver]).
  - rewrite foldl_app, run_product_snoc, met_snoc. cbn [foldl]. rewrite state_at_move, local_of_step.
    destruct (IH (writer y.2)) as [Hw Hin], (IH (reader y.2)) as [Hr _], (IH l) as [Hl Hl'].
    case_decide as Hd; cbn [recording fst snd].
    + split; [by rewrite Hw, Hr|]. intros x me. rewrite !elem_of_app, Hin, Hw, !list_elem_of_singleton, Hd.
      split; [|naive_solver]. intros [?|[= -> ->]]; naive_solver.
    + split; [done|]. intros x me. rewrite Hl', elem_of_app, list_elem_of_singleton. naive_solver.
Qed.

(** Schedules that keep the order of related events end in the same states,
    which their events met in. *)
Lemma same_states (s1 s2 : list Occurrence) : s1 ≡ₚ s2 → NoDup s1 →
  (∀ x y : Occurrence, ¬ unrelated writer reader x.2 y.2 → before s1 x y → before s2 x y) →
  (∀ l, local_of (run_product root_process watch_prefixes s1.*2) l = local_of (run_product root_process watch_prefixes s2.*2) l) ∧
  ∀ x me, (x, me) ∈ met init s1 ↔ (x, me) ∈ met init s2.
Proof.
  intros Hp Hnd Hord.
  assert (record_run s1 = record_run s2) as Heq by by apply distributed_schedule.
  split.
  - intros l. by rewrite <- (proj1 (recorded s1 l)), <- (proj1 (recorded s2 l)), Heq.
  - intros x me. pose proof (proj2 (recorded s1 (writer x.2)) x me) as H1.
    pose proof (proj2 (recorded s2 (writer x.2)) x me) as H2. rewrite Heq in H1. naive_solver.
Qed.

(** ** The contents of a write are those of its last close *)

Definition outputs_of (b : bool) (a : Product) : gmap (WriteId * Z) string :=
  if b then external_outputs a else tree_outputs a.

Lemma elem_of_closes b s x o :
  (x, o) ∈ closes b s ↔ ∃ me, (x, me) ∈ met init s ∧ closed_output root_process watch_prefixes b x.2 me = Some o.
Proof.
  unfold closes. rewrite list_elem_of_omap. split.
  - intros ([y me] & Hin & (o' & Ho & [= -> ->])%fmap_Some). by exists me.
  - intros (me & Hin & Ho). exists (x, me). by rewrite Ho.
Qed.

Lemma elem_of_closes_snoc b s x y o :
  (y, o) ∈ closes b (s ++ [x]) ↔ (y, o) ∈ closes b s ∨
  y = x ∧ closed_output root_process watch_prefixes b x.2 (local_of (run_product root_process watch_prefixes s.*2) (writer x.2)) = Some o.
Proof.
  rewrite !elem_of_closes, met_snoc. setoid_rewrite elem_of_app. setoid_rewrite list_elem_of_singleton.
  split; [|naive_solver]. intros (me & [Hin|[= -> ->]] & Ho); [left; by exists me|by right].
Qed.

Lemma closes_in b s x o : (x, o) ∈ closes b s → x ∈ s.
Proof. intros (me & Hin & _)%elem_of_closes. by eapply met_in. Qed.

Lemma outputs_last b (s : list Occurrence) k :
  match outputs_of b (run_product root_process watch_prefixes s.*2) !! k with
  | Some h => ∃ x, (x, (k, h)) ∈ closes b s ∧ ∀ y h', (y, (k, h')) ∈ closes b s → h' = h ∨ before s y x
  | None => ∀ y h', (y, (k, h')) ∉ closes b s
  end.
Proof.
  induction s as [|x s IH] using rev_ind.
  { destruct b; simpl; rewrite lookup_empty; intros y h' []%elem_of_nil. }
  rewrite run_product_snoc. set (a := run_product _ _ s.*2) in *.
  assert (outputs_of b (step a x.2) = add_output (closed_output root_process watch_prefixes b x.2 (local_of a (writer x.2)))
    (outputs_of b a)) as -> by by destruct b.
  assert (Hs := elem_of_closes_snoc b s x). fold a in Hs.
  destruct (closed_output _ _ b x.2 _) as [[k' h]|] eqn:Ho; simpl.
  - destruct (decide (k' = k)) as [->|Hne].
    + rewrite lookup_insert_eq. exists x. setoid_rewrite Hs. split; [by right|].
      intros y h' [Hin|[_ [= <-]]]; [|by left]. right. by eapply before_last, closes_in.
    + rewrite lookup_insert_ne by done. destruct (outputs_of b a !! k) as [h0|]; setoid_rewrite Hs.
      * destruct IH as (z & Hz & Hlast). exists z. split; [by left|]. intros y h' [Hin|[_ [= ? _]]]; [|done].
        destruct (Hlast y h' Hin); [by left|right; by apply before_snoc].
      * intros y h' [Hin|[_ [= ? _]]]; [by eapply IH|done].
  - destruct (outputs_of b a !! k) as [h0|]; setoid_rewrite Hs.
    + destruct IH as (z & Hz & Hlast). exists z. split; [by left|]. intros y h' [Hin|[_ [=]]].
      destruct (Hlast y h' Hin); [by left|right; by apply before_snoc].
    + intros y h' [Hin|[_ [=]]]. by eapply IH.
Qed.

Lemma scheduled_outputs b (s1 s2 : list Occurrence) : s1 ≡ₚ s2 → NoDup s1 →
  (∀ x y, conflict s1 x y → before s1 x y → before s2 x y) →
  outputs_of b (run_product root_process watch_prefixes s1.*2)
  = outputs_of b (run_product root_process watch_prefixes s2.*2).
Proof.
  intros Hp Hnd Hord. destruct (same_states s1 s2) as [_ Hmet]; [done..|by intros; apply Hord; [left|]|].
  assert (Hcl : ∀ x o, (x, o) ∈ closes b s1 ↔ (x, o) ∈ closes b s2).
  { intros x o. rewrite !elem_of_closes. by setoid_rewrite Hmet. }
  apply map_eq. intros k. pose proof (outputs_last b s1 k) as H1. pose proof (outputs_last b s2 k) as H2.
  destruct (outputs_of b (run_product _ _ s1.*2) !! k) as [h1|], (outputs_of b (run_product _ _ s2.*2) !! k) as [h2|].
  - destruct H1 as (x & Hx & Hlast1), H2 as (y & Hy & Hlast2).
    destruct (decide (h1 = h2)) as [->|Hne]; [done|exfalso].
    apply Hcl in Hy as Hy1. apply Hcl in Hx as Hx2.
    destruct (Hlast1 y h2 Hy1) as [|Hb]; [done|]. apply Hord in Hb; [|right; by exists b, k, h2, h1].
    destruct (Hlast2 x h1 Hx2) as [|Hb2]; [done|]. by apply (before_asym s2 y x) in Hb2; [|rewrite <- Hp|].
  - destruct H1 as (x & Hx & _). exfalso. by eapply H2, Hcl.
  - destruct H2 as (x & Hx & _). exfalso. by eapply H1, Hcl.
  - done.
Qed.

Lemma log_op_ext a a' op : (∀ l, local_of a l = local_of a' l) → (∀ b, outputs_of b a = outputs_of b a') →
  log_op a op → log_op a' op.
Proof.
  intros Hl Ho (l & n & entry & Hop). pose proof (Ho false) as Hf. pose proof (Ho true) as Ht. simpl in Hf, Ht.
  exists l, n, entry. rewrite <- Hl, <- Hf, <- Ht. exact Hop.
Qed.

Lemma leaves_of_schedule `{Sha256} (s1 s2 : list Occurrence) : s1 ≡ₚ s2 → NoDup s1 →
  (∀ x y, conflict s1 x y → before s1 x y → before s2 x y) →
  op_hash <$> canonicalize_events root_process watch_prefixes s1.*2
  = op_hash <$> canonicalize_events root_process watch_prefixes s2.*2.
Proof.
  intros Hp Hnd Hord. destruct (same_states s1 s2) as [Hl _]; [done..|by intros; apply Hord; [left|]|].
  assert (Ho := λ b, scheduled_outputs b s1 s2 Hp Hnd Hord).
  apply strictly_sorted_unique; [apply sort_dedup_strict..|]. intros h. rewrite !product_leaves.
  split; intros (op & Hop & ->); exists op; (split; [|done]).
  - exact (log_op_ext _ _ op Hl Ho Hop).
  - exact (log_op_ext _ _ op (λ l, eq_sym (Hl l)) (λ b, eq_sym (Ho b)) Hop).
Qed.
End schedule.

Lemma run_independent_leaves `{Sha256} (ρ : ProcessLifetime → ProcessLifetime)
    `{!Inj (=) (=) ρ} root_process watch_prefixes (s1 s2 : list Occurrence) :
  s1 ≡ₚ s2 → NoDup s1 →
  (∀ x y, conflict root_process watch_prefixes s1 x y → before s1 x y → before s2 x y) →
  op_hash <$> canonicalize_events (rename_instance ρ root_process) watch_prefixes (rename_event ρ <$> s2.*2)
  = op_hash <$> canonicalize_events root_process watch_prefixes s1.*2.
Proof.
  intros Hp Hnd Hord. rewrite (leaves_of_schedule root_process watch_prefixes s1 s2) by done.
  unfold canonicalize_events, raw_ops. pose proof (rn_run ρ root_process watch_prefixes s2.*2) as Hr.
  by rewrite <- (rn_ops _ _ _ Hr), <- (rn_external_ops _ _ _ Hr).
Qed.

(** C4. What is attested does not depend on scheduling or on process numbers.  If a
    second run has the events of the first under other PIDs, interleaved in any
    way that keeps the order of the events of each lifetime, of a fork and the
    events of its two sides, and of two closes of one write that saw different
    contents, then both runs commit to the same leaves. *)
Theorem canonicalize_events_run_independent `{Sha256} (ρ : ProcessLifetime → ProcessLifetime)
    `{!Inj (=) (=) ρ} root_process watch_prefixes (s1 s2 : list Occurrence) :
  s1 ≡ₚ s2 → NoDup s1 →
  (∀ x y, conflict root_process watch_prefixes s1 x y → before s1 x y → before s2 x y) →
  op_hash <$> canonicalize_events (rename_instance ρ root_process) watch_prefixes (rename_event ρ <$> s2.*2)
  = op_hash <$> canonicalize_events root_process watch_prefixes s1.*2.
Proof. by apply run_independent_leaves. Qed.

(** ** Deciding whether one run reorders another *)

#[export] Instance TracedEvent_eq_dec : EqDecision TracedEvent.
Proof. solve_decision. Defined.

Definition disagree (u v : Occurrence * (WriteId * Z * string)) : bool :=
  bool_decide (u.2.1 = v.2.1) && negb (bool_decide (u.2.2 = v.2.2)).

Definition conflictb root_process watch_prefixes (s : list Occurrence) (x y : Occurrence) : bool :=
  negb (bool_decide (unrelated writer reader x.2 y.2))
  || existsb (λ b, existsb (λ u, bool_decide (u.1 = x) &&
       existsb (λ v, bool_decide (v.1 = y) && disagree u v) (closes root_process watch_prefixes b s))
       (closes root_process watch_prefixes b s)) [false; true].

Lemma conflict_decided root_process watch_prefixes s x y :
  conflict root_process watch_prefixes s x y → conflictb root_process watch_prefixes s x y = true.
Proof.
  unfold conflictb. intros [Hu|(b & k & h & h' & Hx & Hy & Hne)]; apply orb_true_iff.
  - left. by rewrite bool_decide_eq_false_2.
  - right. apply existsb_exists. exists b. split; [destruct b; simpl; auto|].
    apply existsb_exists. exists (x, (k, h)). split; [by apply list_elem_of_In|]. rewrite bool_decide_true by done.
    apply existsb_exists. exists (y, (k, h')). split; [by apply list_elem_of_In|]. rewrite bool_decide_true by done.
    unfold disagree. simpl. by rewrite bool_decide_true, bool_decide_eq_false_2.
Qed.

(** ** Example: two compilers at work side by side *)

Module ScheduleExamples.
Import Toy RenamingExamples.

Definition cc2 : ProcessInstance := mkInstance (mkLifetime 43 0) 1.

(** The shell opens a log that both compilers inherit, write and close; each
    compiler writes an object at descriptor 4. *)
Definition compile (p : ProcessInstance) (name : string) : list TracedEvent :=
  [Exec p (Content (digest "cc"));
   FileOpen p ("/w/" +:+ name +:+ ".c") 0 3 false (Content (digest name));
   FileOpen p ("/w/" +:+ name +:+ ".o") 1 4 false (Missing (digest name));
   FileClose p 4 (Some ("/w/" +:+ name +:+ ".o")) false (Some (Content (digest (name +:+ ".o"))));
   FileClose p 1 (Some "/w/log") false (Some (Content (digest (name +:+ ".log")))); Exit p 0].

Definition prologue : list TracedEvent :=
  [Exec sh (Content (digest "sh")); FileOpen sh "/w/log" 1 1 false (Missing (digest "log")); Fork sh cc; Fork sh cc2].

Definition one_after_the_other : list Occurrence :=
  imap pair (prologue ++ compile cc "a" ++ compile cc2 "b" ++ [Exit sh 0]).

(** The second compiler's first four events happen before the first one's. *)
Definition side_by_side : list Occurrence :=
  omap (λ i, one_after_the_other !! i) [0; 1; 3; 2; 4; 10; 11; 5; 12; 6; 13; 7; 8; 9; 14; 16; 15]%nat.

Lemma canonicalize_events_run_independent_witness :
  op_hash <$> canonicalize_events (rename_instance shift_pid sh) ["/w"] (rename_event shift_pid <$> side_by_side.*2)
  = op_hash <$> canonicalize_events sh ["/w"] one_after_the_other.*2 ∧
  length (canonicalize_events sh ["/w"] one_after_the_other.*2) = 9 ∧ side_by_side ≠ one_after_the_other.
Proof.
  split; [|vm_compute; done].
  apply (canonicalize_events_run_independent shift_pid sh ["/w"]).
  - apply (bool_decide_unpack _). vm_compute. exact I.
  - apply (bool_decide_unpack _). vm_compute. exact I.
  - intros x y Hc%conflict_decided. revert x y Hc. apply (reorders_spec (conflictb sh ["/w"] _)). vm_compute. reflexivity.
Defined.

(** The order of two closes of one write matters: with the logs closed the other
    way round the runs differ, and the check says so. *)
Definition logs_swapped : list Occurrence :=
  omap (λ i, one_after_the_other !! i) [0; 1; 3; 2; 4; 10; 11; 5; 12; 6; 13; 7; 14; 9; 8; 16; 15]%nat.

Example logs_swapped_conflicts : reorders (conflictb sh ["/w"] one_after_the_other) one_after_the_other logs_swapped = false.
Proof. vm_compute. reflexivity. Qed.

Example logs_swapped_differs :
  op_hash <$> canonicalize_events sh ["/w"] logs_swapped.*2
  ≠ op_hash <$> canonicalize_events sh ["/w"] one_after_the_other.*2.
Proof. vm_compute. discriminate. Qed.
End ScheduleExamples.
