(* ===== verification/CanonLocality.v ===== *)
(** * Unrelated process trees are attested independently

    In the product of [CanonProduct] a lifetime learns of another through forks
    only.  So when no fork crosses from one set of lifetimes to the rest, the
    operations of a trace are those of its two parts, each canonicalised alone:
    no process can change what is attested of another. *)
From S2P Require Export CanonSchedule.

(** ** Whose writes a lifetime can close *)

(** Every write that the lifetime has open was opened by a lifetime in [P]. *)
Definition log_owned (P : ProcessLifetime → Prop) (g : Log) : Prop :=
  ∀ fd id, open_writes g !! fd = Some id → P id.1.
Definition owned (P : ProcessLifetime → Prop) (me : Local) : Prop :=
  log_owned P (tree me) ∧ log_owned P (external me).

Create HintDb locality discriminated.

Section ownership.
Context (P : ProcessLifetime → Prop).

Lemma log_owned_push op g : log_owned P g → log_owned P (log_push op g).
Proof. done. Qed.

Lemma log_owned_write l fd op g : P l → log_owned P g → log_owned P (log_write l fd op g).
Proof. intros Hl Hg fd' id. simpl. intros [[_ <-]|[_ Hid]]%lookup_insert_Some; [done|by eapply Hg]. Qed.

Lemma log_owned_close fd g : log_owned P g → log_owned P (log_close fd g).
Proof. intros Hg fd' id. simpl. intros [_ Hid]%lookup_delete_Some. by eapply Hg. Qed.

Lemma log_owned_inherit parent g : log_owned P parent → log_owned P g → log_owned P (log_inherit parent g).
Proof. intros Hp Hg fd id. simpl. intros [Hid|[_ Hid]]%lookup_union_Some_raw; [by eapply Hp|by eapply Hg]. Qed.

Lemma owned_tree f me : (log_owned P (tree me) → log_owned P (f (tree me))) → owned P me → owned P (on_tree f me).
Proof. intros Hf [Ht He]. split; [by apply Hf|done]. Qed.

Lemma owned_external f me :
  (log_owned P (external me) → log_owned P (f (external me))) → owned P me → owned P (on_external f me).
Proof. intros Hf [Ht He]. split; [done|by apply Hf]. Qed.

Lemma owned_tables me : owned P me →
  (∀ epoch, owned P (local_index epoch me)) ∧ (∀ epoch tool, owned P (local_tool epoch tool me)) ∧
  owned P (local_mark me).
Proof. intros [Ht He]. by repeat split. Qed.
End ownership.

Lemma owned_index P epoch me : owned P me → owned P (local_index epoch me).
Proof. intros Hm. by apply owned_tables. Qed.
Lemma owned_tool P epoch tool me : owned P me → owned P (local_tool epoch tool me).
Proof. intros Hm. by apply owned_tables. Qed.
Lemma owned_mark P me : owned P me → owned P (local_mark me).
Proof. intros Hm. by apply owned_tables. Qed.

#[export] Hint Resolve log_owned_push log_owned_write log_owned_close log_owned_inherit owned_tree owned_external
  owned_index owned_tool owned_mark : locality.

Section locality.
Context (root_process : ProcessInstance) (watch_prefixes : list string).
#[local] Abbreviation step := (product_step root_process watch_prefixes).
#[local] Abbreviation run := (run_product root_process watch_prefixes).
#[local] Abbreviation init := (initial_product root_process).

Lemma owned_step P e seen me : P (writer e) → owned P seen → owned P me →
  owned P (local_step root_process watch_prefixes e seen me).
Proof.
  intros Hw Hs Hm. destruct e; cbn [writer local_step] in *.
  - unfold local_exec. auto 8 with locality.
  - unfold local_fork. apply owned_tree; [intros; apply log_owned_inherit; [apply Hs|done]|].
    case_match; auto with locality.
  - unfold local_open. cbv zeta. repeat case_match; auto 10 with locality.
  - unfold local_close. repeat case_match; auto 10 with locality.
  - unfold local_mmap. cbv zeta. repeat case_match; auto 10 with locality.
  - unfold local_rename. cbv zeta. case_match; auto 10 with locality.
  - unfold local_unlink. cbv zeta. case_match; auto 10 with locality.
  - unfold local_exit. cbv zeta. case_match; auto 10 with locality.
Qed.

Lemma closed_output_owned P b e me id fd h : owned P me →
  closed_output root_process watch_prefixes b e me = Some (id, fd, h) → P id.1.
Proof.
  intros [Ht He]. unfold closed_output. destruct e as [| | |p f [path|] ext [o|]| | | |]; try done.
  case_bool_decide; [|done]. intros (id' & Hid & [= <- _ _])%bind_Some. destruct b; [by eapply He|by eapply Ht].
Qed.

(** ** A part of a run *)

(** [part] is the run [a] seen from the lifetimes in [D]. *)
Record part_of (D : ProcessLifetime → bool) (a part : Product) : Prop := {
  po_local l : D l = true → local_of a l = local_of part l;
  po_outputs b l n fd : D l = true → outputs_of b a !! (l, n, fd) = outputs_of b part !! (l, n, fd);
  po_owned l : owned (λ x, D x = D l) (local_of a l)
}.

Lemma outputs_of_step b a e :
  outputs_of b (step a e) =
  add_output (closed_output root_process watch_prefixes b e (local_of a (writer e))) (outputs_of b a).
Proof. by destruct b. Qed.

Lemma owned_all (D : ProcessLifetime → bool) a e : D (writer e) = D (reader e) → (∀ l, owned (λ x, D x = D l) (local_of a l)) →
  ∀ l, owned (λ x, D x = D l) (local_of (step a e) l).
Proof.
  intros Hd Ho l. rewrite local_of_step. case_decide as Hl; [subst l|done].
  apply owned_step; [done| |done]. rewrite Hd. apply Ho.
Qed.

Lemma part_step_inside (D : ProcessLifetime → bool) a part e : D (writer e) = true → D (reader e) = true →
  part_of D a part → part_of D (step a e) (step part e).
Proof.
  intros Hw Hr [Hl Hout Hown]. split.
  - intros l HD. rewrite !local_of_step, (Hl (reader e) Hr), (Hl (writer e) Hw). case_decide; [done|by apply Hl].
  - intros b l n fd HD. rewrite !outputs_of_step, (Hl (writer e) Hw).
    destruct (closed_output _ _ _ _ _) as [[k h]|]; simpl; [|by apply Hout].
    destruct (decide (k = (l, n, fd))) as [->|Hk]; [by rewrite !lookup_insert_eq|].
    rewrite !lookup_insert_ne by done. by apply Hout.
  - apply owned_all; [congruence|done].
Qed.

Lemma part_step_outside (D : ProcessLifetime → bool) a part e : D (writer e) = false → D (reader e) = false →
  part_of D a part → part_of D (step a e) part.
Proof.
  intros Hw Hr [Hl Hout Hown]. split.
  - intros l HD. rewrite local_of_step, decide_False by congruence. by apply Hl.
  - intros b l n fd HD. rewrite outputs_of_step.
    destruct (closed_output _ _ _ _ _) as [[[id f] h]|] eqn:Ho; simpl; [|by apply Hout].
    apply (closed_output_owned (λ x, D x = D (writer e))) in Ho; [|apply Hown].
    rewrite lookup_insert_ne; [by apply Hout|]. intros [= -> _]. simpl in Ho. congruence.
  - apply owned_all; [congruence|done].
Qed.

(** No fork crosses between the lifetimes in [D] and the others. *)
Definition separated (D : ProcessLifetime → bool) (events : list TracedEvent) : Prop :=
  Forall (λ e, D (writer e) = D (reader e)) events.

Lemma separated_negb (D : ProcessLifetime → bool) events : separated D events → separated (λ l, negb (D l)) events.
Proof. intros Hs. eapply Forall_impl; [exact Hs|]. intros e He. cbv beta in *. by rewrite He. Qed.

Lemma part_initial (D : ProcessLifetime → bool) : part_of D init init.
Proof.
  split; [done|done|]. intros l. unfold local_of, initial_product. simpl.
  destruct (decide (l = lifetime root_process)) as [->|Hl].
  - rewrite lookup_singleton_eq. split; intros fd id; simpl; by rewrite lookup_empty.
  - rewrite lookup_singleton_ne by done. split; intros fd id; simpl; by rewrite lookup_empty.
Qed.

Lemma part_run (D : ProcessLifetime → bool) events : separated D events →
  part_of D (run events) (run (List.filter (λ e, D (writer e)) events)).
Proof.
  intros Hs. unfold run_product. generalize (part_initial D). generalize init at 1 3. generalize init.
  induction Hs as [|e events He _ IH]; intros part a Hpart; [done|]. simpl.
  destruct (D (writer e)) eqn:Hw; simpl; apply IH.
  - by apply part_step_inside.
  - by apply part_step_outside.
Qed.

(** A lifetime without events has recorded nothing. *)
Lemma idle_entries events l : Forall (λ e, writer e ≠ l) events →
  entries (tree (local_of (run events) l)) = [] ∧ entries (external (local_of (run events) l)) = [].
Proof.
  intros Hall. assert (Heq : local_of (run events) l = local_of init l).
  { unfold run_product. generalize init. induction Hall as [|e events He _ IH]; intros a; [done|]. simpl.
    rewrite IH, local_of_step. by rewrite decide_False. }
  rewrite Heq. unfold local_of, initial_product. simpl.
  destruct (decide (l = lifetime root_process)) as [->|Hl]; [by rewrite lookup_singleton_eq|by rewrite lookup_singleton_ne].
Qed.

(** The operations of a run that lifetimes in [D] recorded. *)
Definition recorded_by (D : ProcessLifetime → bool) (a : Product) (op : CanonicalOp) : Prop :=
  ∃ l n entry, D l = true ∧
    (entries (tree (local_of a l)) !! n = Some entry ∧ op = entry_op (outputs_of false a) (l, n) entry ∨
     entries (external (local_of a l)) !! n = Some entry ∧ op = entry_op (outputs_of true a) (l, n) entry).

Lemma entry_op_ext m1 m2 id entry : (∀ fd, m1 !! (id, fd) = m2 !! (id, fd)) →
  entry_op m1 id entry = entry_op m2 id entry.
Proof. intros Hm. unfold entry_op. destruct entry.2; [|done]. by rewrite Hm. Qed.

Lemma part_recorded (D : ProcessLifetime → bool) a part op : part_of D a part → recorded_by D a op ↔ recorded_by D part op.
Proof.
  intros [Hl Hout _]. unfold recorded_by.
  split; intros (l & n & entry & HD & Hop); exists l, n, entry; (split; [done|]).
  - rewrite <- Hl by done. destruct Hop as [[? ->]|[? ->]]; [left|right]; (split; [done|]);
      apply entry_op_ext; intros fd; by apply Hout.
  - rewrite Hl by done. destruct Hop as [[? ->]|[? ->]]; [left|right]; (split; [done|]);
      apply entry_op_ext; intros fd; symmetry; by apply Hout.
Qed.

Lemma recorded_inside (D : ProcessLifetime → bool) events op :
  recorded_by D (run (List.filter (λ e, D (writer e)) events)) op ↔
  log_op (run (List.filter (λ e, D (writer e)) events)) op.
Proof.
  split.
  - intros (l & n & entry & _ & Hop). by exists l, n, entry.
  - intros (l & n & entry & Hop). destruct (D l) eqn:HD; [by exists l, n, entry|exfalso].
    destruct (idle_entries (List.filter (λ e, D (writer e)) events) l) as [Ht He].
    { apply Forall_forall. intros e [_ Hw]%list_elem_of_In%filter_In Hl. congruence. }
    rewrite Ht, He in Hop. destruct Hop as [[[=] _]|[[=] _]].
Qed.

Lemma log_op_split (D : ProcessLifetime → bool) events op : separated D events →
  log_op (run events) op ↔
  log_op (run (List.filter (λ e, D (writer e)) events)) op ∨
  log_op (run (List.filter (λ e, negb (D (writer e))) events)) op.
Proof.
  intros Hs. rewrite <- (recorded_inside D), <- (recorded_inside (λ l, negb (D l))).
  rewrite <- (part_recorded D _ _ op (part_run D events Hs)).
  rewrite <- (part_recorded (λ l, negb (D l)) _ _ op (part_run (λ l, negb (D l)) events (separated_negb D events Hs))).
  split.
  - intros (l & n & entry & Hop). destruct (D l) eqn:HD; [left|right]; exists l, n, entry; by rewrite ?HD.
  - by intros [(l & n & entry & _ & Hop)|(l & n & entry & _ & Hop)]; exists l, n, entry.
Qed.
End locality.

(** C7. Unrelated process trees do not influence each other.  If no fork crosses
    between the lifetimes that [D] picks and the others, then a trace commits to
    the operations of its two parts, each canonicalised as if it had run alone:
    what other processes do, and when, changes no operation of a tree. *)
Theorem canonicalize_events_parts `{Sha256} root_process watch_prefixes (D : ProcessLifetime → bool) events leaf :
  separated D events →
  leaf ∈ op_hash <$> canonicalize_events root_process watch_prefixes events ↔
  leaf ∈ op_hash <$> canonicalize_events root_process watch_prefixes (List.filter (λ e, D (writer e)) events) ∨
  leaf ∈ op_hash <$> canonicalize_events root_process watch_prefixes (List.filter (λ e, negb (D (writer e))) events).
Proof.
  intros Hs. rewrite !product_leaves. setoid_rewrite (log_op_split root_process watch_prefixes D events) at 1; [|done].
  split.
  - intros (op & [Hop|Hop] & ->); [left|right]; by exists op.
  - intros [(op & Hop & ->)|(op & Hop & ->)]; exists op; auto.
Qed.

Module LocalityExamples.
Import Toy RenamingExamples ScheduleExamples.

(** A compiler that another user runs in the watched directory meanwhile. *)
Definition busy_host : list TracedEvent :=
  concat (zip_with (λ e f, [e; f]) small_build (compile cc2 "b" ++ [Exit cc2 0; Exit cc2 0])).
Definition in_the_tree (l : ProcessLifetime) : bool := negb (l =?= lifetime cc2).

Lemma canonicalize_events_parts_witness :
  List.filter (λ e, in_the_tree (writer e)) busy_host = small_build ∧
  ∀ leaf, leaf ∈ op_hash <$> canonicalize_events sh ["/w"] busy_host ↔
    leaf ∈ op_hash <$> canonicalize_events sh ["/w"] small_build ∨
    leaf ∈ op_hash <$> canonicalize_events sh ["/w"] (List.filter (λ e, negb (in_the_tree (writer e))) busy_host).
Proof.
  assert (Hf : List.filter (λ e, in_the_tree (writer e)) busy_host = small_build) by (vm_compute; reflexivity).
  split; [exact Hf|]. intros leaf. rewrite <- Hf at 1.
  apply (canonicalize_events_parts sh ["/w"] in_the_tree busy_host leaf).
  apply (bool_decide_unpack (Forall _ _)). vm_compute. exact I.
Defined.
End LocalityExamples.
