(* ===== verification/Merkle.v ===== *)
(** * Merkle root over the operation leaves ([repx/src/merkle.rs])

    [root_from_leaves] pads the leaves to a power of two and hashes pairs level
    by level until one digest is left.  It is compared with [tree_root], the
    usual top-down definition, from which the binding theorem follows. *)
From S2P Require Export Operations.

Record MerkleNode := mkNode { node_hash : string; is_leaf : bool }.

Record MerkleTree := mkTree {
  leaves : list string;
  nodes : list MerkleNode;
  leaf_count : nat
}.

Record LeafSetDiff := mkDiff { missing : list string; added : list string }.

(** [usize::next_power_of_two]. *)
Definition next_power_of_two (n : nat) : nat := 2 ^ Nat.log2_up n.

(** A [BTreeSet<String>] collected from a list, as its sorted elements. *)
Definition btree_set (l : list string) : list string := sort_dedup id l.

Section merkle.
Context `{Sha256}.

Definition hash_pair (left_hash right_hash : string) : string :=
  digest (left_hash +:+ right_hash).

Definition padding : string := hash_pair "padding" "padding".

(** [level.chunks_exact(2).map(|pair| hash_pair(&pair[0], &pair[1]))]. *)
Fixpoint pair_level (level : list string) : list string :=
  match level with
  | left_hash :: right_hash :: level => hash_pair left_hash right_hash :: pair_level level
  | _ => []
  end.

(** The loop [while level.len() > 1]; [None] if [fuel] runs out. *)
Fixpoint reduce_levels (fuel : nat) (level : list string) : option (list string) :=
  if (length level <=? 1)%nat then Some level
  else match fuel with
       | 0 => None
       | S fuel => reduce_levels fuel (pair_level level)
       end.

Definition pad_leaves (leaves : list string) : list string :=
  leaves ++ replicate (next_power_of_two (length leaves) - length leaves) padding.

(** [None] stands for running out of fuel and for [unwrap] on an empty level;
    [root_from_leaves_total] shows that neither happens. *)
Definition root_from_leaves_opt (leaves : list string) : option string :=
  if (length leaves =?= 0%nat) then Some (hash_pair "empty" "empty")
  else
    let level := pad_leaves leaves in
    level ← reduce_levels (length level) level;
    last level.

Definition root_from_leaves (leaves : list string) : string :=
  default "" (root_from_leaves_opt leaves).

Definition leaf_hashes (tree : MerkleTree) : list string :=
  if negb (leaves tree =?= []) || (leaf_count tree =?= 0%nat) then leaves tree
  else
    let padded_leaf_count := (length (nodes tree) + 1) / 2 in
    let first_leaf := padded_leaf_count - 1 in
    node_hash <$> take (leaf_count tree) (drop first_leaf (nodes tree)).

Definition root_hash_of (tree : MerkleTree) : string :=
  match nodes tree with
  | root :: _ => node_hash root
  | [] => root_from_leaves (leaf_hashes tree)
  end.

Definition build_merkle_tree (ops : list CanonicalOp) : MerkleTree :=
  let leaves := op_hash <$> ops in
  mkTree leaves [] (length leaves).

Definition diff_leaf_sets (expected actual : MerkleTree) : LeafSetDiff :=
  let expected := btree_set (leaf_hashes expected) in
  let actual := btree_set (leaf_hashes actual) in
  mkDiff (filter (λ s, s ∉ actual) expected) (filter (λ s, s ∉ expected) actual).
End merkle.

(** ** Padding *)

Lemma next_power_of_two_ge n : n ≤ next_power_of_two n.
Proof.
  unfold next_power_of_two. destruct n as [|n]; [lia|].
  apply Nat.log2_up_le_pow2; lia.
Qed.

Section levels.
Context `{Sha256}.

Lemma pad_leaves_length l : length (pad_leaves l) = 2 ^ Nat.log2_up (length l).
Proof.
  unfold pad_leaves. rewrite length_app, length_replicate.
  pose proof (next_power_of_two_ge (length l)). unfold next_power_of_two in *. lia.
Qed.

Lemma pair_level_length n : ∀ level,
  length level = 2 * n → length (pair_level level) = n.
Proof.
  induction n as [|n IH]; intros [|a [|b level]] Hlen; simpl in *; try lia.
  rewrite IH; lia.
Qed.

Lemma pair_level_app k l1 l2 :
  length l1 = 2 * k → pair_level (l1 ++ l2) = pair_level l1 ++ pair_level l2.
Proof.
  revert l1. induction k as [|k IH]; intros [|a [|b l1]] Hlen; simpl in *; try lia; [done|].
  rewrite IH by lia. done.
Qed.

(** ** The reference definition *)

(** The root of the perfect tree of height [k] over [2^k] leaves. *)
Fixpoint tree_root (k : nat) (l : list string) : string :=
  match k with
  | 0 => default "" (head l)
  | S k => hash_pair (tree_root k (take (2 ^ k) l)) (tree_root k (drop (2 ^ k) l))
  end.

Lemma tree_root_pair_level k l :
  length l = 2 ^ S k → tree_root (S k) l = tree_root k (pair_level l).
Proof.
  revert l. induction k as [|k IH]; intros l Hlen.
  - destruct l as [|a [|b [|]]]; simpl in Hlen; try lia. done.
  - assert (Hpow : 2 ^ S (S k) = 2 * 2 ^ S k) by (simpl; lia).
    assert (Hpow' : 2 ^ S k = 2 * 2 ^ k) by (simpl; lia).
    assert (Htake : length (take (2 ^ S k) l) = 2 ^ S k) by (rewrite length_take; lia).
    assert (Hdrop : length (drop (2 ^ S k) l) = 2 ^ S k) by (rewrite length_drop; lia).
    change (hash_pair (tree_root (S k) (take (2 ^ S k) l)) (tree_root (S k) (drop (2 ^ S k) l))
            = tree_root (S k) (pair_level l)).
    rewrite !IH by done. rewrite <- (take_drop (2 ^ S k) l) at 3.
    rewrite (pair_level_app (2 ^ k)) by lia. cbn [tree_root].
    assert (Hpl : length (pair_level (take (2 ^ S k) l)) = 2 ^ k)
      by (apply pair_level_length; lia).
    by rewrite take_app_length', drop_app_length'.
Qed.

(** ** The loop computes the reference root *)

Lemma reduce_levels_tree k fuel l :
  length l = 2 ^ k → k ≤ fuel → reduce_levels fuel l = Some [tree_root k l].
Proof.
  revert fuel l. induction k as [|k IH]; intros fuel l Hlen Hf.
  - destruct l as [|a [|]]; simpl in Hlen; try lia. by destruct fuel.
  - destruct fuel as [|fuel]; [lia|]. cbn [reduce_levels].
    assert (0 < 2 ^ k) by (apply Nat.neq_0_lt_0, Nat.pow_nonzero; lia).
    destruct (length l <=? 1)%nat eqn:Hle.
    { apply Nat.leb_le in Hle. simpl in Hlen. lia. }
    rewrite IH; [|apply pair_level_length; simpl in Hlen; lia|lia].
    by rewrite tree_root_pair_level.
Qed.

Lemma root_from_leaves_opt_tree l :
  l ≠ [] →
  root_from_leaves_opt l = Some (tree_root (Nat.log2_up (length l)) (pad_leaves l)).
Proof.
  intros Hl. unfold root_from_leaves_opt. rewrite bool_decide_false by by destruct l.
  rewrite (reduce_levels_tree (Nat.log2_up (length l))); [done|apply pad_leaves_length|].
  rewrite pad_leaves_length. apply Nat.lt_le_incl, Nat.pow_gt_lin_r. lia.
Qed.

(** C27. [root_from_leaves] always returns (the loop ends within as many
    iterations as there are padded leaves, on exactly one digest), and what it
    returns is the root of the perfect binary tree over the padded leaves. *)
Theorem root_from_leaves_is_tree_root l :
  root_from_leaves_opt l = Some (root_from_leaves l) ∧
  (root_from_leaves l =
    if decide (l = []) then hash_pair "empty" "empty"
    else tree_root (Nat.log2_up (length l)) (pad_leaves l)).
Proof.
  unfold root_from_leaves. destruct (decide (l = [])) as [->|Hl]; [done|].
  by rewrite root_from_leaves_opt_tree.
Qed.
End levels.

(** ** What the root binds *)

Section binding.
Context `{Sha256} `{!Sha256Laws}.

(** Digests and leaves: strings of 71 bytes. *)
Definition digest_sized (s : string) : Prop := String.length s = 71.

(** The strings hashed to compute [tree_root k l]. *)
Fixpoint tree_inputs (k : nat) (l : list string) : list string :=
  match k with
  | 0 => []
  | S k =>
      (tree_root k (take (2 ^ k) l) +:+ tree_root k (drop (2 ^ k) l))
      :: tree_inputs k (take (2 ^ k) l) ++ tree_inputs k (drop (2 ^ k) l)
  end.

Lemma tree_root_sized k l :
  length l = 2 ^ k → Forall digest_sized l → digest_sized (tree_root k l).
Proof.
  destruct k as [|k]; intros Hlen Hl.
  - destruct l as [|a l]; [done|]. by apply Forall_cons in Hl as [? _].
  - apply digest_length.
Qed.

Lemma tree_root_inj k l1 l2 :
  length l1 = 2 ^ k → length l2 = 2 ^ k →
  Forall digest_sized l1 → Forall digest_sized l2 →
  no_collision (tree_inputs k l1 ++ tree_inputs k l2) →
  tree_root k l1 = tree_root k l2 → l1 = l2.
Proof.
  revert l1 l2. induction k as [|k IH]; intros l1 l2 H1 H2 Hs1 Hs2 Hnc Heq.
  - destruct l1 as [|a [|]], l2 as [|b [|]]; simpl in *; by simplify_eq.
  - simpl in Heq. assert (Hpow : 2 ^ S k = 2 * 2 ^ k) by (simpl; lia).
    assert (length (take (2 ^ k) l1) = 2 ^ k) by (rewrite length_take; lia).
    assert (length (drop (2 ^ k) l1) = 2 ^ k) by (rewrite length_drop; lia).
    assert (length (take (2 ^ k) l2) = 2 ^ k) by (rewrite length_take; lia).
    assert (length (drop (2 ^ k) l2) = 2 ^ k) by (rewrite length_drop; lia).
    apply (digest_inj_on _ _ _ Hnc) in Heq; [|simpl; set_solver..].
    apply str_app_inj_length in Heq as [Hl Hr];
      [|rewrite !tree_root_sized; auto using Forall_take].
    rewrite <- (take_drop (2 ^ k) l1), <- (take_drop (2 ^ k) l2).
    f_equal; apply IH; auto using Forall_take, Forall_drop;
      (eapply no_collision_mono; [|exact Hnc]); simpl; set_solver.
Qed.

Lemma pad_leaves_sized l : Forall digest_sized l → Forall digest_sized (pad_leaves l).
Proof.
  intros Hl. apply Forall_app. split; [done|]. apply Forall_replicate, digest_length.
Qed.

(** The strings hashed by [root_from_leaves]. *)
Definition root_inputs (l : list string) : list string :=
  tree_inputs (Nat.log2_up (length l)) (pad_leaves l).

Lemma root_from_leaves_inj l1 l2 :
  length l1 = length l2 → Forall digest_sized l1 → Forall digest_sized l2 →
  no_collision (root_inputs l1 ++ root_inputs l2) →
  root_from_leaves l1 = root_from_leaves l2 → l1 = l2.
Proof.
  intros Hlen Hs1 Hs2 Hnc. destruct (decide (l1 = [])) as [->|Hl1].
  { by destruct l2. }
  assert (Hl2 : l2 ≠ []) by (by destruct l1, l2).
  unfold root_from_leaves. rewrite !root_from_leaves_opt_tree by done. simpl.
  unfold root_inputs in Hnc. rewrite <- Hlen in Hnc |- *. intros Heq.
  apply tree_root_inj in Heq; auto using pad_leaves_sized.
  - by apply app_inj_1 in Heq as [? _].
  - apply pad_leaves_length.
  - by rewrite pad_leaves_length, Hlen.
Qed.

(** Among leaf lists of one length the root determines the leaves: unless
    two of the strings hashed on the way collide, equal roots come from equal
    lists. *)
Theorem root_binds_leaves l1 l2 :
  length l1 = length l2 → Forall digest_sized l1 → Forall digest_sized l2 →
  no_collision (root_inputs l1 ++ root_inputs l2) →
  root_from_leaves l1 = root_from_leaves l2 → l1 = l2.
Proof. apply root_from_leaves_inj. Qed.

(** The number of leaves is not part of the root: a pair of leaves and the
    single leaf that is its parent have one root, and so have three leaves and
    the same three followed by the padding digest. *)
Theorem root_leaf_count_ambiguous a b c :
  root_from_leaves [hash_pair a b] = root_from_leaves [a; b] ∧
  root_from_leaves [a; b; c] = root_from_leaves [a; b; c; padding].
Proof. done. Qed.
End binding.

(** ** Comparing leaf sets *)

Lemma btree_set_elem l s : s ∈ btree_set l ↔ s ∈ l.
Proof.
  unfold btree_set. pose proof (sort_dedup_keys id l s) as Hk.
  by rewrite !list_fmap_id in Hk.
Qed.

Lemma btree_set_sorted l : strictly_sorted (btree_set l).
Proof. pose proof (sort_dedup_strict id l) as Hs. by rewrite list_fmap_id in Hs. Qed.

Lemma strictly_sorted_filter (P : string → Prop) `{∀ x, Decision (P x)} l :
  strictly_sorted l → strictly_sorted (filter P l).
Proof.
  induction 1 as [|x l Hl IH Hx]; [constructor|]. rewrite filter_cons.
  case_decide; [|done]. constructor; [done|].
  apply Forall_forall. intros y [_ Hy]%list_elem_of_filter. rewrite Forall_forall in Hx. auto.
Qed.

#[export] Hint Resolve btree_set_sorted strictly_sorted_filter : repx.

(** [diff_leaf_sets] is the two-sided set difference of the leaves, each side
      in strictly increasing order; it is empty exactly when the trees have the
      same set of leaves, however they are ordered or repeated. *)
Theorem diff_leaf_sets_spec expected actual :
  let d := diff_leaf_sets expected actual in
  strictly_sorted (missing d) ∧ strictly_sorted (added d) ∧
  (∀ s, s ∈ missing d ↔ s ∈ leaf_hashes expected ∧ s ∉ leaf_hashes actual) ∧
  (∀ s, s ∈ added d ↔ s ∈ leaf_hashes actual ∧ s ∉ leaf_hashes expected) ∧
  (missing d = [] ∧ added d = [] ↔
   ∀ s, s ∈ leaf_hashes expected ↔ s ∈ leaf_hashes actual).
Proof.
  intros d.
  assert (Hm : ∀ s, s ∈ missing d ↔ s ∈ leaf_hashes expected ∧ s ∉ leaf_hashes actual).
  { intros s. simpl. rewrite list_elem_of_filter, !btree_set_elem. tauto. }
  assert (Ha : ∀ s, s ∈ added d ↔ s ∈ leaf_hashes actual ∧ s ∉ leaf_hashes expected).
  { intros s. simpl. rewrite list_elem_of_filter, !btree_set_elem. tauto. }
  split; [simpl; auto with repx|]. split; [simpl; auto with repx|].
  split; [done|]. split; [done|]. split.
  - intros [Hm0 Ha0] s. rewrite Hm0 in Hm. rewrite Ha0 in Ha.
    specialize (Hm s). specialize (Ha s).
    destruct (decide (s ∈ leaf_hashes expected)), (decide (s ∈ leaf_hashes actual));
      set_solver.
  - intros Heq. split; apply elem_of_nil_inv; intros s; [rewrite Hm|rewrite Ha];
      rewrite Heq; tauto.
Qed.

(** Attestations of the first format stored every node of the padded tree in
    level order; [leaf_hashes] recovers exactly the leaves from it. *)
Theorem leaf_hashes_legacy internal l pads :
  l ≠ [] → length internal + 1 = length (l ++ pads) →
  leaf_hashes (mkTree [] (internal ++ ((λ h, mkNode h true) <$> (l ++ pads))) (length l)) = l.
Proof.
  intros Hl Hlen. unfold leaf_hashes. cbn [leaves nodes leaf_count].
  rewrite (bool_decide_false (length l = 0)) by by destruct l.
  rewrite (bool_decide_true ([] = [])) by done. cbn [negb orb].
  rewrite length_app, length_fmap.
  replace ((length internal + length (l ++ pads) + 1) / 2 - 1) with (length internal).
  - rewrite drop_app_length. rewrite fmap_app, take_app_length' by by rewrite length_fmap.
    rewrite <- list_fmap_compose. apply list_fmap_id.
  - rewrite <- Hlen. replace (length internal + (length internal + 1) + 1)
      with ((length internal + 1) * 2) by lia.
    rewrite Nat.div_mul by lia. lia.
Qed.

(** ** Examples with the hash function of [Toy] *)

Module MerkleExamples.
Import Toy.

Definition three_leaves : list string := [digest "a"; digest "b"; digest "c"].

Lemma root_binds_leaves_witness :
  root_from_leaves three_leaves = root_from_leaves (digest <$> ["a"; "b"; "c"]) ∧
  three_leaves = digest <$> ["a"; "b"; "c"].
Proof.
  split; [done|]. apply root_binds_leaves; [done|repeat constructor..| |done].
  apply (bool_decide_unpack (no_collision _)). vm_compute. done.
Defined.

(** The stored nodes of a tree over three leaves: root, two pairs, four leaves. *)
Lemma leaf_hashes_legacy_witness :
  leaf_hashes (mkTree [] ([mkNode "root" false; mkNode "left" false; mkNode "right" false]
    ++ ((λ h, mkNode h true) <$> (three_leaves ++ [padding]))) 3) = three_leaves.
Proof. apply (leaf_hashes_legacy _ three_leaves [padding]); done. Defined.
End MerkleExamples.
