(* ===== verification/Attestation.v ===== *)
(** * Attestations ([repx/src/attestation.rs])

    The document, its construction, the v0.3 commitment (a length-prefixed
    binary encoding, modelled byte by byte) and the validation of documents
    read from a file.  The v0.2 commitment hashes the compact JSON that
    [serde_json] makes of a struct: that serialiser is the class [CommitmentJson]. *)
From S2P Require Export Merkle.

Record OutputSelection := mkSelection {
  mode : string;
  artifacts : list string;
  output_roots : list string
}.

Record AttestedOutput := mkOutput { out_path : string; out_hash : string }.

#[export] Instance AttestedOutput_eq_dec : EqDecision AttestedOutput.
Proof. solve_decision. Defined.
#[export] Instance OutputSelection_eq_dec : EqDecision OutputSelection.
Proof. solve_decision. Defined.

Definition default_selection : OutputSelection := mkSelection "inferred" [] [].

Record Attestation := mkAttestation {
  version : string;
  predicate_type : string;
  root_hash : string;
  process_root : string;
  command : list string;
  output_selection : OutputSelection;
  outputs : list AttestedOutput;
  tree : MerkleTree
}.

(** The struct serialised for the v0.2 commitment, in field order. *)
Record CommitmentV0_2 := mkCommitmentV0_2 {
  c2_domain : string;
  c2_process_root : string;
  c2_command : list string;
  c2_output_selection : OutputSelection;
  c2_outputs : list AttestedOutput
}.

Class CommitmentJson := { commitment_to_vec : CommitmentV0_2 → string }.

(** ** The v0.3 encoding *)

Definition COMMITMENT_DOMAIN_V0_3 : string := "repx-attestation-v0.3".

Definition byte_of (z : Z) : ascii := ascii_of_N (Z.to_N (Z.land z 255)).

(** [buf.extend_from_slice(&v.to_le_bytes())]. *)
Definition write_commitment_u32 (v : Z) : string :=
  String (byte_of v)
    (String (byte_of (Z.shiftr v 8))
       (String (byte_of (Z.shiftr v 16)) (String (byte_of (Z.shiftr v 24)) ""))).

(** [len as u32], then the bytes. *)
Definition write_commitment_str (s : string) : string :=
  write_commitment_u32 (wrap_u32 (Z.of_nat (String.length s))) +:+ s.

Definition write_commitment_count {A} (l : list A) : string :=
  write_commitment_u32 (wrap_u32 (Z.of_nat (length l))).

Definition encode_commitment_v0_3 (process_root : string) (command : list string)
    (output_selection : OutputSelection) (outputs : list AttestedOutput) : string :=
  write_commitment_str COMMITMENT_DOMAIN_V0_3
  +:+ write_commitment_str process_root
  +:+ write_commitment_count command
  +:+ str_concat (write_commitment_str <$> command)
  +:+ write_commitment_str (mode output_selection)
  +:+ write_commitment_count (artifacts output_selection)
  +:+ str_concat (write_commitment_str <$> artifacts output_selection)
  +:+ write_commitment_count (output_roots output_selection)
  +:+ str_concat (write_commitment_str <$> output_roots output_selection)
  +:+ write_commitment_count outputs
  +:+ str_concat ((λ o, write_commitment_str (out_path o)
                       +:+ write_commitment_str (out_hash o)) <$> outputs).

(** ** Ordering of outputs: by path, then by hash *)

Definition output_le (a b : AttestedOutput) : Prop :=
  (out_path a ≤ₛ out_path b ∧ out_path a ≠ out_path b) ∨
  (out_path a = out_path b ∧ out_hash a ≤ₛ out_hash b).

#[export] Instance output_le_dec : RelDecision output_le.
Proof. intros a b. unfold output_le. apply _. Defined.

(** [outputs.sort_by(|a, b| a.path.cmp(&b.path).then(a.hash.cmp(&b.hash)))]. *)
Definition sort_outputs (l : list AttestedOutput) : list AttestedOutput :=
  merge_sort output_le l.

Inductive ValidateError :=
  | LegacyRootMismatch
  | ProcessRootMismatch
  | RootMismatch
  | UnsupportedVersion (version : string).

Section attestation.
Context `{Sha256} `{CommitmentJson}.

Definition commitment_hash_v0_2 (process_root : string) (command : list string)
    (output_selection : OutputSelection) (outputs : list AttestedOutput) : string :=
  digest (commitment_to_vec (mkCommitmentV0_2 "repx-attestation-v0.2" process_root
    command output_selection outputs)).

Definition commitment_hash_v0_3 (process_root : string) (command : list string)
    (output_selection : OutputSelection) (outputs : list AttestedOutput) : string :=
  digest (encode_commitment_v0_3 process_root command output_selection outputs).

Definition new_with_outputs (tree : MerkleTree) (command : list string)
    (output_selection : OutputSelection) (outputs : list AttestedOutput) : Attestation :=
  let process_root := root_hash_of tree in
  let output_selection :=
    mkSelection (mode output_selection) (sort_strings (artifacts output_selection))
      (sort_strings (output_roots output_selection)) in
  let outputs := sort_outputs outputs in
  let root_hash := commitment_hash_v0_3 process_root command output_selection outputs in
  mkAttestation "0.3.0" "https://repx.dev/process-provenance/v0.3.0" root_hash process_root
    command output_selection outputs tree.

Definition with_process_root (root : string) (att : Attestation) : Attestation :=
  mkAttestation (version att) (predicate_type att) (root_hash att) root (command att)
    (output_selection att) (outputs att) (tree att).

(** The checks of the ["0.2.0" | "0.2.1"] and ["0.3.0"] arms, which differ in
    the commitment only. *)
Definition validate_committed
    (commitment : string → list string → OutputSelection → list AttestedOutput → string)
    (att : Attestation) : Attestation * result ValidateError unit :=
  let derived_process_root := root_hash_of (tree att) in
  let att :=
    if process_root att =?= "" then with_process_root derived_process_root att else att in
  if negb (derived_process_root =?= process_root att) then (att, Err ProcessRootMismatch)
  else
    let computed := commitment (process_root att) (command att) (output_selection att)
                      (outputs att) in
    if negb (computed =?= root_hash att) then (att, Err RootMismatch) else (att, Ok ()).

(** [validate(&mut self)]: the document after the call, and the result. *)
Definition validate (att : Attestation) : Attestation * result ValidateError unit :=
  let derived_process_root := root_hash_of (tree att) in
  if version att =?= "0.1.0" then
    if negb (root_hash att =?= derived_process_root) then (att, Err LegacyRootMismatch)
    else (with_process_root derived_process_root att, Ok ())
  else if (version att =?= "0.2.0") || (version att =?= "0.2.1") then
    validate_committed commitment_hash_v0_2 att
  else if version att =?= "0.3.0" then
    validate_committed commitment_hash_v0_3 att
  else (att, Err (UnsupportedVersion (version att))).
End attestation.

(** ** Reading and writing files

    [serde_json] prints and parses documents; the tree's [nodes] are skipped when
    printing and default to none when parsing. *)

Class AttestationJson := {
  attestation_to_json : Attestation → string;
  attestation_of_json : string → option Attestation
}.

Definition without_nodes (att : Attestation) : Attestation :=
  mkAttestation (version att) (predicate_type att) (root_hash att) (process_root att)
    (command att) (output_selection att) (outputs att)
    (mkTree (leaves (tree att)) [] (leaf_count (tree att))).

Class AttestationJsonLaws `{AttestationJson} : Prop := {
  attestation_json_roundtrip att :
    attestation_of_json (attestation_to_json att) = Some (without_nodes att)
}.

Inductive ReadError :=
  | ReadFailed
  | MalformedJson
  | Invalid (e : ValidateError).

Section files.
Context `{Sha256} `{CommitmentJson} `{AttestationJson}.

(** The bytes [write_to_file] writes. *)
Definition write_to_file (att : Attestation) : string := attestation_to_json att.

(** [read_from_file] on the contents of the file ([None]: unreadable). *)
Definition read_from_file (data : option string) : result ReadError Attestation :=
  match data with
  | None => Err ReadFailed
  | Some data =>
      match attestation_of_json data with
      | None => Err MalformedJson
      | Some att =>
          match validate att with
          | (att, Ok _) => Ok att
          | (_, Err e) => Err (Invalid e)
          end
      end
  end.
End files.
