(* ===== verification/AttestationFacts.v ===== *)
(** * What an attestation commits to

    The v0.3 commitment is a prefix-free code, so a validated document's root
    hash determines its contents; construction and validation agree, every
    branch of [validate] is characterised, and documents survive a write and a
    read. *)
From S2P Require Export Attestation.

(** ** The commitment is a prefix-free code *)

Definition fits_u32 (n : nat) : Prop := (Z.of_nat n ≤ U32_MAX)%Z.
Definition fits_str (s : string) : Prop := fits_u32 (String.length s).
Definition fits_list {A} (P : A → Prop) (l : list A) : Prop :=
  fits_u32 (length l) ∧ Forall P l.
Definition fits_output (o : AttestedOutput) : Prop :=
  fits_str (out_path o) ∧ fits_str (out_hash o).
Definition fits_selection (s : OutputSelection) : Prop :=
  fits_str (mode s) ∧ fits_list fits_str (artifacts s) ∧ fits_list fits_str (output_roots s).

(** The four committed parts of a document can be encoded: every text and every
    list has at most [u32::MAX] bytes or elements. *)
Definition fits_commitment (process_root : string) (command : list string)
    (output_selection : OutputSelection) (outputs : list AttestedOutput) : Prop :=
  fits_str process_root ∧ fits_list fits_str command ∧
  fits_selection output_selection ∧ fits_list fits_output outputs.

#[export] Instance fits_u32_dec n : Decision (fits_u32 n).
Proof. unfold fits_u32. apply _. Defined.
#[export] Instance fits_list_dec {A} (P : A → Prop) `{∀ x, Decision (P x)} l :
  Decision (fits_list P l).
Proof. unfold fits_list. apply _. Defined.
#[export] Instance fits_commitment_dec r c s o : Decision (fits_commitment r c s o).
Proof. unfold fits_commitment, fits_selection, fits_output, fits_str. apply _. Defined.

Lemma byte_of_inj a b : byte_of a = byte_of b → (a `mod` 256 = b `mod` 256)%Z.
Proof.
  unfold byte_of. intros Heq%(f_equal N_of_ascii).
  assert (Hr : ∀ z, (0 ≤ Z.land z 255 < 256)%Z).
  { intros z. change 255%Z with (Z.ones 8). rewrite Z.land_ones by lia.
    apply Z.mod_pos_bound. lia. }
  pose proof (Hr a). pose proof (Hr b).
  rewrite !N_ascii_embedding in Heq by lia. apply (f_equal Z.of_N) in Heq.
  rewrite !Z2N.id in Heq by lia. change 255%Z with (Z.ones 8) in Heq.
  by rewrite !Z.land_ones in Heq by lia.
Qed.

#[export] Instance u32_prefix_code :
  PrefixCode (λ v, (0 ≤ v ≤ U32_MAX)%Z) write_commitment_u32.
Proof.
  intros a b x y Ha Hb Heq. unfold write_commitment_u32 in Heq.
  rewrite !str_app_cons in Heq. injection Heq as H0 H1 H2 H3 Heq. split; [|exact Heq].
  apply byte_of_inj in H0, H1, H2, H3. rewrite !Z.shiftr_div_pow2 in H1, H2, H3 by lia.
  change (2 ^ 8)%Z with 256%Z in H1. change (2 ^ 16)%Z with 65536%Z in H2.
  change (2 ^ 24)%Z with 16777216%Z in H3. unfold U32_MAX in Ha, Hb.
  Z.to_euclidean_division_equations. lia.
Qed.

Lemma write_u32_length_inj n m x y :
  fits_u32 n → fits_u32 m →
  write_commitment_u32 (wrap_u32 (Z.of_nat n)) +:+ x =
  write_commitment_u32 (wrap_u32 (Z.of_nat m)) +:+ y → n = m ∧ x = y.
Proof.
  unfold fits_u32. intros Hn Hm Heq. rewrite !wrap_u32_small in Heq by lia.
  apply prefix_code in Heq as [Heq ->]; [|lia..]. split; [lia|done].
Qed.

#[export] Instance str_prefix_code : PrefixCode fits_str write_commitment_str.
Proof.
  intros a b x y Ha Hb Heq. unfold write_commitment_str in Heq.
  rewrite !str_app_assoc in Heq. apply write_u32_length_inj in Heq as [Hlen Heq]; [|done..].
  by apply str_app_inj_length.
Qed.

Definition write_commitment_output (o : AttestedOutput) : string :=
  write_commitment_str (out_path o) +:+ write_commitment_str (out_hash o).

#[export] Instance output_prefix_code : PrefixCode fits_output write_commitment_output.
Proof.
  intros [p h] [q k] x y [Ha1 Ha2] [Hb1 Hb2] Heq. unfold write_commitment_output in Heq.
  simpl in *. rewrite !str_app_assoc in Heq.
  apply prefix_code in Heq as [-> Heq]; [|done..].
  by apply prefix_code in Heq as [-> ->].
Qed.

(** A counted list of words of a prefix-free code. *)
Lemma counted_inj {A} (P : A → Prop) enc `{!PrefixCode P enc} l1 l2 x y :
  fits_list P l1 → fits_list P l2 →
  write_commitment_count l1 +:+ str_concat (enc <$> l1) +:+ x =
  write_commitment_count l2 +:+ str_concat (enc <$> l2) +:+ y → l1 = l2 ∧ x = y.
Proof.
  intros [Hn1 H1] [Hn2 H2] Heq. unfold write_commitment_count in Heq.
  apply write_u32_length_inj in Heq as [Hlen Heq]; [|done..].
  by apply (str_concat_inj P enc) in Heq.
Qed.

Lemma encode_commitment_v0_3_inj r1 c1 s1 o1 r2 c2 s2 o2 :
  fits_commitment r1 c1 s1 o1 → fits_commitment r2 c2 s2 o2 →
  encode_commitment_v0_3 r1 c1 s1 o1 = encode_commitment_v0_3 r2 c2 s2 o2 →
  r1 = r2 ∧ c1 = c2 ∧ s1 = s2 ∧ o1 = o2.
Proof.
  intros (Hr1 & Hc1 & (Hm1 & Ha1 & Hp1) & Ho1) (Hr2 & Hc2 & (Hm2 & Ha2 & Hp2) & Ho2).
  unfold encode_commitment_v0_3. fold write_commitment_output. intros Heq.
  apply (inj (String.append _)) in Heq. apply prefix_code in Heq as [-> Heq]; [|done..].
  apply (counted_inj fits_str write_commitment_str) in Heq as [-> Heq]; [|done..].
  apply prefix_code in Heq as [Hm Heq]; [|done..].
  apply (counted_inj fits_str write_commitment_str) in Heq as [Ha Heq]; [|done..].
  apply (counted_inj fits_str write_commitment_str) in Heq as [Hp Heq]; [|done..].
  rewrite <- (str_app_nil_r (str_concat (_ <$> o1))),
    <- (str_app_nil_r (str_concat (_ <$> o2))) in Heq.
  apply (counted_inj fits_output write_commitment_output) in Heq as [-> _]; [|done..].
  destruct s1, s2. simpl in *. by subst.
Qed.

(** C28. The v0.3 commitment encoding is injective: two quadruples of process
    root, command, output selection and outputs, none of whose texts and lists
    exceeds the [u32] of its length prefix, have one encoding only if they are equal. *)
Theorem encode_commitment_v0_3_injective r1 c1 s1 o1 r2 c2 s2 o2 :
  fits_commitment r1 c1 s1 o1 → fits_commitment r2 c2 s2 o2 →
  encode_commitment_v0_3 r1 c1 s1 o1 = encode_commitment_v0_3 r2 c2 s2 o2 →
  r1 = r2 ∧ c1 = c2 ∧ s1 = s2 ∧ o1 = o2.
Proof. apply encode_commitment_v0_3_inj. Qed.

(** ** Construction *)

#[export] Instance output_le_total : Total output_le.
Proof.
  intros [p h] [q k]. unfold output_le. simpl. destruct (decide (p = q)) as [->|Hne].
  - destruct (total String.le h k); naive_solver.
  - destruct (total String.le p q); naive_solver.
Qed.

#[export] Instance output_le_trans : Transitive output_le.
Proof.
  intros [p h] [q k] [r m]. unfold output_le. simpl.
  intros [[Hpq Hne]|[-> Hhk]] [[Hqr Hne']|[-> Hkm]]; auto.
  - left. split; [by trans q|]. intros ->. apply Hne. by apply (anti_symm String.le).
  - right. split; [done|]. by trans k.
Qed.

#[export] Instance output_le_anti_symm : AntiSymm (=) output_le.
Proof.
  intros [p h] [q k]. unfold output_le. simpl.
  intros [[Hpq Hne]|[-> Hhk]] [[Hqr Hne']|[? Hkm]]; simplify_eq.
  - destruct Hne. by apply (anti_symm String.le).
  - f_equal. by apply (anti_symm String.le).
Qed.

Lemma sort_outputs_perm_eq l1 l2 : l1 ≡ₚ l2 → sort_outputs l1 = sort_outputs l2.
Proof.
  intros Hp. apply (StronglySorted_unique output_le).
  - apply StronglySorted_merge_sort; apply _.
  - apply StronglySorted_merge_sort; apply _.
  - unfold sort_outputs. by rewrite !merge_sort_Permutation.
Qed.

Section construction.
Context `{Sha256} `{CommitmentJson}.

(** Artifacts, output roots and outputs are sets to an attestation: the
    order in which the command line and the directory walk list them does not
    reach the document. *)
Theorem new_with_outputs_permutation tree command mode a1 a2 r1 r2 o1 o2 :
  a1 ≡ₚ a2 → r1 ≡ₚ r2 → o1 ≡ₚ o2 →
  new_with_outputs tree command (mkSelection mode a1 r1) o1 =
  new_with_outputs tree command (mkSelection mode a2 r2) o2.
Proof.
  intros Ha Hr Ho. unfold new_with_outputs. simpl.
  by rewrite (sort_strings_perm_eq a1 a2), (sort_strings_perm_eq r1 r2),
    (sort_outputs_perm_eq o1 o2).
Qed.

Lemma with_process_root_id att : with_process_root (process_root att) att = att.
Proof. by destruct att. Qed.

(** The process root a document ends up with once it has been validated. *)
Definition process_root_ok (att : Attestation) : Prop :=
  process_root att = "" ∨ process_root att = root_hash_of (tree att).

Lemma validate_committed_Ok commitment att att' :
  validate_committed commitment att = (att', Ok ()) ↔
  att' = with_process_root (root_hash_of (tree att)) att ∧ process_root_ok att ∧
  commitment (root_hash_of (tree att)) (command att) (output_selection att) (outputs att)
    = root_hash att.
Proof.
  unfold validate_committed, process_root_ok.
  destruct (bool_decide_reflect (process_root att = "")) as [Hp|Hp]; simpl.
  - rewrite bool_decide_true by done. simpl. case_bool_decide; simpl; naive_solver.
  - destruct (bool_decide_reflect (root_hash_of (tree att) = process_root att)) as [Hr|Hr];
      simpl; [|naive_solver].
    rewrite Hr, with_process_root_id. case_bool_decide; simpl; naive_solver.
Qed.

Lemma validate_Ok att att' :
  let root := root_hash_of (tree att) in
  validate att = (att', Ok ()) ↔
  att' = with_process_root root att ∧
  ((version att = "0.1.0" ∧ root_hash att = root) ∨
   ((version att = "0.2.0" ∨ version att = "0.2.1") ∧ process_root_ok att ∧
    commitment_hash_v0_2 root (command att) (output_selection att) (outputs att)
      = root_hash att) ∨
   (version att = "0.3.0" ∧ process_root_ok att ∧
    commitment_hash_v0_3 root (command att) (output_selection att) (outputs att)
      = root_hash att)).
Proof.
  unfold validate. cbv zeta.
  destruct (bool_decide_reflect (version att = "0.1.0")) as [Hv1|Hv1].
  { rewrite Hv1. case_bool_decide; simpl; naive_solver. }
  destruct (bool_decide_reflect (version att = "0.2.0")) as [Hv2|Hv2];
    destruct (bool_decide_reflect (version att = "0.2.1")) as [Hv3|Hv3]; simpl;
    rewrite ?validate_committed_Ok; try naive_solver congruence.
  destruct (bool_decide_reflect (version att = "0.3.0")) as [Hv4|Hv4];
    rewrite ?validate_committed_Ok; naive_solver congruence.
Qed.

(** A document that validation has accepted is accepted unchanged. *)
Lemma validate_idempotent att att' : validate att = (att', Ok ()) → validate att' = (att', Ok ()).
Proof.
  intros [-> Hv]%validate_Ok. apply validate_Ok. split; [done|].
  destruct Hv as [?|[(? & _ & ?)|(? & _ & ?)]]; [by left|right; left|right; right];
    (split; [done|]; split; [by right|done]).
Qed.

(** C29. When validation accepts: exactly when the version is known, the process
    root is the root of the leaves (absent is allowed from 0.2.0 on) and the
    root hash is that version's commitment; and the document it leaves is the
    one it was given with the process root filled in. *)
Theorem validate_ok_iff att att' :
  let root := root_hash_of (tree att) in
  validate att = (att', Ok ()) ↔
  att' = with_process_root root att ∧
  ((version att = "0.1.0" ∧ root_hash att = root) ∨
   ((version att = "0.2.0" ∨ version att = "0.2.1") ∧ process_root_ok att ∧
    commitment_hash_v0_2 root (command att) (output_selection att) (outputs att)
      = root_hash att) ∨
   (version att = "0.3.0" ∧ process_root_ok att ∧
    commitment_hash_v0_3 root (command att) (output_selection att) (outputs att)
      = root_hash att)).
Proof. apply validate_Ok. Qed.

(** Which error validation reports, in the order of its checks: an unknown
    version is [UnsupportedVersion]; for the committed versions a process root
    that is present and is not the root of the leaves is [ProcessRootMismatch]
    whatever the root hash, and only then is the commitment compared. *)
Theorem validate_errors att e :
  let root := root_hash_of (tree att) in
  snd (validate att) = Err e ↔
  match e with
  | UnsupportedVersion v =>
      v = version att ∧ version att ∉ ["0.1.0"; "0.2.0"; "0.2.1"; "0.3.0"]
  | LegacyRootMismatch => version att = "0.1.0" ∧ root_hash att ≠ root
  | ProcessRootMismatch =>
      version att ∈ ["0.2.0"; "0.2.1"; "0.3.0"] ∧ ¬ process_root_ok att
  | RootMismatch =>
      process_root_ok att ∧
      ((version att ∈ ["0.2.0"; "0.2.1"] ∧
        commitment_hash_v0_2 root (command att) (output_selection att) (outputs att)
          ≠ root_hash att) ∨
       (version att = "0.3.0" ∧
        commitment_hash_v0_3 root (command att) (output_selection att) (outputs att)
          ≠ root_hash att))
  end.
Proof.
  assert (Hc : ∀ commitment, snd (validate_committed commitment att) = Err e ↔
    match e with
    | ProcessRootMismatch => ¬ process_root_ok att
    | RootMismatch => process_root_ok att ∧
        commitment (root_hash_of (tree att)) (command att) (output_selection att)
          (outputs att) ≠ root_hash att
    | _ => False
    end).
  { intros commitment. unfold validate_committed, process_root_ok.
    destruct (bool_decide_reflect (process_root att = "")) as [Hp|Hp]; simpl.
    - rewrite bool_decide_true by done. simpl.
      case_bool_decide; simpl; destruct e; naive_solver.
    - destruct (bool_decide_reflect (root_hash_of (tree att) = process_root att))
        as [Hr|Hr]; simpl; [rewrite Hr; case_bool_decide; simpl|]; destruct e; naive_solver. }
  cbv zeta. unfold validate.
  destruct (bool_decide_reflect (version att = "0.1.0")) as [Hv1|Hv1].
  { rewrite Hv1. case_bool_decide; simpl; destruct e; set_solver. }
  destruct (bool_decide_reflect (version att = "0.2.0")) as [Hv2|Hv2];
    destruct (bool_decide_reflect (version att = "0.2.1")) as [Hv3|Hv3]; simpl.
  1-3: rewrite Hc; destruct e; rewrite ?Hv2, ?Hv3 in *; set_solver.
  destruct (bool_decide_reflect (version att = "0.3.0")) as [Hv4|Hv4].
  - rewrite Hc; destruct e; rewrite Hv4; set_solver.
  - simpl. destruct e; set_solver.
Qed.
End construction.

(** ** Validated documents *)

Section validated.
Context `{Sha256} `{CommitmentJson}.

Lemma new_with_outputs_version tree command sel outs :
  version (new_with_outputs tree command sel outs) = "0.3.0".
Proof. done. Qed.

(** Construction and validation agree: a document made by
    [new_with_outputs] validates, unchanged. *)
Theorem new_with_outputs_validates tree command sel outs :
  let att := new_with_outputs tree command sel outs in
  validate att = (att, Ok ()).
Proof.
  cbv zeta. apply validate_Ok. split; [done|]. right. right.
  split; [done|]. split; [by right|done].
Qed.

(** The text hashed for the root of a v0.3 document. *)
Definition committed_bytes (att : Attestation) : string :=
  encode_commitment_v0_3 (root_hash_of (tree att)) (command att) (output_selection att)
    (outputs att).
Definition committed_fits (att : Attestation) : Prop :=
  fits_commitment (root_hash_of (tree att)) (command att) (output_selection att)
    (outputs att).

(** The trees [repx] writes: no stored nodes, the number of leaves as it is, and
    leaves that are digests.  [validate] checks none of this. *)
Definition plain_tree (t : MerkleTree) : Prop :=
  nodes t = [] ∧ leaf_count t = length (leaves t) ∧ Forall digest_sized (leaves t).

Lemma made_plain `{!Sha256Laws} ops : plain_tree (build_merkle_tree ops).
Proof.
  split; [done|]. split; [done|]. apply Forall_fmap, Forall_true. intros op. apply digest_length.
Qed.

(** What a root hash binds, for the theorem below and the command line. *)
Lemma root_binds_document `{!Sha256Laws} a b a' b' :
  version a = "0.3.0" → version b = "0.3.0" →
  validate a = (a', Ok ()) → validate b = (b', Ok ()) →
  committed_fits a → committed_fits b →
  no_collision [committed_bytes a; committed_bytes b] →
  root_hash a = root_hash b →
  (command a' = command b' ∧ output_selection a' = output_selection b' ∧
   outputs a' = outputs b' ∧ process_root a' = process_root b') ∧
  (plain_tree (tree a) → plain_tree (tree b) → leaf_count (tree a) = leaf_count (tree b) →
   no_collision (root_inputs (leaves (tree a)) ++ root_inputs (leaves (tree b))) →
   leaves (tree a') = leaves (tree b')).
Proof.
  intros Hva Hvb [-> Ha]%validate_Ok [-> Hb]%validate_Ok Hfa Hfb Hnc Hroot.
  destruct Ha as [[? _]|[[[?|?] _]|(_ & _ & Ha)]]; try congruence.
  destruct Hb as [[? _]|[[[?|?] _]|(_ & _ & Hb)]]; try congruence.
  rewrite <- Ha, <- Hb in Hroot. apply (digest_inj_on _ _ _ Hnc) in Hroot; [|set_solver..].
  apply encode_commitment_v0_3_inj in Hroot as (Hr & Hc & Hs & Ho); [|done..].
  split; [done|]. simpl. intros (Hna & Hla & Hda) (Hnb & Hlb & Hdb) Hlen Hnl.
  unfold root_hash_of, leaf_hashes in Hr. rewrite Hna, Hnb in Hr.
  assert (Hshow : ∀ t, leaf_count t = length (leaves t) →
    negb (leaves t =?= []) || (leaf_count t =?= 0) = true).
  { intros t Ht. destruct (leaves t) eqn:Hl; simpl; [|done].
    by rewrite bool_decide_true. }
  rewrite !Hshow in Hr by done. apply root_from_leaves_inj in Hr; [done|congruence|done..].
Qed.

(** C10. What a v0.3 root hash binds: two documents of version 0.3.0 that validate
    and carry one root hash have the same command, output selection, outputs and
    process root, if the lengths in both fit the u32 prefixes of the encoding and
    the two commitments do not collide.  If moreover both trees are plain (no
    stored nodes, as many leaves as they say, each the size of a digest; the trees
    [repx] writes are, by [made_plain], but [validate] does not check it) and have
    equally many leaves, then they have the same leaves in the same order, if no
    two of the strings hashed for the process roots collide.  Without these
    conditions the leaves are not bound: see [validate_accepts_collapsed_leaves]
    and [undigested_leaves_ambiguous]. *)
Theorem validated_root_binds `{!Sha256Laws} a b a' b' :
  version a = "0.3.0" → version b = "0.3.0" →
  validate a = (a', Ok ()) → validate b = (b', Ok ()) →
  committed_fits a → committed_fits b →
  no_collision [committed_bytes a; committed_bytes b] →
  root_hash a = root_hash b →
  (command a' = command b' ∧ output_selection a' = output_selection b' ∧
   outputs a' = outputs b' ∧ process_root a' = process_root b') ∧
  (plain_tree (tree a) → plain_tree (tree b) → leaf_count (tree a) = leaf_count (tree b) →
   no_collision (root_inputs (leaves (tree a)) ++ root_inputs (leaves (tree b))) →
   leaves (tree a') = leaves (tree b')).
Proof. exact (root_binds_document a b a' b'). Qed.

(** Leaves that are no digests are not bound: the pair is hashed unframed, so the
    boundary between two leaves can be moved. *)
Theorem undigested_leaves_ambiguous x y z command sel outs :
  let att leaves := new_with_outputs (mkTree leaves [] 2) command sel outs in
  validate (att [x +:+ y; z]) = (att [x +:+ y; z], Ok ()) ∧ validate (att [x; y +:+ z]) = (att [x; y +:+ z], Ok ()) ∧
  root_hash (att [x +:+ y; z]) = root_hash (att [x; y +:+ z]).
Proof.
  cbv zeta. split; [apply new_with_outputs_validates|]. split; [apply new_with_outputs_validates|].
  unfold new_with_outputs. cbn [root_hash]. f_equal.
  change (hash_pair (x +:+ y) z = hash_pair x (y +:+ z)). unfold hash_pair. by rewrite str_app_assoc.
Qed.

(** The number of leaves is not committed to either: a document whose two
    leaves are replaced by their parent (which is no operation's digest) still
    validates, under the same root hash. *)
Theorem validate_accepts_collapsed_leaves x y command sel outs :
  let att := new_with_outputs (mkTree [x; y] [] 2) command sel outs in
  let forged := mkAttestation (version att) (predicate_type att) (root_hash att)
    (process_root att) command (output_selection att) (outputs att)
    (mkTree [hash_pair x y] [] 1) in
  validate forged = (forged, Ok ()) ∧ root_hash forged = root_hash att ∧
  leaf_hashes (tree forged) = [hash_pair x y] ∧ leaf_hashes (tree att) = [x; y].
Proof.
  cbv zeta. split; [|done]. apply validate_Ok. split; [done|]. right. right.
  split; [done|]. split; [by right|done].
Qed.

(** A document built from operations survives the file: what [write_to_file]
    writes, [read_from_file] reads back and accepts, whole. *)
Theorem read_write_roundtrip `{!AttestationJson, !AttestationJsonLaws} ops command sel outs :
  let att := new_with_outputs (build_merkle_tree ops) command sel outs in
  read_from_file (Some (write_to_file att)) = Ok att.
Proof.
  cbv zeta. unfold read_from_file, write_to_file. rewrite attestation_json_roundtrip.
  set (att := new_with_outputs _ _ _ _).
  assert (Hv : validate (without_nodes att) = (att, Ok ())); [|by rewrite Hv].
  apply validate_Ok. split; [done|]. right. right.
  split; [done|]. split; [by right|done].
Qed.
End validated.

(** ** Examples: a serialiser that satisfies the laws, and concrete documents *)

Module AttestationExamples.
Import Toy.

Fixpoint bits_of (p : positive) : string :=
  match p with
  | xH => ""
  | xO p => String "0" (bits_of p)
  | xI p => String "1" (bits_of p)
  end.

Fixpoint of_bits (s : string) : positive :=
  match s with
  | "" => xH
  | String c s => if c =?= "0"%char then xO (of_bits s) else xI (of_bits s)
  end.

Lemma of_bits_of p : of_bits (bits_of p) = p.
Proof. induction p; simpl; congruence. Qed.

(** The serialised part of a document, as nested pairs. *)
Definition fields (a : Attestation) :=
  (version a, predicate_type a, root_hash a, process_root a, command a,
   (mode (output_selection a), artifacts (output_selection a),
    output_roots (output_selection a)),
   (λ o, (out_path o, out_hash o)) <$> outputs a,
   (leaves (tree a), leaf_count (tree a))).

Definition of_fields (x : string * string * string * string * list string
    * (string * list string * list string) * list (string * string)
    * (list string * nat)) : Attestation :=
  let '(v, p, rh, pr, c, (m, ar, ro), os, (ls, n)) := x in
  mkAttestation v p rh pr c (mkSelection m ar ro) ((λ '(p, h), mkOutput p h) <$> os)
    (mkTree ls [] n).

#[export] Instance bits_json : AttestationJson := {|
  attestation_to_json a := bits_of (encode (fields a));
  attestation_of_json s := of_fields <$> decode (of_bits s)
|}.

#[export] Instance bits_json_laws : AttestationJsonLaws.
Proof.
  constructor. intros [v p rh pr c [m ar ro] os t]. simpl.
  rewrite of_bits_of, decode_encode. simpl. unfold without_nodes. simpl.
  do 2 f_equal. induction os as [|[? ?] os IH]; [done|]. csimpl. by rewrite IH.
Qed.

#[export] Instance text_commitment : CommitmentJson := {|
  commitment_to_vec c := c2_domain c +:+ c2_process_root c +:+ str_concat (c2_command c)
|}.

Definition exec_op : CanonicalOp := mkOp OpExec 0 (Some (digest "make")) [] [] [].
Definition exit_op : CanonicalOp := mkOp OpExit 0 (Some (digest "make")) ["exit:0"] [] [].
Definition built : list AttestedOutput :=
  [mkOutput "/w/b.o" (digest "B"); mkOutput "/w/a.o" (digest "A")].

Definition example_attestation : Attestation :=
  new_with_outputs (build_merkle_tree (finalize_ops [exec_op; exit_op])) ["make"; "all"]
    (mkSelection "explicit" ["/w/b.o"; "/w/a.o"] []) built.

(** The same document as an earlier writer left it: no process root. *)
Definition unfilled : Attestation := with_process_root "" example_attestation.

Lemma encode_commitment_v0_3_injective_witness :
  let r := digest "root" in
  r = r ∧ ["make"; "all"] = ["make"; "all"] ∧ default_selection = default_selection ∧
  built = built.
Proof.
  intros r.
  apply (encode_commitment_v0_3_injective r ["make"; "all"] default_selection built
           r ["make"; "all"] default_selection built); [| |done];
    apply (bool_decide_unpack (fits_commitment _ _ _ _)); vm_compute; done.
Defined.

Lemma new_with_outputs_permutation_witness :
  new_with_outputs (mkTree [] [] 0) ["make"]
    (mkSelection "explicit" ["b"; "a"] ["y"; "x"]) built
  = new_with_outputs (mkTree [] [] 0) ["make"]
      (mkSelection "explicit" ["a"; "b"] ["x"; "y"]) (rev built).
Proof. apply new_with_outputs_permutation; apply Permutation_swap. Defined.

Lemma validated_root_binds_witness :
  command (fst (validate unfilled)) = ["make"; "all"] ∧
  leaves (tree (fst (validate unfilled))) = leaves (tree example_attestation).
Proof.
  destruct (validated_root_binds unfilled example_attestation example_attestation
              example_attestation) as [(Hc & _) Hl].
  1-2: reflexivity.
  1-2: vm_compute; reflexivity.
  1-2: apply (bool_decide_unpack (fits_commitment _ _ _ _)); vm_compute; done.
  - apply (bool_decide_unpack (no_collision _)). vm_compute. done.
  - reflexivity.
  - split; [vm_compute; reflexivity|]. apply Hl; [| |reflexivity|].
    + split; [reflexivity|]. split; [reflexivity|].
      apply (bool_decide_unpack (Forall (λ s, String.length s = 71) _)). vm_compute. done.
    + split; [reflexivity|]. split; [reflexivity|].
      apply (bool_decide_unpack (Forall (λ s, String.length s = 71) _)). vm_compute. done.
    + apply (bool_decide_unpack (no_collision _)). vm_compute. done.
Defined.

Lemma read_write_roundtrip_witness :
  read_from_file (Some (write_to_file example_attestation)) = Ok example_attestation.
Proof. apply (read_write_roundtrip (finalize_ops [exec_op; exit_op])). Defined.
End AttestationExamples.
