(* ===== verification/Workspace.v ===== *)
(** * Workspace snapshots and the selection of outputs ([repx/src/workspace.rs])

    A snapshot maps the paths below the watched root to what was found there;
    the outputs of a build are selected by comparing the snapshots taken before
    and after it. The directory walk runs against the class [WalkFs], what the
    file system answers during one walk. *)
From S2P Require Export FileIdentity.

Inductive EntryKind := EntryFile | EntrySymlink | EntryDirectory.

Record SnapshotEntry := mkEntrySnapshot {
  entry_kind : EntryKind;
  entry_hash : option string;
  entry_target : option string
}.

#[export] Instance EntryKind_eq_dec : EqDecision EntryKind.
Proof. solve_decision. Defined.
#[export] Instance SnapshotEntry_eq_dec : EqDecision SnapshotEntry.
Proof. solve_decision. Defined.

(** [Snapshot]: its [entries]. *)
Abbreviation Snapshot := (gmap string SnapshotEntry).

Record OutputFile := mkOutputFile { output_path : string; output_hash : string }.

#[export] Instance OutputFile_eq_dec : EqDecision OutputFile.
Proof. solve_decision. Defined.

Inductive OutputMode := Inferred | Explicit.

Record SelectedOutputs := mkSelected { selected_mode : OutputMode; selected : list OutputFile }.

(** ** Selection *)

(** [outputs.sort_by(|a, b| a.path.cmp(&b.path)); outputs.dedup_by(...)]. *)
Definition sort_dedup_outputs (l : list OutputFile) : list OutputFile :=
  dedup_by (λ a b, (output_path a =?= output_path b) && (output_hash a =?= output_hash b))
    (sort_by_key output_path l).

(** The body of the loop of [changed_outputs]. *)
Definition changed_output (before : Snapshot) (e : string * SnapshotEntry) : option OutputFile :=
  let '(path, entry) := e in
  if negb (entry_kind entry =?= EntryFile) then None
  else if before !! path =?= Some entry then None
  else hash ← entry_hash entry; Some (mkOutputFile path hash).

Definition changed_outputs (before after : Snapshot) : list OutputFile :=
  sort_dedup_outputs (omap (changed_output before) (map_to_list after)).

(** [PathBuf::pop] on a path without redundant separators. *)
Definition path_pop (buf : string) : string :=
  match path_parent buf with
  | Some parent => path_of_components parent
  | None => buf
  end.

Definition normalize_path (path : string) : string :=
  foldl (λ normalized c,
      match c with
      | CurDir => normalized
      | ParentDir => path_pop normalized
      | other => path_push normalized (component_str other)
      end) "" (components path).

Definition absolutize (workspace_root path : string) : string :=
  normalize_path (if path_is_absolute path then path else path_push workspace_root path).

(** [path.strip_prefix(workspace_root).unwrap_or(path)], by components. *)
Definition display_path (workspace_root path : string) : string :=
  if path_starts_with path workspace_root
  then path_of_components (drop (length (components workspace_root)) (components path))
  else path.

(** The three [bail!]s of [select_outputs]. *)
Inductive SelectError :=
  | ArtifactMissing (artifact : string)
  | ArtifactNotRegular (artifact : string)
  | ArtifactNotHashed (artifact : string).

(** The body of the loop over [artifacts]. *)
Definition select_artifact (after : Snapshot) (workspace_root artifact : string)
    : result SelectError OutputFile :=
  let key := absolutize workspace_root artifact in
  match after !! key with
  | None => Err (ArtifactMissing artifact)
  | Some entry =>
      if negb (entry_kind entry =?= EntryFile) then Err (ArtifactNotRegular artifact)
      else match entry_hash entry with
           | None => Err (ArtifactNotHashed artifact)
           | Some hash => Ok (mkOutputFile key hash)
           end
  end.

Fixpoint select_artifacts (after : Snapshot) (workspace_root : string)
    (artifacts : list string) (outputs : list OutputFile) : result SelectError (list OutputFile) :=
  match artifacts with
  | [] => Ok outputs
  | artifact :: artifacts =>
      output ← select_artifact after workspace_root artifact;
      select_artifacts after workspace_root artifacts (outputs ++ [output])
  end.

Definition select_outputs (before after : Snapshot) (workspace_root : string)
    (artifacts output_roots : list string) : result SelectError SelectedOutputs :=
  if bool_decide (artifacts = []) && bool_decide (output_roots = []) then
    Ok (mkSelected Inferred (changed_outputs before after))
  else
    let roots := absolutize workspace_root <$> output_roots in
    let outputs :=
      List.filter (λ output, existsb (path_starts_with (output_path output)) roots)
        (changed_outputs before after) in
    outputs ← select_artifacts after workspace_root artifacts outputs;
    Ok (mkSelected Explicit (sort_dedup_outputs outputs)).

(** ** The directory walk *)

Inductive FileType := TypeFile | TypeDir | TypeSymlink | TypeOther.

#[export] Instance FileType_eq_dec : EqDecision FileType.
Proof. solve_decision. Defined.

(** What the calls of one walk answer: [symlink_metadata], [read_link],
    [metadata().is_file()], [canonicalize] and the names [read_dir] yields
    ([None]: the call, or one of the entries, fails). *)
Class WalkFs := {
  symlink_type : string → option FileType;
  read_link : string → option string;
  target_is_file : string → bool;
  canonicalize : string → option string;
  read_dir : string → option (list string);
  hash_contents : string → partial (option string)
}.

(** A walk ends with the maps it has filled, or with an I/O error, or panics in
    [hash_file_contents], or has used up [fuel]. *)
Inductive walked (A : Type) :=
  | Walked (a : A)
  | WalkError
  | WalkPanic
  | WalkFuel.
Arguments Walked {A} a.
Arguments WalkError {A}.
Arguments WalkPanic {A}.
Arguments WalkFuel {A}.

#[export] Instance walked_ret : MRet walked := λ A a, Walked a.
#[export] Instance walked_bind : MBind walked := λ A B f x,
  match x with
  | Walked a => f a | WalkError => WalkError | WalkPanic => WalkPanic | WalkFuel => WalkFuel
  end.

Definition lift_partial {A} (x : partial A) : walked A :=
  match x with Returns a => Walked a | Panics => WalkPanic end.

Definition lift_io {A} (x : option A) : walked A :=
  match x with Some a => Walked a | None => WalkError end.

(** [entries] and [seen_dirs]. *)
Abbreviation WalkState := (gmap string SnapshotEntry * gset string)%type.

Section walk.
Context `{WalkFs}.

Definition walk_symlink (actual logical : string) (st : WalkState) : walked WalkState :=
  let '(entries, seen_dirs) := st in
  let target := read_link actual in
  let entries := <[logical := mkEntrySnapshot EntrySymlink None target]> entries in
  if target_is_file actual then
    hash ← lift_partial (hash_contents actual);
    match hash with
    | Some hash =>
        Walked (<[logical := mkEntrySnapshot EntryFile (Some hash) target]> entries, seen_dirs)
    | None => Walked (entries, seen_dirs)
    end
  else Walked (entries, seen_dirs).

Definition walk_file (actual logical : string) (st : WalkState) : walked WalkState :=
  let '(entries, seen_dirs) := st in
  hash ← lift_partial (hash_contents actual);
  match hash with
  | Some hash =>
      Walked (<[logical := mkEntrySnapshot EntryFile (Some hash) None]> entries, seen_dirs)
  | None => Walked (entries, seen_dirs)
  end.

(** The loop of [walk_dir] over the sorted children. *)
Fixpoint walk_children (walk : string → string → WalkState → walked WalkState)
    (actual logical : string) (children : list string) (st : WalkState) : walked WalkState :=
  match children with
  | [] => Walked st
  | child :: children =>
      st ← walk (path_push actual child) (path_push logical child) st;
      walk_children walk actual logical children st
  end.

Definition walk_dir (walk : string → string → WalkState → walked WalkState)
    (actual logical : string) (st : WalkState) : walked WalkState :=
  children ← lift_io (read_dir actual);
  walk_children walk actual logical (sort_strings children) st.

(** [walk] and [walk_dir] call each other; [fuel] bounds their nesting. *)
Fixpoint walk (fuel : nat) (actual logical : string) (st : WalkState) : walked WalkState :=
  match fuel with
  | 0 => WalkFuel
  | S fuel =>
      match symlink_type actual with
      | None | Some TypeOther => Walked st
      | Some TypeSymlink => walk_symlink actual logical st
      | Some TypeFile => walk_file actual logical st
      | Some TypeDir =>
          if path_file_name actual =?= Some ".git" then Walked st
          else
            let '(entries, seen_dirs) := st in
            let entries := <[logical := mkEntrySnapshot EntryDirectory None None]> entries in
            canonical ← lift_io (canonicalize actual);
            if bool_decide (canonical ∈ seen_dirs) then Walked (entries, seen_dirs)
            else walk_dir (walk fuel) actual logical (entries, {[canonical]} ∪ seen_dirs)
      end
  end.

Definition snapshot (fuel : nat) (root : string) : walked Snapshot :=
  st ← walk fuel root root (∅, ∅);
  Walked st.1.
End walk.

(** ** Lists of outputs with one hash per path *)

Definition one_hash_per_path (l : list OutputFile) : Prop :=
  ∀ a b, a ∈ l → b ∈ l → output_path a = output_path b → a = b.

Lemma dedup_from_ext {A} (f g : A → A → bool) prev l :
  (∀ a b, a ∈ prev :: l → b ∈ prev :: l → f a b = g a b) →
  dedup_from f prev l = dedup_from g prev l.
Proof.
  revert prev. induction l as [|x l IH]; intros prev Hfg; simpl; [done|].
  rewrite Hfg by set_solver. rewrite !IH by (intros; apply Hfg; set_solver). done.
Qed.

Lemma sort_dedup_outputs_eq l : one_hash_per_path l →
  sort_dedup_outputs l = sort_dedup output_path l.
Proof.
  intros Hl. unfold sort_dedup_outputs, sort_dedup, dedup_by.
  assert (Hin : ∀ x, x ∈ sort_by_key output_path l → x ∈ l)
    by (intros x; by rewrite sort_by_key_perm).
  destruct (sort_by_key output_path l) as [|x l']; [done|]. f_equal.
  apply dedup_from_ext. intros a b Ha Hb. case_bool_decide as Hp; [|done].
  rewrite (Hl a b) by auto. by rewrite bool_decide_true.
Qed.

Lemma sort_dedup_outputs_spec l : one_hash_per_path l →
  strictly_sorted (output_path <$> sort_dedup_outputs l) ∧
  ∀ o, o ∈ sort_dedup_outputs l ↔ o ∈ l.
Proof.
  intros Hl. rewrite sort_dedup_outputs_eq by done. split; [apply sort_dedup_strict|].
  intros o. split; [apply sort_dedup_subset|]. intros Ho.
  assert (Hp : output_path o ∈ output_path <$> sort_dedup output_path l).
  { apply sort_dedup_keys. apply list_elem_of_fmap. eauto. }
  apply list_elem_of_fmap in Hp as (o' & Hp & Ho').
  by rewrite (Hl o o' Ho (sort_dedup_subset _ _ _ Ho') Hp).
Qed.

(** [o] is what [after] records for a regular file. *)
Definition recorded (after : Snapshot) (o : OutputFile) : Prop :=
  ∃ target, after !! output_path o = Some (mkEntrySnapshot EntryFile (Some (output_hash o)) target).

Lemma recorded_one_hash after l : (∀ o, o ∈ l → recorded after o) → one_hash_per_path l.
Proof.
  intros Hl a b [ta Ha]%Hl [tb Hb]%Hl Hp. rewrite Hp in Ha.
  destruct a, b; simpl in *. congruence.
Qed.

(** [o] is recorded in [after], and [before] records something else, or nothing. *)
Definition changed (before after : Snapshot) (o : OutputFile) : Prop :=
  recorded after o ∧ before !! output_path o ≠ after !! output_path o.

Lemma changed_output_elem before after o :
  o ∈ omap (changed_output before) (map_to_list after) ↔ changed before after o.
Proof.
  unfold changed, recorded. rewrite list_elem_of_omap. split.
  - intros ([path [kind hash target]] & Hin & Hc). apply elem_of_map_to_list in Hin.
    unfold changed_output in Hc. simpl in Hc.
    case_bool_decide; [|done]. subst kind. simpl in Hc. case_bool_decide as Hb; [done|].
    destruct hash as [hash|]; [|done]. injection Hc as <-. simpl in *. split; [eauto|]. congruence.
  - intros [[target Ha] Hb]. eexists (_, _). rewrite elem_of_map_to_list.
    split; [exact Ha|]. unfold changed_output. simpl. rewrite bool_decide_false by congruence.
    by destruct o.
Qed.

Lemma changed_outputs_elem before after o :
  o ∈ changed_outputs before after ↔ changed before after o.
Proof.
  unfold changed_outputs. rewrite <- changed_output_elem. apply sort_dedup_outputs_spec.
  eapply recorded_one_hash. intros o'. rewrite changed_output_elem. by intros [Hr _].
Qed.

(** C37. The inferred outputs of a build are the regular files that its after
      snapshot records with a hash and that the before snapshot does not record
      identically (contents, kind and link target), in strictly increasing order
      of paths, whatever the iteration order of the snapshot's hash table. *)
Theorem changed_outputs_spec before after :
  strictly_sorted (output_path <$> changed_outputs before after) ∧
  ∀ o, o ∈ changed_outputs before after ↔
    (∃ target, after !! output_path o =
       Some (mkEntrySnapshot EntryFile (Some (output_hash o)) target)) ∧
    before !! output_path o ≠ after !! output_path o.
Proof.
  split; [|apply changed_outputs_elem]. apply sort_dedup_outputs_spec.
  eapply recorded_one_hash. intros o'. rewrite changed_output_elem. by intros [Hr _].
Qed.

Lemma select_artifact_Ok after root artifact o :
  select_artifact after root artifact = Ok o ↔
  output_path o = absolutize root artifact ∧ recorded after o.
Proof.
  unfold select_artifact, recorded. split.
  - repeat case_match; repx_bool; try done. intros [= <-]. simpl.
    destruct s as [kind hash target]. simpl in *. subst. eauto.
  - intros [<- [target ->]]. simpl. by destruct o.
Qed.

Lemma select_artifacts_Ok after root artifacts acc l :
  select_artifacts after root artifacts acc = Ok l ↔
  ∃ os, l = acc ++ os ∧ Forall2 (λ a o, select_artifact after root a = Ok o) artifacts os.
Proof.
  revert acc. induction artifacts as [|a artifacts IH]; intros acc; simpl.
  - split; [intros [= <-]; exists []; by rewrite app_nil_r|].
    intros (os & -> & Hos). apply Forall2_nil_inv_l in Hos as ->. by rewrite app_nil_r.
  - rewrite result_bind_Ok. setoid_rewrite IH. split.
    + intros (o & Ho & os & -> & Hos). exists (o :: os). rewrite <- app_assoc. auto.
    + intros (os & -> & Hos). apply Forall2_cons_inv_l in Hos as (o & os' & Ho & Hos & ->).
      exists o. split; [done|]. exists os'. by rewrite <- app_assoc.
Qed.

Lemma Forall2_elem_iff (P : string → OutputFile → Prop) l1 l2 o :
  Forall2 P l1 l2 → (∀ a o o', P a o → P a o' → o = o') →
  o ∈ l2 ↔ ∃ a, a ∈ l1 ∧ P a o.
Proof.
  intros HP Hf. induction HP as [|a o' l1 l2 Hao Hl IH]; [set_solver|].
  rewrite elem_of_cons, IH. setoid_rewrite elem_of_cons. naive_solver.
Qed.

(** The explicit selection: it succeeds exactly when every artifact names a
      regular file that was hashed in the after snapshot, and then consists of
      those files and of the changed files below an output root, one entry for
      each path, in order of paths. *)
Theorem select_outputs_explicit before after root artifacts output_roots :
  artifacts ≠ [] ∨ output_roots ≠ [] →
  ((∃ s, select_outputs before after root artifacts output_roots = Ok s) ↔
   (∀ a, a ∈ artifacts → ∃ o, output_path o = absolutize root a ∧ recorded after o)) ∧
  (∀ s, select_outputs before after root artifacts output_roots = Ok s →
     selected_mode s = Explicit ∧
     strictly_sorted (output_path <$> selected s) ∧
     ∀ o, o ∈ selected s ↔
       recorded after o ∧
       ((∃ a, a ∈ artifacts ∧ output_path o = absolutize root a) ∨
        (changed before after o ∧
         ∃ r, r ∈ output_roots ∧ path_starts_with (output_path o) (absolutize root r) = true))).
Proof.
  intros Hmode. unfold select_outputs.
  replace (bool_decide (artifacts = []) && bool_decide (output_roots = [])) with false.
  2:{ symmetry. apply andb_false_iff. rewrite !bool_decide_eq_false. tauto. }
  set (base := List.filter _ _).
  assert (Hbase : ∀ o, o ∈ base ↔ changed before after o ∧
    ∃ r, r ∈ output_roots ∧ path_starts_with (output_path o) (absolutize root r) = true).
  { intros o. unfold base. rewrite list_elem_of_In, filter_In, <- list_elem_of_In,
      changed_outputs_elem, existsb_exists. setoid_rewrite <- list_elem_of_In.
    setoid_rewrite list_elem_of_fmap. naive_solver. }
  split.
  - split.
    + intros (s & (l & Hl & _)%result_bind_Ok) a Ha.
      apply select_artifacts_Ok in Hl as (os & -> & Hos).
      apply list_elem_of_lookup in Ha as [i Hi].
      destruct (Forall2_lookup_l _ _ _ _ _ Hos Hi) as (o & _ & Ho).
      exists o. by apply select_artifact_Ok.
    + intros Hall. assert (∃ os, Forall2 (λ a o, select_artifact after root a = Ok o) artifacts os)
        as [os Hos].
      { clear Hmode. induction artifacts as [|a artifacts IH]; [by exists []|].
        destruct IH as [os Hos]; [intros; apply Hall; set_solver|].
        destruct (Hall a) as [o Ho]; [set_solver|].
        exists (o :: os). constructor; [by apply select_artifact_Ok|done]. }
      eexists. apply result_bind_Ok. eexists. split; [|done]. apply select_artifacts_Ok. eauto.
  - intros s (l & Hl & [= <-])%result_bind_Ok. split; [done|].
    apply select_artifacts_Ok in Hl as (os & -> & Hos). simpl.
    assert (Hel : ∀ o, o ∈ os ↔ ∃ a, a ∈ artifacts ∧ select_artifact after root a = Ok o)
      by (intros o; apply (Forall2_elem_iff _ _ _ _ Hos); congruence).
    setoid_rewrite select_artifact_Ok in Hel.
    assert (Hone : one_hash_per_path (base ++ os)).
    { apply (recorded_one_hash after). intros o [Ho|Ho]%elem_of_app.
      - by apply Hbase in Ho as [[? _] _].
      - apply Hel in Ho. naive_solver. }
    destruct (sort_dedup_outputs_spec _ Hone) as [Hs Hin]. split; [done|].
    intros o. rewrite Hin, elem_of_app, Hbase, Hel. unfold changed. naive_solver.
Qed.

(** ** The walk ends *)

Definition entry_shape (e : SnapshotEntry) : Prop :=
  match entry_kind e with
  | EntryFile => is_Some (entry_hash e)
  | EntrySymlink => entry_hash e = None
  | EntryDirectory => entry_hash e = None ∧ entry_target e = None
  end.

Definition snapshot_shape (s : Snapshot) : Prop := map_Forall (λ _, entry_shape) s.

(** The paths a walk of [root] may come to: it enters directories, except those
    named [.git], and follows no symbolic link. *)
Definition enters `{WalkFs} (path : string) : Prop :=
  symlink_type path = Some TypeDir ∧ path_file_name path ≠ Some ".git".

Inductive reached `{WalkFs} (root : string) : string → Prop :=
  | reached_root : reached root root
  | reached_child path children child :
      reached root path → enters path → read_dir path = Some children → child ∈ children →
      reached root (path_push path child).

(** A directory that cannot be resolved or listed, and a file (or a link to one)
    whose hashing panics. *)
Definition unreadable `{WalkFs} (path : string) : Prop :=
  enters path ∧ (canonicalize path = None ∨ read_dir path = None).
Definition unhashable `{WalkFs} (path : string) : Prop :=
  (symlink_type path = Some TypeFile ∨ symlink_type path = Some TypeSymlink ∧ target_is_file path = true) ∧
  hash_contents path = Panics.

Section walk_facts.
Context `{WalkFs} (dirs : gset string) (root : string).
Hypothesis canonicalize_dirs : ∀ path c, canonicalize path = Some c → c ∈ dirs.

(** What a walk started in [st] guarantees: fuel left over, directories seen
    stay seen, entries keep the shape of their kind, and a failure has its cause. *)
Definition walk_ok (st : WalkState) (w : walked WalkState) : Prop :=
  match w with
  | Walked st' => st.2 ⊆ st'.2 ∧ (snapshot_shape st.1 → snapshot_shape st'.1)
  | WalkError => ∃ path, reached root path ∧ unreadable path
  | WalkPanic => ∃ path, reached root path ∧ unhashable path
  | WalkFuel => False
  end.

Lemma walk_ok_refl st : walk_ok st (Walked st).
Proof. done. Qed.

Lemma walk_ok_bind st w f :
  walk_ok st w → (∀ st', w = Walked st' → st.2 ⊆ st'.2 → walk_ok st' (f st')) →
  walk_ok st (w ≫= f).
Proof.
  destruct w as [st'| | |]; simpl; try done. intros [Hs Hsh] Hf.
  specialize (Hf st' eq_refl Hs). destruct (f st') as [st2| | |]; simpl in *; try done.
  destruct Hf as [Hs2 Hsh2]. split; [by trans st'.2|auto].
Qed.

Lemma walk_ok_insert entries seen path e :
  entry_shape e → walk_ok (entries, seen) (Walked (<[path := e]> entries, seen)).
Proof. intros He. split; [done|]. simpl. intros Hs. by apply map_Forall_insert_2. Qed.

Lemma walk_ok_file actual logical st : reached root actual → symlink_type actual = Some TypeFile →
  walk_ok st (walk_file actual logical st).
Proof.
  intros Hr Ht. destruct st as [entries seen]. unfold walk_file.
  destruct (hash_contents actual) as [[hash|]|] eqn:Hh; simpl; [|done|].
  - apply walk_ok_insert. by exists hash.
  - exists actual. unfold unhashable. auto.
Qed.

Lemma walk_ok_symlink actual logical st : reached root actual → symlink_type actual = Some TypeSymlink →
  walk_ok st (walk_symlink actual logical st).
Proof.
  intros Hr Ht. destruct st as [entries seen]. unfold walk_symlink.
  assert (Hlink : walk_ok (entries, seen) (Walked
    (<[logical := mkEntrySnapshot EntrySymlink None (read_link actual)]> entries, seen)))
    by by apply walk_ok_insert.
  case_match; [|done]. destruct (hash_contents actual) as [[hash|]|] eqn:Hh; simpl; [|done|].
  2: { exists actual. unfold unhashable. auto. }
  split; [done|]. simpl. intros Hs. apply map_Forall_insert_2; [by exists hash|]. by apply Hlink.
Qed.

Lemma walk_ok_children (w : string → string → WalkState → walked WalkState) bound
    actual logical children st :
  (∀ child l st', child ∈ children → size (dirs ∖ st'.2) ≤ bound →
     walk_ok st' (w (path_push actual child) l st')) →
  size (dirs ∖ st.2) ≤ bound → walk_ok st (walk_children w actual logical children st).
Proof.
  revert st. induction children as [|c children IH]; intros st Hw Hb; simpl; [done|].
  apply walk_ok_bind; [apply Hw; [constructor|done]|]. intros st' _ Hsub. apply IH; [intros; apply Hw; [by constructor|done]|].
  etrans; [|exact Hb]. apply subseteq_size. set_solver.
Qed.

Lemma walk_ok_walk fuel actual logical st :
  reached root actual → size (dirs ∖ st.2) < fuel → walk_ok st (walk fuel actual logical st).
Proof.
  revert actual logical st. induction fuel as [|fuel IH]; intros actual logical st Hr Hf; [lia|].
  cbn [walk]. destruct (symlink_type actual) as [[]|] eqn:Ht; try apply walk_ok_refl.
  - by apply walk_ok_file.
  - case_bool_decide as Hgit; [apply walk_ok_refl|]. destruct st as [entries seen].
    assert (Henters : enters actual) by done.
    destruct (canonicalize actual) as [c|] eqn:Hc; simpl; [|exists actual; unfold unreadable; auto].
    set (entries' := <[logical := _]> entries).
    assert (He : walk_ok (entries, seen) (Walked (entries', seen)))
      by (by apply walk_ok_insert).
    case_bool_decide as Hin; [done|]. unfold walk_dir.
    destruct (read_dir actual) as [children|] eqn:Hrd; simpl; [|exists actual; unfold unreadable; auto].
    assert (Hlt : size (dirs ∖ ({[c]} ∪ seen)) < size (dirs ∖ seen)).
    { apply subset_size. split; [set_solver|]. intros Hsub.
      apply canonicalize_dirs in Hc. assert (c ∈ dirs ∖ ({[c]} ∪ seen)) by set_solver.
      set_solver. }
    simpl in Hf.
    assert (Hch : walk_ok (entries', {[c]} ∪ seen)
      (walk_children (walk fuel) actual logical (sort_strings children)
         (entries', {[c]} ∪ seen))).
    { apply (walk_ok_children _ (size (dirs ∖ ({[c]} ∪ seen)))); [|done].
      intros child l st' Hchild Hb. apply IH; [|simpl in Hb; lia].
      apply (reached_child root actual children); [done..|]. unfold sort_strings in Hchild.
      by rewrite sort_by_key_perm in Hchild. }
    destruct (walk_children _ _ _ _ _) as [st'| | |]; simpl in *; try done.
    destruct Hch as [Hs Hsh]. split; [set_solver|]. intros Hs0. by apply Hsh, He.
  - by apply walk_ok_symlink.
Qed.

(** C38. Every snapshot ends, and a failed one has a cause: with more fuel than there
    are directories the walk does not run out, although bind mounts may make the
    directory graph cyclic.  It either records what it found, in the shape of its
    kind (a file has a hash, a directory and a symlink to anything else have none),
    or fails because a directory it reaches cannot be resolved or listed, or panics
    because hashing a file it reaches does.  So if no such path is reached, the
    snapshot is taken. *)
Theorem snapshot_terminates fuel :
  size dirs < fuel →
  match snapshot fuel root with
  | Walked s => map_Forall (λ _, entry_shape) s
  | WalkFuel => False
  | WalkError => ∃ path, reached root path ∧ unreadable path
  | WalkPanic => ∃ path, reached root path ∧ unhashable path
  end.
Proof.
  intros Hf. unfold snapshot. pose proof (walk_ok_walk fuel root root (∅, ∅)) as Hw.
  destruct (walk fuel root root (∅, ∅)) as [st| | |]; simpl in *.
  - apply Hw; [constructor| |apply map_Forall_empty]. by rewrite difference_empty_L.
  - apply Hw; [constructor|]. by rewrite difference_empty_L.
  - apply Hw; [constructor|]. by rewrite difference_empty_L.
  - apply Hw; [constructor|]. by rewrite difference_empty_L.
Qed.
End walk_facts.
