(* ===== verification/WorkspacePaths.v ===== *)
(** * Lexical normalisation of absolute paths ([normalize_path] in
    [repx/src/workspace.rs])

    An absolute path in normal form is [render names] for a list of plain names.
    [normalize_path] is a fold over components that edits such a text; it is
    shown to compute [resolve], the usual stack machine on names. *)
From S2P Require Export Workspace.

Definition no_slash (s : string) : bool := str_all (λ c, negb (c =?= "/"%char)) s.

(** A name that is one component of a path. *)
Definition plain (n : string) : Prop :=
  no_slash n = true ∧ n ≠ "" ∧ n ≠ "." ∧ n ≠ "..".

Definition render_tail (names : list string) : string :=
  str_concat ((λ n, "/" +:+ n) <$> names).
Definition render (names : list string) : string :=
  match names with [] => "/" | _ => render_tail names end.

(** [..] removes the last name, if there is one; [.] and [/] remove nothing. *)
Definition resolve_step (names : list string) (c : component) : list string :=
  match c with
  | RootDir | CurDir => names
  | ParentDir => removelast names
  | Normal n => names ++ [n]
  end.
Definition resolve (cs : list component) : list string := foldl resolve_step [] cs.

(** ** Splitting what was rendered *)

Lemma str_split_no_slash n : no_slash n = true → str_split "/" n = [n].
Proof.
  induction n as [|c n IH]; [done|]. unfold no_slash. simpl. intros [Hc Hn]%andb_true_iff.
  apply negb_true_iff in Hc. rewrite Hc. by rewrite IH.
Qed.

Lemma str_split_cons n s : no_slash n = true →
  str_split "/" (n +:+ "/" +:+ s) = n :: str_split "/" s.
Proof.
  change ("/" +:+ s) with (String "/" s). induction n as [|c n IH].
  - by intros _.
  - unfold no_slash. simpl. intros [Hc Hn]%andb_true_iff.
    apply negb_true_iff in Hc. rewrite Hc. rewrite IH by done. done.
Qed.

Lemma str_split_render_tail n names : no_slash n = true → Forall plain names →
  str_split "/" (n +:+ render_tail names) = n :: names.
Proof.
  intros Hn Hs. revert n Hn. induction Hs as [|m names [Hm _] Hs IH]; intros n Hn.
  - change (render_tail []) with "". rewrite str_app_nil_r. by apply str_split_no_slash.
  - change (render_tail (m :: names)) with (("/" +:+ m) +:+ render_tail names).
    rewrite str_app_assoc, str_split_cons by done. by rewrite IH.
Qed.

Lemma piece_components_plain n : plain n → piece_components n = [Normal n].
Proof.
  intros (_ & H1 & H2 & H3). unfold piece_components. by rewrite !bool_decide_false by done.
Qed.

Lemma bind_piece_components names : Forall plain names →
  names ≫= piece_components = Normal <$> names.
Proof.
  induction 1 as [|n names Hn Hs IH]; [done|]. csimpl. rewrite piece_components_plain by done.
  by rewrite IH.
Qed.

Lemma components_render names : Forall plain names →
  components (render names) = RootDir :: (Normal <$> names).
Proof.
  intros Hs. destruct names as [|n names]; [done|]. unfold components.
  change (path_is_absolute (render (n :: names))) with true. cbv iota.
  change (render (n :: names)) with ("" +:+ render_tail (n :: names)).
  rewrite str_split_render_tail by done. csimpl. f_equal. exact (bind_piece_components _ Hs).
Qed.

(** ** Editing what was rendered *)

Lemma str_app_snoc x m t c : m ≠ "" → x +:+ m = t +:+ String c "" →
  ∃ m', m = m' +:+ String c "".
Proof.
  intros Hm. revert t. induction x as [|d x IH]; intros t Heq; [by exists t|].
  rewrite str_app_cons in Heq. destruct t as [|e t].
  - injection Heq as _ Heq. destruct x; [|done]. by destruct m.
  - rewrite str_app_cons in Heq. injection Heq as _ Heq. by apply (IH t).
Qed.

Lemma render_tail_snoc names n : render_tail (names ++ [n]) = render_tail names +:+ "/" +:+ n.
Proof.
  unfold render_tail. rewrite fmap_app, str_concat_app. f_equal.
  csimpl. unfold str_concat. simpl. by rewrite str_app_nil_r.
Qed.

Lemma render_snoc names n : render (names ++ [n]) = render_tail (names ++ [n]).
Proof. by destruct names. Qed.

Lemma path_push_render names n : Forall plain names → plain n →
  path_push (render names) n = render (names ++ [n]).
Proof.
  intros Hs (Hn & Hne & _). unfold path_push.
  assert (path_is_absolute n = false) as ->.
  { destruct n as [|c n]; [done|]. unfold no_slash in Hn. simpl in Hn.
    apply andb_true_iff in Hn as [Hc _]. unfold path_is_absolute. simpl.
    repx_bool. by rewrite bool_decide_false by congruence. }
  destruct names as [|m names _] using rev_ind.
  { simpl. unfold render_tail. simpl. by rewrite str_app_nil_r. }
  rewrite !render_snoc, (render_tail_snoc (names ++ [m])). rewrite bool_decide_false.
  2:{ rewrite render_tail_snoc. by destruct (render_tail names). }
  rewrite bool_decide_false; [done|]. intros [t Ht]. apply strip_suffix_Some in Ht.
  rewrite render_tail_snoc, <- str_app_assoc in Ht.
  apply Forall_app in Hs as [_ Hm]. apply Forall_cons in Hm as [(Hm & Hme & _) _].
  apply str_app_snoc in Ht as [m' ->]; [|done]. unfold no_slash in Hm.
  rewrite str_all_app in Hm. apply andb_true_iff in Hm as [_ Hm]. simpl in Hm. done.
Qed.

Lemma path_of_components_render names : Forall plain names →
  path_of_components (RootDir :: (Normal <$> names)) = render names.
Proof.
  unfold path_of_components. induction names as [|n names IH] using rev_ind; [done|].
  intros [Hs Hn]%Forall_app. apply Forall_cons in Hn as [Hn _].
  rewrite fmap_app, app_comm_cons, foldl_app, IH by done. by apply path_push_render.
Qed.

Lemma path_pop_render names : Forall plain names → path_pop (render names) = render (removelast names).
Proof.
  intros Hs. unfold path_pop, path_parent. rewrite components_render by done.
  destruct names as [|n names _] using rev_ind; [done|].
  assert (Hc : RootDir :: (Normal <$> names ++ [n]) = (RootDir :: (Normal <$> names)) ++ [Normal n])
    by by rewrite fmap_app.
  rewrite Hc, last_snoc, !removelast_last.
  apply path_of_components_render. by apply Forall_app in Hs as [? _].
Qed.

(** ** The fold *)

Lemma Forall_removelast {A} (P : A → Prop) l : Forall P l → Forall P (removelast l).
Proof.
  destruct l as [|x l _] using rev_ind; [done|]. rewrite removelast_last.
  by intros [? _]%Forall_app.
Qed.

Definition component_ok (c : component) : Prop :=
  match c with Normal n => plain n | RootDir => False | _ => True end.

Lemma resolve_plain cs names : Forall component_ok cs → Forall plain names →
  Forall plain (foldl resolve_step names cs).
Proof.
  intros Hcs. revert names. induction Hcs as [|c cs Hc Hcs IH]; intros names Hs; [done|].
  apply IH. destruct c; simpl in *; try done; [by apply Forall_removelast|].
  apply Forall_app. auto.
Qed.

Lemma normalize_fold cs names : Forall component_ok cs → Forall plain names →
  foldl (λ normalized c,
      match c with
      | CurDir => normalized
      | ParentDir => path_pop normalized
      | other => path_push normalized (component_str other)
      end) (render names) cs = render (foldl resolve_step names cs).
Proof.
  intros Hcs. revert names. induction Hcs as [|c cs Hc Hcs IH]; intros names Hs; [done|].
  simpl. destruct c as [| | |n]; simpl in *; [done|by apply IH| |].
  - rewrite path_pop_render by done. apply IH. by apply Forall_removelast.
  - rewrite path_push_render by done. apply IH, Forall_app. auto.
Qed.

Lemma str_split_pieces s : Forall (λ p, no_slash p = true) (str_split "/" s).
Proof.
  induction s as [|c s IH]; simpl; [by repeat constructor|].
  case_bool_decide as Hc; [by constructor|]. destruct (str_split "/" s) as [|p ps].
  - repeat constructor. unfold no_slash. simpl. by rewrite bool_decide_false.
  - apply Forall_cons in IH as [Hp Hps]. constructor; [|done].
    unfold no_slash in *. simpl. by rewrite bool_decide_false.
Qed.

Lemma pieces_components_ok ps : Forall (λ p, no_slash p = true) ps →
  Forall component_ok (ps ≫= piece_components).
Proof.
  induction 1 as [|p ps Hp Hps IH]; [done|]. csimpl. apply Forall_app. split; [|done].
  unfold piece_components. repeat (case_bool_decide; [by repeat constructor|]).
  by repeat constructor.
Qed.

Lemma components_absolute p : path_is_absolute p = true →
  ∃ cs, components p = RootDir :: cs ∧ Forall component_ok cs.
Proof.
  intros Hp. unfold components. rewrite Hp. eexists. split; [done|].
  apply pieces_components_ok, str_split_pieces.
Qed.

Lemma normalize_path_render p : path_is_absolute p = true →
  normalize_path p = render (resolve (components p)) ∧ Forall plain (resolve (components p)).
Proof.
  intros (cs & Hcs & Hok)%components_absolute. unfold normalize_path, resolve. rewrite Hcs.
  simpl. split; [by apply (normalize_fold cs [])|by apply resolve_plain].
Qed.

(** Lexical normalisation: for an absolute path, [normalize_path] returns the
      text of the path whose components are those left after [.] is dropped and
      each [..] has cancelled the name before it (at the root it is dropped); so
      its result is absolute, has neither kind of component, and is a fixed point. *)
Theorem normalize_path_absolute p : path_is_absolute p = true →
  components (normalize_path p) = RootDir :: (Normal <$> resolve (components p)) ∧
  path_is_absolute (normalize_path p) = true ∧
  normalize_path (normalize_path p) = normalize_path p.
Proof.
  intros Hp. destruct (normalize_path_render p Hp) as [-> Hpl].
  set (names := resolve (components p)) in *.
  assert (Habs : path_is_absolute (render names) = true) by by destruct names.
  split; [by apply components_render|]. split; [done|].
  destruct (normalize_path_render _ Habs) as [-> _].
  rewrite components_render by done. f_equal.
  assert (Hfold : ∀ acc, foldl resolve_step acc (Normal <$> names) = acc ++ names).
  { clear. induction names as [|n names IH]; intros acc; csimpl; [by rewrite app_nil_r|].
    rewrite IH. by rewrite <- app_assoc. }
  unfold resolve. simpl. apply Hfold.
Qed.

(** ** Examples *)

Module WorkspaceExamples.
Lemma normalize_path_absolute_witness :
  normalize_path "/w//src/../dist/./app/" = "/w/dist/app" ∧
  normalize_path (normalize_path "/w//src/../dist/./app/") = normalize_path "/w//src/../dist/./app/".
Proof.
  split; [vm_compute; done|]. by apply (normalize_path_absolute "/w//src/../dist/./app/").
Defined.

Definition app_entry : SnapshotEntry := mkEntrySnapshot EntryFile (Some "sha256:app") None.
Definition log_entry : SnapshotEntry := mkEntrySnapshot EntryFile (Some "sha256:log") None.
Definition after_build : Snapshot :=
  <["/w/dist/app" := app_entry]> (<["/w/logs/build.log" := log_entry]>
    {["/w/README" := log_entry]}).
Definition before_build : Snapshot := {["/w/README" := log_entry]}.

Lemma select_outputs_explicit_witness :
  ∃ s, select_outputs before_build after_build "/w" ["README"] ["dist"] = Ok s ∧
    selected s = [mkOutputFile "/w/README" "sha256:log"; mkOutputFile "/w/dist/app" "sha256:app"] ∧
    strictly_sorted (output_path <$> selected s).
Proof.
  destruct (select_outputs_explicit before_build after_build "/w" ["README"] ["dist"]) as [_ H2].
  { left. done. }
  eexists. split; [vm_compute; reflexivity|]. split; [reflexivity|].
  apply H2. vm_compute. reflexivity.
Defined.

(** [/r/loop] is a bind mount of [/r]: the tree below it has no end. *)
#[export] Instance loop_fs : WalkFs := {|
  symlink_type _ := Some TypeDir;
  read_link _ := None;
  target_is_file _ := false;
  canonicalize _ := Some "/r";
  read_dir _ := Some ["loop"];
  hash_contents _ := Returns None
|}.

(** Every call on [/r] is answered, so its snapshot is taken. *)
Lemma snapshot_terminates_witness :
  ∃ s, snapshot 2 "/r" = Walked s ∧ map_Forall (λ _, entry_shape) s.
Proof.
  assert (Hdirs : ∀ path c, canonicalize path = Some c → c ∈ ({["/r"]} : gset string))
    by (intros path c [= <-]; set_solver).
  assert (Hfuel : size ({["/r"]} : gset string) < 2) by (rewrite size_singleton; lia).
  pose proof (snapshot_terminates {["/r"]} "/r" Hdirs 2 Hfuel) as Hs.
  destruct (snapshot 2 "/r") as [s| | |].
  - exists s. by split.
  - destruct Hs as (path & _ & _ & [Hc|Hd]); discriminate.
  - destruct Hs as (path & _ & _ & Hp). discriminate.
  - done.
Defined.
End WorkspaceExamples.
