(* ===== verification/Slice.v ===== *)
(** * The output slice of a trace ([repx/src/slice.rs])

    [canonicalize_output_slice] scans the trace once, collecting for each
    process image what it read, wrote and renamed and for each path and content
    who wrote it ([SliceState]); then it searches backwards from the writers of
    the outputs through the contents they read ([bfs]), and emits the operations
    of the processes found.

    [HashMap] and [HashSet] are finite maps and sets; the order in which the
    program happens to visit them is the class [HashOrder], about which only
    [HashOrderLaws] is known. *)
From S2P Require Export Operations Workspace.

Class HashOrder := {
  iter_processes : gset ProcessInstance → list ProcessInstance;
  iter_hashes : gset string → list string
}.

Class HashOrderLaws `{HashOrder} : Prop := {
  iter_processes_elem s p : p ∈ iter_processes s ↔ p ∈ s;
  iter_processes_NoDup s : NoDup (iter_processes s);
  iter_hashes_elem s h : h ∈ iter_hashes s ↔ h ∈ s;
  iter_hashes_NoDup s : NoDup (iter_hashes s)
}.

(** ** State of the scan *)

Record ProcessFlow := mkFlow {
  flow_tool_hash : option string;
  has_exec : bool;
  reads : gset string;
  writes : gset string;
  renames : gset string
}.

(** [ProcessFlow::default()]. *)
Definition default_flow : ProcessFlow := mkFlow None false ∅ ∅ ∅.

Record PendingWrite := mkPending { pending_process : ProcessInstance; pending_path : string }.

Record SliceState := mkSlice {
  flows : gmap ProcessInstance ProcessFlow;
  slice_pending : gmap (ProcessLifetime * Z) PendingWrite;
  writers_by_hash : gmap string (gset ProcessInstance);
  writers_by_path : gmap string (gset ProcessInstance);
  root_exit : option (ProcessInstance * Z);
  rename_pairs : list (string * string)
}.

Definition initial_slice : SliceState := mkSlice ∅ ∅ ∅ ∅ None [].

(** ** Updates *)

Definition with_flows f st :=
  mkSlice (f (flows st)) (slice_pending st) (writers_by_hash st) (writers_by_path st)
    (root_exit st) (rename_pairs st).
Definition with_slice_pending f st :=
  mkSlice (flows st) (f (slice_pending st)) (writers_by_hash st) (writers_by_path st)
    (root_exit st) (rename_pairs st).
Definition with_writers_by_hash f st :=
  mkSlice (flows st) (slice_pending st) (f (writers_by_hash st)) (writers_by_path st)
    (root_exit st) (rename_pairs st).
Definition with_writers_by_path f st :=
  mkSlice (flows st) (slice_pending st) (writers_by_hash st) (f (writers_by_path st))
    (root_exit st) (rename_pairs st).
Definition with_root_exit x st :=
  mkSlice (flows st) (slice_pending st) (writers_by_hash st) (writers_by_path st) x
    (rename_pairs st).
Definition with_rename_pairs f st :=
  mkSlice (flows st) (slice_pending st) (writers_by_hash st) (writers_by_path st)
    (root_exit st) (f (rename_pairs st)).

(** [*flows.entry(process).or_default()], updated by [f]. *)
Definition update_flow (process : ProcessInstance) (f : ProcessFlow → ProcessFlow)
    : gmap ProcessInstance ProcessFlow → gmap ProcessInstance ProcessFlow :=
  λ m, <[process := f (default default_flow (m !! process))]> m.

(** [writers.entry(key).or_default().extend(processes)]. *)
Definition add_writers (key : string) (processes : gset ProcessInstance)
    : gmap string (gset ProcessInstance) → gmap string (gset ProcessInstance) :=
  λ m, <[key := default ∅ (m !! key) ∪ processes]> m.

Definition set_tool (tool : option string) (f : ProcessFlow) : ProcessFlow :=
  mkFlow tool (has_exec f) (reads f) (writes f) (renames f).
Definition set_exec (f : ProcessFlow) : ProcessFlow :=
  mkFlow (flow_tool_hash f) true (reads f) (writes f) (renames f).
Definition add_read (h : string) (f : ProcessFlow) : ProcessFlow :=
  mkFlow (flow_tool_hash f) (has_exec f) ({[h]} ∪ reads f) (writes f) (renames f).
Definition add_write (h : string) (f : ProcessFlow) : ProcessFlow :=
  mkFlow (flow_tool_hash f) (has_exec f) (reads f) ({[h]} ∪ writes f) (renames f).
Definition add_rename (h : string) (f : ProcessFlow) : ProcessFlow :=
  mkFlow (flow_tool_hash f) (has_exec f) (reads f) (writes f) ({[h]} ∪ renames f).

(** ** The arms of the scan *)

Definition slice_exec (process : ProcessInstance) (observation : FileObservation)
    (st : SliceState) : SliceState :=
  with_flows (update_flow process
    (λ f, set_exec (set_tool (Some (identity observation)) f))) st.

Definition slice_fork (parent child : ProcessInstance) (st : SliceState) : SliceState :=
  let inherited_tool := flow ← flows st !! parent; flow_tool_hash flow in
  let st := with_flows (update_flow child (set_tool inherited_tool)) st in
  with_slice_pending (inherit_pending (lifetime parent) (lifetime child)) st.

(** The hash a read contributes: the sentinel for system state, else the
    contents, if they were observed. *)
Definition read_hash (path : string) (observation : FileObservation) : option string :=
  if is_system_state path then Some SYSTEM_STATE_SENTINEL else content_hash observation.

Definition record_read (process : ProcessInstance) (path : string)
    (observation : FileObservation) (st : SliceState) : SliceState :=
  match read_hash path observation with
  | Some hash => with_flows (update_flow process (add_read hash)) st
  | None => st
  end.

Definition slice_open (process : ProcessInstance) (path : string) (flags fd : Z)
    (external : bool) (observation : FileObservation) (st : SliceState) : SliceState :=
  if external then st
  else
    let st := if can_read flags then record_read process path observation st else st in
    if can_write flags then
      with_slice_pending <[(lifetime process, fd) := mkPending process path]> st
    else st.

Definition slice_mmap (process : ProcessInstance) (fd prot flags : Z) (path : option string)
    (external : bool) (observation : option FileObservation) (st : SliceState) : SliceState :=
  if external then st
  else
    match path, observation with
    | Some path, Some observation =>
        let st := record_read process path observation st in
        if mmap_is_write prot flags then
          with_slice_pending <[(lifetime process, fd) := mkPending process path]> st
        else st
    | _, _ => st
    end.

Definition slice_close (process : ProcessInstance) (fd : Z) (path : option string)
    (external : bool) (observation : option FileObservation) (st : SliceState) : SliceState :=
  if external then st
  else
    let pending_write := slice_pending st !! (lifetime process, fd) in
    let st := with_slice_pending (delete (lifetime process, fd)) st in
    match pending_write, observation with
    | Some pending_write, Some observation =>
        let path := default (pending_path pending_write) path in
        let writer := pending_process pending_write in
        let st := with_writers_by_path (add_writers path {[writer]}) st in
        match content_hash observation with
        | Some hash =>
            let st := with_flows (update_flow writer (add_write hash)) st in
            with_writers_by_hash (add_writers hash {[writer]}) st
        | None => st
        end
    | _, _ => st
    end.

(** The [aliases] of a rename, and the loop that adds them. *)
Definition rename_aliases (from_path to_path : string)
    (writers : gmap string (gset ProcessInstance)) : list (string * gset ProcessInstance) :=
  omap (λ '(path, ws), (λ rewritten, (rewritten, ws)) <$> rewrite_path_prefix path from_path to_path)
    (map_to_list writers).

Definition alias_writers (from_path to_path : string)
    (writers : gmap string (gset ProcessInstance)) : gmap string (gset ProcessInstance) :=
  foldl (λ m '(path, ws), add_writers path ws m) writers
    (rename_aliases from_path to_path writers).

Definition rewrite_pending (from_path to_path : string) (p : PendingWrite) : PendingWrite :=
  match rewrite_path_prefix (pending_path p) from_path to_path with
  | Some rewritten => mkPending (pending_process p) rewritten
  | None => p
  end.

Definition slice_rename (process : ProcessInstance) (from_path to_path : string)
    (external : bool) (observation : FileObservation) (st : SliceState) : SliceState :=
  if external then st
  else
    let st := with_slice_pending (fmap (rewrite_pending from_path to_path)) st in
    let st := with_writers_by_path (alias_writers from_path to_path) st in
    let st := with_writers_by_path (add_writers to_path {[process]}) st in
    let st := with_rename_pairs (λ l, l ++ [(from_path, to_path)]) st in
    match content_hash observation with
    | Some hash =>
        let st := with_flows (update_flow process (λ f, add_rename hash (add_read hash f))) st in
        with_writers_by_hash (add_writers hash {[process]}) st
    | None => st
    end.

Definition slice_exit (root_process process : ProcessInstance) (exit_code : Z)
    (st : SliceState) : SliceState :=
  if lifetime process =?= lifetime root_process
  then with_root_exit (Some (process, exit_code)) st else st.

(** The body of the loop over the events. *)
Definition slice_event (root_process : ProcessInstance) (st : SliceState)
    (event : TracedEvent) : SliceState :=
  match event with
  | Exec process observation => slice_exec process observation st
  | Fork parent child => slice_fork parent child st
  | FileOpen process path flags fd external observation =>
      slice_open process path flags fd external observation st
  | FileMmap process fd prot flags path external observation =>
      slice_mmap process fd prot flags path external observation st
  | FileClose process fd path external observation =>
      slice_close process fd path external observation st
  | FileRename process from_path to_path _ external observation =>
      slice_rename process from_path to_path external observation st
  | FileUnlink _ _ _ _ _ => st
  | Exit process exit_code => slice_exit root_process process exit_code st
  end.

(** The post-scan fixup. *)
Definition rename_fixup (st : SliceState) : SliceState :=
  with_writers_by_path
    (λ m, foldl (λ m '(from_path, to_path), alias_writers from_path to_path m) m
            (rename_pairs st)) st.

Definition scan (root_process : ProcessInstance) (events : list TracedEvent) : SliceState :=
  rename_fixup (foldl (slice_event root_process) initial_slice events).

(** ** The backward search *)

Record Search := mkSearch {
  included_processes : gset ProcessInstance;
  relevant_hashes : gset string;
  queue : list ProcessInstance
}.

(** [if included_processes.insert(process) { queue.push_back(process) }]. *)
Definition enqueue (s : Search) (process : ProcessInstance) : Search :=
  if bool_decide (process ∈ included_processes s) then s
  else mkSearch ({[process]} ∪ included_processes s) (relevant_hashes s) (queue s ++ [process]).

Section search.
Context `{HashOrder} (st : SliceState).

Definition enqueue_writers (writers : option (gset ProcessInstance)) (s : Search) : Search :=
  match writers with
  | Some writers => foldl enqueue s (iter_processes writers)
  | None => s
  end.

Definition seed (outputs : list OutputFile) (output_hashes : gset string) : Search :=
  foldl (λ s output, enqueue_writers (writers_by_path st !! output_path output) s)
    (mkSearch ∅ output_hashes []) outputs.

Definition visit_hash (s : Search) (hash : string) : Search :=
  if bool_decide (hash ∈ relevant_hashes s) then s
  else enqueue_writers (writers_by_hash st !! hash)
         (mkSearch (included_processes s) ({[hash]} ∪ relevant_hashes s) (queue s)).

(** The body of [while let Some(process) = queue.pop_front()]. *)
Definition visit (s : Search) (process : ProcessInstance) : Search :=
  match flows st !! process with
  | Some flow => foldl visit_hash s (iter_hashes (reads flow))
  | None => s
  end.

Fixpoint bfs (fuel : nat) (s : Search) : option Search :=
  match queue s with
  | [] => Some s
  | process :: rest =>
      match fuel with
      | 0 => None
      | S fuel =>
          bfs fuel (visit (mkSearch (included_processes s) (relevant_hashes s) rest) process)
      end
  end.
End search.

(** Every process that occurs in a set of writers: a bound on the iterations. *)
Definition all_writers (st : SliceState) : gset ProcessInstance :=
  map_fold (λ _ ws acc, ws ∪ acc) ∅ (writers_by_path st)
  ∪ map_fold (λ _ ws acc, ws ∪ acc) ∅ (writers_by_hash st).

(** ** Emission of the operations *)

Section emission.
Context `{HashOrder} (st : SliceState).

Definition sorted_hashes (hashes : gset string) : list string :=
  sort_strings (iter_hashes hashes).

(** The loop that gives the sorted processes their indices. *)
Definition assign_slice_indices (root_process : ProcessInstance)
    (processes : list ProcessInstance) : gmap ProcessInstance Z * Z :=
  foldl (λ '(m, next), λ process,
      match m !! process with
      | Some _ => (m, next)
      | None => (<[process := next]> m, wrap_u32 (next + 1))
      end) ({[root_process := 0%Z]}, 1%Z) processes.

(** [process_to_index.entry(process).or_insert(next_index)] for the root exit. *)
Definition index_root_exit (m : gmap ProcessInstance Z) (next : Z) : gmap ProcessInstance Z :=
  match root_exit st with
  | Some (process, _) =>
      match m !! process with Some _ => m | None => <[process := next]> m end
  | None => m
  end.

(** The operations so far and the [output_hashes] not yet produced. *)
Abbreviation Emitted := (list CanonicalOp * gset string)%type.

(** The loops over the sorted writes and the sorted renames. *)
Definition emit_produced (relevant : gset string) (op : string → CanonicalOp)
    (hashes : list string) (e : Emitted) : Emitted :=
  foldl (λ '(ops, outs), λ hash,
      if bool_decide (hash ∈ relevant) || bool_decide (hash ∈ outs)
      then (ops ++ [op hash], outs ∖ {[hash]})
      else (ops, outs)) e hashes.

Definition exec_ops (process_index : Z) (flow : ProcessFlow) : list CanonicalOp :=
  match has_exec flow, flow_tool_hash flow with
  | true, Some tool_hash => [mkOp OpExec process_index (Some tool_hash) [] [] []]
  | _, _ => []
  end.

Definition read_ops (relevant : gset string) (process_index : Z) (flow : ProcessFlow)
    : list CanonicalOp :=
  (λ hash, mkOp OpFileRead process_index (flow_tool_hash flow) [] [hash] [])
    <$> List.filter (λ hash, bool_decide (hash ∈ relevant)) (sorted_hashes (reads flow)).

Definition write_op (process_index : Z) (flow : ProcessFlow) (hash : string) : CanonicalOp :=
  mkOp OpFileWrite process_index (flow_tool_hash flow) [] [] [hash].
Definition rename_op (process_index : Z) (flow : ProcessFlow) (hash : string) : CanonicalOp :=
  mkOp OpFileRename process_index (flow_tool_hash flow) [] [hash] [hash].

(** The body of [for process in processes]. *)
Definition emit_process (relevant : gset string) (indices : gmap ProcessInstance Z)
    (e : Emitted) (process : ProcessInstance) : Emitted :=
  match flows st !! process with
  | None => e
  | Some flow =>
      let process_index := default 0%Z (indices !! process) in
      let '(ops, outs) := e in
      let ops := ops ++ exec_ops process_index flow ++ read_ops relevant process_index flow in
      let e := emit_produced relevant (write_op process_index flow)
                 (sorted_hashes (writes flow)) (ops, outs) in
      emit_produced relevant (rename_op process_index flow) (sorted_hashes (renames flow)) e
  end.

(** The first writer visited that wrote or renamed the contents. *)
Definition orphan_flow (hash : string) : option (ProcessInstance * ProcessFlow) :=
  writers ← writers_by_hash st !! hash;
  head (omap (λ writer,
      flow ← flows st !! writer;
      if bool_decide (hash ∈ writes flow) || bool_decide (hash ∈ renames flow)
      then Some (writer, flow) else None) (iter_processes writers)).

(** The body of the loop over the orphaned outputs. *)
Definition emit_orphan (e : list CanonicalOp * (gmap ProcessInstance Z * Z)) (hash : string)
    : list CanonicalOp * (gmap ProcessInstance Z * Z) :=
  let '(ops, (indices, next)) := e in
  match orphan_flow hash with
  | Some (writer, flow) =>
      let '(process_index, indices, next) :=
        match indices !! writer with
        | Some i => (i, indices, next)
        | None => (next, <[writer := next]> indices, wrap_u32 (next + 1))
        end in
      (ops ++ [write_op process_index flow hash], (indices, next))
  | None => (ops ++ [mkOp OpFileWrite U32_MAX None ["output"] [] [hash]], (indices, next))
  end.

Definition exit_ops (indices : gmap ProcessInstance Z) : list CanonicalOp :=
  match root_exit st with
  | Some (process, exit_code) =>
      [mkOp OpExit (default 0%Z (indices !! process))
         (flow ← flows st !! process; flow_tool_hash flow)
         ["exit:" +:+ decimal exit_code] [] []]
  | None => []
  end.

Definition slice_ops (root_process : ProcessInstance) (output_hashes : gset string)
    (s : Search) : list CanonicalOp :=
  let processes := merge_sort instance_le (iter_processes (included_processes s)) in
  let '(indices, next) := assign_slice_indices root_process processes in
  let indices := index_root_exit indices next in
  let '(ops, output_hashes) :=
    foldl (emit_process (relevant_hashes s) indices) ([], output_hashes) processes in
  let '(ops, (indices, _)) :=
    foldl emit_orphan (ops, (indices, next)) (sorted_hashes output_hashes) in
  ops ++ exit_ops indices.
End emission.

Section slice.
Context `{Sha256} `{HashOrder}.

(** [None]: the search ran out of fuel; [slice_refines_specification] excludes it. *)
Definition canonicalize_output_slice_opt (events : list TracedEvent)
    (root_process : ProcessInstance) (outputs : list OutputFile) : option (list CanonicalOp) :=
  let st := scan root_process events in
  let output_hashes := list_to_set (output_hash <$> outputs) in
  if bool_decide (output_hashes = ∅) then Some []
  else
    s ← bfs st (size (all_writers st)) (seed st outputs output_hashes);
    Some (finalize_ops (slice_ops st root_process output_hashes s)).

Definition canonicalize_output_slice (events : list TracedEvent)
    (root_process : ProcessInstance) (outputs : list OutputFile) : list CanonicalOp :=
  default [] (canonicalize_output_slice_opt events root_process outputs).
End slice.
