(* ===== verification/SliceSearch.v ===== *)
(** * The backward search of the slice

    [bfs] is compared with [needed], the inductive definition of the processes
    an output depends on: the search ends within its fuel and includes exactly
    those, whatever the order in which hash tables are visited. *)
From S2P Require Export Slice.

Section search_facts.
Context `{HashOrder, !HashOrderLaws} (st : SliceState).
Implicit Types (s : Search) (p w : ProcessInstance) (h : string).

Section needed.
Context (outputs : list OutputFile) (output_hashes : gset string).

(** A process is needed when it wrote, or renamed into place, an output
    path, or when it produced contents that a needed process read (the
    contents of the outputs themselves are not followed). *)
Inductive needed : ProcessInstance → Prop :=
  | needed_output o ws p :
      o ∈ outputs → writers_by_path st !! output_path o = Some ws → p ∈ ws → needed p
  | needed_read p flow h ws w :
      needed p → flows st !! p = Some flow → h ∈ reads flow → h ∉ output_hashes →
      writers_by_hash st !! h = Some ws → w ∈ ws → needed w.

(** Contents the slice refers to: the outputs' and what needed processes read. *)
Definition needed_hash h : Prop :=
  h ∈ output_hashes ∨
  ∃ p flow, needed p ∧ flows st !! p = Some flow ∧ h ∈ reads flow.
End needed.

(** ** Adding a set of processes to the queue *)

Definition measure (U : gset ProcessInstance) s : nat :=
  size (U ∖ included_processes s) + length (queue s).

(** [s'] is [s] with the processes of [ws] included and, if new, queued. *)
Record extended (ws : gset ProcessInstance) s s' : Prop := {
  ext_included : included_processes s' = included_processes s ∪ ws;
  ext_relevant : relevant_hashes s' = relevant_hashes s;
  ext_queue p : p ∈ queue s' ↔ p ∈ queue s ∨ (p ∈ ws ∧ p ∉ included_processes s);
  ext_measure U : ws ⊆ U → measure U s' ≤ measure U s
}.

Lemma extended_enqueue s p : extended {[p]} s (enqueue s p).
Proof.
  unfold enqueue. case_bool_decide as Hp; split; simpl; try done; try set_solver.
  intros U HU. unfold measure. simpl. rewrite length_app. simpl.
  assert (size (U ∖ ({[p]} ∪ included_processes s)) < size (U ∖ included_processes s)).
  { apply subset_size. split; [set_solver|]. intros Hs. assert (p ∈ U) by set_solver.
    set_solver. }
  lia.
Qed.

Lemma extended_trans ws1 ws2 s1 s2 s3 :
  extended ws1 s1 s2 → extended ws2 s2 s3 → extended (ws1 ∪ ws2) s1 s3.
Proof.
  intros [I1 R1 Q1 M1] [I2 R2 Q2 M2]. split.
  - rewrite I2, I1. set_solver.
  - by rewrite R2.
  - intros p. rewrite Q2, Q1, I1. destruct (decide (p ∈ ws1)); set_solver.
  - intros U HU. etrans; [apply M2; set_solver|apply M1; set_solver].
Qed.

Lemma extended_refl s : extended ∅ s s.
Proof. split; set_solver. Qed.

Lemma extended_foldl s l : extended (list_to_set l) s (foldl enqueue s l).
Proof.
  revert s. induction l as [|p l IH]; intros s; [apply extended_refl|].
  simpl. eapply extended_trans; [apply extended_enqueue|apply IH].
Qed.

Lemma extended_writers s writers :
  extended (default ∅ writers) s (enqueue_writers writers s).
Proof.
  destruct writers as [ws|]; [|apply extended_refl]. simpl.
  pose proof (extended_foldl s (iter_processes ws)) as He.
  replace ws with (list_to_set (C := gset ProcessInstance) (iter_processes ws)) at 1; [done|].
  apply set_eq. intros p. by rewrite elem_of_list_to_set, iter_processes_elem.
Qed.

(** ** All processes are in [all_writers] *)

Lemma map_fold_union (m : gmap string (gset ProcessInstance)) k ws :
  m !! k = Some ws → ws ⊆ map_fold (λ _ ws acc, ws ∪ acc) ∅ m.
Proof.
  revert m. apply (map_fold_weak_ind (λ r m, m !! k = Some ws → ws ⊆ r)).
  { by rewrite lookup_empty. }
  intros i x m r Hm IH. rewrite lookup_insert_Some. intros [[-> ->]|[Hne Hk]].
  - set_solver.
  - apply IH in Hk. set_solver.
Qed.

Lemma writers_by_path_all k : default ∅ (writers_by_path st !! k) ⊆ all_writers st.
Proof.
  destruct (writers_by_path st !! k) as [ws|] eqn:Hk; [|set_solver].
  apply map_fold_union in Hk. unfold all_writers. simpl. set_solver.
Qed.

Lemma writers_by_hash_all k : default ∅ (writers_by_hash st !! k) ⊆ all_writers st.
Proof.
  destruct (writers_by_hash st !! k) as [ws|] eqn:Hk; [|set_solver].
  apply map_fold_union in Hk. unfold all_writers. simpl. set_solver.
Qed.

(** ** The invariant of the search *)

Section invariant.
Context (outputs : list OutputFile) (output_hashes : gset string).
Abbreviation needed := (needed outputs output_hashes).
Abbreviation needed_hash := (needed_hash outputs output_hashes).

(** [current] is the process taken from the queue and not finished yet. *)
Record search_inv (current : option ProcessInstance) s : Prop := {
  inv_needed p : p ∈ included_processes s → needed p;
  inv_hash h : h ∈ relevant_hashes s → needed_hash h;
  inv_outputs : output_hashes ⊆ relevant_hashes s;
  inv_writers h w : h ∈ relevant_hashes s → h ∉ output_hashes →
    w ∈ default ∅ (writers_by_hash st !! h) → w ∈ included_processes s;
  inv_done p flow h : p ∈ included_processes s → p ∉ queue s → current ≠ Some p →
    flows st !! p = Some flow → h ∈ reads flow → h ∈ relevant_hashes s;
  inv_queue p : p ∈ queue s → p ∈ included_processes s
}.

Lemma inv_extended current ws s s' :
  extended ws s s' → (∀ w, w ∈ ws → needed w) → search_inv current s →
  search_inv current s'.
Proof.
  intros [I R Q _] Hws [H1 H2 H3 H4 H5 H6]. split.
  - intros p. rewrite I. set_solver.
  - intros h. rewrite R. auto.
  - by rewrite R.
  - intros h w. rewrite R, I. set_solver.
  - intros p flow h. rewrite R, I, Q. intros Hp Hq. apply H5; [|tauto].
    destruct (decide (p ∈ included_processes s)); [done|set_solver].
  - intros p. rewrite Q, I. set_solver.
Qed.

(** What one step of the loop over the reads of a needed process does. *)
Lemma inv_visit_hash p flow s h :
  needed p → flows st !! p = Some flow → h ∈ reads flow →
  search_inv (Some p) s →
  let s' := visit_hash st s h in
  search_inv (Some p) s' ∧ {[h]} ∪ relevant_hashes s ⊆ relevant_hashes s' ∧
  included_processes s ⊆ included_processes s' ∧
  measure (all_writers st) s' ≤ measure (all_writers st) s.
Proof.
  intros Hp Hflow Hh Hinv. unfold visit_hash. case_bool_decide as Hrel.
  { split; [done|]. set_solver. }
  set (s1 := mkSearch _ _ _).
  assert (Hoh : h ∉ output_hashes) by (pose proof (inv_outputs _ _ Hinv); set_solver).
  pose proof (extended_writers s1 (writers_by_hash st !! h)) as He.
  assert (Hws : ∀ w, w ∈ default ∅ (writers_by_hash st !! h) → needed w).
  { intros w Hw. destruct (writers_by_hash st !! h) as [ws|] eqn:Hwh; [|set_solver].
    by apply (needed_read outputs output_hashes p flow h ws). }
  destruct He as [I R Q M]. destruct Hinv as [H1 H2 H3 H4 H5 H6].
  split; [split|split; [by rewrite R|split]].
  - intros w. rewrite I. simpl. set_solver.
  - intros h'. rewrite R. simpl. intros [->%elem_of_singleton|Hh']%elem_of_union; [|auto].
    right. eauto.
  - rewrite R. simpl. set_solver.
  - intros h' w. rewrite R, I. simpl. destruct (decide (h' = h)) as [->|]; set_solver.
  - intros p' flow' h'. rewrite R, I, Q. simpl. intros Hp' Hq Hc Hf Hr.
    apply elem_of_union. right. apply (H5 p' flow'); try tauto.
    destruct (decide (p' ∈ included_processes s)); [done|set_solver].
  - intros p'. rewrite Q, I. simpl. set_solver.
  - rewrite I. simpl. set_solver.
  - apply M, writers_by_hash_all.
Qed.

Lemma inv_visit_hashes p flow hs s :
  needed p → flows st !! p = Some flow → (∀ h, h ∈ hs → h ∈ reads flow) →
  search_inv (Some p) s →
  let s' := foldl (visit_hash st) s hs in
  search_inv (Some p) s' ∧ relevant_hashes s ⊆ relevant_hashes s' ∧
  (∀ h, h ∈ hs → h ∈ relevant_hashes s') ∧
  included_processes s ⊆ included_processes s' ∧
  measure (all_writers st) s' ≤ measure (all_writers st) s.
Proof.
  intros Hp Hflow. revert s. induction hs as [|h hs IH]; intros s Hhs Hinv; simpl.
  { split; [done|]. set_solver. }
  destruct (inv_visit_hash p flow s h) as (Hi1 & Hr1 & Hs1 & Hm1); [set_solver..|done|].
  destruct (IH (visit_hash st s h)) as (Hi2 & Hr2 & Hh2 & Hs2 & Hm2); [set_solver|done|].
  split; [done|]. split; [set_solver|]. split; [|split; [set_solver|lia]].
  intros h'. rewrite elem_of_cons. intros [->|?]; [set_solver|auto].
Qed.

Lemma inv_visit p rest s :
  search_inv None s → queue s = p :: rest →
  let s' := visit st (mkSearch (included_processes s) (relevant_hashes s) rest) p in
  search_inv None s' ∧ included_processes s ⊆ included_processes s' ∧
  measure (all_writers st) s' < measure (all_writers st) s.
Proof.
  intros Hinv Hq. set (s0 := mkSearch _ _ rest).
  assert (Hm0 : measure (all_writers st) s0 < measure (all_writers st) s)
    by (unfold measure; simpl; rewrite Hq; simpl; lia).
  assert (Hinv0 : search_inv (Some p) s0).
  { destruct Hinv as [H1 H2 H3 H4 H5 H6]. split; simpl; try done.
    - intros p' flow h Hp' Hr Hc. apply H5; [done| |done]. rewrite Hq.
      intros [->|?]%elem_of_cons; [done|done].
    - intros p' Hp'. apply H6. rewrite Hq. set_solver. }
  assert (Hp : needed p).
  { apply (inv_needed _ _ Hinv), (inv_queue _ _ Hinv). rewrite Hq. set_solver. }
  unfold visit. destruct (flows st !! p) as [flow|] eqn:Hflow.
  - destruct (inv_visit_hashes p flow (iter_hashes (reads flow)) s0)
      as (Hi & Hr & Hh & Hs & Hm); try done.
    { intros h. by rewrite iter_hashes_elem. }
    split; [|split; [done|lia]]. destruct Hi as [H1 H2 H3 H4 H5 H6]. split; try done.
    intros p' flow' h Hp' Hq' _ Hf Hrd. destruct (decide (p' = p)) as [->|Hne].
    + apply Hh. rewrite iter_hashes_elem. by simplify_eq.
    + apply (H5 p' flow'); congruence.
  - split; [|split; [done|lia]]. destruct Hinv0 as [H1 H2 H3 H4 H5 H6]. split; try done.
    intros p' flow' h Hp' Hq' _ Hf Hr. apply (H5 p' flow' h); congruence.
Qed.

(** The loop ends within [measure] iterations, on a state without queue. *)
Lemma inv_bfs fuel s :
  search_inv None s → measure (all_writers st) s ≤ fuel →
  ∃ s', bfs st fuel s = Some s' ∧ queue s' = [] ∧ search_inv None s' ∧
    included_processes s ⊆ included_processes s'.
Proof.
  revert s. induction fuel as [|fuel IH]; intros s Hinv Hm; simpl;
    destruct (queue s) as [|p rest] eqn:Hq.
  - exists s. auto.
  - unfold measure in Hm. rewrite Hq in Hm. simpl in Hm. lia.
  - exists s. auto.
  - destruct (inv_visit p rest s Hinv Hq) as (Hi & Hs & Hlt).
    destruct (IH _ Hi) as (s' & Hb & Hq' & Hi' & Hs'); [lia|].
    exists s'. split; [done|]. split; [done|]. split; [done|]. by etrans.
Qed.

(** ** The seeds *)

Lemma inv_seed_foldl os s :
  (∀ o, o ∈ os → o ∈ outputs) → search_inv None s →
  let s' := foldl (λ s output, enqueue_writers (writers_by_path st !! output_path output) s)
              s os in
  search_inv None s' ∧ included_processes s ⊆ included_processes s' ∧
  (∀ o, o ∈ os →
     default ∅ (writers_by_path st !! output_path o) ⊆ included_processes s') ∧
  measure (all_writers st) s' ≤ measure (all_writers st) s.
Proof.
  revert s. induction os as [|o os IH]; intros s Hos Hinv; simpl.
  { split; [done|]. set_solver. }
  pose proof (extended_writers s (writers_by_path st !! output_path o)) as He.
  destruct (IH (enqueue_writers (writers_by_path st !! output_path o) s))
    as (Hi & Hs & Ho & Hm).
  - set_solver.
  - eapply inv_extended; [exact He| |done]. intros w Hw.
    destruct (writers_by_path st !! output_path o) as [ws|] eqn:Hwp; [|set_solver].
    apply (needed_output outputs output_hashes o ws); set_solver.
  - destruct He as [I _ _ M]. rewrite I in Hs. split; [done|]. split; [set_solver|].
    split; [|etrans; [exact Hm|apply M, writers_by_path_all]].
    intros o' [->|Ho']%elem_of_cons; [set_solver|auto].
Qed.

Lemma inv_seed :
  let s := seed st outputs output_hashes in
  search_inv None s ∧
  (∀ o, o ∈ outputs →
     default ∅ (writers_by_path st !! output_path o) ⊆ included_processes s) ∧
  measure (all_writers st) s ≤ size (all_writers st).
Proof.
  set (s0 := mkSearch ∅ output_hashes []).
  assert (Hs0 : search_inv None s0).
  { split; simpl; try set_solver. intros h Hh. by left. }
  destruct (inv_seed_foldl outputs s0 (λ _ Ho, Ho) Hs0) as (Hi & _ & Ho & Hm).
  split; [done|]. split; [done|]. etrans; [exact Hm|]. unfold measure. simpl.
  rewrite difference_empty_L. lia.
Qed.

(** The result of the search. *)
Lemma bfs_needed :
  ∃ s, bfs st (size (all_writers st)) (seed st outputs output_hashes) = Some s ∧
    (∀ p, p ∈ included_processes s ↔ needed p) ∧
    (∀ h, h ∈ relevant_hashes s ↔ needed_hash h).
Proof.
  destruct inv_seed as (Hi & Ho & Hm).
  destruct (inv_bfs _ _ Hi Hm) as (s & Hb & Hq & Hinv & Hsub). exists s.
  split; [done|]. destruct Hinv as [H1 H2 H3 H4 H5 H6].
  assert (Hread : ∀ p flow h, p ∈ included_processes s → flows st !! p = Some flow →
    h ∈ reads flow → h ∈ relevant_hashes s).
  { intros p flow h Hp. apply (H5 p flow h Hp); [rewrite Hq; set_solver|done]. }
  assert (Hinc : ∀ p, needed p → p ∈ included_processes s).
  { induction 1 as [o ws p Hout Hws Hp|p flow h ws w Hp IH Hf Hr Hh Hws Hw].
    - apply Hsub, (Ho o Hout). by rewrite Hws.
    - apply (H4 h); [by apply (Hread p flow)|done|by rewrite Hws]. }
  split; [intros p; split; auto|]. intros h. split; [auto|].
  intros [Hh|(p & flow & Hp & Hf & Hr)]; [by apply H3|].
  apply (Hread p flow); auto.
Qed.

(** C9. The backward search of the slice always ends, and computes the backward
    closure: the processes it includes are exactly the [needed] ones, and the
    contents it deems relevant are exactly those of the outputs and those
    that needed processes read, whatever the iteration order of the tables. *)
Theorem bfs_is_backward_closure :
  ∃ s, bfs st (size (all_writers st)) (seed st outputs output_hashes) = Some s ∧
    (∀ p, p ∈ included_processes s ↔ needed p) ∧
    (∀ h, h ∈ relevant_hashes s ↔ needed_hash h).
Proof. exact bfs_needed. Qed.
End invariant.
End search_facts.
