(* ===== verification/SliceOps.v ===== *)
(** * The operations of the slice

    What the emission loops produce, written without loops: [plain_ops] is the
    list of operations up to process indices, which no digest contains. From it
    follow the specification of the slice's leaves, the accounting of every
    output, and what the iteration order of hash tables can change. *)
From S2P Require Export SliceSearch.

(** [op] with the process index that digests ignore set to 0. *)
Definition reindex (op : CanonicalOp) : CanonicalOp :=
  mkOp (op_type op) 0 (tool_hash op) (args op) (input_hashes op) (output_hashes op).

(** ** The invariant of the scan *)

Section scan_invariant.
Definition produced_by (flows : gmap ProcessInstance ProcessFlow) (w : ProcessInstance)
    (h : string) : Prop :=
  ∃ flow, flows !! w = Some flow ∧ (h ∈ writes flow ∨ h ∈ renames flow).

(** [writers_by_hash] is the inverse of the writes and renames of the flows,
    and what a process renamed it is recorded to have read. *)
Record scan_inv (st : SliceState) : Prop := {
  scan_writers h w :
    w ∈ default ∅ (writers_by_hash st !! h) ↔ produced_by (flows st) w h;
  scan_renames w flow : flows st !! w = Some flow → renames flow ⊆ reads flow
}.

Lemma produced_by_update flows p f w h :
  produced_by (update_flow p f flows) w h ↔
  if decide (w = p)
  then h ∈ writes (f (default default_flow (flows !! p))) ∨
       h ∈ renames (f (default default_flow (flows !! p)))
  else produced_by flows w h.
Proof.
  unfold produced_by, update_flow. case_decide as Hw.
  - subst. rewrite lookup_insert_eq. naive_solver.
  - by rewrite lookup_insert_ne.
Qed.

Lemma produced_by_default flows p h :
  produced_by flows p h ↔
  h ∈ writes (default default_flow (flows !! p)) ∨ h ∈ renames (default default_flow (flows !! p)).
Proof. unfold produced_by. destruct (flows !! p); simpl; set_solver. Qed.

(** A flow update that produces nothing new. *)
Lemma scan_inv_update st p f :
  (∀ flow, writes (f flow) = writes flow ∧ renames (f flow) = renames flow ∧
           reads flow ⊆ reads (f flow)) →
  scan_inv st → scan_inv (with_flows (update_flow p f) st).
Proof.
  intros Hf [H1 H2]. split; simpl.
  - intros h w. rewrite produced_by_update, H1. case_decide as Hw; [|done]. subst.
    rewrite produced_by_default. by destruct (Hf (default default_flow (flows st !! p)))
      as (-> & -> & _).
  - intros w flow. unfold update_flow. rewrite lookup_insert_Some.
    intros [[<- <-]|[_ Hw]]; [|by eapply H2].
    destruct (Hf (default default_flow (flows st !! p))) as (_ & -> & Hr).
    trans (reads (default default_flow (flows st !! p))); [|done].
    destruct (flows st !! p) as [flow0|] eqn:Hp; simpl; [by eapply H2|set_solver].
Qed.

(** A flow update that produces [hash], recorded among its writers. *)
Lemma scan_inv_produce st p hash f :
  (∀ flow h, h ∈ writes (f flow) ∨ h ∈ renames (f flow) ↔
     h = hash ∨ h ∈ writes flow ∨ h ∈ renames flow) →
  (∀ flow, renames flow ⊆ reads flow → renames (f flow) ⊆ reads (f flow)) →
  scan_inv st →
  scan_inv (with_writers_by_hash (add_writers hash {[p]}) (with_flows (update_flow p f) st)).
Proof.
  intros Hf Hr [H1 H2]. split; simpl.
  - intros h w. rewrite produced_by_update. unfold add_writers.
    specialize (H1 h w). rewrite produced_by_default in H1.
    destruct (decide (h = hash)) as [->|Hh].
    + rewrite lookup_insert_eq. simpl. rewrite elem_of_union, H1, elem_of_singleton.
      case_decide as Hw; [subst; rewrite Hf; tauto|]. rewrite produced_by_default. tauto.
    + rewrite lookup_insert_ne by done. rewrite H1.
      case_decide as Hw; [subst; rewrite Hf; tauto|]. by rewrite produced_by_default.
  - intros w flow. unfold update_flow. rewrite lookup_insert_Some.
    intros [[<- <-]|[_ Hw]]; [|by eapply H2]. apply Hr.
    destruct (flows st !! p) as [flow0|] eqn:Hp; simpl; [by eapply H2|set_solver].
Qed.

Lemma scan_inv_ext st st' :
  flows st' = flows st → writers_by_hash st' = writers_by_hash st → scan_inv st → scan_inv st'.
Proof. intros Hf Hw [H1 H2]. split; intros; rewrite ?Hf, ?Hw in *; eauto. Qed.

Lemma scan_inv_read st p path o : scan_inv st → scan_inv (record_read p path o st).
Proof.
  intros Hst. unfold record_read. case_match; [|done].
  apply scan_inv_update; [|done]. intros flow. simpl. set_solver.
Qed.

Lemma scan_inv_close st p fd path external o :
  scan_inv st → scan_inv (slice_close p fd path external o st).
Proof.
  intros Hst. unfold slice_close. destruct external; [done|].
  destruct (slice_pending st !! (lifetime p, fd)) as [pw|]; [|by apply (scan_inv_ext st)].
  destruct o as [o|]; [|by apply (scan_inv_ext st)].
  destruct (content_hash o) as [hash|]; [|by apply (scan_inv_ext st)].
  apply scan_inv_produce; [intros; simpl; set_solver|intros; simpl; set_solver|].
  by apply (scan_inv_ext st).
Qed.

Lemma scan_inv_rename st p from to external o :
  scan_inv st → scan_inv (slice_rename p from to external o st).
Proof.
  intros Hst. unfold slice_rename. destruct external; [done|].
  destruct (content_hash o) as [hash|]; [|by apply (scan_inv_ext st)].
  apply scan_inv_produce; [intros; simpl; set_solver|intros; simpl; set_solver|].
  by apply (scan_inv_ext st).
Qed.

Lemma scan_inv_event root st e : scan_inv st → scan_inv (slice_event root st e).
Proof.
  intros Hst. destruct e; simpl; auto using scan_inv_close, scan_inv_rename.
  - apply scan_inv_update; [|done]. intros flow. simpl. set_solver.
  - unfold slice_fork. apply (scan_inv_ext (with_flows (update_flow child
      (set_tool (flow ← flows st !! parent; flow_tool_hash flow))) st)); [done..|].
    apply scan_inv_update; [|done]. intros flow. simpl. set_solver.
  - unfold slice_open. destruct external; [done|].
    pose proof (scan_inv_read st process path observation Hst) as Hr.
    destruct (can_read flags), (can_write flags); [|done| |done].
    + by apply (scan_inv_ext (record_read process path observation st)).
    + by apply (scan_inv_ext st).
  - unfold slice_mmap. destruct external; [done|].
    destruct path as [path|], observation as [o|]; try done.
    pose proof (scan_inv_read st process path o Hst) as Hr.
    case_match; [|done]. by apply (scan_inv_ext (record_read process path o st)).
  - unfold slice_exit. case_match; [|done]. by apply (scan_inv_ext st).
Qed.

Lemma scan_inv_scan root events : scan_inv (scan root events).
Proof.
  unfold scan. apply (scan_inv_ext (foldl (slice_event root) initial_slice events)); [done..|].
  assert (Hinv : scan_inv initial_slice).
  { split; simpl; [|by intros]. intros h w. rewrite lookup_empty. unfold produced_by.
    split; [set_solver|]. intros (flow & Hf & _). by rewrite lookup_empty in Hf. }
  revert Hinv. generalize initial_slice.
  induction events as [|e events IH]; intros st Hst; [done|].
  by apply (IH (slice_event root st e)), scan_inv_event.
Qed.

(** Type invariant of the scan: after any trace a process is recorded as a
    writer of some contents exactly when its flow lists them among its writes or
    its renames, and a process has read whatever it renamed. *)
Theorem scan_writers_inverse root events h w :
  (w ∈ default ∅ (writers_by_hash (scan root events) !! h) ↔
   produced_by (flows (scan root events)) w h) ∧
  (∀ flow, flows (scan root events) !! w = Some flow → renames flow ⊆ reads flow).
Proof.
  pose proof (scan_inv_scan root events) as [H1 H2]. split; [apply H1|]. intros flow. apply H2.
Qed.
End scan_invariant.

(** ** The emission without loops *)

Section emission_facts.
Context `{HashOrder, !HashOrderLaws} (st : SliceState).
Implicit Types (rel outs : gset string) (p w : ProcessInstance) (h : string).

Lemma sorted_hashes_elem hashes h : h ∈ sorted_hashes hashes ↔ h ∈ hashes.
Proof. unfold sorted_hashes. by rewrite sort_strings_perm, iter_hashes_elem. Qed.

Definition relevant_only rel (hs : list string) : list string :=
  List.filter (λ h, bool_decide (h ∈ rel)) hs.

Lemma emit_produced_eq rel op hs ops outs : outs ⊆ rel →
  emit_produced rel op hs (ops, outs)
  = (ops ++ (op <$> relevant_only rel hs), outs ∖ list_to_set hs).
Proof.
  revert ops outs. induction hs as [|h hs IH]; intros ops outs Ho.
  - simpl. rewrite app_nil_r. f_equal. set_solver.
  - unfold emit_produced in *. simpl. destruct (decide (h ∈ rel)) as [Hr|Hr].
    + rewrite (bool_decide_true (h ∈ rel)) by done. simpl.
      rewrite IH by set_solver. csimpl. rewrite <- app_assoc. f_equal. set_solver.
    + rewrite (bool_decide_false (h ∈ rel)), (bool_decide_false (h ∈ outs)) by set_solver.
      simpl. rewrite IH by done. f_equal. set_solver.
Qed.

Definition flow_ops rel (flow : ProcessFlow) : list CanonicalOp :=
  exec_ops 0 flow ++ read_ops rel 0 flow
  ++ (write_op 0 flow <$> relevant_only rel (sorted_hashes (writes flow)))
  ++ (rename_op 0 flow <$> relevant_only rel (sorted_hashes (renames flow))).

Definition process_ops rel p : list CanonicalOp :=
  match flows st !! p with Some flow => flow_ops rel flow | None => [] end.

Definition produced p : gset string :=
  match flows st !! p with Some flow => writes flow ∪ renames flow | None => ∅ end.

Lemma reindex_fmap {A} (f g : A → CanonicalOp) (l : list A) :
  (∀ x, reindex (f x) = g x) → reindex <$> (f <$> l) = g <$> l.
Proof. intros Hf. rewrite <- list_fmap_compose. apply list_fmap_ext. intros i x _. apply Hf. Qed.

Lemma emit_process_eq rel indices ops outs p : outs ⊆ rel →
  ∃ ops', emit_process st rel indices (ops, outs) p = (ops', outs ∖ produced p) ∧
    reindex <$> ops' = (reindex <$> ops) ++ process_ops rel p.
Proof.
  intros Ho. unfold emit_process, process_ops, produced.
  destruct (flows st !! p) as [flow|].
  - rewrite emit_produced_eq by done. rewrite emit_produced_eq by set_solver.
    eexists. split.
    + f_equal. apply set_eq. intros h.
      rewrite !elem_of_difference, !elem_of_list_to_set, !sorted_hashes_elem. set_solver.
    + rewrite !fmap_app, <- !app_assoc. unfold flow_ops.
      rewrite (reindex_fmap _ (write_op 0 flow)), (reindex_fmap _ (rename_op 0 flow)) by done.
      unfold read_ops, exec_ops. rewrite (reindex_fmap _
        (λ hash, mkOp OpFileRead 0 (flow_tool_hash flow) [] [hash] [])) by done.
      by destruct (has_exec flow), (flow_tool_hash flow).
  - exists ops. rewrite app_nil_r. split; [|done]. f_equal. set_solver.
Qed.

Lemma emit_processes_eq rel indices ps ops outs : outs ⊆ rel →
  ∃ ops', foldl (emit_process st rel indices) (ops, outs) ps
            = (ops', outs ∖ ⋃ (produced <$> ps)) ∧
    reindex <$> ops' = (reindex <$> ops) ++ (ps ≫= process_ops rel).
Proof.
  revert ops outs. induction ps as [|p ps IH]; intros ops outs Ho; simpl.
  { exists ops. rewrite app_nil_r. split; [|done]. f_equal. set_solver. }
  destruct (emit_process_eq rel indices ops outs p Ho) as (ops1 & -> & H1).
  destruct (IH ops1 (outs ∖ produced p)) as (ops2 & -> & H2); [set_solver|].
  exists ops2. split; [f_equal; set_solver|]. by rewrite H2, H1, <- app_assoc.
Qed.

(** The operation that accounts for an output no included process produced. *)
Definition orphan_op h : CanonicalOp :=
  match orphan_flow st h with
  | Some (_, flow) => write_op 0 flow h
  | None => mkOp OpFileWrite 0 None ["output"] [] [h]
  end.

Lemma emit_orphans_eq hs ops ix :
  ∃ ops' ix', foldl (emit_orphan st) (ops, ix) hs = (ops', ix') ∧
    reindex <$> ops' = (reindex <$> ops) ++ (orphan_op <$> hs).
Proof.
  revert ops ix. induction hs as [|h hs IH]; intros ops ix.
  { exists ops, ix. by rewrite app_nil_r. }
  cbn [foldl]. assert (∃ op ix', emit_orphan st (ops, ix) h = (ops ++ [op], ix') ∧
    reindex op = orphan_op h) as (op & ix1 & -> & Hop).
  { destruct ix as [m next]. unfold emit_orphan, orphan_op.
    destruct (orphan_flow st h) as [[w flow]|]; [destruct (m !! w)|]; eauto. }
  destruct (IH (ops ++ [op]) ix1) as (ops' & ix' & -> & H'). exists ops', ix'.
  split; [done|]. rewrite H', fmap_app, <- app_assoc. csimpl. by rewrite Hop.
Qed.

Definition exit_op : list CanonicalOp := reindex <$> exit_ops st ∅.

(** The processes in the order of emission. *)
Definition sorted_processes (ps : gset ProcessInstance) : list ProcessInstance :=
  merge_sort instance_le (iter_processes ps).

(** Outputs that no included process wrote or renamed. *)
Definition orphans (included : gset ProcessInstance) outs : gset string :=
  outs ∖ ⋃ (produced <$> sorted_processes included).

Definition plain_ops outs (s : Search) : list CanonicalOp :=
  (sorted_processes (included_processes s) ≫= process_ops (relevant_hashes s))
  ++ (orphan_op <$> sorted_hashes (orphans (included_processes s) outs)) ++ exit_op.

Lemma slice_ops_plain root outs s : outs ⊆ relevant_hashes s →
  reindex <$> slice_ops st root outs s = plain_ops outs s.
Proof.
  intros Ho. unfold slice_ops, plain_ops, sorted_processes, orphans.
  destruct (assign_slice_indices _ _) as [m next].
  destruct (emit_processes_eq (relevant_hashes s) (index_root_exit st m next)
    (merge_sort instance_le (iter_processes (included_processes s))) [] outs Ho)
    as (ops1 & -> & H1).
  destruct (emit_orphans_eq (sorted_hashes (orphans (included_processes s) outs)) ops1
    (index_root_exit st m next, next)) as (ops2 & [m2 next2] & Heq & H2).
  unfold orphans, sorted_processes in Heq. rewrite Heq.
  rewrite fmap_app, H2, H1, <- app_assoc. unfold sorted_processes, orphans. f_equal. f_equal.
  unfold exit_op, exit_ops. by destruct (root_exit st) as [[]|].
Qed.

Lemma sorted_processes_elem ps p : p ∈ sorted_processes ps ↔ p ∈ ps.
Proof. unfold sorted_processes. by rewrite merge_sort_Permutation, iter_processes_elem. Qed.

Lemma orphans_elem included outs h :
  h ∈ orphans included outs ↔ h ∈ outs ∧ ∀ p, p ∈ included → ¬ produced_by (flows st) p h.
Proof.
  unfold orphans. rewrite elem_of_difference, elem_of_union_list.
  assert (Hp : ∀ p, h ∈ produced p ↔ produced_by (flows st) p h).
  { intros p. unfold produced, produced_by. destruct (flows st !! p); set_solver. }
  setoid_rewrite list_elem_of_fmap. setoid_rewrite <- Hp.
  setoid_rewrite <- sorted_processes_elem. set_solver.
Qed.

Lemma orphan_flow_Some h w flow : orphan_flow st h = Some (w, flow) →
  w ∈ default ∅ (writers_by_hash st !! h) ∧ flows st !! w = Some flow ∧
  (h ∈ writes flow ∨ h ∈ renames flow).
Proof.
  unfold orphan_flow. destruct (writers_by_hash st !! h) as [ws|]; [|done].
  cbn [mbind option_bind default]. intros Hh%head_Some_elem_of.
  apply list_elem_of_omap in Hh as (w' & Hw' & Hf).
  apply bind_Some in Hf as (flow' & Hf & Hc). case_match; [|done]. simplify_eq.
  rewrite iter_processes_elem in Hw'. split; [done|]. split; [done|].
  match goal with H : _ || _ = true |- _ => apply orb_true_iff in H end.
  rewrite !bool_decide_eq_true in *. done.
Qed.

Lemma orphan_flow_None h w : orphan_flow st h = None →
  w ∈ default ∅ (writers_by_hash st !! h) → ¬ produced_by (flows st) w h.
Proof.
  unfold orphan_flow. destruct (writers_by_hash st !! h) as [ws|]; [|set_solver].
  cbn [mbind option_bind default]. intros Hh Hw (flow & Hf & Hp).
  apply head_None in Hh.
  assert (Hin : (w, flow) ∈ omap (λ writer,
      flow ← flows st !! writer;
      if bool_decide (h ∈ writes flow) || bool_decide (h ∈ renames flow)
      then Some (writer, flow) else None) (iter_processes ws)).
  { apply list_elem_of_omap. exists w. rewrite iter_processes_elem. split; [done|].
    rewrite Hf. simpl. replace (_ || _) with true; [done|].
    symmetry. apply orb_true_iff. by rewrite !bool_decide_eq_true. }
  unfold mbind, option_bind in *. rewrite Hh in Hin. set_solver.
Qed.
End emission_facts.
