(* ===== verification/SliceSpec.v ===== *)
(** * What the output slice commits to

    [slice_op] is the specification of the slice: the operations of the
    processes an output depends on, one operation for each output they do not
    account for, and the exit of the root process. The leaves of
    [canonicalize_output_slice] are exactly the digests of those operations. *)
From S2P Require Export SliceOps.

Section specification.
Context `{HashOrder} (st : SliceState) (outputs : list OutputFile) (output_hashes : gset string).

Inductive slice_op : CanonicalOp → Prop :=
  | slice_op_exec p flow tool :
      needed st outputs output_hashes p → flows st !! p = Some flow →
      has_exec flow = true → flow_tool_hash flow = Some tool →
      slice_op (mkOp OpExec 0 (Some tool) [] [] [])
  | slice_op_read p flow h :
      needed st outputs output_hashes p → flows st !! p = Some flow → h ∈ reads flow →
      slice_op (mkOp OpFileRead 0 (flow_tool_hash flow) [] [h] [])
  | slice_op_write p flow h :
      needed st outputs output_hashes p → flows st !! p = Some flow → h ∈ writes flow →
      needed_hash st outputs output_hashes h →
      slice_op (mkOp OpFileWrite 0 (flow_tool_hash flow) [] [] [h])
  | slice_op_rename p flow h :
      needed st outputs output_hashes p → flows st !! p = Some flow → h ∈ renames flow →
      needed_hash st outputs output_hashes h →
      slice_op (mkOp OpFileRename 0 (flow_tool_hash flow) [] [h] [h])
  | slice_op_orphan h w flow :
      h ∈ output_hashes →
      (∀ p, needed st outputs output_hashes p → ¬ produced_by (flows st) p h) →
      orphan_flow st h = Some (w, flow) →
      slice_op (mkOp OpFileWrite 0 (flow_tool_hash flow) [] [] [h])
  | slice_op_unknown h :
      h ∈ output_hashes → (∀ p, ¬ produced_by (flows st) p h) →
      slice_op (mkOp OpFileWrite 0 None ["output"] [] [h])
  | slice_op_exit p exit_code :
      root_exit st = Some (p, exit_code) →
      slice_op (mkOp OpExit 0 (flow ← flows st !! p; flow_tool_hash flow)
                  ["exit:" +:+ decimal exit_code] [] []).

Lemma slice_op_sorted op : slice_op op → sort_op_lists op = op.
Proof. by intros []. Qed.
End specification.

Section plain.
Context `{HashOrder, !HashOrderLaws} (st : SliceState) (outputs : list OutputFile).
Context (output_hashes : gset string) (s : Search).
Hypothesis Hscan : scan_inv st.
Hypothesis Hincluded : ∀ p, p ∈ included_processes s ↔ needed st outputs output_hashes p.
Hypothesis Hrelevant : ∀ h, h ∈ relevant_hashes s ↔ needed_hash st outputs output_hashes h.

Lemma relevant_only_elem rel hs h : h ∈ relevant_only rel hs ↔ h ∈ hs ∧ h ∈ rel.
Proof.
  unfold relevant_only. rewrite list_elem_of_In, filter_In, <- list_elem_of_In.
  by rewrite bool_decide_eq_true.
Qed.

Lemma flow_ops_elem rel flow op :
  op ∈ flow_ops rel flow ↔
  (∃ tool, has_exec flow = true ∧ flow_tool_hash flow = Some tool ∧
     op = mkOp OpExec 0 (Some tool) [] [] []) ∨
  (∃ h, h ∈ reads flow ∧ h ∈ rel ∧ op = mkOp OpFileRead 0 (flow_tool_hash flow) [] [h] []) ∨
  (∃ h, h ∈ writes flow ∧ h ∈ rel ∧ op = write_op 0 flow h) ∨
  (∃ h, h ∈ renames flow ∧ h ∈ rel ∧ op = rename_op 0 flow h).
Proof.
  assert (Hexec : op ∈ exec_ops 0 flow ↔ ∃ tool, has_exec flow = true ∧
    flow_tool_hash flow = Some tool ∧ op = mkOp OpExec 0 (Some tool) [] [] []).
  { unfold exec_ops. destruct (has_exec flow), (flow_tool_hash flow); set_solver. }
  assert (Hmap : ∀ (f : string → CanonicalOp) hashes,
    op ∈ f <$> relevant_only rel (sorted_hashes hashes) ↔
    ∃ h, h ∈ hashes ∧ h ∈ rel ∧ op = f h).
  { intros f hashes. rewrite list_elem_of_fmap. setoid_rewrite relevant_only_elem.
    setoid_rewrite sorted_hashes_elem. split; intros (h & ?); exists h; tauto. }
  assert (Hread : read_ops rel 0 flow =
    (λ hash, mkOp OpFileRead 0 (flow_tool_hash flow) [] [hash] [])
      <$> relevant_only rel (sorted_hashes (reads flow))) by done.
  unfold flow_ops. by rewrite !elem_of_app, Hexec, Hread, !Hmap.
Qed.

Lemma process_ops_elem op :
  (∃ p, p ∈ included_processes s ∧ op ∈ process_ops st (relevant_hashes s) p) →
  slice_op st outputs output_hashes op.
Proof.
  intros (p & Hp%Hincluded & Hop). unfold process_ops in Hop.
  destruct (flows st !! p) as [flow|] eqn:Hf; [|set_solver].
  apply flow_ops_elem in Hop as [(t & ? & ? & ->)|[(h & ? & _ & ->)|[(h & ? & ? & ->)|(h & ? & ? & ->)]]].
  - by eapply slice_op_exec.
  - by eapply slice_op_read.
  - eapply slice_op_write; [done..|]. by apply Hrelevant.
  - eapply slice_op_rename; [done..|]. by apply Hrelevant.
Qed.

Lemma orphan_op_cases h : h ∈ output_hashes →
  (∀ p, needed st outputs output_hashes p → ¬ produced_by (flows st) p h) →
  slice_op st outputs output_hashes (orphan_op st h).
Proof.
  intros Hh Hn. unfold orphan_op. destruct (orphan_flow st h) as [[w flow]|] eqn:Ho.
  - by eapply slice_op_orphan.
  - apply slice_op_unknown; [done|]. intros p Hp. eapply orphan_flow_None; [done| |done].
    by apply (scan_writers _ Hscan).
Qed.

Lemma plain_ops_elem op :
  op ∈ plain_ops st output_hashes s ↔ slice_op st outputs output_hashes op.
Proof.
  unfold plain_ops. rewrite !elem_of_app, list_elem_of_bind, list_elem_of_fmap.
  setoid_rewrite sorted_hashes_elem. setoid_rewrite orphans_elem.
  setoid_rewrite sorted_processes_elem. split.
  - intros [(p & Hop & Hp)|[(h & -> & Hh & Hn)|He]].
    + apply process_ops_elem. eauto.
    + apply orphan_op_cases; [done|]. intros p Hp%Hincluded. auto.
    + unfold exit_op, exit_ops in He. destruct (root_exit st) as [[p code]|] eqn:Hr; [|set_solver].
      apply list_elem_of_singleton in He as ->. by eapply slice_op_exit.
  - assert (Hproc : ∀ p flow op, needed st outputs output_hashes p → flows st !! p = Some flow →
      op ∈ flow_ops (relevant_hashes s) flow →
      ∃ p, op ∈ process_ops st (relevant_hashes s) p ∧ p ∈ included_processes s).
    { intros p flow op' Hp Hf Hop. exists p. rewrite Hincluded. split; [|done].
      unfold process_ops. by rewrite Hf. }
    intros [p flow t Hp Hf Hx Ht|p flow h Hp Hf Hr|p flow h Hp Hf Hw Hh|p flow h Hp Hf Hw Hh
           |h w flow Hh Hn Ho|h Hh Hn|p code Hr].
    + left. eapply Hproc; [done..|]. apply flow_ops_elem. left. eauto.
    + left. eapply Hproc; [done..|]. apply flow_ops_elem. right. left. exists h.
      split; [done|]. split; [|done]. apply Hrelevant. right. eauto.
    + left. eapply Hproc; [done..|]. apply flow_ops_elem. do 2 right. left. exists h.
      by rewrite Hrelevant.
    + left. eapply Hproc; [done..|]. apply flow_ops_elem. do 3 right. exists h.
      by rewrite Hrelevant.
    + right. left. exists h. split; [unfold orphan_op; by rewrite Ho|].
      split; [done|]. intros p Hp%Hincluded. auto.
    + right. left. exists h. split; [|split; [done|auto]]. unfold orphan_op.
      destruct (orphan_flow st h) as [[w flow]|] eqn:Ho; [|done].
      apply orphan_flow_Some in Ho as (_ & Hf & Hp). destruct (Hn w). by exists flow.
    + right. right. unfold exit_op, exit_ops. rewrite Hr. by apply list_elem_of_singleton.
Qed.
End plain.

Section slice_theorems.
Context `{Sha256} `{HashOrder, !HashOrderLaws}.
Context (events : list TracedEvent) (root : ProcessInstance) (outputs : list OutputFile).
Abbreviation st := (scan root events).
Abbreviation hashes := (list_to_set (C := gset string) (output_hash <$> outputs)).

Lemma slice_opt_cases :
  (outputs = [] ∧ canonicalize_output_slice_opt events root outputs = Some []) ∨
  (outputs ≠ [] ∧ ∃ s,
    canonicalize_output_slice_opt events root outputs
      = Some (finalize_ops (slice_ops st root hashes s)) ∧
    (∀ p, p ∈ included_processes s ↔ needed st outputs hashes p) ∧
    (∀ h, h ∈ relevant_hashes s ↔ needed_hash st outputs hashes h)).
Proof.
  unfold canonicalize_output_slice_opt.
  destruct outputs as [|o os] eqn:Ho; [left; by rewrite bool_decide_true|]. right.
  split; [done|]. rewrite <- Ho. rewrite bool_decide_false.
  2:{ subst. simpl. set_solver. }
  destruct (bfs_needed st outputs hashes) as (s & -> & Hi & Hr). exists s. simpl. by subst.
Qed.

Lemma leaves_of_reindex ops : leaves_of (reindex <$> ops) = leaves_of ops.
Proof.
  apply leaves_of_ext. intros h. setoid_rewrite list_elem_of_fmap. split.
  - intros (op & (op' & -> & Hop) & ->). by exists op'.
  - intros (op & Hop & ->). exists (reindex op). split; [by exists op|done].
Qed.

Lemma slice_leaves_elem leaf :
  leaf ∈ op_hash <$> canonicalize_output_slice events root outputs ↔
  outputs ≠ [] ∧ ∃ op, slice_op st outputs hashes op ∧ leaf = op_hash op.
Proof.
  unfold canonicalize_output_slice.
  destruct slice_opt_cases as [[Ho ->]|(Ho & s & -> & Hi & Hr)]; simpl; [set_solver|].
  change (op_hash <$> finalize_ops ?ops) with (leaves_of ops).
  rewrite <- leaves_of_reindex, slice_ops_plain.
  2:{ intros h Hh. apply Hr. by left. }
  rewrite leaves_of_elem.
  setoid_rewrite (plain_ops_elem st outputs hashes s (scan_inv_scan root events) Hi Hr).
  split.
  - intros (op & Hop & ->). split; [done|]. exists op. split; [done|].
    by rewrite (slice_op_sorted _ _ _ _ Hop).
  - intros (_ & op & Hop & ->). exists op. split; [done|].
    by rewrite (slice_op_sorted _ _ _ _ Hop).
Qed.

(** C1. The slice is its specification: [canonicalize_output_slice] always
    returns; without outputs it commits to nothing; and otherwise its leaves
    are the digests of the operations of [slice_op], no more and no fewer. *)
Theorem slice_refines_specification :
  canonicalize_output_slice_opt events root outputs
    = Some (canonicalize_output_slice events root outputs) ∧
  ∀ leaf, leaf ∈ op_hash <$> canonicalize_output_slice events root outputs ↔
    outputs ≠ [] ∧ ∃ op, slice_op st outputs hashes op ∧ leaf = op_hash op.
Proof.
  split; [|apply slice_leaves_elem]. unfold canonicalize_output_slice.
  by destruct slice_opt_cases as [[_ ->]|(_ & s & -> & _)].
Qed.

(** C22. Every output is accounted for: the slice contains a write or a rename
    of its contents, made by the tool of a process that produced those
    contents, if any process of the trace did. *)
Theorem slice_accounts_for_outputs o : o ∈ outputs →
  ∃ op, op_hash op ∈ op_hash <$> canonicalize_output_slice events root outputs ∧
    op_type op ∈ [OpFileWrite; OpFileRename] ∧ output_hashes op = [output_hash o] ∧
    ((∃ p, produced_by (flows st) p (output_hash o)) →
     ∃ p flow, flows st !! p = Some flow ∧
       (output_hash o ∈ writes flow ∨ output_hash o ∈ renames flow) ∧
       tool_hash op = flow_tool_hash flow).
Proof.
  intros Ho. set (h := output_hash o).
  assert (Hne : outputs ≠ []) by (intros Hnil; rewrite Hnil in Ho; set_solver).
  assert (Hh : h ∈ hashes).
  { apply elem_of_list_to_set, list_elem_of_fmap. eauto. }
  setoid_rewrite slice_leaves_elem.
  destruct slice_opt_cases as [[? _]|(_ & s & _ & Hi & Hr)]; [done|].
  assert (Hdec : (∃ p, p ∈ included_processes s ∧ produced_by (flows st) p h) ∨
    ∀ p, p ∈ included_processes s → ¬ produced_by (flows st) p h).
  { assert (Hd : ∀ p, Decision (produced_by (flows st) p h)).
    { intros p. unfold produced_by. destruct (flows st !! p) as [flow|].
      - destruct (decide (h ∈ writes flow ∨ h ∈ renames flow)); [left; eauto|right; naive_solver].
      - right. naive_solver. }
    destruct (decide (set_Exists (λ p, produced_by (flows st) p h) (included_processes s)))
      as [He|He]; [by left|]. right. intros p Hp Hpr. apply He. by exists p. }
  destruct Hdec as [(p & Hp%Hi & flow & Hf & Hw)|Hnone].
  - assert (Hnh : needed_hash st outputs hashes h) by by left. destruct Hw as [Hw|Hw].
    + eexists. split; [split; [done|]; eexists; split; [|done]; by eapply slice_op_write|].
      simpl. split; [set_solver|]. split; [done|]. intros _. eauto 10.
    + eexists. split; [split; [done|]; eexists; split; [|done]; by eapply slice_op_rename|].
      simpl. split; [set_solver|]. split; [done|]. intros _. eauto 10.
  - exists (orphan_op st h).
    assert (Hs : slice_op st outputs hashes (orphan_op st h)).
    { apply orphan_op_cases; [apply scan_inv_scan|done|].
      intros p Hp%Hi. by apply Hnone. }
    split; [split; [done|eauto]|]. unfold orphan_op.
    destruct (orphan_flow st h) as [[w flow]|] eqn:Hof; simpl.
    + split; [set_solver|]. split; [done|]. intros _.
      apply orphan_flow_Some in Hof as (_ & Hf & Hw). eauto.
    + split; [set_solver|]. split; [done|]. intros (p & Hp).
      exfalso. eapply orphan_flow_None; [done| |done].
      by apply (scan_writers _ (scan_inv_scan root events)).
Qed.
End slice_theorems.
