(* ===== verification/SliceOrder.v ===== *)
(** * Which orders reach the slice

    The slice does not depend on the iteration order of hash tables, one
    fallback apart; and the writer of a file is credited with the file's final
    name wherever the close falls among the renames. *)
From S2P Require Export SliceSpec.

(** ** Iteration order *)

Section iteration_order.
Context `{Sha256}.

(** The processes that produced an output no needed process produced agree
    on their tool. *)
Definition orphan_writers_agree (st : SliceState) (outputs : list OutputFile) : Prop :=
  let hashes := list_to_set (output_hash <$> outputs) in
  ∀ h w1 flow1 w2 flow2, h ∈ hashes →
    (∀ p, needed st outputs hashes p → ¬ produced_by (flows st) p h) →
    flows st !! w1 = Some flow1 → (h ∈ writes flow1 ∨ h ∈ renames flow1) →
    flows st !! w2 = Some flow2 → (h ∈ writes flow2 ∨ h ∈ renames flow2) →
    flow_tool_hash flow1 = flow_tool_hash flow2.

Lemma slice_op_order_incl (O1 O2 : HashOrder) `{!@HashOrderLaws O1, !@HashOrderLaws O2}
    st outputs op :
  scan_inv st → orphan_writers_agree st outputs →
  @slice_op O1 st outputs (list_to_set (output_hash <$> outputs)) op →
  @slice_op O2 st outputs (list_to_set (output_hash <$> outputs)) op.
Proof.
  intros Hscan Hag [p flow t|p flow h|p flow h|p flow h|h w flow Hh Hn Ho|h|p code].
  - by eapply slice_op_exec.
  - by eapply slice_op_read.
  - by eapply slice_op_write.
  - by eapply slice_op_rename.
  - apply (@orphan_flow_Some O1 _) in Ho as (Hw & Hf & Hp).
    destruct (@orphan_flow O2 st h) as [[w2 flow2]|] eqn:Ho2.
    + destruct (@orphan_flow_Some O2 _ _ _ _ _ Ho2) as (_ & Hf2 & Hp2).
      rewrite (Hag h w flow w2 flow2) by done. by eapply slice_op_orphan.
    + exfalso. eapply (@orphan_flow_None O2 _); [done| |by exists flow].
      exact Hw.
  - by eapply slice_op_unknown.
  - by eapply slice_op_exit.
Qed.

(** The iteration order of the program's hash tables does not reach the
    leaves, provided that the processes that produced an orphaned output (one
    that no needed process produced) agree on their tool. *)
Theorem slice_order_independent (O1 O2 : HashOrder)
    `{!@HashOrderLaws O1, !@HashOrderLaws O2} events root outputs :
  orphan_writers_agree (scan root events) outputs →
  op_hash <$> @canonicalize_output_slice _ O1 events root outputs
  = op_hash <$> @canonicalize_output_slice _ O2 events root outputs.
Proof.
  intros Hag.
  assert (Hsorted : ∀ O : HashOrder, strictly_sorted
    (op_hash <$> @canonicalize_output_slice _ O events root outputs)).
  { intros O. unfold canonicalize_output_slice, canonicalize_output_slice_opt.
    case_bool_decide; [constructor|].
    destruct (bfs _ _ _) as [s|]; [apply sort_dedup_strict|constructor]. }
  apply strictly_sorted_unique; [apply Hsorted..|]. intros leaf.
  rewrite (@slice_leaves_elem _ O1 _), (@slice_leaves_elem _ O2 _).
  pose proof (scan_inv_scan root events) as Hscan.
  split; intros (Ho & op & Hop & ->); (split; [done|]); exists op; (split; [|done]).
  - by apply (slice_op_order_incl O1 O2).
  - by apply (slice_op_order_incl O2 O1).
Qed.
End iteration_order.

(** Two iteration orders: that of the model's sets, and its reverse. *)
Definition forward_order : HashOrder :=
  {| iter_processes := elements; iter_hashes := elements |}.
Definition backward_order : HashOrder :=
  {| iter_processes s := reverse (elements s); iter_hashes s := reverse (elements s) |}.

#[export] Instance forward_order_laws : @HashOrderLaws forward_order.
Proof.
  split; cbn [iter_processes iter_hashes forward_order]; intros s.
  - intros p. apply elem_of_elements.
  - apply NoDup_elements.
  - intros h. apply elem_of_elements.
  - apply NoDup_elements.
Qed.

#[export] Instance backward_order_laws : @HashOrderLaws backward_order.
Proof.
  split; cbn [iter_processes iter_hashes backward_order]; intros s.
  - intros p. rewrite elem_of_reverse. apply elem_of_elements.
  - rewrite reverse_Permutation. apply NoDup_elements.
  - intros h. rewrite elem_of_reverse. apply elem_of_elements.
  - rewrite reverse_Permutation. apply NoDup_elements.
Qed.

(** ** The fallback is not deterministic

    Two compilers write the same contents to their temporary directories, and
    the output with those contents appears at a path nobody is seen to write
    (a hard link, which is not traced). *)
Definition orphan_root : ProcessInstance := mkInstance (mkLifetime 1 0) 0.
Definition orphan_writer (pid : Z) : ProcessInstance := mkInstance (mkLifetime pid 0) 1.
Definition orphan_trace (tool1 tool2 contents : string) : list TracedEvent :=
  [Exec (orphan_writer 10) (Content tool1);
   FileOpen (orphan_writer 10) "/w/tmp/1.o" 1 3 false (Missing "1.o");
   FileClose (orphan_writer 10) 3 (Some "/w/tmp/1.o") false (Some (Content contents));
   Exec (orphan_writer 11) (Content tool2);
   FileOpen (orphan_writer 11) "/w/tmp/2.o" 1 3 false (Missing "2.o");
   FileClose (orphan_writer 11) 3 (Some "/w/tmp/2.o") false (Some (Content contents))].

(** The fallback for orphaned outputs is not deterministic: on one trace, two
      iteration orders of one hash set attribute the output to two tools, so the
      attestations of two identical builds differ. *)
Theorem slice_orphan_nondeterministic `{Sha256} :
  let trace := orphan_trace "sha256:gcc" "sha256:clang" "sha256:object" in
  let outputs := [mkOutputFile "/w/out.o" "sha256:object"] in
  tool_hash <$> @canonicalize_output_slice _ forward_order trace orphan_root outputs
    = [Some "sha256:clang"] ∧
  tool_hash <$> @canonicalize_output_slice _ backward_order trace orphan_root outputs
    = [Some "sha256:gcc"].
Proof. split; vm_compute; done. Qed.

(** ** The order of closes and renames *)

(** The name a file ends with when each rename of [pairs] is applied in turn. *)
Definition final_name (pairs : list (string * string)) (path : string) : string :=
  foldl (λ p '(from, to), default p (rewrite_path_prefix p from to)) path pairs.

Definition writes_path (m : gmap string (gset ProcessInstance)) (path : string)
    (w : ProcessInstance) : Prop := w ∈ default ∅ (m !! path).

Lemma writes_path_add key ws m path w :
  writes_path (add_writers key ws m) path w ↔
  writes_path m path w ∨ (path = key ∧ w ∈ ws).
Proof.
  unfold writes_path, add_writers. destruct (decide (path = key)) as [->|Hne].
  - rewrite lookup_insert_eq. simpl. set_solver.
  - rewrite lookup_insert_ne by done. naive_solver.
Qed.

Lemma rename_aliases_elem from to m path ws :
  (path, ws) ∈ rename_aliases from to m ↔
  ∃ old, m !! old = Some ws ∧ rewrite_path_prefix old from to = Some path.
Proof.
  unfold rename_aliases. rewrite list_elem_of_omap. split.
  - intros ([old ws'] & Hin & Hr). apply elem_of_map_to_list in Hin.
    apply fmap_Some in Hr as (p & Hp & [= -> ->]). eauto.
  - intros (old & Hm & Hr). exists (old, ws). rewrite elem_of_map_to_list.
    split; [done|]. by rewrite Hr.
Qed.

(** Aliasing adds, to the new name of each path it applies to, the path's writers. *)
Lemma writes_path_alias from to m path w :
  writes_path (alias_writers from to m) path w ↔
  writes_path m path w ∨
  ∃ old, rewrite_path_prefix old from to = Some path ∧ writes_path m old w.
Proof.
  assert (Hfold : ∀ al m', writes_path (foldl (λ m '(path, ws), add_writers path ws m) m' al) path w
    ↔ writes_path m' path w ∨ ∃ ws, (path, ws) ∈ al ∧ w ∈ ws).
  { induction al as [|[p ws] al IH]; intros m'; simpl; [set_solver|].
    rewrite IH, writes_path_add. set_solver. }
  unfold alias_writers. rewrite Hfold. apply ZifyClasses.or_morph; [done|].
  setoid_rewrite rename_aliases_elem. unfold writes_path. split.
  - intros (ws & (old & Hm & Hr) & Hw). exists old. by rewrite Hm.
  - intros (old & Hr & Hw). destruct (m !! old) as [ws|] eqn:Hm; [|set_solver]. eauto.
Qed.

Lemma writes_path_fixup pairs m path w :
  writes_path m path w →
  writes_path (foldl (λ m '(from, to), alias_writers from to m) m pairs)
    (final_name pairs path) w.
Proof.
  revert m path. induction pairs as [|[from to] pairs IH]; intros m path Hw; [done|].
  simpl. apply IH. apply writes_path_alias.
  destruct (rewrite_path_prefix path from to) as [q|] eqn:Hq; simpl; [|by left].
  right. eauto.
Qed.

Section late_writes.
Context (root : ProcessInstance).
Abbreviation step := (slice_event root).

(** Recorded writers are never dropped by the scan. *)
Lemma writes_path_step st e path w :
  writes_path (writers_by_path st) path w → writes_path (writers_by_path (step st e)) path w.
Proof.
  intros Hw. destruct e; simpl; try done.
  - unfold slice_open, record_read. repeat case_match; done.
  - unfold slice_close. destruct external; [done|].
    destruct (slice_pending st !! _); [|done]. destruct observation as [o|]; [|done].
    destruct (content_hash o); simpl; apply writes_path_add; by left.
  - unfold slice_mmap, record_read. repeat case_match; done.
  - unfold slice_rename. destruct external; [done|].
    destruct (content_hash observation); simpl; apply writes_path_add; left;
      apply writes_path_alias; by left.
  - unfold slice_exit. by case_match.
Qed.

Lemma writes_path_run st es path w :
  writes_path (writers_by_path st) path w →
  writes_path (writers_by_path (foldl step st es)) path w.
Proof.
  revert st. induction es as [|e es IH]; intros st Hw; [done|]. by apply IH, writes_path_step.
Qed.

(** A pending write keeps its process until an event about its descriptor
    (an open or a mapping, a close, or a fork into its lifetime). *)
Definition slice_touches (l : ProcessLifetime) (fd : Z) (e : TracedEvent) : bool :=
  match e with
  | FileOpen q _ _ f _ _ | FileClose q f _ _ _ | FileMmap q f _ _ _ _ _ =>
      (lifetime q =?= l) && (f =?= fd)
  | Fork _ child => lifetime child =?= l
  | _ => false
  end.

Definition opened_by st (l : ProcessLifetime) (fd : Z) (w : ProcessInstance) : Prop :=
  pending_process <$> slice_pending st !! (l, fd) = Some w.

Lemma opened_by_insert st l fd l' fd' pw w :
  (lifetime l' =?= l) && (fd' =?= fd) = false → opened_by st l fd w →
  opened_by (with_slice_pending <[(lifetime l', fd') := pw]> st) l fd w.
Proof.
  intros Hne Ho. unfold opened_by in *. simpl. rewrite lookup_insert_ne; [done|].
  intros [= <- <-]. by rewrite !bool_decide_true in Hne.
Qed.

Lemma opened_by_step st l fd w e :
  slice_touches l fd e = false → opened_by st l fd w → opened_by (step st e) l fd w.
Proof.
  assert (Hread : ∀ st q path o, opened_by st l fd w → opened_by (record_read q path o st) l fd w)
    by (intros; unfold record_read; by case_match).
  intros Ht Ho. destruct e; simpl in Ht; simpl; try done.
  - unfold slice_fork, opened_by. simpl. apply bool_decide_eq_false in Ht.
    rewrite lookup_inherit_pending. rewrite decide_False by congruence. done.
  - unfold slice_open. destruct external; [done|].
    destruct (can_read flags), (can_write flags); eauto using opened_by_insert.
  - unfold slice_close. destruct external; [done|].
    assert (Hd : opened_by (with_slice_pending (delete (lifetime process, fd0)) st) l fd w).
    { unfold opened_by in *. simpl. rewrite lookup_delete_ne; [done|].
      intros [= <- <-]. by rewrite !bool_decide_true in Ht. }
    destruct (slice_pending st !! _); [|done]. destruct observation as [o|]; [|done].
    by destruct (content_hash o).
  - unfold slice_mmap. destruct external; [done|].
    destruct path as [path|], observation as [o|]; try done.
    case_match; eauto using opened_by_insert.
  - unfold slice_rename. destruct external; [done|].
    assert (Hr : opened_by (with_slice_pending (fmap (rewrite_pending from_path to_path)) st) l fd w).
    { unfold opened_by in *. simpl. rewrite lookup_fmap.
      destruct (slice_pending st !! (l, fd)) as [pw|]; [|done]. simpl in *.
      unfold rewrite_pending. by case_match. }
    by destruct (content_hash observation).
  - unfold slice_exit. by case_match.
Qed.

Lemma opened_by_run st l fd w es :
  Forall (λ e, slice_touches l fd e = false) es → opened_by st l fd w →
  opened_by (foldl step st es) l fd w.
Proof.
  intros Hes. revert st. induction Hes as [|e es He Hes IH]; intros st Ho; [done|].
  by apply IH, opened_by_step.
Qed.

Lemma close_records_writer st q fd path o w :
  opened_by st (lifetime q) fd w →
  writes_path (writers_by_path (step st (FileClose q fd (Some path) false (Some o)))) path w.
Proof.
  unfold opened_by. intros (pw & Hp & ->)%fmap_Some. simpl. unfold slice_close. simpl.
  rewrite Hp. destruct (content_hash o); simpl; apply writes_path_add; right; set_solver.
Qed.

(** C23. Writers keep their files through renames: a process that opens a file
    for writing is recorded, once its descriptor is closed at [path], as a
    writer of the name the file ends with after all renames of the trace,
    those that were reported before the close as well as those after it; so if
    that name is an output's path, the slice includes the process. *)
Theorem writer_of_final_name events1 events2 events3 p opened_path flags fd o q path o' outputs out :
  let events := events1 ++ FileOpen p opened_path flags fd false o :: events2
                  ++ FileClose q fd (Some path) false (Some o') :: events3 in
  can_write flags = true → lifetime q = lifetime p →
  Forall (λ e, slice_touches (lifetime p) fd e = false) events2 →
  out ∈ outputs →
  output_path out = final_name (rename_pairs (scan root events)) path →
  needed (scan root events) outputs (list_to_set (output_hash <$> outputs)) p.
Proof.
  intros events Hw Hl Hun Hout Hpath.
  set (st1 := step (foldl step initial_slice events1) (FileOpen p opened_path flags fd false o)).
  assert (Ho1 : opened_by st1 (lifetime p) fd p).
  { unfold st1, opened_by. simpl. unfold slice_open. rewrite Hw. simpl.
    by rewrite lookup_insert_eq. }
  apply (opened_by_run _ _ _ _ _ Hun) in Ho1. rewrite <- Hl in Ho1.
  apply (close_records_writer _ q fd path o') in Ho1.
  apply (writes_path_run _ events3) in Ho1.
  set (st2 := foldl step (step (foldl step st1 events2) _) events3) in Ho1.
  assert (Hst2 : foldl step initial_slice events = st2).
  { unfold events, st2, st1. rewrite foldl_app. simpl. by rewrite foldl_app. }
  unfold scan in *. rewrite Hst2 in *.
  apply (writes_path_fixup (rename_pairs st2)) in Ho1. simpl in Hpath. rewrite <- Hpath in Ho1.
  unfold writes_path in Ho1. destruct (_ !! output_path out) as [ws|] eqn:Hws; [|set_solver].
  by apply (needed_output _ outputs _ out ws).
Qed.
End late_writes.

(** ** Examples *)

Module SliceExamples.
Import Toy.
#[local] Existing Instance forward_order.

Definition make : ProcessInstance := mkInstance (mkLifetime 20 0) 1.
Definition ld : ProcessInstance := mkInstance (mkLifetime 21 0) 1.
Definition mv : ProcessInstance := mkInstance (mkLifetime 22 0) 1.
Definition app : OutputFile := mkOutputFile "/w/dist/app" (digest "app").

(** The rename of the temporary file is reported before the linker's close. *)
Definition before_close : list TracedEvent :=
  [Exec mv (Content (digest "mv"));
   FileRename mv "/w/app.tmp" "/w/dist/app" 0 false (Missing "app")].
Definition after_close : list TracedEvent := [Exit make 0].
Definition link_trace : list TracedEvent :=
  [Exec make (Content (digest "make")); Exec ld (Content (digest "ld"));
   FileOpen ld "/w/a.o" 0 3 false (Content (digest "object"))]
  ++ FileOpen ld "/w/app.tmp" 1 4 false (Missing "app.tmp") :: before_close
  ++ FileClose ld 4 (Some "/w/app.tmp") false (Some (Content (digest "app"))) :: after_close.

Lemma bfs_is_backward_closure_witness :
  ∃ s, bfs (scan make link_trace) (size (all_writers (scan make link_trace)))
         (seed (scan make link_trace) [app] {[digest "app"]}) = Some s ∧
    included_processes s = {[ld; mv]}.
Proof.
  destruct (bfs_is_backward_closure (scan make link_trace) [app] {[digest "app"]})
    as (s & Hs & _).
  exists s. split; [exact Hs|]. vm_compute in Hs. injection Hs as <-.
  apply (bool_decide_unpack (_ = _)). vm_compute. done.
Defined.

Lemma slice_refines_specification_witness :
  canonicalize_output_slice_opt link_trace make [app]
    = Some (canonicalize_output_slice link_trace make [app]) ∧
  length (canonicalize_output_slice link_trace make [app]) = 5.
Proof. split; [apply slice_refines_specification|vm_compute; done]. Defined.

Lemma slice_accounts_for_outputs_witness :
  ∃ op, op_hash op ∈ op_hash <$> canonicalize_output_slice link_trace make [app] ∧
    output_hashes op = [digest "app"].
Proof.
  destruct (slice_accounts_for_outputs link_trace make [app] app) as (op & Hin & _ & Ho & _).
  - set_solver.
  - exists op. split; [exact Hin|exact Ho].
Defined.

Lemma slice_order_independent_witness :
  op_hash <$> @canonicalize_output_slice _ forward_order link_trace make [app]
  = op_hash <$> @canonicalize_output_slice _ backward_order link_trace make [app].
Proof.
  apply (slice_order_independent forward_order backward_order).
  intros h w1 flow1 w2 flow2 Hh Hn Hf1 Hw1. exfalso.
  assert (Hh' : h = digest "app") by set_solver. subst h.
  apply (Hn ld).
  - apply (needed_output _ _ _ app {[ld; mv]}); [set_solver| |set_solver].
    vm_compute. done.
  - unfold produced_by. eexists. split; [vm_compute; reflexivity|]. left. vm_compute. done.
Defined.

Lemma writer_of_final_name_witness :
  needed (scan make link_trace) [app] (list_to_set (output_hash <$> [app])) ld.
Proof.
  apply (writer_of_final_name make
    [Exec make (Content (digest "make")); Exec ld (Content (digest "ld"));
     FileOpen ld "/w/a.o" 0 3 false (Content (digest "object"))]
    before_close after_close ld "/w/app.tmp" 1 4 (Missing "app.tmp") ld "/w/app.tmp"
    (Content (digest "app")) [app] app).
  - done.
  - done.
  - repeat constructor.
  - set_solver.
  - vm_compute. done.
Defined.
End SliceExamples.
