(* ===== verification/SliceRenaming.v ===== *)
(** * The slice does not depend on process identifiers

    Two scans are related along a renaming of lifetimes when their flows and
    pending writes agree along it and every content and every path has the
    renamed writers.  Each arm of the scan keeps the relation, and related scans
    have the same slice, in whatever order each visits its hash tables. *)
From S2P Require Export SliceOrder CanonRenaming.

Create HintDb slice discriminated.

Section renaming.
Context (ρ : ProcessLifetime → ProcessLifetime) `{Hρ : !Inj (=) (=) ρ}.
#[local] Abbreviation rn := (rename_instance ρ).
#[export] Instance rn_inj : Inj (=) (=) rn.
Proof. intros [l1 e1] [l2 e2] [= Hl ->]. by apply (inj ρ) in Hl as ->. Qed.

(** Tables of writers that agree along the renaming. *)
Definition writers_renamed (m1 m2 : gmap string (gset ProcessInstance)) : Prop :=
  ∀ key w', writes_path m2 key w' ↔ ∃ w, w' = rn w ∧ writes_path m1 key w.

Definition rename_pending_write (p : PendingWrite) : PendingWrite :=
  mkPending (rn (pending_process p)) (pending_path p).

Record slice_renamed (st1 st2 : SliceState) : Prop := {
  sr_flows p : flows st1 !! p = flows st2 !! rn p;
  sr_pending l fd : rename_pending_write <$> slice_pending st1 !! (l, fd) = slice_pending st2 !! (ρ l, fd);
  sr_by_hash : writers_renamed (writers_by_hash st1) (writers_by_hash st2);
  sr_by_path : writers_renamed (writers_by_path st1) (writers_by_path st2);
  sr_exit : root_exit st2 = prod_map rn id <$> root_exit st1;
  sr_pairs : rename_pairs st2 = rename_pairs st1
}.

(** ** Updates along the renaming *)

Lemma writers_renamed_add key p m1 m2 :
  writers_renamed m1 m2 → writers_renamed (add_writers key {[p]} m1) (add_writers key {[rn p]} m2).
Proof.
  intros Hm k w'. rewrite writes_path_add, (Hm k w'). setoid_rewrite writes_path_add. split.
  - intros [(w & -> & Hw)|[-> ->%elem_of_singleton]]; [exists w; auto|exists p; set_solver].
  - intros (w & -> & [Hw|[-> ->%elem_of_singleton]]); [left; eauto|right; set_solver].
Qed.

Lemma writers_renamed_alias from to m1 m2 :
  writers_renamed m1 m2 → writers_renamed (alias_writers from to m1) (alias_writers from to m2).
Proof.
  intros Hm k w'. rewrite writes_path_alias. setoid_rewrite writes_path_alias. split.
  - intros [(w & -> & Hw)%Hm|(old & Hr & (w & -> & Hw)%Hm)]; exists w; eauto.
  - intros (w & -> & [Hw|(old & Hr & Hw)]); [left; apply Hm; eauto|].
    right. exists old. split; [done|]. apply Hm. eauto.
Qed.

Lemma sr_update_flow p f st1 st2 : slice_renamed st1 st2 →
  slice_renamed (with_flows (update_flow p f) st1) (with_flows (update_flow (rn p) f) st2).
Proof.
  intros [Hf Hp Hh Hpa He Hr]. split; [|done..]. intros q. simpl. unfold update_flow.
  rewrite !lookup_insert, <- !Hf. repeat case_decide; simplify_eq; done.
Qed.

Lemma sr_with_pending f1 f2 st1 st2 : slice_renamed st1 st2 →
  (∀ l fd, rename_pending_write <$> f1 (slice_pending st1) !! (l, fd) = f2 (slice_pending st2) !! (ρ l, fd)) →
  slice_renamed (with_slice_pending f1 st1) (with_slice_pending f2 st2).
Proof. intros [Hf Hp Hh Hpa He Hr] Hpend. by split. Qed.

Lemma sr_open l fd p path st1 st2 : slice_renamed st1 st2 →
  slice_renamed (with_slice_pending <[(l, fd) := mkPending p path]> st1)
    (with_slice_pending <[(ρ l, fd) := mkPending (rn p) path]> st2).
Proof.
  intros Hs. apply sr_with_pending; [done|]. intros l' fd'. rewrite !lookup_insert, <- (sr_pending _ _ Hs).
  repeat case_decide; simplify_eq; done.
Qed.

Lemma sr_delete l fd st1 st2 : slice_renamed st1 st2 →
  slice_renamed (with_slice_pending (delete (l, fd)) st1) (with_slice_pending (delete (ρ l, fd)) st2).
Proof.
  intros Hs. apply sr_with_pending; [done|]. intros l' fd'. rewrite !lookup_delete, <- (sr_pending _ _ Hs).
  repeat case_decide; simplify_eq; done.
Qed.

Lemma sr_inherit l1 l2 st1 st2 : slice_renamed st1 st2 →
  slice_renamed (with_slice_pending (inherit_pending l1 l2) st1) (with_slice_pending (inherit_pending (ρ l1) (ρ l2)) st2).
Proof.
  intros Hs. apply sr_with_pending; [done|]. intros l fd. rewrite !lookup_inherit_pending, <- !(sr_pending _ _ Hs).
  destruct (decide (l = l2)) as [->|Hne]; [|rewrite decide_False by (intros ?%(inj ρ); done); done].
  rewrite decide_True by done. by destruct (slice_pending st1 !! (l1, fd)).
Qed.

Lemma sr_rewrite from to st1 st2 : slice_renamed st1 st2 →
  slice_renamed (with_slice_pending (fmap (rewrite_pending from to)) st1)
    (with_slice_pending (fmap (rewrite_pending from to)) st2).
Proof.
  intros Hs. apply sr_with_pending; [done|]. intros l fd. rewrite !lookup_fmap, <- (sr_pending _ _ Hs).
  destruct (slice_pending st1 !! (l, fd)) as [[q path]|]; [|done]. simpl. unfold rewrite_pending. simpl.
  by case_match.
Qed.

Lemma sr_with_hash f1 f2 st1 st2 : slice_renamed st1 st2 →
  (writers_renamed (writers_by_hash st1) (writers_by_hash st2) →
   writers_renamed (f1 (writers_by_hash st1)) (f2 (writers_by_hash st2))) →
  slice_renamed (with_writers_by_hash f1 st1) (with_writers_by_hash f2 st2).
Proof. intros [Hf Hp Hh Hpa He Hr] Hm. split; [done|done|by apply Hm|done..]. Qed.

Lemma sr_with_path f1 f2 st1 st2 : slice_renamed st1 st2 →
  (writers_renamed (writers_by_path st1) (writers_by_path st2) →
   writers_renamed (f1 (writers_by_path st1)) (f2 (writers_by_path st2))) →
  slice_renamed (with_writers_by_path f1 st1) (with_writers_by_path f2 st2).
Proof. intros [Hf Hp Hh Hpa He Hr] Hm. split; [done|done|done|by apply Hm|done..]. Qed.

Lemma sr_with_pairs f st1 st2 : slice_renamed st1 st2 →
  slice_renamed (with_rename_pairs f st1) (with_rename_pairs f st2).
Proof. intros [Hf Hp Hh Hpa He Hr]. split; [done..|]. simpl. by rewrite Hr. Qed.

#[local] Hint Resolve sr_update_flow sr_open sr_delete sr_inherit sr_rewrite sr_with_hash sr_with_path
  sr_with_pairs writers_renamed_add writers_renamed_alias : slice.

(** ** The arms *)

Lemma sr_read p path o st1 st2 : slice_renamed st1 st2 →
  slice_renamed (record_read p path o st1) (record_read (rn p) path o st2).
Proof. intros Hs. unfold record_read. case_match; auto with slice. Qed.
#[local] Hint Resolve sr_read : slice.

Lemma sr_close p fd path external o st1 st2 : slice_renamed st1 st2 →
  slice_renamed (slice_close p fd path external o st1) (slice_close (rn p) fd path external o st2).
Proof.
  intros Hs. unfold slice_close. destruct external; [done|]. cbv zeta. cbn [lifetime rename_instance].
  rewrite <- (sr_pending _ _ Hs). destruct (slice_pending st1 !! (lifetime p, fd)) as [[q pp]|]; simpl; [|auto with slice].
  destruct o as [o|]; [|auto with slice]. destruct (content_hash o); auto 10 with slice.
Qed.

Lemma sr_event root st1 st2 e : slice_renamed st1 st2 →
  slice_renamed (slice_event root st1 e) (slice_event (rn root) st2 (rename_event ρ e)).
Proof.
  intros Hs. destruct e; cbn [rename_event slice_event]; auto using sr_close.
  - unfold slice_exec. auto with slice.
  - unfold slice_fork. cbv zeta. rewrite <- (sr_flows _ _ Hs). cbn [lifetime rename_instance]. auto with slice.
  - unfold slice_open. cbv zeta. cbn [lifetime rename_instance].
    destruct external, (can_read flags), (can_write flags); auto with slice.
  - unfold slice_mmap. cbv zeta. cbn [lifetime rename_instance].
    destruct external, path, observation, (mmap_is_write prot flags); auto with slice.
  - unfold slice_rename. destruct external; [done|]. cbv zeta.
    destruct (content_hash observation); auto 10 with slice.
  - unfold slice_exit. cbn [lifetime rename_instance].
    destruct (decide (lifetime process = lifetime root)) as [Heq|Hne].
    + rewrite !bool_decide_true by congruence. destruct Hs as [Hf Hp Hh Hpa He Hr]. by split.
    + rewrite !bool_decide_eq_false_2; [done|intros ?%(inj ρ); done|done].
Qed.

Lemma sr_fixup st1 st2 : slice_renamed st1 st2 → slice_renamed (rename_fixup st1) (rename_fixup st2).
Proof.
  intros Hs. unfold rename_fixup. rewrite (sr_pairs _ _ Hs). apply sr_with_path; [done|].
  generalize (writers_by_path st1), (writers_by_path st2). induction (rename_pairs st1) as [|[from to] pairs IH];
    intros m1 m2 Hm; simpl; [done|]. by apply IH, writers_renamed_alias.
Qed.

Lemma sr_initial : slice_renamed initial_slice initial_slice.
Proof.
  assert (writers_renamed ∅ ∅) by (intros k w'; unfold writes_path; rewrite lookup_empty; set_solver).
  by split; simpl; [intros; rewrite !lookup_empty..|done|done|done|done].
Qed.

Lemma sr_run root st1 st2 events : slice_renamed st1 st2 →
  slice_renamed (foldl (slice_event root) st1 events)
    (foldl (slice_event (rn root)) st2 (rename_event ρ <$> events)).
Proof.
  revert st1 st2. induction events as [|e events IH]; intros st1 st2 Hs; simpl; [done|]. by apply IH, sr_event.
Qed.

Lemma sr_scan root events :
  slice_renamed (scan root events) (scan (rn root) (rename_event ρ <$> events)).
Proof. unfold scan. by apply sr_fixup, sr_run, sr_initial. Qed.
End renaming.

(** ** Related scans have one slice *)

Section related_slices.
Context (ρ : ProcessLifetime → ProcessLifetime) `{Hρ : !Inj (=) (=) ρ}.
#[local] Abbreviation rn := (rename_instance ρ).
Context (st1 st2 : SliceState) (Hs : slice_renamed ρ st1 st2) (H1 : scan_inv st1) (H2 : scan_inv st2).
Context (outputs : list OutputFile).
#[local] Abbreviation hashes := (list_to_set (C := gset string) (output_hash <$> outputs)).

Lemma sr_produced w' h :
  produced_by (flows st2) w' h ↔ ∃ w, w' = rn w ∧ produced_by (flows st1) w h.
Proof.
  rewrite <- (scan_writers _ H2). setoid_rewrite <- (scan_writers _ H1). apply (sr_by_hash _ _ _ Hs).
Qed.

Lemma writes_path_lookup m key (w : ProcessInstance) :
  writes_path m key w ↔ ∃ ws, m !! key = Some ws ∧ w ∈ ws.
Proof.
  unfold writes_path. destruct (m !! key) as [ws|]; simpl; [naive_solver|].
  split; [set_solver|naive_solver].
Qed.

Lemma sr_needed w' : needed st2 outputs hashes w' ↔ ∃ w, w' = rn w ∧ needed st1 outputs hashes w.
Proof.
  split.
  - intros Hn. induction Hn as [o ws p' Ho Hws Hp|p' flow h ws w' _ (p & -> & Hp) Hf Hr Hh Hws Hw].
    + assert (writes_path (writers_by_path st2) (output_path o) p') as (p & -> & Hpath)%(sr_by_path _ _ _ Hs).
      { apply writes_path_lookup. eauto. }
      exists p. split; [done|]. apply writes_path_lookup in Hpath as (ws1 & ? & ?). by eapply needed_output.
    + assert (writes_path (writers_by_hash st2) h w') as (w & -> & Hhash)%(sr_by_hash _ _ _ Hs).
      { apply writes_path_lookup. eauto. }
      exists w. split; [done|]. apply writes_path_lookup in Hhash as (ws1 & ? & ?).
      rewrite <- (sr_flows _ _ _ Hs) in Hf. by eapply needed_read.
  - intros (w & -> & Hn). induction Hn as [o ws p Ho Hws Hp|p flow h ws w _ Hp Hf Hr Hh Hws Hw].
    + assert (writes_path (writers_by_path st2) (output_path o) (rn p)) as (ws2 & ? & ?)%writes_path_lookup.
      { apply (sr_by_path _ _ _ Hs). exists p. split; [done|]. apply writes_path_lookup. eauto. }
      by eapply needed_output.
    + assert (writes_path (writers_by_hash st2) h (rn w)) as (ws2 & ? & ?)%writes_path_lookup.
      { apply (sr_by_hash _ _ _ Hs). exists w. split; [done|]. apply writes_path_lookup. eauto. }
      rewrite (sr_flows _ _ _ Hs) in Hf. by eapply needed_read.
Qed.

Lemma sr_needed_hash h : needed_hash st2 outputs hashes h ↔ needed_hash st1 outputs hashes h.
Proof.
  split; (intros [Hh|(p & flow & Hp & Hf & Hr)]; [by left|right]).
  - apply sr_needed in Hp as (q & -> & Hq). rewrite <- (sr_flows _ _ _ Hs) in Hf. by exists q, flow.
  - rewrite (sr_flows _ _ _ Hs) in Hf. exists (rn p), flow. split; [apply sr_needed; eauto|done].
Qed.

Context (O1 O2 : HashOrder) `{!@HashOrderLaws O1, !@HashOrderLaws O2}.
Hypothesis Hagree : orphan_writers_agree st1 outputs.

Lemma sr_orphan_tool h w flow w2 flow2 : h ∈ hashes →
  (∀ p, needed st1 outputs hashes p → ¬ produced_by (flows st1) p h) →
  @orphan_flow O1 st1 h = Some (w, flow) → @orphan_flow O2 st2 h = Some (w2, flow2) →
  flow_tool_hash flow2 = flow_tool_hash flow.
Proof.
  intros Hh Hn (_ & Hf & Hp)%(@orphan_flow_Some O1 _) (Hw2 & Hf2 & Hp2)%(@orphan_flow_Some O2 _).
  assert (produced_by (flows st2) w2 h) as (v & -> & Hv)%sr_produced by by exists flow2.
  rewrite <- (sr_flows _ _ _ Hs) in Hf2. by apply (Hagree h v flow2 w flow).
Qed.

Lemma sr_op_forward op : @slice_op O1 st1 outputs hashes op → @slice_op O2 st2 outputs hashes op.
Proof.
  assert (Hfl : ∀ p flow, flows st1 !! p = Some flow → flows st2 !! rn p = Some flow).
  { intros p flow Hf. by rewrite <- (sr_flows _ _ _ Hs). }
  assert (Hne : ∀ p, needed st1 outputs hashes p → needed st2 outputs hashes (rn p)).
  { intros p Hp. apply sr_needed. eauto. }
  intros [p flow t|p flow h|p flow h ? ? ? Hh|p flow h ? ? ? Hh|h w flow Hh Hn Ho|h Hh Hn|p code He].
  - eapply slice_op_exec; eauto.
  - eapply slice_op_read; eauto.
  - eapply slice_op_write; eauto. by apply sr_needed_hash.
  - eapply slice_op_rename; eauto. by apply sr_needed_hash.
  - destruct (@orphan_flow O2 st2 h) as [[w2 flow2]|] eqn:Ho2.
    + rewrite <- (sr_orphan_tool h w flow w2 flow2) by done. apply (@slice_op_orphan O2 _ _ _ h w2); [done| |done].
      intros p' (p & -> & Hp)%sr_needed (q & Hq & Hpr)%sr_produced. apply (inj rn) in Hq as <-. by eapply Hn.
    + exfalso. apply (@orphan_flow_Some O1 _) in Ho as (Hw & Hf & Hp).
      apply (@orphan_flow_None O2 _ st2 h (rn w) Ho2); [apply (scan_writers _ H2)|]; apply sr_produced; exists w;
        (split; [done|]); by exists flow.
  - apply slice_op_unknown; [done|]. intros p' (p & -> & Hp)%sr_produced. by eapply Hn.
  - assert (Hx : root_exit st2 = Some (rn p, code)) by by rewrite (sr_exit _ _ _ Hs), He.
    rewrite (sr_flows _ _ _ Hs). by apply slice_op_exit.
Qed.

Lemma sr_op_backward op : @slice_op O2 st2 outputs hashes op → @slice_op O1 st1 outputs hashes op.
Proof.
  assert (Hfl : ∀ p flow, flows st2 !! rn p = Some flow → flows st1 !! p = Some flow).
  { intros p flow. by rewrite <- (sr_flows _ _ _ Hs). }
  intros [p' flow t Hp|p' flow h Hp|p' flow h Hp ? ? Hh|p' flow h Hp ? ? Hh|h w' flow Hh Hn Ho|h Hh Hn|p' code He];
    try (apply sr_needed in Hp as (p & -> & Hp)).
  - eapply slice_op_exec; eauto.
  - eapply slice_op_read; eauto.
  - eapply slice_op_write; eauto. by apply sr_needed_hash.
  - eapply slice_op_rename; eauto. by apply sr_needed_hash.
  - assert (Hn1 : ∀ p, needed st1 outputs hashes p → ¬ produced_by (flows st1) p h).
    { intros p Hp Hpr. apply (Hn (rn p)); [apply sr_needed; eauto|apply sr_produced; eauto]. }
    destruct (@orphan_flow O1 st1 h) as [[w1 flow1]|] eqn:Ho1.
    + rewrite (sr_orphan_tool h w1 flow1 w' flow) by done. by apply (@slice_op_orphan O1 _ _ _ h w1).
    + exfalso. apply (@orphan_flow_Some O2 _) in Ho as (Hw & Hf & Hp).
      assert (produced_by (flows st2) w' h) as (w & -> & Hpr)%sr_produced by by exists flow.
      by apply (@orphan_flow_None O1 _ st1 h w Ho1); [apply (scan_writers _ H1)|].
  - apply slice_op_unknown; [done|]. intros p Hp. apply (Hn (rn p)), sr_produced. eauto.
  - rewrite (sr_exit _ _ _ Hs) in He. destruct (root_exit st1) as [[p c]|] eqn:Hr; [|done].
    injection He as <- ->. rewrite <- (sr_flows _ _ _ Hs). by apply slice_op_exit.
Qed.
End related_slices.

Lemma slice_leaves_sorted `{Sha256} `{!HashOrder} events root outputs :
  strictly_sorted (op_hash <$> canonicalize_output_slice events root outputs).
Proof.
  unfold canonicalize_output_slice, canonicalize_output_slice_opt. case_bool_decide; [constructor|].
  destruct (bfs _ _ _) as [s|]; [apply sort_dedup_strict|constructor].
Qed.

Lemma related_leaves `{Sha256} (O1 O2 : HashOrder) `{!@HashOrderLaws O1, !@HashOrderLaws O2}
    ρ `{!Inj (=) (=) ρ} events1 root1 events2 root2 outputs :
  slice_renamed ρ (scan root1 events1) (scan root2 events2) → orphan_writers_agree (scan root1 events1) outputs →
  op_hash <$> @canonicalize_output_slice _ O2 events2 root2 outputs
  = op_hash <$> @canonicalize_output_slice _ O1 events1 root1 outputs.
Proof.
  intros Hs Hag. apply strictly_sorted_unique; [apply slice_leaves_sorted..|]. intros leaf.
  rewrite (@slice_leaves_elem _ O1 _), (@slice_leaves_elem _ O2 _).
  pose proof (scan_inv_scan root1 events1). pose proof (scan_inv_scan root2 events2).
  split; intros (Ho & op & Hop & ->); (split; [done|]); exists op; (split; [|done]).
  - by apply (sr_op_backward ρ (scan root1 events1) (scan root2 events2) Hs ltac:(done) ltac:(done) outputs O1 O2 Hag).
  - by apply (sr_op_forward ρ (scan root1 events1) (scan root2 events2) Hs ltac:(done) ltac:(done) outputs O1 O2 Hag).
Qed.
