(* ===== verification/SliceSchedule.v ===== *)
(** * The slice does not depend on the schedule

    Events of unrelated lifetimes commute in the scan, unless one renames a name
    that the other writes.  So a run that reorders another, under other process
    numbers and other hash seeds, has the same slice.  *)
From S2P Require Export Schedules SliceRenaming CanonSchedule.

(** ** Scans that are the same but for the representation of their tables *)

Record same_scan (st1 st2 : SliceState) : Prop := {
  same_flows : flows st1 = flows st2;
  same_pending : slice_pending st1 = slice_pending st2;
  same_by_hash key w : writes_path (writers_by_hash st1) key w ↔ writes_path (writers_by_hash st2) key w;
  same_by_path key w : writes_path (writers_by_path st1) key w ↔ writes_path (writers_by_path st2) key w;
  same_exit : root_exit st1 = root_exit st2;
  same_pairs : rename_pairs st1 = rename_pairs st2
}.

#[export] Instance same_scan_equivalence : Equivalence same_scan.
Proof.
  split.
  - intros st. by split.
  - intros st1 st2 [Hf Hp Hh Hpa He Hr]. by split.
  - intros st1 st2 st3 [Hf Hp Hh Hpa He Hr] [Hf' Hp' Hh' Hpa' He' Hr'].
    split; [by rewrite Hf|by rewrite Hp| | |by rewrite He|by rewrite Hr]; intros; [by rewrite Hh|by rewrite Hpa].
Qed.

Lemma rename_instance_id p : rename_instance id p = p.
Proof. by destruct p. Qed.

Lemma rename_event_id e : rename_event id e = e.
Proof. destruct e; simpl; by rewrite ?rename_instance_id. Qed.

Lemma same_scan_renamed st1 st2 : same_scan st1 st2 ↔ slice_renamed id st1 st2.
Proof.
  assert (Hpend : ∀ x : option PendingWrite, rename_pending_write id <$> x = x).
  { intros [[q path]|]; [|done]. simpl. unfold rename_pending_write. by rewrite rename_instance_id. }
  assert (Hw : ∀ m1 m2, writers_renamed id m1 m2 ↔ ∀ key w, writes_path m1 key w ↔ writes_path m2 key w).
  { intros m1 m2. unfold writers_renamed. setoid_rewrite rename_instance_id. split; intros Hm k w.
    - rewrite Hm. naive_solver.
    - rewrite <- Hm. naive_solver. }
  assert (He : ∀ x : option (ProcessInstance * Z), prod_map (rename_instance id) id <$> x = x).
  { intros [[q c]|]; [|done]. simpl. by rewrite rename_instance_id. }
  split; intros [Hf Hp Hh Hpa Hx Hr]; split.
  - intros p. by rewrite rename_instance_id, Hf.
  - intros l fd. by rewrite Hpend, Hp.
  - by apply Hw.
  - by apply Hw.
  - by rewrite He.
  - done.
  - apply map_eq. intros p. by rewrite Hf, rename_instance_id.
  - apply map_eq. intros [l fd]. specialize (Hp l fd). rewrite Hpend in Hp. exact Hp.
  - by apply Hw.
  - by apply Hw.
  - by rewrite Hx, He.
  - done.
Qed.

#[export] Instance slice_event_proper root e : Proper (same_scan ==> same_scan) (λ st, slice_event root st e).
Proof.
  intros st1 st2 Hs. apply same_scan_renamed. pose proof (sr_event id root st1 st2 e) as He.
  rewrite rename_event_id, rename_instance_id in He. by apply He, same_scan_renamed.
Qed.

#[export] Instance rename_fixup_proper : Proper (same_scan ==> same_scan) rename_fixup.
Proof. intros st1 st2 Hs. apply same_scan_renamed, sr_fixup. by apply same_scan_renamed. Qed.

(** ** What one event changes

    Each table of the scan has its own change; the change depends on the rest of
    the state through the parent's tool and the pending write it closes only. *)

Definition tool_of (st : SliceState) (p : ProcessInstance) : option string :=
  flow ← flows st !! p; flow_tool_hash flow.

Definition read_effect (p : ProcessInstance) (path : string) (o : FileObservation)
    : option (ProcessInstance * (ProcessFlow → ProcessFlow)) :=
  (λ h, (p, add_read h)) <$> read_hash path o.

Definition closed_write (p : ProcessInstance) (fd : Z) (external : bool) (o : option FileObservation)
    (st : SliceState) : option PendingWrite :=
  if external then None else _ ← o; slice_pending st !! (lifetime p, fd).

Definition flow_effect (e : TracedEvent) (st : SliceState)
    : option (ProcessInstance * (ProcessFlow → ProcessFlow)) :=
  match e with
  | Exec p o => Some (p, λ f, set_exec (set_tool (Some (identity o)) f))
  | Fork parent child => Some (child, set_tool (tool_of st parent))
  | FileOpen p path flags _ external o =>
      if negb external && can_read flags then read_effect p path o else None
  | FileMmap p _ _ _ path external o =>
      if external then None else path ← path; o ← o; read_effect p path o
  | FileClose p fd _ external o =>
      pw ← closed_write p fd external o st; h ← o ≫= content_hash; Some (pending_process pw, add_write h)
  | FileRename p _ _ _ external o =>
      if external then None else (λ h, (p, λ f, add_rename h (add_read h f))) <$> content_hash o
  | _ => None
  end.

Definition hash_effect (e : TracedEvent) (st : SliceState) : option (string * ProcessInstance) :=
  match e with
  | FileClose p fd _ external o =>
      pw ← closed_write p fd external o st; h ← o ≫= content_hash; Some (h, pending_process pw)
  | FileRename p _ _ _ external o => if external then None else (λ h, (h, p)) <$> content_hash o
  | _ => None
  end.

Definition path_effect (e : TracedEvent) (st : SliceState) : option (string * ProcessInstance) :=
  match e with
  | FileClose p fd path external o =>
      pw ← closed_write p fd external o st; Some (default (pending_path pw) path, pending_process pw)
  | FileRename p _ to_path _ external _ => if external then None else Some (to_path, p)
  | _ => None
  end.

(** The rename an event is, if the scan takes notice of it. *)
Definition renames_path (e : TracedEvent) : option (string * string) :=
  match e with FileRename _ from_path to_path _ false _ => Some (from_path, to_path) | _ => None end.

Definition pending_effect (e : TracedEvent) (fd : Z) (seen own : option PendingWrite) : option PendingWrite :=
  match e with
  | Fork _ _ => match seen with Some _ => seen | None => own end
  | FileOpen p path flags f external _ =>
      if negb external && can_write flags && (f =?= fd) then Some (mkPending p path) else own
  | FileMmap p f prot flags (Some path) false (Some _) =>
      if mmap_is_write prot flags && (f =?= fd) then Some (mkPending p path) else own
  | FileClose _ f _ false _ => if f =?= fd then None else own
  | _ => own
  end.

Definition update_opt (c : option (ProcessInstance * (ProcessFlow → ProcessFlow)))
    : gmap ProcessInstance ProcessFlow → gmap ProcessInstance ProcessFlow :=
  match c with Some (p, f) => update_flow p f | None => id end.
Definition add_opt (c : option (string * ProcessInstance))
    : gmap string (gset ProcessInstance) → gmap string (gset ProcessInstance) :=
  match c with Some (key, p) => add_writers key {[p]} | None => id end.
Definition alias_opt (c : option (string * string))
    : gmap string (gset ProcessInstance) → gmap string (gset ProcessInstance) :=
  match c with Some (from_path, to_path) => alias_writers from_path to_path | None => id end.
Definition exit_effect (root : ProcessInstance) (e : TracedEvent) (x : option (ProcessInstance * Z)) :=
  match e with Exit p code => if lifetime p =?= lifetime root then Some (p, code) else x | _ => x end.

Lemma slice_event_flows root e st : flows (slice_event root st e) = update_opt (flow_effect e st) (flows st).
Proof.
  destruct e; simpl; try done.
  - unfold slice_open, record_read, read_effect. destruct external, (can_read flags), (can_write flags); simpl; try done;
      by destruct (read_hash path observation).
  - unfold slice_close, closed_write. destruct external, observation as [o|]; simpl; try done;
      destruct (slice_pending st !! _); simpl; try done. by destruct (content_hash o).
  - unfold slice_mmap, record_read, read_effect. destruct external, path as [path|], observation as [o|]; simpl; try done.
    destruct (read_hash path o), (mmap_is_write prot flags); done.
  - unfold slice_rename. destruct external; simpl; [done|]. by destruct (content_hash observation).
  - unfold slice_exit. by case_match.
Qed.

Lemma slice_event_by_hash root e st :
  writers_by_hash (slice_event root st e) = add_opt (hash_effect e st) (writers_by_hash st).
Proof.
  destruct e; simpl; try done.
  - unfold slice_open, record_read. repeat case_match; done.
  - unfold slice_close, closed_write. destruct external, observation as [o|]; simpl; try done;
      destruct (slice_pending st !! _); simpl; try done. by destruct (content_hash o).
  - unfold slice_mmap, record_read. repeat case_match; done.
  - unfold slice_rename. destruct external; simpl; [done|]. by destruct (content_hash observation).
  - unfold slice_exit. by case_match.
Qed.

Lemma slice_event_by_path root e st :
  writers_by_path (slice_event root st e)
  = add_opt (path_effect e st) (alias_opt (renames_path e) (writers_by_path st)).
Proof.
  destruct e; simpl; try done.
  - unfold slice_open, record_read. repeat case_match; done.
  - unfold slice_close, closed_write. destruct external, observation as [o|]; simpl; try done;
      destruct (slice_pending st !! _); simpl; try done. by destruct (content_hash o).
  - unfold slice_mmap, record_read. repeat case_match; done.
  - unfold slice_rename. destruct external; simpl; [done|]. by destruct (content_hash observation).
  - unfold slice_exit. by case_match.
Qed.

Lemma slice_event_exit root e st : root_exit (slice_event root st e) = exit_effect root e (root_exit st).
Proof.
  destruct e; simpl; try done.
  - unfold slice_open, record_read. repeat case_match; done.
  - unfold slice_close. repeat case_match; done.
  - unfold slice_mmap, record_read. repeat case_match; done.
  - unfold slice_rename. repeat case_match; done.
  - unfold slice_exit. by case_match.
Qed.

Lemma slice_event_pairs root e st :
  rename_pairs (slice_event root st e) = rename_pairs st ++ option_list (renames_path e).
Proof.
  destruct e; simpl; rewrite ?app_nil_r; try done.
  - unfold slice_open, record_read. repeat case_match; done.
  - unfold slice_close. repeat case_match; done.
  - unfold slice_mmap, record_read. repeat case_match; done.
  - unfold slice_rename. destruct external; simpl; [by rewrite app_nil_r|]. by destruct (content_hash observation).
  - unfold slice_exit. by case_match.
Qed.

(** A rename rewrites every pending path, any other event changes those of its
    writer only. *)
Lemma slice_event_pending root e st l fd :
  slice_pending (slice_event root st e) !! (l, fd) =
  match renames_path e with
  | Some (from, to) => rewrite_pending from to <$> slice_pending st !! (l, fd)
  | None => if decide (l = writer e) then pending_effect e fd (slice_pending st !! (reader e, fd)) (slice_pending st !! (l, fd))
            else slice_pending st !! (l, fd)
  end.
Proof.
  assert (Hinsert : ∀ p f pw (m : gmap _ PendingWrite),
    <[(lifetime p, f) := pw]> m !! (l, fd)
    = if decide (l = lifetime p) then (if f =?= fd then Some pw else m !! (l, fd)) else m !! (l, fd)).
  { intros p f pw m. rewrite lookup_insert. repeat case_decide; repeat case_bool_decide; simplify_eq; done. }
  assert (Hsame : ∀ (x : option PendingWrite) (P : Prop) `{Decision P}, (if decide P then x else x) = x)
    by (intros; by case_decide).
  destruct e; simpl; rewrite ?Hsame; try done.
  - rewrite lookup_inherit_pending. case_decide as Hl; [|done]. rewrite Hl. by destruct (slice_pending st !! (lifetime parent, fd)).
  - unfold slice_open, record_read. destruct external, (can_read flags), (can_write flags); simpl; rewrite ?Hsame; try done;
      try destruct (read_hash path observation); simpl; by rewrite ?Hinsert, ?Hsame.
  - unfold slice_close. destruct external; simpl; [by rewrite ?Hsame|].
    trans (delete (lifetime process, fd0) (slice_pending st) !! (l, fd)).
    { destruct (slice_pending st !! (lifetime process, fd0)), observation as [o|]; simpl; try done. by destruct (content_hash o). }
    rewrite lookup_delete. repeat case_decide; repeat case_bool_decide; simplify_eq; done.
  - unfold slice_mmap, record_read. destruct external, path as [path|], observation as [o|]; simpl; rewrite ?Hsame; try done.
    destruct (read_hash path o), (mmap_is_write prot flags); simpl; by rewrite ?Hinsert, ?Hsame.
  - unfold slice_rename. destruct external; simpl; [by rewrite ?Hsame|].
    destruct (content_hash observation); simpl; by rewrite lookup_fmap.
  - unfold slice_exit. by case_match.
Qed.

(** ** Events that need their order *)

(** The event names no path that the rename moves, and is no rename itself. *)
Definition clear_of (from_path to_path : string) (e : TracedEvent) : bool :=
  let unmoved path := bool_decide (rewrite_path_prefix path from_path to_path = None) in
  match e with
  | FileOpen _ path flags _ false _ => negb (can_write flags) || unmoved path
  | FileMmap _ _ prot flags (Some path) false (Some _) => negb (mmap_is_write prot flags) || unmoved path
  | FileClose _ _ (Some path) false _ => unmoved path
  | FileClose _ _ None false _ | FileRename _ _ _ _ false _ => false
  | _ => true
  end.

Definition crosses (e1 e2 : TracedEvent) : bool :=
  match renames_path e1 with Some (from_path, to_path) => negb (clear_of from_path to_path e2) | None => false end.

Definition slice_related (e1 e2 : TracedEvent) : bool :=
  negb (bool_decide (unrelated writer reader e1 e2)) || crosses e1 e2 || crosses e2 e1.

Lemma slice_related_sym e1 e2 : slice_related e1 e2 = slice_related e2 e1.
Proof.
  unfold slice_related. rewrite (bool_decide_ext (unrelated writer reader e1 e2) (unrelated writer reader e2 e1)) by done.
  rewrite <- !orb_assoc. f_equal. apply orb_comm.
Qed.

Lemma slice_unrelated e1 e2 : slice_related e1 e2 = false →
  unrelated writer reader e1 e2 ∧ crosses e1 e2 = false ∧ crosses e2 e1 = false.
Proof.
  unfold slice_related. rewrite !orb_false_iff, negb_false_iff, bool_decide_eq_true. tauto.
Qed.

(** ** Unrelated events leave each other's changes alone *)

Lemma flow_effect_writer e st p f : flow_effect e st = Some (p, f) → lifetime p = writer e ∨ ∃ h, f = add_write h.
Proof.
  destruct e; simpl; try done.
  - intros [= <- _]. by left.
  - intros [= <- _]. by left.
  - unfold read_effect. case_match; [|done]. intros (? & _ & [= <- _])%fmap_Some. by left.
  - intros (pw & _ & (h & _ & [= _ <-])%bind_Some)%bind_Some. right. by exists h.
  - unfold read_effect. destruct external; [done|].
    intros (? & _ & (? & _ & (? & _ & [= <- _])%fmap_Some)%bind_Some)%bind_Some. by left.
  - destruct external; [done|]. intros (? & _ & [= <- _])%fmap_Some. by left.
Qed.

Lemma flow_effect_add_write e st p f h flow : flow_effect e st = Some (p, f) →
  f (add_write h flow) = add_write h (f flow).
Proof.
  destruct e; simpl; try done.
  - by intros [= _ <-].
  - by intros [= _ <-].
  - unfold read_effect. case_match; [|done]. by intros (? & _ & [= _ ->])%fmap_Some.
  - intros (pw & _ & (h' & _ & [= _ <-])%bind_Some)%bind_Some. unfold add_write. simpl. f_equal. set_solver.
  - unfold read_effect. destruct external; [done|].
    by intros (? & _ & (? & _ & (? & _ & [= _ ->])%fmap_Some)%bind_Some)%bind_Some.
  - destruct external; [done|]. by intros (? & _ & [= _ ->])%fmap_Some.
Qed.


Lemma update_opt_comm e1 e2 st m : writer e1 ≠ writer e2 →
  update_opt (flow_effect e2 st) (update_opt (flow_effect e1 st) m)
  = update_opt (flow_effect e1 st) (update_opt (flow_effect e2 st) m).
Proof.
  intros Hw. destruct (flow_effect e1 st) as [[p f]|] eqn:H1; [|done].
  destruct (flow_effect e2 st) as [[q g]|] eqn:H2; [|done]. simpl. unfold update_flow.
  destruct (decide (p = q)) as [->|Hne].
  - rewrite !lookup_insert_eq, !insert_insert_eq. simpl. f_equal.
    destruct (flow_effect_writer _ _ _ _ H1) as [Hp|[h ->]].
    + destruct (flow_effect_writer _ _ _ _ H2) as [Hq|[h ->]]; [congruence|].
      symmetry. by eapply flow_effect_add_write.
    + by eapply flow_effect_add_write.
  - rewrite !lookup_insert_ne by done. by apply insert_insert_ne.
Qed.

Lemma tool_of_event root e st p : writer e ≠ lifetime p → tool_of (slice_event root st e) p = tool_of st p.
Proof.
  intros Hw. unfold tool_of. rewrite slice_event_flows. destruct (flow_effect e st) as [[q f]|] eqn:He; [|done].
  simpl. unfold update_flow. destruct (decide (q = p)) as [->|]; [|by rewrite lookup_insert_ne].
  rewrite lookup_insert_eq. destruct (flow_effect_writer _ _ _ _ He) as [?|[h ->]]; [congruence|].
  by destruct (flows st !! p).
Qed.

Lemma closed_write_event root e st p fd external o : writer e ≠ lifetime p →
  closed_write p fd external o (slice_event root st e)
  = match renames_path e with
    | Some (from, to) => rewrite_pending from to <$> closed_write p fd external o st
    | None => closed_write p fd external o st
    end.
Proof.
  intros Hw. unfold closed_write. destruct external, o as [o|]; simpl; try by repeat case_match.
  rewrite slice_event_pending. case_match; [done|]. by rewrite decide_False by congruence.
Qed.

Lemma rewrite_pending_process from to pw : pending_process (rewrite_pending from to pw) = pending_process pw.
Proof. unfold rewrite_pending. by case_match. Qed.

Lemma effects_stable root e1 e2 st : slice_related e1 e2 = false →
  flow_effect e2 (slice_event root st e1) = flow_effect e2 st ∧
  hash_effect e2 (slice_event root st e1) = hash_effect e2 st ∧
  path_effect e2 (slice_event root st e1) = path_effect e2 st.
Proof.
  intros ((Hw & Hr & _) & Hc & _)%slice_unrelated. destruct e2; simpl; try done.
  - by rewrite tool_of_event.
  - simpl in Hw. rewrite closed_write_event by done. unfold crosses in Hc.
    destruct (renames_path e1) as [[from to]|]; [|done].
    destruct external; [by destruct observation|]. destruct path as [path|]; [|done].
    destruct (closed_write _ _ _ _ _) as [pw|]; [|done]. simpl. by rewrite rewrite_pending_process.
Qed.

Lemma writes_path_add_opt c m key w :
  writes_path (add_opt c m) key w ↔ writes_path m key w ∨ c = Some (key, w).
Proof.
  destruct c as [[k p]|]; simpl; [|naive_solver]. rewrite writes_path_add, elem_of_singleton. naive_solver.
Qed.

Lemma writes_path_alias_opt r m key w :
  writes_path (alias_opt r m) key w ↔ writes_path m key w ∨
  ∃ from to old, r = Some (from, to) ∧ rewrite_path_prefix old from to = Some key ∧ writes_path m old w.
Proof.
  destruct r as [[from to]|]; simpl; [|naive_solver]. rewrite writes_path_alias. naive_solver.
Qed.

(** A path that an event records is not moved by a rename it is clear of. *)
Lemma path_effect_clear from to e st path w : clear_of from to e = true →
  path_effect e st = Some (path, w) → rewrite_path_prefix path from to = None.
Proof.
  destruct e; simpl; try done.
  - unfold closed_write. destruct external; [by destruct observation|]. destruct path0 as [path0|]; [|done].
    intros Hun%bool_decide_eq_true. intros (pw & _ & [= <- _])%bind_Some. done.
  - by destruct external.
Qed.

Lemma renames_apart e1 e2 : slice_related e1 e2 = false → renames_path e1 = None ∨ renames_path e2 = None.
Proof.
  intros (_ & Hc & _)%slice_unrelated. unfold crosses in Hc. destruct (renames_path e1) as [[from to]|]; [|by left].
  right. destruct e2; try done. by destruct external.
Qed.

Lemma paths_comm e1 e2 st m key w : slice_related e1 e2 = false → renames_path e1 = None →
  writes_path (add_opt (path_effect e2 st) (alias_opt (renames_path e2) (add_opt (path_effect e1 st) m))) key w ↔
  writes_path (add_opt (path_effect e1 st) (add_opt (path_effect e2 st) (alias_opt (renames_path e2) m))) key w.
Proof.
  intros (_ & _ & Hc)%slice_unrelated _. rewrite !writes_path_add_opt, !writes_path_alias_opt, !writes_path_add_opt.
  setoid_rewrite writes_path_add_opt. split.
  - intros [[[Hm|Hp]|(from & to & old & Hr & Hx & [Hm|Hp])]|?]; [tauto|tauto| |exfalso|tauto].
    + left. left. right. eauto 10.
    + unfold crosses in Hc. rewrite Hr in Hc. apply negb_false_iff in Hc.
      by rewrite (path_effect_clear _ _ _ _ _ _ Hc Hp) in Hx.
  - intros [[[Hm|(from & to & old & Hr & Hx & Hm)]|?]|?]; [tauto| |tauto|tauto]. left. right. eauto 10.
Qed.

Lemma pending_effect_rewrite from to e fd seen own : clear_of from to e = true →
  pending_effect e fd (rewrite_pending from to <$> seen) (rewrite_pending from to <$> own)
  = rewrite_pending from to <$> pending_effect e fd seen own.
Proof.
  assert (Hun : ∀ p path, rewrite_path_prefix path from to = None →
    Some (mkPending p path) = rewrite_pending from to <$> Some (mkPending p path)).
  { intros p path Hp. simpl. unfold rewrite_pending. simpl. by rewrite Hp. }
  destruct e; simpl; try done.
  - by destruct seen.
  - destruct external; [done|]. simpl. destruct (can_write flags); [|done]. simpl.
    intros Hp%bool_decide_eq_true. case_bool_decide; [by apply Hun|done].
  - destruct external; [done|]. intros _. by case_bool_decide.
  - destruct path as [path|], external, observation; try done. destruct (mmap_is_write prot flags); [|done]. simpl.
    intros Hp%bool_decide_eq_true. case_bool_decide; [by apply Hun|done].
Qed.

Lemma pending_comm root e1 e2 st : slice_related e1 e2 = false →
  slice_pending (slice_event root (slice_event root st e1) e2) = slice_pending (slice_event root (slice_event root st e2) e1).
Proof.
  intros Hi. pose proof Hi as ((Hw & H12 & H21) & Hc1 & Hc2)%slice_unrelated. apply map_eq. intros [l fd].
  rewrite !slice_event_pending. unfold crosses in Hc1, Hc2.
  destruct (renames_apart e1 e2 Hi) as [Hr|Hr]; rewrite !Hr.
  - destruct (renames_path e2) as [[from to]|].
    + apply negb_false_iff in Hc2. case_decide; [|done]. by rewrite pending_effect_rewrite.
    + rewrite !(decide_False (P := reader e1 = writer e2)), !(decide_False (P := reader e2 = writer e1)) by congruence.
      repeat case_decide; congruence.
  - destruct (renames_path e1) as [[from to]|].
    + apply negb_false_iff in Hc1. case_decide; [|done]. by rewrite pending_effect_rewrite.
    + rewrite !(decide_False (P := reader e1 = writer e2)), !(decide_False (P := reader e2 = writer e1)) by congruence.
      repeat case_decide; congruence.
Qed.

Lemma exit_comm root e1 e2 x : writer e1 ≠ writer e2 →
  exit_effect root e2 (exit_effect root e1 x) = exit_effect root e1 (exit_effect root e2 x).
Proof.
  intros Hw. destruct e1; simpl; try done. destruct e2; simpl; try done. simpl in Hw.
  repeat case_bool_decide; congruence.
Qed.

Lemma slice_event_comm root st e1 e2 : slice_related e1 e2 = false →
  same_scan (slice_event root (slice_event root st e1) e2) (slice_event root (slice_event root st e2) e1).
Proof.
  intros Hi. pose proof Hi as ((Hw & _) & _)%slice_unrelated.
  pose proof Hi as Hi'. rewrite slice_related_sym in Hi'.
  destruct (effects_stable root e1 e2 st Hi) as (Hf & Hh & Hp).
  destruct (effects_stable root e2 e1 st Hi') as (Hf' & Hh' & Hp').
  split.
  - rewrite !slice_event_flows, Hf, Hf'. by apply update_opt_comm.
  - by apply pending_comm.
  - intros key w. rewrite !slice_event_by_hash, Hh, Hh', !writes_path_add_opt. tauto.
  - intros key w. rewrite !slice_event_by_path, Hp, Hp'.
    destruct (renames_apart e1 e2 Hi) as [Hr|Hr]; rewrite Hr; simpl.
    + by apply paths_comm.
    + symmetry. by apply paths_comm.
  - rewrite !slice_event_exit. by apply exit_comm.
  - rewrite !slice_event_pairs, <- !app_assoc. f_equal.
    by destruct (renames_apart e1 e2 Hi) as [-> | ->]; simpl; rewrite ?app_nil_r.
Qed.

Lemma scan_schedule root (s1 s2 : list Occurrence) : s1 ≡ₚ s2 → NoDup s1 →
  (∀ x y, slice_related x.2 y.2 = true → before s1 x y → before s2 x y) →
  same_scan (scan root s1.*2) (scan root s2.*2).
Proof.
  intros Hp Hnd Hord. unfold scan. apply rename_fixup_proper.
  assert (Hfold : ∀ s a, foldl (slice_event root) a s.*2 = foldl (λ a (x : Occurrence), slice_event root a x.2) a s).
  { induction s as [|x s IH]; intros a; [done|apply IH]. }
  assert (RelDecision (λ x y : Occurrence, slice_related x.2 y.2 = true)) by (intros x y; apply _).
  rewrite !Hfold. apply (schedule_irrelevant _ _ (λ x y, slice_related x.2 y.2 = true)); [|done|done|].
  - intros a x y Hxy _. apply slice_event_comm. by apply not_true_is_false.
  - intros x y [Hd|Hd]; apply Hord; [done|]. by rewrite slice_related_sym.
Qed.

Lemma same_scan_trans ρ st1 st2 st3 : same_scan st1 st2 → slice_renamed ρ st2 st3 → slice_renamed ρ st1 st3.
Proof.
  intros [Hf Hp Hh Hpa Hx Hr] [Hf' Hp' Hh' Hpa' Hx' Hr']. split; intros; rewrite ?Hf, ?Hp, ?Hx, ?Hr; try done.
  - intros key w'. rewrite (Hh' key w'). by setoid_rewrite Hh.
  - intros key w'. rewrite (Hpa' key w'). by setoid_rewrite Hpa.
Qed.

Lemma slice_run_leaves `{Sha256} (O1 O2 : HashOrder) `{!@HashOrderLaws O1, !@HashOrderLaws O2}
    (ρ : ProcessLifetime → ProcessLifetime) `{!Inj (=) (=) ρ} root outputs (s1 s2 : list Occurrence) :
  s1 ≡ₚ s2 → NoDup s1 → (∀ x y, slice_related x.2 y.2 = true → before s1 x y → before s2 x y) →
  orphan_writers_agree (scan root s1.*2) outputs →
  op_hash <$> @canonicalize_output_slice _ O2 (rename_event ρ <$> s2.*2) (rename_instance ρ root) outputs
  = op_hash <$> @canonicalize_output_slice _ O1 s1.*2 root outputs.
Proof.
  intros Hp Hnd Hord Hag. apply (related_leaves O1 O2 ρ); [|done].
  eapply same_scan_trans; [by apply scan_schedule|by apply sr_scan].
Qed.

(** C5. The slice of a rebuild does not depend on scheduling, process numbers or
    hash seeds.  If a second run has the events of the first under other PIDs,
    interleaved in any way that keeps the order of the events of each lifetime, of
    a fork and the events of its two sides, of renames, and of a rename and the
    writes of names it moves, then both slices have the same leaves, whatever order
    each run visits its hash tables in, provided that the writers of an orphaned
    output agree on their tool. *)
Theorem slice_run_independent `{Sha256} (O1 O2 : HashOrder) `{!@HashOrderLaws O1, !@HashOrderLaws O2}
    (ρ : ProcessLifetime → ProcessLifetime) `{!Inj (=) (=) ρ} root outputs (s1 s2 : list Occurrence) :
  s1 ≡ₚ s2 → NoDup s1 → (∀ x y, slice_related x.2 y.2 = true → before s1 x y → before s2 x y) →
  orphan_writers_agree (scan root s1.*2) outputs →
  op_hash <$> @canonicalize_output_slice _ O2 (rename_event ρ <$> s2.*2) (rename_instance ρ root) outputs
  = op_hash <$> @canonicalize_output_slice _ O1 s1.*2 root outputs.
Proof. by apply slice_run_leaves. Qed.

(** ** Example: a compiler at work while the linker's output is moved into place *)

Module SliceScheduleExamples.
Import Toy RenamingExamples SliceExamples ScheduleExamples.

Definition link_then_compile : list Occurrence := imap pair
  ([Exec make (Content (digest "make")); Fork make ld; Fork make mv; Fork make cc;
    Exec ld (Content (digest "ld")); FileOpen ld "/w/a.o" 0 3 false (Content (digest "object"));
    FileOpen ld "/w/app.tmp" 1 4 false (Missing "app.tmp");
    FileClose ld 4 (Some "/w/app.tmp") false (Some (Content (digest "app")));
    Exec mv (Content (digest "mv")); FileRename mv "/w/app.tmp" "/w/dist/app" 0 false (Content (digest "app"))]
   ++ compile cc "b" ++ [Exit make 0]).

Definition compile_meanwhile : list Occurrence :=
  omap (λ i, link_then_compile !! i) [0; 3; 1; 10; 11; 2; 8; 4; 12; 5; 6; 13; 7; 14; 9; 16; 15]%nat.

Lemma slice_run_independent_witness :
  op_hash <$> @canonicalize_output_slice _ backward_order (rename_event shift_pid <$> compile_meanwhile.*2)
      (rename_instance shift_pid make) [app]
  = op_hash <$> @canonicalize_output_slice _ forward_order link_then_compile.*2 make [app] ∧
  length (@canonicalize_output_slice _ forward_order link_then_compile.*2 make [app]) = 7 ∧
  compile_meanwhile ≠ link_then_compile.
Proof.
  split; [|vm_compute; done].
  apply (slice_run_independent forward_order backward_order shift_pid make [app] link_then_compile).
  - apply (bool_decide_unpack _). vm_compute. exact I.
  - apply (bool_decide_unpack _). vm_compute. exact I.
  - apply (reorders_spec (λ x y, slice_related x.2 y.2)). vm_compute. reflexivity.
  - intros h w1 flow1 w2 flow2 Hh Hn _ _ _ _. exfalso.
    assert (Hh' : h = digest "app") by (clear Hn; set_solver). subst h.
    apply (Hn ld); clear Hn.
    + apply (needed_output _ _ _ app {[ld; mv]}); [set_solver| |set_solver]. vm_compute. done.
    + eexists. split; [vm_compute; reflexivity|]. left. vm_compute. done.
Defined.

(** The close of the temporary file may not move past its rename. *)
Example close_keeps_its_rename : slice_related
  (FileRename mv "/w/app.tmp" "/w/dist/app" 0 false (Content (digest "app")))
  (FileClose ld 4 (Some "/w/app.tmp") false (Some (Content (digest "app")))) = true.
Proof. vm_compute. reflexivity. Qed.
End SliceScheduleExamples.
