(* ===== verification/Dsse.v ===== *)
(** * Signed envelopes ([repx/src/dsse.rs])

    The pre-authenticated encoding, signing and verification of envelopes, and
    the text form of keys. The [base64], [hex] and [ed25519-dalek] crates are the
    classes below; their laws are what the crates document. *)
From S2P Require Export Digest Text.

Class Base64 := {
  base64_encode : string → string;
  base64_decode : string → option string
}.
Class Base64Laws `{Base64} : Prop := {
  base64_decode_encode s : base64_decode (base64_encode s) = Some s
}.

Class Hex := { hex_encode : string → string; hex_decode : string → option string }.

(** [hex::encode] prints two hexadecimal digits for each byte. *)
Class HexLaws `{Hex} : Prop := {
  hex_decode_encode s : hex_decode (hex_encode s) = Some s;
  hex_encode_length s : String.length (hex_encode s) = 2 * String.length s;
  hex_encode_digits s :
    str_all (λ c, byte_in "0" "9" c || byte_in "a" "f" c) (hex_encode s) = true
}.

(** Keys and signatures are opaque; [from_bytes] and [from_slice] take the bytes. *)
Class Ed25519 := {
  SigningKey : Type;
  VerifyingKey : Type;
  Signature : Type;
  signing_key_from_bytes : string → SigningKey;
  signing_key_to_bytes : SigningKey → string;
  verifying_key_from_bytes : string → option VerifyingKey;
  verifying_key_to_bytes : VerifyingKey → string;
  verifying_key : SigningKey → VerifyingKey;
  key_sign : SigningKey → string → Signature;
  signature_to_bytes : Signature → string;
  signature_from_slice : string → option Signature;
  key_verify : VerifyingKey → string → Signature → bool
}.

Class Ed25519Laws `{Ed25519} : Prop := {
  verify_signed sk msg : key_verify (verifying_key sk) msg (key_sign sk msg) = true;
  signature_roundtrip s : signature_from_slice (signature_to_bytes s) = Some s;
  signing_key_roundtrip sk : signing_key_from_bytes (signing_key_to_bytes sk) = sk;
  signing_key_bytes sk : String.length (signing_key_to_bytes sk) = 32;
  verifying_key_roundtrip vk : verifying_key_from_bytes (verifying_key_to_bytes vk) = Some vk;
  verifying_key_bytes vk : String.length (verifying_key_to_bytes vk) = 32
}.

(** ** Envelopes *)

Record DsseSignature := mkSignature { keyid : string; sig : string }.

Record Envelope := mkEnvelope {
  payload_type : string;
  payload : string;
  signatures : list DsseSignature
}.

Definition PAE_PREFIX : string := "DSSEv1".

(** [len().to_string()]. *)
Definition length_text (s : string) : string := decimal (Z.of_nat (String.length s)).

Definition pae (payload_type payload : string) : string :=
  PAE_PREFIX +:+ " " +:+ length_text payload_type +:+ " " +:+ payload_type +:+ " "
  +:+ length_text payload +:+ " " +:+ payload.

Inductive SignatureError := InvalidBase64 | InvalidEd25519 | VerificationFailed.

Inductive VerifyError :=
  | InvalidPayload
  | NoSignatures
  | NoValidSignature
  | SignatureFailed (i : nat) (e : SignatureError).

Inductive KeyError :=
  | NotHex
  | WrongLength (bytes : nat)
  | InvalidKey.

Section dsse.
Context `{Base64} `{Ed25519}.

Definition sign (payload payload_type : string) (signing_key : SigningKey) : Envelope :=
  let pae_bytes := pae payload_type payload in
  let signature := key_sign signing_key pae_bytes in
  mkEnvelope payload_type (base64_encode payload)
    [mkSignature "" (base64_encode (signature_to_bytes signature))].

(** One iteration: [None] is [return Ok(payload)]. *)
Definition check_signature (vk : VerifyingKey) (pae_bytes : string) (s : DsseSignature)
    : option SignatureError :=
  match base64_decode (sig s) with
  | None => Some InvalidBase64
  | Some sig_bytes =>
      match signature_from_slice sig_bytes with
      | None => Some InvalidEd25519
      | Some signature =>
          if key_verify vk pae_bytes signature then None else Some VerificationFailed
      end
  end.

(** The loop, from the [i]-th signature on. *)
Fixpoint check_signatures (vk : VerifyingKey) (pae_bytes payload : string) (i : nat)
    (sigs : list DsseSignature) (last_err : option VerifyError) : result VerifyError string :=
  match sigs with
  | [] => Err (default NoValidSignature last_err)
  | s :: sigs =>
      match check_signature vk pae_bytes s with
      | None => Ok payload
      | Some e => check_signatures vk pae_bytes payload (S i) sigs (Some (SignatureFailed i e))
      end
  end.

Definition verify (envelope : Envelope) (vk : VerifyingKey) : result VerifyError string :=
  match base64_decode (payload envelope) with
  | None => Err InvalidPayload
  | Some payload =>
      let pae_bytes := pae (payload_type envelope) payload in
      match signatures envelope with
      | [] => Err NoSignatures
      | sigs => check_signatures vk pae_bytes payload 0 sigs None
      end
  end.
End dsse.

(** ** Keys as text *)

Section keys.
Context `{Hex} `{Ed25519}.

Definition parse_key_bytes (hex : string) : result KeyError string :=
  match hex_decode (trim hex) with
  | None => Err NotHex
  | Some bytes =>
      if negb (String.length bytes =?= 32%nat) then Err (WrongLength (String.length bytes))
      else Ok bytes
  end.

Definition parse_signing_key (hex : string) : result KeyError SigningKey :=
  bytes ← parse_key_bytes hex;
  Ok (signing_key_from_bytes bytes).

Definition parse_verifying_key (hex : string) : result KeyError VerifyingKey :=
  bytes ← parse_key_bytes hex;
  match verifying_key_from_bytes bytes with
  | Some vk => Ok vk
  | None => Err InvalidKey
  end.

(** The contents [write_signing_key] and [write_verifying_key] write. *)
Definition write_signing_key (key : SigningKey) : string :=
  hex_encode (signing_key_to_bytes key) +:+ String "010" "".
Definition write_verifying_key (key : VerifyingKey) : string :=
  hex_encode (verifying_key_to_bytes key) +:+ String "010" "".
End keys.

(** ** The encoding is injective *)

Lemma length_text_digits s : str_all is_ascii_digit (length_text s) = true.
Proof.
  unfold length_text, decimal. destruct (String.length s) as [|n]; [done|].
  change (pretty (Z.of_nat (S n))) with (pretty (Npos (Pos.of_succ_nat n))).
  unfold pretty, pretty_N. case_decide; [done|]. by apply pretty_N_go_digits.
Qed.

Lemma length_text_inj s t : length_text s = length_text t → String.length s = String.length t.
Proof. unfold length_text, decimal. intros Heq. apply (inj pretty) in Heq. lia. Qed.

Lemma length_text_split s s' t t' :
  length_text s +:+ " " +:+ t = length_text s' +:+ " " +:+ t' →
  String.length s = String.length s' ∧ t = t'.
Proof.
  intros Heq. assert (Hd : ∀ s, str_all (λ d, negb (d =?= " "%char)) (length_text s) = true).
  { intros u. pose proof (length_text_digits u) as Hu. induction (length_text u) as [|c v IH];
      [done|]. simpl in *. apply andb_true_iff in Hu as [Hc Hv]. rewrite IH by done.
    rewrite bool_decide_false; [done|]. by intros ->. }
  apply split_at_char in Heq as [Hl ->]; [|done..]. split; [by apply length_text_inj|done].
Qed.

Lemma pae_inj t p t' p' : pae t p = pae t' p' → t = t' ∧ p = p'.
Proof.
  unfold pae. intros Heq. do 2 apply (inj (String.append _)) in Heq.
  apply length_text_split in Heq as [Hl Heq].
  apply str_app_inj_length in Heq as [-> Heq]; [|done].
  apply (inj (String.append _)) in Heq. by apply length_text_split in Heq as [_ ->].
Qed.

(** The pre-authenticated encoding is unambiguous: it determines the payload
      type and the payload, so no signature can be moved between them. *)
Theorem pae_injective t p t' p' : pae t p = pae t' p' ↔ t = t' ∧ p = p'.
Proof. split; [apply pae_inj|]. by intros [-> ->]. Qed.

(** ** Signing and verifying *)

Section dsse_facts.
Context `{Base64} `{Ed25519}.

Lemma check_signatures_Ok vk bytes p i sigs err q :
  check_signatures vk bytes p i sigs err = Ok q ↔
  q = p ∧ ∃ s, s ∈ sigs ∧ check_signature vk bytes s = None.
Proof.
  revert i err. induction sigs as [|s sigs IH]; intros i err; simpl; [set_solver|].
  setoid_rewrite elem_of_cons. destruct (check_signature vk bytes s) eqn:Hc.
  - rewrite IH. naive_solver.
  - naive_solver.
Qed.

Lemma check_signature_None vk bytes s :
  check_signature vk bytes s = None ↔
  ∃ b sg, base64_decode (sig s) = Some b ∧ signature_from_slice b = Some sg ∧
          key_verify vk bytes sg = true.
Proof.
  unfold check_signature. split.
  - destruct (base64_decode (sig s)) as [b|]; [|done].
    destruct (signature_from_slice b) as [sg|] eqn:Hs; [|done].
    destruct (key_verify vk bytes sg) eqn:Hv; [|done]. eauto.
  - by intros (b & sg & -> & -> & ->).
Qed.

(** The decoded payload is signed, by one of the envelope's signatures. *)
Definition signed (envelope : Envelope) (vk : VerifyingKey) (p : string) : Prop :=
  base64_decode (payload envelope) = Some p ∧
  ∃ s b sg, s ∈ signatures envelope ∧ base64_decode (sig s) = Some b ∧
    signature_from_slice b = Some sg ∧
    key_verify vk (pae (payload_type envelope) p) sg = true.

Lemma verify_Ok envelope vk p : verify envelope vk = Ok p ↔ signed envelope vk p.
Proof.
  unfold verify, signed. destruct (base64_decode (payload envelope)) as [q|]; [|naive_solver].
  destruct (signatures envelope) as [|s sigs]; [set_solver|].
  rewrite check_signatures_Ok. setoid_rewrite check_signature_None. naive_solver.
Qed.

Lemma check_signatures_NoSignatures vk bytes p i sigs err e :
  check_signatures vk bytes p i sigs err = Err e →
  e = default NoValidSignature err ∨ ∃ j se, e = SignatureFailed j se.
Proof.
  revert i err. induction sigs as [|s sigs IH]; intros i err; simpl; [naive_solver|].
  destruct (check_signature vk bytes s) as [se|]; [|done]. intros [->|?]%IH; eauto.
Qed.

(** What [verify] accepts, and what it rejects: it returns a payload exactly
    when that is the decoded payload and some signature of the envelope (not
    necessarily the first) is well formed and verifies over the encoding of
    payload type and payload; an undecodable payload and an empty list of
    signatures are errors of their own, in that order. *)
Theorem verify_ok_iff envelope vk :
  (∀ p, verify envelope vk = Ok p ↔ signed envelope vk p) ∧
  (verify envelope vk = Err InvalidPayload ↔ base64_decode (payload envelope) = None) ∧
  (verify envelope vk = Err NoSignatures ↔
    is_Some (base64_decode (payload envelope)) ∧ signatures envelope = []).
Proof.
  split; [intros p; apply verify_Ok|]. unfold verify.
  destruct (base64_decode (payload envelope)) as [q|].
  2:{ split; [done|]. split; [done|]. by intros [[] _]. }
  destruct (signatures envelope) as [|s sigs]; [split; [done|naive_solver]|].
  pose proof (check_signatures_NoSignatures vk (pae (payload_type envelope) q) q 0
    (s :: sigs) None) as He.
  split; (split; [|naive_solver]); intros Herr; apply He in Herr;
    destruct Herr as [?|(? & ? & ?)]; done.
Qed.

(** A signed payload verifies under the signer's key, with its bytes. *)
Theorem verify_sign `{!Base64Laws, !Ed25519Laws} sk p t :
  verify (sign p t sk) (verifying_key sk) = Ok p.
Proof.
  apply verify_Ok. split; [apply base64_decode_encode|]. simpl.
  eexists _, (signature_to_bytes _), _.
  rewrite list_elem_of_singleton. split; [done|]. simpl.
  split; [apply base64_decode_encode|]. split; [apply signature_roundtrip|].
  apply verify_signed.
Qed.

(** [sg] verifies over a string that is not among those the key's owner signed. *)
Definition forgery (vk : VerifyingKey) (signed : list string) (m : string) (sg : Signature) : Prop :=
  key_verify vk m sg = true ∧ m ∉ signed.

(** C30. Authenticity, as a reduction to the signature scheme.  Let [messages] be
    the types and payloads whose encodings the owner of a key has signed.  If
    [verify] accepts an envelope under that key, then it returns one of these
    payloads, under the type it was signed with; or else one of the signatures in
    the envelope is a forgery: it verifies over a string that is the encoding of
    none of them.  Nothing is assumed of the key. *)
Theorem verify_authentic envelope vk p (messages : list (string * string)) :
  verify envelope vk = Ok p →
  (payload_type envelope, p) ∈ messages ∨
  ∃ s bytes sg, s ∈ signatures envelope ∧ base64_decode (sig s) = Some bytes ∧
    signature_from_slice bytes = Some sg ∧
    forgery vk ((λ '(t, q), pae t q) <$> messages) (pae (payload_type envelope) p) sg.
Proof.
  intros (_ & s & b & sg & Hs & Hb & Hsg & Hv)%verify_Ok.
  destruct (decide ((payload_type envelope, p) ∈ messages)) as [|Hnot]; [by left|]. right.
  exists s, b, sg. do 3 (split; [done|]). split; [done|].
  intros ([t q] & Heq & Hin)%list_elem_of_fmap. by apply pae_inj in Heq as [<- <-].
Qed.
End dsse_facts.

(** ** Keys *)

Section key_facts.
Context `{Hex} `{Ed25519}.

Lemma parse_written `{!HexLaws} bytes : String.length bytes = 32 →
  parse_key_bytes (hex_encode bytes +:+ String "010" "") = Ok bytes.
Proof.
  intros Hlen. unfold parse_key_bytes. rewrite trim_hex_line.
  - rewrite hex_decode_encode, bool_decide_true by done. done.
  - apply hex_encode_digits.
  - intros Hnil. pose proof (hex_encode_length bytes) as Hl. rewrite Hnil, Hlen in Hl. done.
Qed.

(** Keys survive their files: parsing what was written for a key gives the
    key back, the final newline being trimmed; and a key is rejected, before
    its bytes are interpreted, exactly when the trimmed text is not hexadecimal
    or does not denote 32 bytes. *)
Theorem key_files_roundtrip `{!HexLaws, !Ed25519Laws} :
  (∀ sk, parse_signing_key (write_signing_key sk) = Ok sk) ∧
  (∀ vk, parse_verifying_key (write_verifying_key vk) = Ok vk) ∧
  (∀ text, parse_signing_key text = Err NotHex ↔ hex_decode (trim text) = None) ∧
  (∀ text n, parse_signing_key text = Err (WrongLength n) ↔
     ∃ b, hex_decode (trim text) = Some b ∧ String.length b = n ∧ n ≠ 32).
Proof.
  split; [|split; [|split]].
  - intros sk. unfold parse_signing_key, write_signing_key.
    rewrite parse_written by apply signing_key_bytes. simpl. by rewrite signing_key_roundtrip.
  - intros vk. unfold parse_verifying_key, write_verifying_key.
    rewrite parse_written by apply verifying_key_bytes. simpl. by rewrite verifying_key_roundtrip.
  - intros text. unfold parse_signing_key, parse_key_bytes.
    destruct (hex_decode (trim text)); [|done]. by case_bool_decide.
  - intros text n. unfold parse_signing_key, parse_key_bytes.
    destruct (hex_decode (trim text)) as [b|]; [|naive_solver].
    case_bool_decide as Hb; simpl; naive_solver.
Qed.
End key_facts.

(** ** Examples: a stand-in for the three crates

    Text is its own base64; keys are 32-byte texts, and the signature of a
    message is the message and the key. *)
Module DsseExamples.
#[export] Instance text_base64 : Base64 := {| base64_encode s := s; base64_decode := Some |}.
#[export] Instance text_base64_laws : Base64Laws.
Proof. done. Qed.

(** Two hexadecimal digits for each byte. *)
Fixpoint encode_bytes (s : string) : string :=
  match s with
  | "" => ""
  | String c s =>
      String (hex_digit (byte_val c / 16)) (String (hex_digit (byte_val c `mod` 16)) (encode_bytes s))
  end.

Definition digit_value (c : ascii) : option N :=
  if byte_in "0" "9" c then Some (byte_val c - 48)%N
  else if byte_in "a" "f" c then Some (byte_val c - 87)%N
  else if byte_in "A" "F" c then Some (byte_val c - 55)%N
  else None.

Fixpoint decode_bytes (s : string) : option string :=
  match s with
  | "" => Some ""
  | String a (String b s) =>
      x ← digit_value a; y ← digit_value b; r ← decode_bytes s;
      Some (String (ascii_of_N (16 * x + y)) r)
  | String _ "" => None
  end.

#[export] Instance byte_hex : Hex := {| hex_encode := encode_bytes; hex_decode := decode_bytes |}.

(** Facts about the 256 bytes, checked one by one. *)
Lemma byte_cases (P : ascii → bool) :
  forallb (λ n, P (ascii_of_nat n)) (seq 0 256) = true → ∀ c, P c = true.
Proof.
  rewrite forallb_forall. intros Hall c. rewrite <- (ascii_nat_embedding c).
  apply Hall, in_seq. pose proof (nat_ascii_bounded c). lia.
Qed.

Lemma byte_digits c :
  digit_value (hex_digit (byte_val c / 16)) = Some (byte_val c / 16)%N ∧
  digit_value (hex_digit (byte_val c `mod` 16)) = Some (byte_val c `mod` 16)%N ∧
  ascii_of_N (16 * (byte_val c / 16) + byte_val c `mod` 16) = c ∧
  hex_text (String (hex_digit (byte_val c / 16)) (String (hex_digit (byte_val c `mod` 16)) ""))
    = true.
Proof.
  apply (bool_decide_unpack (_ ∧ _ ∧ _ ∧ _)), Is_true_true. revert c.
  apply byte_cases. vm_compute. done.
Qed.

#[export] Instance byte_hex_laws : HexLaws.
Proof.
  split; simpl; intros s; induction s as [|c s IH]; try done; cbn [encode_bytes].
  - destruct (byte_digits c) as (H1 & H2 & H3 & _). cbn [decode_bytes].
    rewrite H1, H2, IH. simpl. by rewrite H3.
  - simpl. rewrite IH. lia.
  - destruct (byte_digits c) as (_ & _ & _ & Hx). unfold hex_text in Hx. simpl in *.
    apply andb_true_iff in Hx as [-> Hx]. apply andb_true_iff in Hx as [-> _]. exact IH.
Qed.

(** A key: 32 bytes. *)
Definition key32 : Type := { s : string | (String.length s =? 32) = true }.
Definition to_key32 (s : string) : option key32 :=
  match decide ((String.length s =? 32) = true) with
  | left H => Some (exist _ s H)
  | right _ => None
  end.
Definition zero_key : key32 := exist _ (Toy.hex_pad 32 0 "") eq_refl.

Lemma to_key32_roundtrip (k : key32) : to_key32 (proj1_sig k) = Some k.
Proof.
  destruct k as [s Hs]. unfold to_key32. simpl. destruct (decide _) as [Hs'|Hs']; [|done].
  do 2 f_equal. apply (proof_irrel Hs' Hs).
Qed.

#[export] Instance text_ed25519 : Ed25519 := {|
  SigningKey := key32; VerifyingKey := key32; Signature := string;
  signing_key_from_bytes s := default zero_key (to_key32 s);
  signing_key_to_bytes := proj1_sig;
  verifying_key_from_bytes := to_key32;
  verifying_key_to_bytes := proj1_sig;
  verifying_key k := k;
  key_sign k m := m +:+ proj1_sig k;
  signature_to_bytes s := s;
  signature_from_slice := Some;
  key_verify k m s := s =?= m +:+ proj1_sig k
|}.

#[export] Instance text_ed25519_laws : Ed25519Laws.
Proof.
  split; cbn.
  - intros sk msg. by rewrite bool_decide_true.
  - done.
  - intros sk. by rewrite to_key32_roundtrip.
  - intros [s Hs]. by apply Nat.eqb_eq.
  - apply to_key32_roundtrip.
  - intros [s Hs]. by apply Nat.eqb_eq.
Qed.

Definition example_key : SigningKey := zero_key.

Lemma verify_sign_witness :
  verify (sign "attestation" "https://repx.dev/process-provenance/v0.3.0" example_key)
    (verifying_key example_key) = Ok "attestation".
Proof. apply (verify_sign example_key). Defined.

Lemma verify_authentic_witness :
  let kind := "https://repx.dev/process-provenance/v0.3.0" in
  let envelope := sign "attestation" kind example_key in
  verify envelope (verifying_key example_key) = Ok "attestation" ∧
  (payload_type envelope, "attestation") ∈ [(kind, "attestation")].
Proof.
  intros kind envelope.
  assert (Hv : verify envelope (verifying_key example_key) = Ok "attestation") by (vm_compute; reflexivity).
  split; [exact Hv|].
  destruct (verify_authentic envelope (verifying_key example_key) "attestation" [(kind, "attestation")] Hv)
    as [Hin|(s & b & sg & _ & _ & _ & _ & Hforged)]; [exact Hin|].
  exfalso. apply Hforged. apply list_elem_of_here.
Defined.

Lemma key_files_roundtrip_witness :
  parse_signing_key (write_signing_key example_key) = Ok example_key ∧
  parse_signing_key "c0ffee" = Err (WrongLength 3).
Proof.
  destruct key_files_roundtrip as (Hsk & _ & _ & Hlen). split; [apply Hsk|].
  apply Hlen. eexists. split; [vm_compute; reflexivity|]. split; [reflexivity|lia].
Defined.
End DsseExamples.
