(* ===== verification/Stability.v ===== *)
(** * Stability of repeated traces ([repx/src/stability.rs])

    [analyze] compares each run's attestation with the first. Its ratios are
    [f64]: the type and the operations on it are the class [F64], and the one law
    used, [x / x = 1] for a count other than 0, is that of IEEE division. *)
From S2P Require Export Attestation.

Class F64 := {
  f64 : Type;
  f64_of_usize : nat → f64;
  f64_one : f64;
  f64_zero : f64;
  f64_hundred : f64;
  f64_mul : f64 → f64 → f64;
  f64_add : f64 → f64 → f64;
  f64_div : f64 → f64 → f64;
  f64_min : f64 → f64 → f64
}.

Class F64Laws `{F64} : Prop := {
  f64_div_same n : n ≠ 0 → f64_div (f64_of_usize n) (f64_of_usize n) = f64_one;
  f64_min_one : f64_min f64_one f64_one = f64_one
}.

Section stability.
Context `{Sha256} `{F64}.

Record RunStability := mkRun {
  run_path : string;
  root_match : bool;
  process_root_match : bool;
  run_leaf_count : nat;
  leaf_jaccard : f64;
  missing_leaves : nat;
  added_leaves : nat
}.

Record StabilityReport := mkReport {
  baseline : string;
  run_count : nat;
  root_matches : nat;
  process_root_matches : nat;
  minimum_leaf_jaccard : f64;
  mean_leaf_jaccard : f64;
  runs : list RunStability
}.

(** [BTreeSet::intersection], [union] and [difference] on sorted sets. *)
Definition set_intersection (a b : list string) : list string := filter (.∈ b) a.
Definition set_difference (a b : list string) : list string := filter (.∉ b) a.
Definition set_union (a b : list string) : list string := btree_set (a ++ b).

(** The body of the loop over the inputs. *)
Definition run_stability (base : Attestation) (input : string * Attestation) : RunStability :=
  let '(path, attestation) := input in
  let baseline_leaves := btree_set (leaf_hashes (tree base)) in
  let leaves := btree_set (leaf_hashes (tree attestation)) in
  let intersection := length (set_intersection baseline_leaves leaves) in
  let union := length (set_union baseline_leaves leaves) in
  let jaccard :=
    if union =?= 0%nat then f64_one else f64_div (f64_of_usize intersection) (f64_of_usize union) in
  mkRun path (root_hash attestation =?= root_hash base)
    (process_root attestation =?= process_root base) (length leaves) jaccard
    (length (set_difference baseline_leaves leaves))
    (length (set_difference leaves baseline_leaves)).

(** [None]: fewer than two attestations. *)
Definition analyze (inputs : list (string * Attestation)) : option StabilityReport :=
  match inputs with
  | (baseline_path, base) :: _ :: _ =>
      let runs := run_stability base <$> inputs in
      Some (mkReport baseline_path (length runs)
        (length (List.filter root_match runs))
        (length (List.filter process_root_match runs))
        (foldl f64_min f64_one (leaf_jaccard <$> runs))
        (f64_div (foldl f64_add f64_zero (leaf_jaccard <$> runs)) (f64_of_usize (length runs)))
        runs)
  | _ => None
  end.

(** [percentage]: [matches as f64 * 100.0 / total as f64]. *)
Definition percentage (matches total : nat) : f64 :=
  f64_div (f64_mul (f64_of_usize matches) f64_hundred) (f64_of_usize total).

(** The lines of [print_human], each with the values it prints. *)
Inductive StabilityLine :=
  | Baseline (path : string)
  | RootStability (matches total : nat) (percent : f64)
  | ProcessRootStability (matches total : nat) (percent : f64)
  | LeafJaccard (minimum mean : f64)
  | MismatchedRun (run : RunStability).

Definition print_human (report : StabilityReport) : list StabilityLine :=
  [Baseline (baseline report);
   RootStability (root_matches report) (run_count report)
     (percentage (root_matches report) (run_count report));
   ProcessRootStability (process_root_matches report) (run_count report)
     (percentage (process_root_matches report) (run_count report));
   LeafJaccard (minimum_leaf_jaccard report) (mean_leaf_jaccard report)]
  ++ (MismatchedRun <$> List.filter (λ run, negb (root_match run)) (runs report)).

(** ** Facts *)

Lemma btree_set_ext l1 l2 : (∀ s, s ∈ l1 ↔ s ∈ l2) → btree_set l1 = btree_set l2.
Proof.
  intros Heq. apply strictly_sorted_unique; [apply btree_set_sorted..|].
  intros s. by rewrite !btree_set_elem.
Qed.

Lemma btree_set_NoDup l : NoDup (btree_set l).
Proof. apply strictly_sorted_NoDup, btree_set_sorted. Qed.

Lemma filter_split_length (P : string → Prop) `{∀ x, Decision (P x)} l :
  length (filter P l) + length (filter (λ x, ¬ P x) l) = length l.
Proof.
  induction l as [|x l IH]; [done|]. rewrite !filter_cons.
  repeat case_decide; simpl; try tauto; lia.
Qed.

Lemma set_union_length a b : NoDup a → NoDup b →
  length (set_union a b) = length a + length (set_difference b a).
Proof.
  intros Ha Hb. rewrite <- length_app. apply Permutation_length, NoDup_Permutation.
  - apply btree_set_NoDup.
  - apply NoDup_app. split; [done|]. split; [|by apply NoDup_filter].
    intros s Hs [Hn _]%list_elem_of_filter. done.
  - intros s. unfold set_union. rewrite btree_set_elem, !elem_of_app.
    unfold set_difference. rewrite list_elem_of_filter.
    destruct (decide (s ∈ a)); naive_solver.
Qed.

(** The counts of one run: missing and added leaves, and the common ones,
    partition the two leaf sets and their union. *)
Lemma set_counts a b : NoDup a → NoDup b →
  length (set_intersection a b) + length (set_difference a b) = length a ∧
  length (set_intersection a b) + length (set_difference b a) = length b ∧
  length (set_union a b)
    = length (set_intersection a b) + length (set_difference a b)
      + length (set_difference b a).
Proof.
  intros Ha Hb.
  pose proof (filter_split_length (.∈ b) a) as H1.
  pose proof (filter_split_length (.∈ a) b) as H2.
  assert (Hi : length (filter (.∈ a) b) = length (set_intersection a b)).
  { apply Permutation_length, NoDup_Permutation; [by apply NoDup_filter..|].
    intros s. unfold set_intersection. rewrite !list_elem_of_filter. tauto. }
  rewrite (set_union_length a b Ha Hb). unfold set_intersection, set_difference in *.
  split; [exact H1|]. split; [rewrite <- Hi; exact H2|].
  change (filter (.∉ b) a) with (filter (λ x, ¬ (x ∈ b)) a). lia.
Qed.

Lemma filter_length_le {A} (f : A → bool) l : length (List.filter f l) ≤ length l.
Proof. induction l as [|x l IH]; simpl; [lia|]. case_match; simpl; lia. Qed.

Lemma filter_length_all {A} (f : A → bool) l :
  length (List.filter f l) = length l ↔ Forall (λ x, f x = true) l.
Proof.
  induction l as [|x l IH]; simpl; [by split|]. pose proof (filter_length_le f l).
  rewrite Forall_cons. destruct (f x); simpl; [rewrite <- IH|]; intuition lia.
Qed.

(** What a stability report counts: [analyze] rejects exactly the inputs
    with fewer than two attestations; the baseline is the first and matches
    itself; all roots match exactly when every run has the baseline's root hash;
    and in each run the common, missing and added leaves add up to the sizes of
    the two leaf sets. *)
Theorem analyze_spec inputs :
  (analyze inputs = None ↔ length inputs < 2) ∧
  ∀ report, analyze inputs = Some report →
    ∃ path base rest, inputs = (path, base) :: rest ∧ baseline report = path ∧
      run_count report = length inputs ∧
      1 ≤ root_matches report ≤ run_count report ∧
      (root_matches report = run_count report ↔
       Forall (λ i, root_hash i.2 = root_hash base) inputs) ∧
      runs report = run_stability base <$> inputs ∧
      Forall (λ i,
        let run := run_stability base i in
        let common := length (set_intersection (btree_set (leaf_hashes (tree base)))
                                (btree_set (leaf_hashes (tree i.2)))) in
        common + missing_leaves run = length (btree_set (leaf_hashes (tree base))) ∧
        common + added_leaves run = run_leaf_count run) inputs.
Proof.
  split.
  { destruct inputs as [|[] [|]]; simpl; split; intros; try done; lia. }
  intros report Hr. destruct inputs as [|[path base] [|second rest]]; try done.
  injection Hr as <-. exists path, base, (second :: rest).
  set (inputs := (path, base) :: second :: rest).
  assert (Hroot : ∀ i, root_match (run_stability base i) = true ↔ root_hash i.2 = root_hash base)
    by (intros [p a]; simpl; apply bool_decide_eq_true).
  split; [done|]. split; [done|]. cbn [run_count]. split; [by rewrite length_fmap|].
  cbn [root_matches]. split.
  { split; [|exact (filter_length_le root_match (run_stability base <$> inputs))].
    simpl. rewrite bool_decide_true by done. simpl. lia. }
  split.
  { etrans; [exact (filter_length_all root_match (run_stability base <$> inputs))|].
    rewrite Forall_fmap. apply Forall_iff. intros i. apply Hroot. }
  split; [done|]. apply Forall_forall. intros [p a] _.
  destruct (set_counts (btree_set (leaf_hashes (tree base))) (btree_set (leaf_hashes (tree a))))
    as (H1 & H2 & _); [apply btree_set_NoDup..|]. split; [exact H1|exact H2].
Qed.

Lemma jaccard_same base i `{!F64Laws} :
  (∀ s, s ∈ leaf_hashes (tree base) ↔ s ∈ leaf_hashes (tree i.2)) →
  leaf_jaccard (run_stability base i) = f64_one ∧ missing_leaves (run_stability base i) = 0 ∧
  added_leaves (run_stability base i) = 0.
Proof.
  destruct i as [p a]. simpl. intros Heq. rewrite (btree_set_ext _ _ Heq).
  set (l := btree_set (leaf_hashes (tree a))).
  assert (Hnd : NoDup l) by apply btree_set_NoDup.
  assert (Hd : length (set_difference l l) = 0).
  { apply length_zero_iff_nil, elem_of_nil_inv. intros s. unfold set_difference.
    rewrite list_elem_of_filter. tauto. }
  destruct (set_counts l l Hnd Hnd) as (_ & _ & Hunion). rewrite Hunion.
  split; [|done]. rewrite Hd, !Nat.add_0_r. case_bool_decide; [done|]. by apply f64_div_same.
Qed.

Lemma minimum_of_ones `{!F64Laws} (l : list RunStability) :
  Forall (λ r, leaf_jaccard r = f64_one ∧ missing_leaves r = 0 ∧ added_leaves r = 0) l →
  foldl f64_min f64_one (leaf_jaccard <$> l) = f64_one.
Proof.
  induction 1 as [|r l (Hj & _) Hl IH]; [done|]. csimpl. by rewrite Hj, f64_min_one.
Qed.

(** Runs that trace the same operations are reported as stable: when every
    attestation has the baseline's leaves, as a set, each run has nothing missing
    and nothing added, and the minimal Jaccard index is exactly 1. *)
Theorem analyze_same_leaves `{!F64Laws} inputs path base rest report :
  inputs = (path, base) :: rest → analyze inputs = Some report →
  (∀ i, i ∈ inputs → ∀ s, s ∈ leaf_hashes (tree base) ↔ s ∈ leaf_hashes (tree i.2)) →
  minimum_leaf_jaccard report = f64_one ∧
  Forall (λ r, leaf_jaccard r = f64_one ∧ missing_leaves r = 0 ∧ added_leaves r = 0)
    (runs report).
Proof.
  intros -> Hr Hsame. destruct rest as [|second rest]; [done|]. injection Hr as <-.
  assert (Hall : Forall (λ r, leaf_jaccard r = f64_one ∧ missing_leaves r = 0 ∧ added_leaves r = 0)
    (run_stability base <$> (path, base) :: second :: rest)).
  { apply Forall_fmap, Forall_forall. intros i Hi. apply jaccard_same; [done|]. by apply Hsame. }
  split; [|exact Hall]. exact (minimum_of_ones _ Hall).
Qed.
End stability.

(** ** Example: ratios in place of floating-point numbers *)

Module StabilityExamples.
Import Toy.

#[export] Instance ratio : F64 := {|
  f64 := Z * Z;
  f64_of_usize n := (Z.of_nat n, 1%Z);
  f64_one := (1%Z, 1%Z);
  f64_zero := (0%Z, 1%Z);
  f64_hundred := (100%Z, 1%Z);
  f64_mul a b := (a.1 * b.1, a.2 * b.2)%Z;
  f64_add a b := (a.1 * b.2 + b.1 * a.2, a.2 * b.2)%Z;
  f64_div a b :=
    let n := (a.1 * b.2)%Z in let d := (a.2 * b.1)%Z in
    (n / Z.gcd n d, d / Z.gcd n d)%Z;
  f64_min a b := if (a.1 * b.2 <=? b.1 * a.2)%Z then a else b
|}.

#[export] Instance ratio_laws : F64Laws.
Proof.
  split; [|done]. intros n Hn. simpl. rewrite !Z.mul_1_r.
  change (match Z.of_nat n with 0 => 0 | Z.pos y' => Z.pos y' | Z.neg y' => Z.neg y' end)%Z
    with (1 * Z.of_nat n)%Z. rewrite Z.mul_1_l, Z.gcd_diag, Z.abs_eq by lia.
  by rewrite Z.div_same by lia.
Qed.

Definition run (command : string) (leaves : list string) : Attestation :=
  mkAttestation "0.3.0" "" "" "" [command] default_selection [] (mkTree leaves [] (length leaves)).

Lemma analyze_same_leaves_witness :
  ∃ report, analyze [("a.json", run "make" ["x"; "y"]); ("b.json", run "make" ["y"; "x"])]
              = Some report ∧
    minimum_leaf_jaccard report = (1%Z, 1%Z).
Proof.
  set (inputs := [("a.json", run "make" ["x"; "y"]); ("b.json", run "make" ["y"; "x"])]).
  destruct (analyze inputs) as [report|] eqn:Hr; [|done]. exists report. split; [done|].
  destruct (analyze_same_leaves inputs "a.json" (run "make" ["x"; "y"])
    [("b.json", run "make" ["y"; "x"])] report eq_refl Hr) as [Hmin _]; [|exact Hmin].
  intros i Hi s. unfold inputs in Hi. set_unfold in Hi.
  destruct Hi as [->|[->|[]]]; simpl; set_solver.
Defined.
End StabilityExamples.
