(* ===== verification/ShellText.v ===== *)
(** * Commands as shell text ([format_command] of [repx/src/main.rs] and
      [repx/src/harness.rs])

    A command is displayed with the arguments that are not plain in single
    quotes.  [sh_words] is the specification: the field splitting and quoting of
    the POSIX shell, on text that needs no expansion. *)
From S2P Require Export Text.

Definition display_plain (ch : ascii) : bool :=
  is_ascii_alphanumeric ch || existsb (λ c, ch =?= c) ["/"; "."; "_"; "-"; "="; ":"; "+"]%char.

(** A quote in double quotes, between the end and the start of single quotes. *)
Definition quoted_quote : string := String "'" (String "034" (String "'" (String "034" (String "'" "")))).

(** [arg.replace('\'', ...)]. *)
Fixpoint replace_quotes (arg : string) : string :=
  match arg with
  | "" => ""
  | String c arg => (if c =?= "'"%char then quoted_quote else String c "") +:+ replace_quotes arg
  end.

Definition shell_display_arg (arg : string) : string :=
  if arg =?= "" then "''"
  else if str_all display_plain arg then arg
  else "'" +:+ replace_quotes arg +:+ "'".

(** [.join(" ")]. *)
Fixpoint join_words (words : list string) : string :=
  match words with
  | [] => ""
  | [word] => word
  | word :: words => word +:+ " " +:+ join_words words
  end.

Definition format_command (command : list string) : string := join_words (shell_display_arg <$> command).

(** ** The shell's reading of the text *)

Inductive sh_state := Between | Word (w : string) | Single (w : string) | Double (w : string).

Definition sh_blank (c : ascii) : bool := existsb (λ d, c =?= d) [" "; "009"; "010"]%char.
(** The characters that start an expansion, an operator, a pattern, a comment or
    an escape, outside quotes and in double quotes. *)
Definition sh_special (c : ascii) : bool :=
  existsb (λ d, c =?= d) ["|"; "&"; ";"; "<"; ">"; "("; ")"; "$"; "`"; "\"; "*"; "?"; "["; "]"; "#"; "~";
                          "{"; "}"; "!"; "^"; "%"]%char.
Definition sh_active (c : ascii) : bool := existsb (λ d, c =?= d) ["$"; "`"; "\"; "!"]%char.

Definition sh_push (w : string) (c : ascii) : string := w +:+ String c "".

Fixpoint sh_scan (st : sh_state) (s : string) : option (list string) :=
  let in_word w c s :=
    if c =?= "'"%char then sh_scan (Single w) s
    else if c =?= "034"%char then sh_scan (Double w) s
    else if sh_special c then None else sh_scan (Word (sh_push w c)) s in
  match s with
  | "" => match st with Between => Some [] | Word w => Some [w] | Single _ | Double _ => None end
  | String c s =>
      match st with
      | Between => if sh_blank c then sh_scan Between s else in_word "" c s
      | Word w => if sh_blank c then cons w <$> sh_scan Between s else in_word w c s
      | Single w => if c =?= "'"%char then sh_scan (Word w) s else sh_scan (Single (sh_push w c)) s
      | Double w =>
          if c =?= "034"%char then sh_scan (Word w) s
          else if sh_active c then None else sh_scan (Double (sh_push w c)) s
      end
  end.

(** The words of a command line; [None] for text that needs more than quote
    removal or has an open quote. *)
Definition sh_words (s : string) : option (list string) := sh_scan Between s.

(** ** What the display writes, the shell reads *)

Lemma sh_push_app w c s : sh_push w c +:+ s = w +:+ String c s.
Proof. unfold sh_push. by rewrite str_app_assoc. Qed.

Lemma display_plain_inert c : display_plain c = true →
  sh_blank c = false ∧ c ≠ "'"%char ∧ c ≠ "034"%char ∧ sh_special c = false.
Proof.
  assert (Hall : ∀ n, (n < 256)%nat → let c := ascii_of_nat n in
    display_plain c = true → (sh_blank c || (c =?= "'"%char) || (c =?= "034"%char) || sh_special c) = false).
  { assert (Hf : forallb (λ n, let c := ascii_of_nat n in
      negb (display_plain c) || negb (sh_blank c || (c =?= "'"%char) || (c =?= "034"%char) || sh_special c))
      (seq 0 256) = true) by (vm_compute; reflexivity).
    rewrite forallb_forall in Hf. intros n Hn c' Hc. specialize (Hf n ltac:(apply in_seq; lia)).
    cbv zeta in Hf. fold c' in Hf. rewrite Hc in Hf. by apply negb_true_iff in Hf. }
  intros Hc. pose proof (nat_ascii_bounded c) as Hn. specialize (Hall _ Hn). cbv zeta in Hall.
  rewrite ascii_nat_embedding in Hall. specialize (Hall Hc).
  apply orb_false_iff in Hall as [Hall Hs]. apply orb_false_iff in Hall as [Hall Hd].
  apply orb_false_iff in Hall as [Hb Hq]. apply bool_decide_eq_false in Hd, Hq. auto.
Qed.

Lemma scan_plain w a rest : str_all display_plain a = true →
  sh_scan (Word w) (a +:+ rest) = sh_scan (Word (w +:+ a)) rest.
Proof.
  revert w. induction a as [|c a IH]; intros w Ha; [by rewrite str_app_nil_r|].
  simpl in Ha. apply andb_true_iff in Ha as [Hc Ha].
  destruct (display_plain_inert c Hc) as (Hb & Hq & Hd & Hs). rewrite str_app_cons. cbn [sh_scan].
  rewrite Hb, Hs. rewrite !bool_decide_false by done. rewrite IH by done. by rewrite sh_push_app.
Qed.

Lemma scan_single w a rest :
  sh_scan (Single w) (replace_quotes a +:+ "'" +:+ rest) = sh_scan (Word (w +:+ a)) rest.
Proof.
  revert w. induction a as [|c a IH]; intros w; [by rewrite str_app_nil_r|].
  cbn [replace_quotes]. destruct (decide (c = "'"%char)) as [->|Hc].
  - rewrite bool_decide_true by done. rewrite str_app_assoc.
    transitivity (sh_scan (Single (sh_push w "'")) (replace_quotes a +:+ "'" +:+ rest)); [reflexivity|].
    by rewrite IH, sh_push_app.
  - rewrite bool_decide_false by done. rewrite !str_app_cons. cbn [sh_scan].
    rewrite bool_decide_false by done.
    change ("" +:+ replace_quotes a) with (replace_quotes a). rewrite IH. by rewrite sh_push_app.
Qed.

Lemma scan_display a rest :
  sh_scan Between (shell_display_arg a +:+ rest) = sh_scan (Word a) rest.
Proof.
  unfold shell_display_arg. destruct (decide (a = "")) as [->|Ha]; [reflexivity|].
  rewrite bool_decide_false by done. destruct (str_all display_plain a) eqn:Hp.
  - destruct a as [|c a]; [done|]. transitivity (sh_scan (Word "") (String c a +:+ rest)).
    + rewrite str_app_cons. cbn [sh_scan]. simpl in Hp. apply andb_true_iff in Hp as [Hc _].
      by destruct (display_plain_inert c Hc) as (-> & _).
    + by rewrite scan_plain.
  - rewrite !str_app_assoc. rewrite str_app_cons. cbn [sh_scan].
    exact (scan_single "" a rest).
Qed.

(** C33. The displayed command is shell text for that command: splitting and
    unquoting it gives back its arguments, whatever bytes they hold.  (Words only:
    a first word that is a reserved word or of the form [NAME=value] is displayed
    plain too.) *)
Theorem format_command_roundtrip command : sh_words (format_command command) = Some command.
Proof.
  unfold sh_words, format_command. induction command as [|a command IH]; [done|].
  rewrite fmap_cons. destruct command as [|b command].
  - cbn [join_words fmap list_fmap]. rewrite <- (str_app_nil_r (shell_display_arg a)).
    rewrite scan_display. reflexivity.
  - rewrite fmap_cons in *. cbn [join_words]. rewrite scan_display. cbn [sh_scan].
    change (sh_scan (Word a) (" " +:+ ?x)) with (cons a <$> sh_scan Between x).
    cbn [join_words] in IH. by rewrite IH.
Qed.
