(* ===== verification/Report.v ===== *)
(** * Document metadata and the reports of [explain] and [diff]
      ([repx/src/main.rs])

    Each [writeln!] is a constructor of [Line] that carries what it prints; the
    text around the values is not modelled, and writing succeeds. *)
From S2P Require Export AttestationFacts WorkspacePaths ShellText.

(** ** Metadata of a document *)

(** [to_string_lossy] is the identity on the strings of the model. *)
Definition metadata_path (workspace_root path : string) : string :=
  if path_is_absolute path then display_path workspace_root path else path.

Definition output_selection_metadata (output_mode : OutputMode) (workspace_root : string)
    (artifact_paths root_paths : list string) : OutputSelection :=
  mkSelection (match output_mode with Inferred => "inferred" | Explicit => "explicit" end)
    (sort_strings (metadata_path workspace_root <$> artifact_paths))
    (sort_strings (metadata_path workspace_root <$> root_paths)).

Definition attested_outputs_metadata (workspace_root : string) (outputs : list OutputFile)
    : list AttestedOutput :=
  (λ output, mkOutput (display_path workspace_root (output_path output)) (output_hash output))
    <$> outputs.

(** ** Lines *)

Inductive Line :=
  (* explain_attestation *)
  | RootHashIs (hash : string) | ProcessSetRoot (hash : string) | Predicate (uri : string)
  | CommandIs (text : string) | SelectionMode (mode : string)
  | ArtifactsHeader | Artifact (path : string) | OutputRootsHeader | OutputRoot (path : string)
  | OutputCount (n : nat) | OutputIs (hash path : string) | MerkleLeaves (n : nat)
  | CommitmentSemantics
  (* print_attestation_diff *)
  | RootMatches (hash : string) | RootChanged (expected actual : string)
  | CommandChanged (expected actual : string)
  | SelectionChanged (expected_mode actual_mode : string)
  | MissingValue (label value : string) | AddedValue (label value : string)
  | OpCountChanged (expected actual : nat) | OpCount (n : nat)
  | OpsSame | OpsChanged (missing added : nat) | MissingOp (hash : string) | AddedOp (hash : string)
  | MoreOps (omitted : nat)
  (* print_output_delta *)
  | NoOutputs | OutputsMatch (n : nat) | OutputsChanged (changed missing added : nat)
  | ChangedOutput (path expected actual : string) | MissingOutput (hash path : string)
  | AddedOutput (hash path : string) | MoreOutputs.

Definition explain_attestation (att : Attestation) : list Line :=
  [RootHashIs (root_hash att); ProcessSetRoot (process_root att); Predicate (predicate_type att);
   CommandIs (format_command (command att)); SelectionMode (mode (output_selection att))]
  ++ (if bool_decide (artifacts (output_selection att) = []) then []
      else ArtifactsHeader :: (Artifact <$> artifacts (output_selection att)))
  ++ (if bool_decide (output_roots (output_selection att) = []) then []
      else OutputRootsHeader :: (OutputRoot <$> output_roots (output_selection att)))
  ++ [OutputCount (length (outputs att))]
  ++ ((λ o, OutputIs (out_hash o) (out_path o)) <$> outputs att)
  ++ [MerkleLeaves (leaf_count (tree att)); CommitmentSemantics].

(** ** Differences *)

(** Collecting into a [BTreeMap]: of two outputs with one path the later wins. *)
Definition outputs_by_path (outputs : list AttestedOutput) : gmap string string :=
  foldl (λ m o, <[out_path o := out_hash o]> m) ∅ outputs.

Definition print_string_list_delta (label : string) (expected actual : list string) : list Line :=
  let expected := btree_set expected in
  let actual := btree_set actual in
  (MissingValue label <$> filter (.∉ actual) expected)
  ++ (AddedValue label <$> filter (.∉ expected) actual).

(** The line of one path, if its hashes differ. *)
Definition output_line (expected actual : gmap string string) (path : string) : option Line :=
  match expected !! path, actual !! path with
  | Some e, Some a => if e =?= a then None else Some (ChangedOutput path e a)
  | Some e, None => Some (MissingOutput e path)
  | None, Some a => Some (AddedOutput a path)
  | None, None => None
  end.

(** The counting loop. *)
Definition count_outputs (expected actual : gmap string string) (paths : list string)
    : nat * nat * nat :=
  foldl (λ '(changed, missing, added) path,
    match output_line expected actual path with
    | Some (ChangedOutput _ _ _) => (S changed, missing, added)
    | Some (MissingOutput _ _) => (changed, S missing, added)
    | Some (AddedOutput _ _) => (changed, missing, S added)
    | _ => (changed, missing, added)
    end) (0, 0, 0) paths.

(** The printing loop, with the number of lines [shown] so far. *)
Fixpoint show_outputs (expected actual : gmap string string) (paths : list string) (shown : nat)
    : list Line :=
  match paths with
  | [] => []
  | path :: paths =>
      let '(line, shown) :=
        match output_line expected actual path with
        | Some line => ([line], S shown)
        | None => ([], shown)
        end in
      line ++ (if (20 <=? shown)%nat then [MoreOutputs] else show_outputs expected actual paths shown)
  end.

Definition print_output_delta (expected actual : list AttestedOutput) : list Line :=
  let expected_by_path := outputs_by_path expected in
  let actual_by_path := outputs_by_path actual in
  let paths := btree_set ((map_to_list expected_by_path).*1 ++ (map_to_list actual_by_path).*1) in
  if bool_decide (paths = []) then [NoOutputs]
  else
    let '(changed, missing, added) := count_outputs expected_by_path actual_by_path paths in
    if (changed =? 0)%nat && (missing =? 0)%nat && (added =? 0)%nat
    then [OutputsMatch (length paths)]
    else OutputsChanged changed missing added :: show_outputs expected_by_path actual_by_path paths 0.

Definition print_operation_delta (expected actual : MerkleTree) : list Line :=
  let operation_diff := diff_leaf_sets expected actual in
  if bool_decide (missing operation_diff = []) && bool_decide (added operation_diff = []) then [OpsSame]
  else
    let omitted := (length (missing operation_diff) - 12) + (length (added operation_diff) - 12) in
    OpsChanged (length (missing operation_diff)) (length (added operation_diff))
    :: (MissingOp <$> take 12 (missing operation_diff))
    ++ (AddedOp <$> take 12 (added operation_diff))
    ++ (if (0 <? omitted)%nat then [MoreOps omitted] else []).

Definition print_attestation_diff (expected actual : Attestation) : list Line :=
  (if root_hash expected =?= root_hash actual then [RootMatches (root_hash expected)]
   else [RootChanged (root_hash expected) (root_hash actual)])
  ++ (if command expected =?= command actual then []
      else [CommandChanged (format_command (command expected)) (format_command (command actual))])
  ++ (if output_selection expected =?= output_selection actual then []
      else SelectionChanged (mode (output_selection expected)) (mode (output_selection actual))
           :: print_string_list_delta "artifact" (artifacts (output_selection expected))
                (artifacts (output_selection actual))
           ++ print_string_list_delta "output root" (output_roots (output_selection expected))
                (output_roots (output_selection actual)))
  ++ print_output_delta (outputs expected) (outputs actual)
  ++ (if leaf_count (tree expected) =?= leaf_count (tree actual)
      then [OpCount (leaf_count (tree expected))]
      else [OpCountChanged (leaf_count (tree expected)) (leaf_count (tree actual))])
  ++ print_operation_delta (tree expected) (tree actual).
