(* ===== verification/ReportFacts.v ===== *)
(** * The reports of [diff] are exact

    The output section lists the differing paths in order, up to a bound; the
    whole report is silent exactly on equal documents. *)
From S2P Require Export Report.

(** ** Outputs *)

Section delta.
Context (expected actual : gmap string string).
Abbreviation line path := (output_line expected actual path).

Lemma output_line_cases path l : line path = Some l →
  (∃ e a, l = ChangedOutput path e a ∧ expected !! path = Some e ∧ actual !! path = Some a ∧ e ≠ a) ∨
  (∃ e, l = MissingOutput e path ∧ expected !! path = Some e ∧ actual !! path = None) ∨
  (∃ a, l = AddedOutput a path ∧ expected !! path = None ∧ actual !! path = Some a).
Proof.
  unfold output_line. destruct (expected !! path), (actual !! path); [case_bool_decide|..];
    intros Hl; simplify_eq; naive_solver.
Qed.

(** The two loops look at the same lines. *)
Lemma count_outputs_sum paths c m a c' m' a' :
  foldl (λ '(changed, missing, added) path,
    match line path with
    | Some (ChangedOutput _ _ _) => (S changed, missing, added)
    | Some (MissingOutput _ _) => (changed, S missing, added)
    | Some (AddedOutput _ _) => (changed, missing, S added)
    | _ => (changed, missing, added)
    end) (c, m, a) paths = (c', m', a') →
  c' + m' + a' = c + m + a + length (omap (output_line expected actual) paths).
Proof.
  revert c m a. induction paths as [|path paths IH]; intros c m a; csimpl.
  { intros [= <- <- <-]. simpl. lia. }
  destruct (line path) as [l|] eqn:Hl.
  - destruct (output_line_cases path l Hl) as [(? & ? & -> & _)|[(? & -> & _)|(? & -> & _)]];
      intros Hf%IH; csimpl; lia.
  - intros Hf%IH. exact Hf.
Qed.

Lemma show_outputs_cons path paths shown :
  show_outputs expected actual (path :: paths) shown
  = match line path with
    | Some l => l :: (if (20 <=? S shown)%nat then [MoreOutputs]
                      else show_outputs expected actual paths (S shown))
    | None => if (20 <=? shown)%nat then [MoreOutputs] else show_outputs expected actual paths shown
    end.
Proof. cbn [show_outputs]. by destruct (line path). Qed.

Lemma output_lines_cons path paths :
  omap (output_line expected actual) (path :: paths)
  = match line path with
    | Some l => l :: omap (output_line expected actual) paths
    | None => omap (output_line expected actual) paths
    end.
Proof. done. Qed.

Lemma show_outputs_eq paths shown : shown < 20 →
  show_outputs expected actual paths shown
  = let delta := omap (output_line expected actual) paths in
    if (shown + length delta <? 20)%nat then delta else take (20 - shown) delta ++ [MoreOutputs].
Proof.
  revert shown. induction paths as [|path paths IH]; intros shown Hs; cbv zeta.
  { by rewrite (proj2 (Nat.ltb_lt _ _)) by (simpl; lia). }
  rewrite show_outputs_cons, output_lines_cons. destruct (line path) as [l|]; cbn [length].
  - replace (20 - shown) with (S (20 - S shown)) by lia. rewrite Nat.add_succ_r.
    destruct (Nat.leb_spec 20 (S shown)) as [Hle|Hlt].
    + assert (shown = 19) as -> by lia. rewrite (proj2 (Nat.ltb_ge _ _)) by lia. reflexivity.
    + rewrite IH by lia. cbv zeta. rewrite Nat.add_succ_l. by destruct (_ <? 20)%nat.
  - rewrite (proj2 (Nat.leb_gt _ _)) by lia. by rewrite IH.
Qed.
End delta.

Lemma outputs_by_path_empty l : outputs_by_path l = ∅ ↔ l = [].
Proof.
  split; [|by intros ->]. destruct (l) as [|o l' _] using rev_ind; [done|]. unfold outputs_by_path.
  rewrite foldl_app. simpl. intros He%(f_equal (.!! out_path o)). rewrite lookup_insert_eq in He. done.
Qed.

Lemma btree_set_nil l : btree_set l = [] ↔ l = [].
Proof.
  split; [|by intros ->]. intros Hl. apply elem_of_nil_inv. intros s Hs.
  apply btree_set_elem in Hs. rewrite Hl in Hs. by apply elem_of_nil in Hs.
Qed.

Lemma keys_nil (m : gmap string string) : (map_to_list m).*1 = [] ↔ m = ∅.
Proof.
  split; [|intros ->; by rewrite map_to_list_empty]. intros Hm%fmap_nil_inv.
  by apply map_to_list_empty_iff.
Qed.

(** No path differs exactly when the two maps agree. *)
Lemma no_output_lines (e a : gmap string string) :
  omap (output_line e a) (btree_set ((map_to_list e).*1 ++ (map_to_list a).*1)) = [] ↔ e = a.
Proof.
  split.
  - intros Hnil. apply map_eq. intros path.
    assert (Hin : ∀ l, path ∈ btree_set ((map_to_list e).*1 ++ (map_to_list a).*1) →
      output_line e a path = Some l → False).
    { intros l Hp Hl. assert (Hl' : l ∈ omap (output_line e a)
        (btree_set ((map_to_list e).*1 ++ (map_to_list a).*1))) by (apply list_elem_of_omap; eauto).
      rewrite Hnil in Hl'. by apply elem_of_nil in Hl'. }
    assert (Hkey : ∀ (m : gmap string string) v, m !! path = Some v → path ∈ (map_to_list m).*1).
    { intros m v Hv. apply list_elem_of_fmap. exists (path, v). split; [done|]. by apply elem_of_map_to_list. }
    setoid_rewrite btree_set_elem in Hin. setoid_rewrite elem_of_app in Hin.
    unfold output_line in Hin. destruct (e !! path) as [x|] eqn:He, (a !! path) as [y|] eqn:Ha; [|exfalso..|done].
    + case_bool_decide; [congruence|]. exfalso. eapply Hin; eauto.
    + eapply Hin; eauto.
    + eapply Hin; eauto.
  - intros ->. apply elem_of_nil_inv. intros l (path & _ & Hl)%list_elem_of_omap.
    unfold output_line in Hl. destruct (a !! path); [|done]. by rewrite bool_decide_true in Hl.
Qed.

(** The output section of a report is exact up to its bound.  It says that no
    outputs are recorded exactly when both documents have none, and that all match
    exactly when they agree as maps from paths to hashes; otherwise the three
    counts add up to the number of differing paths, of which the first 20 are
    shown in the order of paths.  The note that more are omitted is printed from
    20 differences on, hence also when exactly 20 differ and none is omitted. *)
Theorem print_output_delta_exact expected actual :
  let e := outputs_by_path expected in
  let a := outputs_by_path actual in
  let paths := btree_set ((map_to_list e).*1 ++ (map_to_list a).*1) in
  let delta := omap (output_line e a) paths in
  let report := print_output_delta expected actual in
  (report = [NoOutputs] ↔ expected = [] ∧ actual = []) ∧
  (report = [OutputsMatch (length paths)] ↔ e = a ∧ ¬ (expected = [] ∧ actual = [])) ∧
  (e ≠ a → ∃ changed missing added,
     changed + missing + added = length delta ∧
     report = OutputsChanged changed missing added
       :: (if (length delta <? 20)%nat then delta else take 20 delta ++ [MoreOutputs])).
Proof.
  cbv zeta. unfold print_output_delta.
  set (e := outputs_by_path expected). set (a := outputs_by_path actual).
  set (paths := btree_set _). set (delta := omap _ paths).
  assert (Hdelta : delta = [] ↔ e = a) by apply no_output_lines.
  assert (Hnil : paths = [] ↔ expected = [] ∧ actual = []).
  { unfold paths. rewrite btree_set_nil, app_nil, !keys_nil.
    unfold e, a. by rewrite !outputs_by_path_empty. }
  destruct (count_outputs e a paths) as [[c m] x] eqn:Hc.
  pose proof (count_outputs_sum e a paths 0 0 0 c m x Hc) as Hsum. fold delta in Hsum.
  assert (Hshow : show_outputs e a paths 0
    = if (length delta <? 20)%nat then delta else take 20 delta ++ [MoreOutputs])
    by (rewrite show_outputs_eq by lia; done).
  assert (Hz : (c =? 0)%nat && (m =? 0)%nat && (x =? 0)%nat = true ↔ e = a).
  { rewrite <- Hdelta, !andb_true_iff, !Nat.eqb_eq, <- length_zero_iff_nil. lia. }
  destruct (decide (paths = [])) as [Hp|Hp].
  - rewrite bool_decide_true by done. assert (Hea : e = a) by (apply Hdelta; unfold delta; by rewrite Hp).
    split; [by split; [intros _; apply Hnil|]|]. split; [|done]. split; [done|]. tauto.
  - rewrite bool_decide_false by done. destruct (_ && _) eqn:Hzero.
    + assert (Hea : e = a) by by apply Hz. split; [split; [done|tauto]|]. split; [|done].
      split; [tauto|done].
    + assert (Hea : e ≠ a) by (intros Heq%Hz; congruence).
      split; [split; [done|tauto]|]. split; [split; [done|tauto]|]. intros _. exists c, m, x.
      rewrite Hshow. split; [lia|done].
Qed.

(** ** Operations *)

Lemma print_operation_delta_same t1 t2 :
  print_operation_delta t1 t2 = [OpsSame] ↔ ∀ s, s ∈ leaf_hashes t1 ↔ s ∈ leaf_hashes t2.
Proof.
  destruct (diff_leaf_sets_spec t1 t2) as (_ & _ & _ & _ & Hiff). rewrite <- Hiff. cbv zeta.
  unfold print_operation_delta. destruct (decide (missing (diff_leaf_sets t1 t2) = [])) as [Hm|Hm].
  - rewrite (bool_decide_true _ Hm). cbn [andb].
    destruct (decide (added (diff_leaf_sets t1 t2) = [])) as [Ha|Ha].
    + rewrite (bool_decide_true _ Ha). tauto.
    + rewrite (bool_decide_false _ Ha). split; [done|tauto].
  - rewrite (bool_decide_false _ Hm). split; [done|tauto].
Qed.

(** ** The whole report *)

(** The lines that report no difference beyond the roots. *)
Definition neutral (l : Line) : bool :=
  match l with
  | RootMatches _ | RootChanged _ _ | NoOutputs | OutputsMatch _ | OpCount _ | OpsSame => true
  | _ => false
  end.

Lemma neutral_delta o1 o2 : forallb neutral (print_output_delta o1 o2) = true →
  outputs_by_path o1 = outputs_by_path o2.
Proof.
  unfold print_output_delta. intros Hn.
  destruct (count_outputs (outputs_by_path o1) (outputs_by_path o2) _) as [[c m] a] eqn:Hc.
  apply count_outputs_sum in Hc. case_bool_decide as Hp.
  - apply no_output_lines. by rewrite Hp.
  - destruct (_ && _) eqn:Hz; [|done]. rewrite !andb_true_iff, !Nat.eqb_eq in Hz.
    apply no_output_lines, length_zero_iff_nil. lia.
Qed.

Lemma delta_refl o : print_output_delta o o = [NoOutputs] ∨ ∃ n, print_output_delta o o = [OutputsMatch n].
Proof.
  unfold print_output_delta. set (m := outputs_by_path o). set (paths := btree_set _).
  destruct (count_outputs m m paths) as [[c x] a] eqn:Hc. apply count_outputs_sum in Hc.
  assert (Hnil : omap (output_line m m) paths = []) by (by apply no_output_lines).
  rewrite Hnil in Hc. simpl in Hc. case_bool_decide; [by left|right].
  assert (c = 0 ∧ x = 0 ∧ a = 0) as (-> & -> & ->) by lia. by eexists.
Qed.

Lemma neutral_ops t1 t2 : forallb neutral (print_operation_delta t1 t2) = true →
  ∀ s, s ∈ leaf_hashes t1 ↔ s ∈ leaf_hashes t2.
Proof.
  intros Hn. apply print_operation_delta_same. unfold print_operation_delta in *. by case_match.
Qed.

Lemma outputs_by_path_lookup l o : NoDup (out_path <$> l) →
  outputs_by_path l !! out_path o = Some (out_hash o) ↔ o ∈ l.
Proof.
  induction l as [|x l IH] using rev_ind; intros Hnd.
  { split; [done|by intros ?%elem_of_nil]. }
 
  rewrite fmap_app, NoDup_app in Hnd. destruct Hnd as (Hl & Hx & _).
  unfold outputs_by_path in *. rewrite foldl_app. cbn [foldl]. rewrite elem_of_app, list_elem_of_singleton.
  destruct (decide (out_path o = out_path x)) as [Heq|Hne].
  - rewrite Heq, lookup_insert_eq. split.
    + intros [= Hh]. right. destruct o, x; simpl in *. congruence.
    + intros [Ho| ->]; [|done]. exfalso. apply (Hx (out_path x)); [|set_solver].
      apply list_elem_of_fmap. by exists o.
  - rewrite lookup_insert_ne by done. rewrite IH by done. split; [tauto|]. intros [?| ->]; [done|congruence].
Qed.

Lemma same_outputs o1 o2 : NoDup (out_path <$> o1) → NoDup (out_path <$> o2) →
  outputs_by_path o1 = outputs_by_path o2 → o1 ≡ₚ o2.
Proof.
  intros H1 H2 Heq. apply NoDup_Permutation; [by eapply NoDup_fmap_1..|]. intros o.
  rewrite <- (outputs_by_path_lookup o1) by done. rewrite Heq. by apply outputs_by_path_lookup.
Qed.

Lemma leaf_hashes_build `{Sha256} ops : leaf_hashes (build_merkle_tree ops) = op_hash <$> ops.
Proof. by destruct ops. Qed.

(** A document as [repx trace] makes it. *)
Definition made `{Sha256} (att : Attestation) : Prop :=
  ∃ ops command sel outs, strictly_sorted (op_hash <$> ops) ∧ NoDup (out_path <$> outs) ∧
    att = new_with_outputs (build_merkle_tree ops) command sel outs.

(** C32. The report of [diff] is complete: for two documents as [repx trace] makes
    them, it shows no difference beyond the root hashes exactly when the documents
    are equal, so a mismatch is never left unexplained. *)
Theorem diff_explains_mismatch `{Sha256} expected actual : made expected → made actual →
  forallb neutral (print_attestation_diff expected actual) = true ↔ expected = actual.
Proof.
  intros (ops1 & c1 & s1 & o1 & Hops1 & Hnd1 & ->) (ops2 & c2 & s2 & o2 & Hops2 & Hnd2 & ->).
  set (a1 := new_with_outputs _ c1 _ _). set (a2 := new_with_outputs _ c2 _ _). split.
  - unfold print_attestation_diff. rewrite !forallb_app, !andb_true_iff.
    intros (_ & Hcmd & Hsel & Houts & _ & Hdiff).
    assert (Hc : command a1 = command a2)
      by (clear -Hcmd; clearbody a1 a2; by case_bool_decide).
    assert (Hs : output_selection a1 = output_selection a2)
      by (clear -Hsel; clearbody a1 a2; by case_bool_decide).
    pose proof (neutral_delta _ _ Houts) as Ho. pose proof (neutral_ops _ _ Hdiff) as Hl.
    assert (Hsort : ∀ o, NoDup (out_path <$> o) → NoDup (out_path <$> sort_outputs o)).
    { intros o. unfold sort_outputs. by rewrite (merge_sort_Permutation output_le o). }
    assert (Hperm : outputs a1 = outputs a2).
    { apply sort_outputs_perm_eq. pose proof (same_outputs _ _ (Hsort o1 Hnd1) (Hsort o2 Hnd2) Ho) as Hp.
      unfold sort_outputs in Hp. by rewrite !merge_sort_Permutation in Hp. }
    assert (Hleaves : op_hash <$> ops1 = op_hash <$> ops2).
    { apply strictly_sorted_unique; [done..|]. intros h. specialize (Hl h).
      unfold a1, a2 in Hl. cbn [tree new_with_outputs] in Hl. by rewrite !leaf_hashes_build in Hl. }
    assert (Htree : build_merkle_tree ops1 = build_merkle_tree ops2)
      by (unfold build_merkle_tree; by rewrite Hleaves).
    unfold a1, a2, new_with_outputs in *. cbn [command output_selection outputs] in Hc, Hs, Hperm.
    cbv zeta. rewrite Htree, Hc, Hs, Hperm. done.
  - intros <-. unfold print_attestation_diff. rewrite !bool_decide_true by done.
    rewrite !forallb_app.
    assert (Ho : print_output_delta (outputs a1) (outputs a1) = [NoOutputs] ∨
      ∃ n, print_output_delta (outputs a1) (outputs a1) = [OutputsMatch n]) by apply delta_refl.
    assert (Hd : print_operation_delta (tree a1) (tree a1) = [OpsSame])
      by (by apply print_operation_delta_same).
    rewrite Hd. by destruct Ho as [->|[n ->]].
Qed.
