(* ===== verification/Tracer.v ===== *)
(** * The event collector ([repx/src/tracer.rs])

    The collector turns the raw records of the ring buffer into traced events.
    Its state is [Collector] (the code's [EventCollectorState]); each event kind
    is one definition, and [process_event] dispatches on the kind. What the
    operating system answers while one event is processed is an [Env]: links,
    canonical paths, metadata, opened files, and the present contents of files
    opened earlier. Reading a file may panic ([FileIdentity]), so the steps are
    [partial]. *)
From S2P Require Export FileIdentity Common Events.

Definition AT_FDCWD : Z := -100.
Definition O_TRUNC : Z := 512.
Definition RENAME_EXCHANGE : Z := Z.shiftl 1 1.

(** A raw record: a timestamp and the bytes of an [Event]. *)
Abbreviation RawEvent := (Z * string)%type.

(** ** The environment *)

Section env.
Context (Handle : Type).

Record Env := mkEnv {
  env_read_link : string → option string;
  env_canonicalize : string → option string;
  env_metadata : string → io_result Metadata;
  env_open : string → io_result Handle;
  env_file : Handle → File;
  env_try_clone : Handle → option Handle
}.
End env.
Arguments env_read_link {Handle}. Arguments env_canonicalize {Handle}.
Arguments env_metadata {Handle}. Arguments env_open {Handle}.
Arguments env_file {Handle}. Arguments env_try_clone {Handle}.

Definition env_fs {Handle} (env : Env Handle) : FileSystem := {|
  fs_metadata := env_metadata env;
  fs_open path :=
    match env_open env path with IoOk h => IoOk (env_file env h) | IoErr k => IoErr k end
|}.

(** [open_regular(path).ok().flatten()]. *)
Definition open_handle {Handle} (env : Env Handle) (path : string) : option Handle :=
  match env_metadata env path with
  | IoErr _ => None
  | IoOk md =>
      if is_file md then
        match env_open env path with IoOk h => Some h | IoErr _ => None end
      else None
  end.

Definition strip_deleted_suffix (path : string) : string :=
  default path (strip_suffix " (deleted)" path).

Definition paths_agree {Handle} (env : Env Handle) (raw_path proc_target : string) : bool :=
  if raw_path =?= proc_target then true
  else
    match env_canonicalize env raw_path, env_canonicalize env proc_target with
    | Some raw, Some target => raw =?= target
    | _, _ => false
    end
    || (negb (path_is_absolute raw_path) && path_ends_with proc_target raw_path).

(** [decode_event_path]. *)
Definition decode_event_path (path : string) (path_len : Z) : option string :=
  let path_len := Z.to_nat path_len `min` String.length path in
  let bytes := str_take path_len path in
  if utf8_valid bytes then
    let text := trim_end_char "000" bytes in
    if text =?= "" then None else Some text
  else None.

(** [from_utf8(..).unwrap_or("<invalid utf8>").trim_end_matches('\0')]. *)
Definition decode_lossy (path : string) (path_len : Z) : string :=
  let path_len := Z.to_nat path_len `min` String.length path in
  let bytes := str_take path_len path in
  trim_end_char "000" (if utf8_valid bytes then bytes else "<invalid utf8>").

(** ** Open files *)

Section collector.
Context `{Sha256} {Handle : Type}.

Record OpenFileState := mkOpenFile {
  of_path : string;
  of_handle : option Handle;
  of_flags : Z;
  of_open_observation : option FileObservation
}.

(** [OpenFileState::inherit]. *)
Definition inherit (env : Env Handle) (s : OpenFileState) : OpenFileState :=
  mkOpenFile (of_path s) (of_handle s ≫= env_try_clone env) (of_flags s) (of_open_observation s).

(** [OpenFileState::observe_current]. *)
Definition observe_current (env : Env Handle) (s : OpenFileState) : partial FileObservation :=
  match of_handle s with
  | Some h => observe_file (env_file env h) (of_path s)
  | None => @observe_path _ (env_fs env) (of_path s)
  end.

(** [OpenFileState::open_observation]: the observation, and the state that
    remembers it. *)
Definition open_observation (env : Env Handle) (s : OpenFileState)
    : partial (FileObservation * OpenFileState) :=
  match of_open_observation s with
  | Some observation => Returns (observation, s)
  | None =>
      observation ← observe_current env s;
      Returns (observation, mkOpenFile (of_path s) (of_handle s) (of_flags s) (Some observation))
  end.

(** [OpenFileState::close_observation]. *)
Definition close_observation (env : Env Handle) (s : OpenFileState)
    : partial (option FileObservation) :=
  if can_write (of_flags s) then
    observation ← observe_current env s; Returns (Some observation)
  else Returns None.

Record PendingRename := mkRename {
  pr_process : ProcessInstance;
  pr_from_path : string;
  pr_flags : Z;
  pr_external : bool
}.

(** ** State *)

Record Collector := mkCollector {
  root_process : ProcessInstance;
  root_cwd : string;
  root_initial_exec_pending : bool;
  current_processes : gmap Z ProcessInstance;
  next_generations : gmap Z Z;
  process_cwds : gmap ProcessLifetime string;
  fd_table : gmap (ProcessLifetime * Z) OpenFileState;
  pending_renames : gmap (Z * Z) PendingRename;
  malformed_events : Z
}.

Definition with_current (m : gmap Z ProcessInstance) (st : Collector) : Collector :=
  mkCollector (root_process st) (root_cwd st) (root_initial_exec_pending st) m
    (next_generations st) (process_cwds st) (fd_table st) (pending_renames st)
    (malformed_events st).
Definition with_generations (m : gmap Z Z) (st : Collector) : Collector :=
  mkCollector (root_process st) (root_cwd st) (root_initial_exec_pending st)
    (current_processes st) m (process_cwds st) (fd_table st) (pending_renames st)
    (malformed_events st).
Definition with_cwds (m : gmap ProcessLifetime string) (st : Collector) : Collector :=
  mkCollector (root_process st) (root_cwd st) (root_initial_exec_pending st)
    (current_processes st) (next_generations st) m (fd_table st) (pending_renames st)
    (malformed_events st).
Definition with_fds (m : gmap (ProcessLifetime * Z) OpenFileState) (st : Collector) : Collector :=
  mkCollector (root_process st) (root_cwd st) (root_initial_exec_pending st)
    (current_processes st) (next_generations st) (process_cwds st) m (pending_renames st)
    (malformed_events st).
Definition with_renames (m : gmap (Z * Z) PendingRename) (st : Collector) : Collector :=
  mkCollector (root_process st) (root_cwd st) (root_initial_exec_pending st)
    (current_processes st) (next_generations st) (process_cwds st) (fd_table st) m
    (malformed_events st).
Definition with_malformed (n : Z) (st : Collector) : Collector :=
  mkCollector (root_process st) (root_cwd st) (root_initial_exec_pending st)
    (current_processes st) (next_generations st) (process_cwds st) (fd_table st)
    (pending_renames st) n.
Definition without_initial_exec (st : Collector) : Collector :=
  mkCollector (root_process st) (root_cwd st) false
    (current_processes st) (next_generations st) (process_cwds st) (fd_table st)
    (pending_renames st) (malformed_events st).

(** [EventCollectorState::new]. *)
Definition new_collector (root_pid : Z) (root_cwd : string) : Collector :=
  let root := mkInstance (mkLifetime root_pid 0) 0 in
  mkCollector root root_cwd true {[root_pid := root]} {[root_pid := 1%Z]}
    {[lifetime root := root_cwd]} ∅ ∅ 0.

Definition start_process (pid : Z) (st : Collector) : Collector * ProcessInstance :=
  let generation := default 0%Z (next_generations st !! pid) in
  let process := mkInstance (mkLifetime pid generation) 0 in
  let st := with_generations (<[pid := sat_add_u32 generation 1]> (next_generations st)) st in
  (with_current (<[pid := process]> (current_processes st)) st, process).

Definition current_process (pid : Z) (st : Collector) : Collector * ProcessInstance :=
  match current_processes st !! pid with
  | Some process => (st, process)
  | None => start_process pid st
  end.

Definition fork_process (env : Env Handle) (parent_pid child_pid : Z) (st : Collector)
    : Collector * (ProcessInstance * ProcessInstance) :=
  let '(st, parent) := current_process parent_pid st in
  let '(st, child) := start_process child_pid st in
  let st :=
    match process_cwds st !! lifetime parent with
    | Some cwd => with_cwds (<[lifetime child := cwd]> (process_cwds st)) st
    | None => st
    end in
  let inherited_fds := prod_map id (inherit env) <$> inherited (lifetime parent) (fd_table st) in
  let st := with_fds
    (foldl (λ m '(fd, s), <[(lifetime child, fd) := s]> m) (fd_table st) inherited_fds) st in
  (st, (parent, child)).

Definition exec_process (process_id : Z) (st : Collector) : Collector * option ProcessInstance :=
  if (process_id =?= pid (lifetime (root_process st))) && root_initial_exec_pending st
  then (without_initial_exec st, None)
  else
    let '(st, process) := current_process process_id st in
    let process := mkInstance (lifetime process) (sat_add_u32 (exec_epoch process) 1) in
    (with_current (<[process_id := process]> (current_processes st)) st, Some process).

Definition exit_process (pid : Z) (st : Collector) : Collector * ProcessInstance :=
  let '(st, process) := current_process pid st in
  (with_current (delete pid (current_processes st)) st, process).

Definition resolve_path (env : Env Handle) (process : ProcessInstance) (dfd : Z)
    (raw_path : string) (st : Collector) : Collector * string :=
  if starts_with "/" raw_path then (st, raw_path)
  else
    let pid := decimal (pid (lifetime process)) in
    let proc_path :=
      if dfd =?= AT_FDCWD then "/proc/" +:+ pid +:+ "/cwd"
      else "/proc/" +:+ pid +:+ "/fd/" +:+ decimal dfd in
    match env_read_link env proc_path with
    | Some base =>
        let st :=
          if dfd =?= AT_FDCWD then with_cwds (<[lifetime process := base]> (process_cwds st)) st
          else st in
        (st, path_push base raw_path)
    | None =>
        if dfd =?= AT_FDCWD then
          match process_cwds st !! lifetime process with
          | Some base => (st, path_push base raw_path)
          | None => (st, path_push (root_cwd st) raw_path)
          end
        else (st, raw_path)
    end.

Definition rewrite_open_file (from_path to_path : string) (flags : Z) (s : OpenFileState)
    : OpenFileState :=
  let replacement :=
    match rewrite_path_prefix (of_path s) from_path to_path with
    | Some p => Some p
    | None =>
        if negb (Z.land flags RENAME_EXCHANGE =?= 0%Z)
        then rewrite_path_prefix (of_path s) to_path from_path else None
    end in
  match replacement with
  | Some p => mkOpenFile p (of_handle s) (of_flags s) (of_open_observation s)
  | None => s
  end.

(** [rewrite_open_file_paths]. *)
Definition rewrite_open_file_paths (from_path to_path : string) (flags : Z) (st : Collector)
    : Collector := with_fds (rewrite_open_file from_path to_path flags <$> fd_table st) st.

(** ** The event kinds

    A step returns the new state, the events it pushes and the boolean result of
    [process_event]: [false] marks the record as malformed. *)
Abbreviation Step := (partial (Collector * list TracedEvent * bool)).

Definition is_watched (watch_prefixes : list string) (path : string) : bool :=
  existsb (λ prefix, is_path_within path prefix) watch_prefixes.

(** The target of a [/proc] link, when it denotes the path the event names. *)
Definition agreed_target (env : Env Handle) (link raw : string) : option string :=
  target ← env_read_link env link;
  let target := strip_deleted_suffix target in
  if paths_agree env raw target then Some target else None.

Section steps.
Context (env : Env Handle) (watch_prefixes : list string).

Definition process_file_open (payload : FileOpenEvent) (external : bool) (st : Collector) : Step :=
  let '(st, process) := current_process (fo_tgid payload) st in
  let raw_path := decode_lossy (fo_path payload) (fo_path_len payload) in
  let '(st, raw_resolved) := resolve_path env process (fo_dfd payload) raw_path st in
  let proc_fd_path :=
    "/proc/" +:+ decimal (fo_tgid payload) +:+ "/fd/" +:+ decimal (fo_fd payload) in
  let target := agreed_target env proc_fd_path raw_resolved in
  let path := default raw_resolved target in
  if external && negb (is_watched watch_prefixes path) then Returns (st, [], true)
  else
    let handle_path := match target with Some _ => proc_fd_path | None => path end in
    let handle := open_handle env handle_path in
    let truncated :=
      (0 <=? fo_fd payload)%Z && negb (Z.land (fo_flags payload) O_TRUNC =?= 0%Z) in
    let open_state := mkOpenFile path handle (fo_flags payload)
      (if truncated then Some (Content EMPTY_CONTENT_HASH) else None) in
    '(observation, open_state) ← open_observation env open_state;
    let st :=
      if (0 <=? fo_fd payload)%Z
      then with_fds (<[(lifetime process, fo_fd payload) := open_state]> (fd_table st)) st
      else st in
    Returns (st, [FileOpen process (of_path open_state) (fo_flags payload) (fo_fd payload)
                    external observation], true).

Definition process_file_close (payload : FileCloseEvent) (external : bool) (st : Collector) : Step :=
  let '(st, process) := current_process (fc_tgid payload) st in
  let open_state := fd_table st !! (lifetime process, fc_fd payload) in
  let st := with_fds (delete (lifetime process, fc_fd payload) (fd_table st)) st in
  match open_state with
  | None =>
      if external then Returns (st, [], true)
      else Returns (st, [FileClose process (fc_fd payload) None external None], true)
  | Some open_state =>
      observation ← close_observation env open_state;
      Returns (st, [FileClose process (fc_fd payload) (Some (of_path open_state)) external
                      observation], true)
  end.

Definition process_file_mmap (payload : FileMmapEvent) (external : bool) (st : Collector) : Step :=
  let '(st, process) := current_process (fm_tgid payload) st in
  match fd_table st !! (lifetime process, fm_fd payload) with
  | Some open_state =>
      '(observation, open_state) ← open_observation env open_state;
      let st := with_fds (<[(lifetime process, fm_fd payload) := open_state]> (fd_table st)) st in
      Returns (st, [FileMmap process (fm_fd payload) (fm_prot payload) (fm_flags payload)
                      (Some (of_path open_state)) external (Some observation)], true)
  | None =>
      if external then Returns (st, [], true)
      else Returns (st, [FileMmap process (fm_fd payload) (fm_prot payload) (fm_flags payload)
                           None external None], true)
  end.

Definition process_rename_source (payload : FilePathEvent) (external : bool) (st : Collector)
    : Step :=
  let '(st, process) := current_process (fp_tgid payload) st in
  match decode_event_path (fp_path payload) (fp_path_len payload) with
  | None => Returns (st, [], false)
  | Some raw_path =>
      let '(st, path) := resolve_path env process (fp_dfd payload) raw_path st in
      let pending := mkRename process path (fp_flags payload) external in
      Returns (with_renames (<[(fp_pid payload, fp_operation_id payload) := pending]>
                               (pending_renames st)) st, [], true)
  end.

Definition process_rename_destination (payload : FilePathEvent) (external : bool)
    (st : Collector) : Step :=
  let key := (fp_pid payload, fp_operation_id payload) in
  match pending_renames st !! key with
  | None => Returns (st, [], false)
  | Some pending =>
      let st := with_renames (delete key (pending_renames st)) st in
      match decode_event_path (fp_path payload) (fp_path_len payload) with
      | None => Returns (st, [], false)
      | Some raw_path =>
          let process := pr_process pending in
          let from_path := pr_from_path pending in
          let flags := pr_flags pending in
          let '(st, to_path) := resolve_path env process (fp_dfd payload) raw_path st in
          let external := pr_external pending || external in
          if external && negb (is_watched watch_prefixes from_path
                               || is_watched watch_prefixes to_path)
          then Returns (st, [], true)
          else
            let st := rewrite_open_file_paths from_path to_path flags st in
            observation ← @observe_path _ (env_fs env) to_path;
            reverse ←
              (if negb (Z.land flags RENAME_EXCHANGE =?= 0%Z)
               then o ← @observe_path _ (env_fs env) from_path; Returns (Some o)
               else Returns None);
            Returns (st,
              FileRename process from_path to_path flags external observation
              :: match reverse with
                 | Some o => [FileRename process to_path from_path flags external o]
                 | None => []
                 end, true)
      end
  end.

(** [iter_fds] is the order in which [fd_table.values_mut()] visits the table. *)
Definition process_file_unlink
    (iter_fds : gmap (ProcessLifetime * Z) OpenFileState → list OpenFileState)
    (payload : FilePathEvent) (external : bool) (st : Collector) : Step :=
  let '(st, process) := current_process (fp_tgid payload) st in
  match decode_event_path (fp_path payload) (fp_path_len payload) with
  | None => Returns (st, [], false)
  | Some raw_path =>
      let '(st, path) := resolve_path env process (fp_dfd payload) raw_path st in
      if external && negb (is_watched watch_prefixes path) then Returns (st, [], true)
      else
        observation ←
          match List.find (λ s, of_path s =?= path) (iter_fds (fd_table st)) with
          | Some s => observe_current env s
          | None => @observe_path _ (env_fs env) path
          end;
        Returns (st, [FileUnlink process path (fp_flags payload) external observation], true)
  end.

Definition process_exec (payload : ProcessExecEvent) (st : Collector) : Step :=
  let '(st, process) := exec_process (pe_tgid payload) st in
  match process with
  | None => Returns (st, [], true)
  | Some process =>
      let raw_filename := decode_lossy (pe_filename payload) (pe_filename_len payload) in
      let '(st, raw_filename) := resolve_path env process AT_FDCWD raw_filename st in
      let proc_exe := "/proc/" +:+ decimal (pe_tgid payload) +:+ "/exe" in
      let target := agreed_target env proc_exe raw_filename in
      let filename := default raw_filename target in
      let executable_path := match target with Some _ => proc_exe | None => filename end in
      observation ←
        match open_handle env executable_path with
        | Some h => observe_file (env_file env h) filename
        | None => @observe_path _ (env_fs env) filename
        end;
      Returns (st, [Exec process observation], true)
  end.

Definition process_fork (payload : ProcessForkEvent) (st : Collector) : Step :=
  let '(st, (parent, child)) :=
    fork_process env (pf_parent_pid payload) (pf_child_pid payload) st in
  Returns (st, [Fork parent child], true).

Definition process_exit (payload : ProcessExitEvent) (st : Collector) : Step :=
  let '(st, process) := current_process (px_tgid payload) st in
  Returns (st, [Exit process (px_exit_code payload)], true).

(** [process_event]. *)
Definition process_event
    (iter_fds : gmap (ProcessLifetime * Z) OpenFileState → list OpenFileState)
    (event : Event) (st : Collector) : Step :=
  let payload := ev_payload event in
  let external := ev_source event =?= 1%Z in
  match kind_try_from (ev_kind event) with
  | None => Returns (st, [], false)
  | Some KindFileOpen => process_file_open (payload_file_open payload) external st
  | Some KindFileClose => process_file_close (payload_file_close payload) external st
  | Some KindFileMmap => process_file_mmap (payload_file_mmap payload) external st
  | Some KindFileRenameSource => process_rename_source (payload_file_path payload) external st
  | Some KindFileRenameDestination =>
      process_rename_destination (payload_file_path payload) external st
  | Some KindFileUnlink => process_file_unlink iter_fds (payload_file_path payload) external st
  | Some KindProcessExec => process_exec (payload_process_exec payload) st
  | Some KindProcessFork => process_fork (payload_process_fork payload) st
  | Some KindProcessExit => process_exit (payload_process_exit payload) st
  end.
End steps.

(** ** Draining, sorting and finishing *)

(** One item of the ring buffer in [drain_ring_into_buffer]. *)
Definition drain_item (data : string) (buffered : list RawEvent * Z) : list RawEvent * Z :=
  let '(raw_events, malformed) := buffered in
  if (String.length data <? event_size)%nat then (raw_events, sat_add_u64 malformed 1)
  else (raw_events ++ [(read_u64 (offset_of event_header 3) data, data)], malformed).

Definition drain_ring (items : list string) (buffered : list RawEvent * Z) : list RawEvent * Z :=
  foldl (λ b data, drain_item data b) buffered items.

(** What one event is processed against: the environment, and the iteration
    order of the descriptor table. *)
Record Moment := mkMoment {
  moment_env : Env Handle;
  moment_fds : gmap (ProcessLifetime * Z) OpenFileState → list OpenFileState
}.

Section finish.
Context (watch_prefixes : list string).

(** The body of the loop of [process_buffered_events]. *)
Definition process_buffered_event (moment : Moment) (data : string) (st : Collector)
    (events : list TracedEvent) : partial (Collector * list TracedEvent) :=
  if (String.length data <? event_size)%nat then
    Returns (with_malformed (sat_add_u64 (malformed_events st) 1) st, events)
  else
    '(st, pushed, ok) ← process_event (moment_env moment) watch_prefixes (moment_fds moment)
                          (read_event data) st;
    let st := if ok : bool then st else with_malformed (sat_add_u64 (malformed_events st) 1) st in
    Returns (st, events ++ pushed).

(** [moments] gives the [i]-th moment of the processing. *)
Fixpoint process_buffered_events (moments : nat → Moment) (i : nat) (raw_events : list RawEvent)
    (st : Collector) (events : list TracedEvent) : partial (Collector * list TracedEvent) :=
  match raw_events with
  | [] => Returns (st, events)
  | (_, data) :: raw_events =>
      '(st, events) ← process_buffered_event (moments i) data st events;
      process_buffered_events moments (S i) raw_events st events
  end.

(** The loop over [events.iter_mut().rev()]: the last exit of the root PID gets
    the real exit code; [None] if there is none. *)
Fixpoint set_last_exit (child_pid real_exit_code : Z) (reversed : list TracedEvent)
    : option (list TracedEvent) :=
  match reversed with
  | [] => None
  | Exit process exit_code :: rest =>
      if pid (lifetime process) =?= child_pid then Some (Exit process real_exit_code :: rest)
      else cons (Exit process exit_code) <$> set_last_exit child_pid real_exit_code rest
  | e :: rest => cons e <$> set_last_exit child_pid real_exit_code rest
  end.

Definition synthesize_exit (child_pid real_exit_code : Z) (st : Collector)
    (events : list TracedEvent) : Collector * list TracedEvent :=
  match set_last_exit child_pid real_exit_code (reverse events) with
  | Some reversed => (st, reverse reversed)
  | None =>
      let '(st, process) := exit_process child_pid st in
      (st, events ++ [Exit process real_exit_code])
  end.

(** The renames whose destination never arrived count as malformed. *)
Definition drop_unpaired_renames (st : Collector) : Collector :=
  with_renames ∅ (with_malformed
    (sat_add_u64 (malformed_events st) (Z.of_nat (size (pending_renames st)))) st).

(** [finish_with_sort] once the ring buffer is drained; [sort] stands for
    [sort_unstable_by_key(|(ts, _)| *ts)]. *)
Definition finish_with_sort (sort : list RawEvent → list RawEvent) (moments : nat → Moment)
    (child_pid real_exit_code : Z) (raw_events : list RawEvent) (st : Collector)
    : partial (Collector * list TracedEvent) :=
  '(st, events) ← process_buffered_events moments 0 (sort raw_events) st [];
  let '(st, events) := synthesize_exit child_pid real_exit_code st events in
  Returns (drop_unpaired_renames st, events).

(** [collect_events] and the end of [trace_command]: the items of the ring
    buffer in the order they are drained, then the trace with the root's initial
    exec in front, and the number of events lost. *)
Definition trace (sort : list RawEvent → list RawEvent) (moments : nat → Moment)
    (child_pid real_exit_code : Z) (cwd : string) (root_observation : FileObservation)
    (drop_count : Z) (items : list string)
    : partial (list TracedEvent * ProcessInstance * Z) :=
  let st := new_collector child_pid cwd in
  let root := root_process st in
  let '(raw_events, malformed) := drain_ring items ([], malformed_events st) in
  '(st, events) ← finish_with_sort sort moments child_pid real_exit_code raw_events
                    (with_malformed malformed st);
  Returns (Exec root root_observation :: events, root,
           sat_add_u64 drop_count (malformed_events st)).
End finish.
End collector.
