(* ===== verification/TracerFacts.v ===== *)
(** * What the collector guarantees

    The trace does not depend on the order in which the per-CPU buffers are
    drained; no record is lost silently; and external processes are reported only
    for watched paths. *)
From S2P Require Export Tracer.

Section tracer_facts.
Context `{Sha256} {Handle : Type}.
Abbreviation State := (@Collector Handle).

(** ** Sorting by timestamp *)

(** What [sort_unstable_by_key(|(ts, _)| *ts)] promises. *)
Definition sorts_by_timestamp (sort : list RawEvent → list RawEvent) : Prop :=
  ∀ l, sort l ≡ₚ l ∧ StronglySorted (λ a b : RawEvent, (a.1 ≤ b.1)%Z) (sort l).

Lemma sorts_unique sort1 sort2 l1 l2 :
  sorts_by_timestamp sort1 → sorts_by_timestamp sort2 → l1 ≡ₚ l2 → NoDup l1.*1 →
  sort1 l1 = sort2 l2.
Proof.
  intros H1 H2 Hp Hnd. destruct (H1 l1) as [P1 S1]. destruct (H2 l2) as [P2 S2].
  apply (StronglySorted_unique_strong (λ a b : RawEvent, (a.1 ≤ b.1)%Z)); [|done|done|].
  - intros [t1 d1] [t2 d2] Hi1 Hi2 Hle1 Hle2. simpl in *. assert (t1 = t2) as <- by lia.
    rewrite P1 in Hi1. rewrite P2, <- Hp in Hi2.
    apply list_elem_of_lookup in Hi1 as [i Hi1]. apply list_elem_of_lookup in Hi2 as [j Hi2].
    assert (i = j) as <-.
    { eapply NoDup_lookup; [exact Hnd|..]; by rewrite list_lookup_fmap, ?Hi1, ?Hi2. }
    congruence.
  - by rewrite P1, P2.
Qed.

(** The records that are long enough, with their timestamps. *)
Definition full_records (items : list string) : list RawEvent :=
  (λ data, (read_u64 (offset_of event_header 3) data, data))
    <$> List.filter (λ data, negb (String.length data <? event_size)%nat) items.
Definition short_records (items : list string) : nat :=
  length (List.filter (λ data, (String.length data <? event_size)%nat) items).

(** Counting in saturating steps. *)
Definition sat_count (n : Z) (k : nat) : Z := Nat.iter k (λ n, sat_add_u64 n 1) n.

Lemma sat_count_shift n k : sat_count (sat_add_u64 n 1) k = sat_add_u64 (sat_count n k) 1.
Proof. unfold sat_count. induction k as [|k IH]; [done|]. simpl. by rewrite IH. Qed.

Lemma drain_ring_eq items l n :
  drain_ring items (l, n) = (l ++ full_records items, sat_count n (short_records items)).
Proof.
  unfold drain_ring, full_records, short_records. revert l n.
  induction items as [|data items IH]; intros l n; cbn [foldl List.filter].
  - by rewrite app_nil_r.
  - unfold drain_item at 2. destruct (String.length data <? event_size)%nat; cbn [negb].
    + rewrite IH. f_equal. cbn [length]. simpl. by rewrite sat_count_shift.
    + rewrite IH. csimpl. by rewrite <- app_assoc.
Qed.

Lemma filter_Permutation_bool {A} (f : A → bool) l1 l2 :
  l1 ≡ₚ l2 → List.filter f l1 ≡ₚ List.filter f l2.
Proof.
  induction 1 as [|x l1 l2 Hp IH|x y l|l1 l2 l3 _ IH1 _ IH2]; simpl; [done| | |by trans (List.filter f l2)].
  - by destruct (f x); [constructor|].
  - destruct (f x), (f y); try done. apply Permutation_swap.
Qed.

(** C14. The trace is independent of the order in which records are drained from
    the per-CPU ring buffers, and of the sorting algorithm: if the timestamps of
    the complete records are distinct, two drains of the same records yield the
    same events, root and loss count. *)
Theorem trace_arrival_order_irrelevant watch sort1 sort2 (moments : nat → @Moment Handle)
    child_pid code cwd root_obs drops items1 items2 :
  sorts_by_timestamp sort1 → sorts_by_timestamp sort2 → items1 ≡ₚ items2 →
  NoDup (full_records items1).*1 →
  trace watch sort1 moments child_pid code cwd root_obs drops items1
  = trace watch sort2 moments child_pid code cwd root_obs drops items2.
Proof.
  intros H1 H2 Hp Hnd. unfold trace. rewrite !drain_ring_eq. simpl.
  assert (Hfull : full_records items1 ≡ₚ full_records items2)
    by (apply fmap_Permutation, filter_Permutation_bool, Hp).
  assert (Hshort : short_records items1 = short_records items2)
    by (apply Permutation_length, filter_Permutation_bool, Hp).
  unfold finish_with_sort. rewrite Hshort.
  by rewrite (sorts_unique sort1 sort2 _ _ H1 H2 Hfull Hnd).
Qed.

(** ** No record is lost silently *)

(** A run in which every record is complete and accepted. *)
Inductive accepted_run (watch : list string) (moments : nat → @Moment Handle)
    : nat → list RawEvent → State → list TracedEvent → State → list TracedEvent → Prop :=
  | accepted_nil i st events : accepted_run watch moments i [] st events st events
  | accepted_cons i ts data raw st events st1 pushed st2 events2 :
      event_size ≤ String.length data →
      process_event (moment_env (moments i)) watch (moment_fds (moments i)) (read_event data) st
        = Returns (st1, pushed, true) →
      accepted_run watch moments (S i) raw st1 (events ++ pushed) st2 events2 →
      accepted_run watch moments i ((ts, data) :: raw) st events st2 events2.

Lemma current_process_malformed pid (st : State) :
  malformed_events (current_process pid st).1 = malformed_events st.
Proof. unfold current_process. by case_match. Qed.

Lemma resolve_path_malformed env p dfd raw (st : State) :
  malformed_events (resolve_path env p dfd raw st).1 = malformed_events st.
Proof. unfold resolve_path. repeat case_match; done. Qed.

Lemma exec_process_malformed pid (st : State) :
  malformed_events (exec_process pid st).1 = malformed_events st.
Proof.
  unfold exec_process. case_match; [done|]. pose proof (current_process_malformed pid st) as Hc.
  by destruct (current_process pid st).
Qed.

Lemma fork_process_malformed env p c (st : State) :
  malformed_events (fork_process env p c st).1 = malformed_events st.
Proof.
  unfold fork_process. pose proof (current_process_malformed p st) as Hc.
  destruct (current_process p st) as [st1 parent]. simpl in *. by case_match.
Qed.

(** Follows the state through the calls of a step, in hypothesis [Hs]. *)
Ltac follow Hs :=
  repeat (simpl in Hs; match type of Hs with
  | context [current_process ?p ?s] =>
      let Hm := fresh "Hm" in
      pose proof (current_process_malformed p s) as Hm; destruct (current_process p s)
  | context [resolve_path ?e ?p ?d ?r ?s] =>
      let Hm := fresh "Hm" in
      pose proof (resolve_path_malformed e p d r s) as Hm; destruct (resolve_path e p d r s)
  | context [exec_process ?p ?s] =>
      let Hm := fresh "Hm" in
      pose proof (exec_process_malformed p s) as Hm; destruct (exec_process p s)
  | context [fork_process ?e ?p ?c ?s] =>
      let Hm := fresh "Hm" in
      pose proof (fork_process_malformed e p c s) as Hm; destruct (fork_process e p c s) as [? [? ?]]
  | mbind _ _ = Returns _ => apply partial_bind_Returns in Hs as (? & _ & Hs)
  | context [match ?x with _ => _ end] => destruct x
  end).

Lemma process_event_malformed env watch fds e (st : State) st' pushed ok :
  process_event env watch fds e st = Returns (st', pushed, ok) →
  malformed_events st' = malformed_events st.
Proof.
  intros Hs. unfold process_event in Hs.
  destruct (kind_try_from (ev_kind e)) as [[]|].
  - unfold process_file_open in Hs. follow Hs; simplify_eq/=; congruence.
  - unfold process_file_close in Hs. follow Hs; simplify_eq/=; congruence.
  - unfold process_exec in Hs. follow Hs; simplify_eq/=; congruence.
  - unfold process_exit in Hs. follow Hs; simplify_eq/=; congruence.
  - unfold process_file_mmap in Hs. follow Hs; simplify_eq/=; congruence.
  - unfold process_rename_source in Hs. follow Hs; simplify_eq/=; congruence.
  - unfold process_rename_destination in Hs. follow Hs; simplify_eq/=; congruence.
  - unfold process_file_unlink in Hs. follow Hs; simplify_eq/=; congruence.
  - unfold process_fork in Hs. follow Hs; simplify_eq/=; congruence.
  - by injection Hs as <- _ _.
Qed.

Lemma sat_add_u64_zero n k : (0 ≤ n)%Z → (0 ≤ k)%Z →
  sat_add_u64 n k = 0%Z ↔ n = 0%Z ∧ k = 0%Z.
Proof. unfold sat_add_u64, U64_MAX. lia. Qed.

Lemma sat_add_u64_nonneg n k : (0 ≤ n)%Z → (0 ≤ k)%Z → (0 ≤ sat_add_u64 n k)%Z.
Proof. unfold sat_add_u64, U64_MAX. lia. Qed.

Lemma sat_count_nonneg n k : (0 ≤ n)%Z → (0 ≤ sat_count n k)%Z.
Proof.
  intros Hn. unfold sat_count. induction k as [|k IH]; [done|].
  simpl. apply sat_add_u64_nonneg; lia.
Qed.

Lemma sat_count_zero k : sat_count 0 k = 0%Z ↔ k = 0.
Proof.
  destruct k as [|k]; [done|]. split; [|done]. unfold sat_count. simpl.
  pose proof (sat_count_nonneg 0 k) as Hn. unfold sat_count in Hn.
  rewrite sat_add_u64_zero by lia. lia.
Qed.

(** Processing counts exactly the records it could not use. *)
Lemma buffered_lossless watch (moments : nat → @Moment Handle) i raw st events st' events' :
  (0 ≤ malformed_events st)%Z →
  process_buffered_events watch moments i raw st events = Returns (st', events') →
  (0 ≤ malformed_events st')%Z ∧
  (malformed_events st' = 0%Z ↔
   malformed_events st = 0%Z ∧ accepted_run watch moments i raw st events st' events').
Proof.
  revert i st events. induction raw as [|[ts data] raw IH]; intros i st events Hn Hr; simpl in Hr.
  { injection Hr as <- <-. split; [done|]. split; [intros; split; [done|constructor]|by intros []]. }
  apply partial_bind_Returns in Hr as ([st1 events1] & H1 & Hr). unfold process_buffered_event in H1.
  destruct (String.length data <? event_size)%nat eqn:Hlen.
  - injection H1 as <- <-. apply IH in Hr as [Hpos Hr]; [|apply sat_add_u64_nonneg; simpl; lia].
    split; [done|]. rewrite Hr. simpl. rewrite sat_add_u64_zero by lia. split; [lia|].
    intros [_ Hacc]. inversion Hacc as [|? ? ? ? ? ? ? ? ? ? Hlen' _ _]. subst.
    apply Nat.ltb_lt in Hlen. lia.
  - apply partial_bind_Returns in H1 as ([[st2 pushed] ok] & Hstep & H1).
    pose proof (process_event_malformed _ _ _ _ _ _ _ _ Hstep) as Hm.
    injection H1 as <- <-. destruct ok.
    + apply IH in Hr as [Hpos Hr]; [|by rewrite Hm]. split; [done|]. rewrite Hr, Hm.
      apply Nat.ltb_ge in Hlen. split.
      * intros [Hz Hacc]. split; [done|]. by eapply accepted_cons.
      * intros [Hz Hacc]. split; [done|].
        inversion Hacc as [|? ? ? ? ? ? ? ? ? ? Hlen' Hst' Hacc']. subst.
        rewrite Hst' in Hstep. by injection Hstep as -> ->.
    + apply IH in Hr as [Hpos Hr]; [|simpl; apply sat_add_u64_nonneg; lia].
      split; [done|]. rewrite Hr. simpl. rewrite sat_add_u64_zero by lia. split; [lia|].
      intros [_ Hacc]. inversion Hacc as [|? ? ? ? ? ? ? ? ? ? _ Hst' _]. subst.
      rewrite Hst' in Hstep. by injection Hstep as _ _ ?.
Qed.

Lemma synthesize_exit_state child code (st : State) events :
  malformed_events (synthesize_exit child code st events).1 = malformed_events st ∧
  pending_renames (synthesize_exit child code st events).1 = pending_renames st.
Proof.
  unfold synthesize_exit. destruct (set_last_exit _ _ _); [done|].
  unfold exit_process, current_process. by destruct (current_processes st !! child).
Qed.

(** C15. No record is lost silently: the loss count of a trace is 0 exactly when
    the kernel dropped nothing, every record of the ring buffers was complete
    and of a known kind, was decoded and accepted, and every rename's source was
    followed by its destination. *)
Theorem trace_lossless_iff watch sort (moments : nat → @Moment Handle) child_pid code cwd root_obs
    drops items events root lost :
  (0 ≤ drops)%Z →
  trace watch sort moments child_pid code cwd root_obs drops items = Returns (events, root, lost) →
  (lost = 0%Z ↔
   drops = 0%Z ∧ short_records items = 0 ∧
   ∃ st collected,
     accepted_run watch moments 0 (sort (full_records items)) (new_collector child_pid cwd) []
       st collected ∧ pending_renames st = ∅).
Proof.
  intros Hd Ht. unfold trace in Ht. rewrite drain_ring_eq in Ht. simpl in Ht.
  apply partial_bind_Returns in Ht as ([st3 ev3] & Hfin & Ht). injection Ht as _ _ <-.
  unfold finish_with_sort in Hfin.
  apply partial_bind_Returns in Hfin as ([st1 ev1] & Hbuf & Hfin).
  destruct (synthesize_exit_state child_pid code st1 ev1) as [Hm Hp].
  destruct (synthesize_exit child_pid code st1 ev1) as [st2 ev2]. simpl in Hm, Hp.
  injection Hfin as <- _. set (st0 := with_malformed _ _) in Hbuf.
  assert (Hs0 : (0 ≤ malformed_events st0)%Z) by by apply sat_count_nonneg.
  destruct (buffered_lossless _ _ _ _ _ _ _ _ Hs0 Hbuf) as [Hpos Hiff].
  assert (Hz0 : malformed_events st0 = 0%Z ↔ short_records items = 0) by apply sat_count_zero.
  simpl. rewrite Hm, Hp. rewrite !sat_add_u64_zero by (try apply sat_add_u64_nonneg; lia).
  assert (Hsz : Z.of_nat (size (pending_renames st1)) = 0%Z ↔ pending_renames st1 = ∅)
    by (rewrite <- map_size_empty_iff; lia).
  rewrite Hiff, Hz0, Hsz.
  assert (Hst0 : short_records items = 0 → st0 = new_collector child_pid cwd).
  { intros Hz. unfold st0. rewrite Hz. done. }
  split.
  - intros (Hd0 & (Hz & Hacc) & Hren). rewrite (Hst0 Hz) in Hacc. eauto 10.
  - intros (Hd0 & Hz & st & collected & Hacc & Hren). split; [done|].
    rewrite <- (Hst0 Hz) in Hacc.
    assert (Hdet : ∀ i raw (a : State) ev b1 e1 b2 e2,
      process_buffered_events watch moments i raw a ev = Returns (b2, e2) →
      accepted_run watch moments i raw a ev b1 e1 → b1 = b2 ∧ e1 = e2).
    { clear. intros i raw a ev b1 e1 b2 e2 Hb Hacc.
      induction Hacc as [|i ts data raw st ev st1 pushed b1 e1 Hlen Hstep Hacc IH].
      - by injection Hb as -> ->.
      - apply IH. simpl in Hb. unfold process_buffered_event in Hb.
        apply Nat.ltb_ge in Hlen. rewrite Hlen, Hstep in Hb. exact Hb. }
    destruct (Hdet _ _ _ _ _ _ _ _ Hbuf Hacc) as [-> ->]. auto.
Qed.
End tracer_facts.
