(* ===== verification/Collect.v ===== *)
(** * Waiting for the traced child ([repx/src/tracer.rs]: [spawn_suspended],
      [collect_events] and the loop of [finish_with_sort])

    The three loops poll the world: each answer is an element of a stream, and
    fuel bounds the number of answers that are read.  The theorems say when the
    loops end, and that the batches they drain amount to one [trace]. *)
From S2P Require Export TracerFacts.

(** A loop ends with a value, or an error of a system call, or has used up its
    fuel, which the program does not have. *)
Inductive looped (A : Type) :=
  | Ended (a : A)
  | LoopFailed
  | LoopFuel.
Arguments Ended {A} a.
Arguments LoopFailed {A}.
Arguments LoopFuel {A}.

#[export] Instance looped_ret : MRet looped := λ A a, Ended a.
#[export] Instance looped_bind : MBind looped := λ A B f x,
  match x with Ended a => f a | LoopFailed => LoopFailed | LoopFuel => LoopFuel end.

Lemma looped_bind_Ended {A B} (f : A → looped B) x b :
  x ≫= f = Ended b ↔ ∃ a, x = Ended a ∧ f a = Ended b.
Proof. destruct x; simpl; naive_solver. Qed.

(** ** Statuses of [waitpid] *)

Inductive WaitStatus :=
  | Exited (status : Z)
  | Signaled (signal : Z)
  | Stopped (signal : Z)
  | StillAlive
  | OtherStatus.

Definition SIGSTOP : Z := 19.

(** The exit code that [collect_events] takes from a final status. *)
Definition real_exit_code (status : WaitStatus) : option Z :=
  match status with
  | Exited status => Some status
  | Signaled signal => Some (128 + signal)%Z
  | _ => None
  end.

(** The loop of [spawn_suspended] in the parent; [None]: [waitpid] fails. *)
Fixpoint wait_stopped (fuel : nat) (wait : nat → option WaitStatus) (i : nat) : looped unit :=
  match fuel with
  | 0 => LoopFuel
  | S fuel =>
      match wait i with
      | None | Some (Exited _) | Some (Signaled _) => LoopFailed
      | Some (Stopped signal) =>
          if signal =?= SIGSTOP then Ended () else wait_stopped fuel wait (S i)
      | Some StillAlive | Some OtherStatus => wait_stopped fuel wait (S i)
      end
  end.

(** [fork]: the answer of the system call; the child stops itself and then
    replaces itself by the command. *)
Definition spawn_suspended (fuel : nat) (fork : option Z) (wait : nat → option WaitStatus)
    (command : list string) : looped Z :=
  if existsb (λ arg, negb (str_all (λ c, negb (c =?= "000"%char)) arg)) command then LoopFailed
  else
    match fork with
    | None => LoopFailed
    | Some child => _ ← wait_stopped fuel wait 0; Ended child
    end.

(** ** Polling the ring buffer *)

(** One iteration of the loop of [collect_events]: what is drained, what
    [waitpid] answers, and whether [wait_for_ring_event] succeeds. *)
Record Poll := mkPoll { poll_items : list string; poll_wait : option WaitStatus; poll_ok : bool }.

Fixpoint poll_child (fuel : nat) (polls : nat → Poll) (i : nat) (buffered : list RawEvent * Z)
    : looped (list RawEvent * Z * Z) :=
  match fuel with
  | 0 => LoopFuel
  | S fuel =>
      let p := polls i in
      let buffered := drain_ring (poll_items p) buffered in
      match poll_wait p with
      | None => LoopFailed
      | Some status =>
          match real_exit_code status with
          | Some code => Ended (buffered, code)
          | None =>
              match status with
              | StillAlive =>
                  if poll_ok p then poll_child fuel polls (S i) buffered else LoopFailed
              | _ => poll_child fuel polls (S i) buffered
              end
          end
      end
  end.

(** One iteration of the first loop of [finish_with_sort]: what is drained, the
    clock after it (read if there is something new), the clock at the test, and
    whether the poll succeeds.  Times are in nanoseconds. *)
Record Silence := mkSilence { quiet_items : list string; quiet_refreshed : Z; quiet_now : Z; quiet_ok : bool }.

Definition quiescence : Z := 100000000.

Fixpoint quiesce (fuel : nat) (silences : nat → Silence) (i : nat) (deadline : Z)
    (buffered : list RawEvent * Z) : looped (list RawEvent * Z) :=
  match fuel with
  | 0 => LoopFuel
  | S fuel =>
      let s := silences i in
      let before := length buffered.1 in
      let buffered := drain_ring (quiet_items s) buffered in
      let deadline :=
        if (before <? length buffered.1)%nat then (quiet_refreshed s + quiescence)%Z else deadline in
      if (deadline <=? quiet_now s)%Z then Ended buffered
      else if quiet_ok s then quiesce fuel silences (S i) deadline buffered else LoopFailed
  end.

(** What the kernel delivers to one call of [collect_events]. *)
Record Delivery := mkDelivery { polls : nat → Poll; started : Z; silences : nat → Silence }.

Definition drain_all (fuel : nat) (d : Delivery) (buffered : list RawEvent * Z)
    : looped (list RawEvent * Z * Z) :=
  '(buffered, code) ← poll_child fuel (polls d) 0 buffered;
  buffered ← quiesce fuel (silences d) 0 (started d + quiescence) buffered;
  Ended (buffered, code).

Definition collect_events `{Sha256} {Handle} (fuel : nat) (watch_prefixes : list string)
    (sort : list RawEvent → list RawEvent) (moments : nat → @Moment Handle) (child_pid : Z)
    (d : Delivery) (st : Collector) : looped (partial (@Collector Handle * list TracedEvent)) :=
  '(raw_events, malformed, code) ← drain_all fuel d ([], malformed_events st);
  Ended (finish_with_sort watch_prefixes sort moments child_pid code raw_events
           (with_malformed malformed st)).

(** ** Which answer ends a loop *)

(** The items of the first [n] answers of a stream. *)
Definition batch {A} (items : A → list string) (answers : nat → A) (n : nat) : list string :=
  concat ((λ i, items (answers i)) <$> seq 0 n).

Lemma batch_S {A} (items : A → list string) answers n :
  batch items answers (S n) = batch items answers n ++ items (answers n).
Proof.
  unfold batch. rewrite seq_S, fmap_app, concat_app. simpl. by rewrite app_nil_r.
Qed.

Lemma drain_ring_app a b buffered : drain_ring (a ++ b) buffered = drain_ring b (drain_ring a buffered).
Proof. apply foldl_app. Qed.

Lemma drain_batch {A} (items : A → list string) answers n buffered :
  drain_ring (items (answers n)) (drain_ring (batch items answers n) buffered)
  = drain_ring (batch items answers (S n)) buffered.
Proof. by rewrite batch_S, drain_ring_app. Qed.

Section polling.
Context (ps : nat → Poll).

(** The [i]-th poll finds the child running and goes on. *)
Definition goes_on (i : nat) : Prop :=
  ∃ status, poll_wait (ps i) = Some status ∧ real_exit_code status = None ∧
    (status = StillAlive → poll_ok (ps i) = true).
(** The [i]-th poll finds that the child has ended with [code]. *)
Definition ends_with (i : nat) (code : Z) : Prop :=
  ∃ status, poll_wait (ps i) = Some status ∧ real_exit_code status = Some code.

Lemma poll_child_step fuel i buffered :
  (goes_on i → poll_child (S fuel) ps i buffered
     = poll_child fuel ps (S i) (drain_ring (poll_items (ps i)) buffered)) ∧
  (∀ code, ends_with i code →
     poll_child (S fuel) ps i buffered = Ended (drain_ring (poll_items (ps i)) buffered, code)) ∧
  (∀ r, poll_child (S fuel) ps i buffered = Ended r → goes_on i ∨ ∃ code, ends_with i code).
Proof.
  unfold goes_on, ends_with. cbn [poll_child]. split; [|split].
  - intros (status & -> & -> & Hok). destruct status; try done. by rewrite Hok.
  - by intros code (status & -> & ->).
  - intros r. destruct (poll_wait (ps i)) as [status|]; [|done].
    destruct (real_exit_code status) as [code|] eqn:Hc; [intros _; right; eauto|].
    intros Hr. left. exists status. split; [done|]. split; [done|]. intros ->. by case_match.
Qed.

Lemma poll_child_Ended fuel i buffered buffered' code :
  poll_child fuel ps i (drain_ring (batch poll_items ps i) buffered) = Ended (buffered', code) ↔
  ∃ n, i ≤ n < i + fuel ∧ (∀ j, i ≤ j < n → goes_on j) ∧ ends_with n code ∧
    buffered' = drain_ring (batch poll_items ps (S n)) buffered.
Proof.
  revert i. induction fuel as [|fuel IH]; intros i.
  { split; [done|]. intros (n & Hn & _). lia. }
  destruct (poll_child_step fuel i (drain_ring (batch poll_items ps i) buffered)) as (Hgo & Hend & Hor).
  rewrite drain_batch in Hgo, Hend. split.
  - intros Hr. destruct (Hor _ Hr) as [Hg|[c Hc]].
    + rewrite (Hgo Hg) in Hr. apply IH in Hr as (n & Hn & Hall & Hends & ->). exists n.
      split; [lia|]. split; [|done]. intros j Hj. destruct (decide (j = i)) as [->|]; [done|]. apply Hall. lia.
    + rewrite (Hend c Hc) in Hr. injection Hr as <- <-. exists i. split; [lia|]. split; [lia|done].
  - intros (n & Hn & Hall & Hends & ->). destruct (decide (n = i)) as [->|Hne]; [by rewrite (Hend _ Hends)|].
    rewrite Hgo by (apply Hall; lia). apply IH. exists n. split; [lia|]. split; [|done].
    intros j Hj. apply Hall. lia.
Qed.
End polling.

Section quiet.
Context (ss : nat → Silence) (first_deadline : Z).

(** The deadline after [n] iterations. *)
Fixpoint deadline_after (n : nat) : Z :=
  match n with
  | 0 => first_deadline
  | S n =>
      if bool_decide (full_records (quiet_items (ss n)) = []) then deadline_after n
      else (quiet_refreshed (ss n) + quiescence)%Z
  end.

Definition silent_at (i : nat) : Prop := (deadline_after (S i) ≤ quiet_now (ss i))%Z.
#[export] Instance silent_at_dec i : Decision (silent_at i).
Proof. unfold silent_at. apply _. Defined.

Lemma quiesce_step fuel i buffered :
  quiesce (S fuel) ss i (deadline_after i) buffered =
    if (deadline_after (S i) <=? quiet_now (ss i))%Z then Ended (drain_ring (quiet_items (ss i)) buffered)
    else if quiet_ok (ss i)
         then quiesce fuel ss (S i) (deadline_after (S i)) (drain_ring (quiet_items (ss i)) buffered)
         else LoopFailed.
Proof.
  cbn [quiesce]. destruct buffered as [l m]. rewrite drain_ring_eq. cbn [fst].
  assert (Hd : (if (length l <? length (l ++ full_records (quiet_items (ss i))))%nat
                then (quiet_refreshed (ss i) + quiescence)%Z else deadline_after i) = deadline_after (S i)).
  { cbn [deadline_after]. rewrite length_app. destruct (full_records _) as [|r rs].
    - rewrite Nat.add_0_r, Nat.ltb_irrefl. by rewrite bool_decide_true.
    - rewrite (proj2 (Nat.ltb_lt _ _)) by (simpl; lia). by rewrite bool_decide_false. }
  by rewrite Hd.
Qed.

Lemma quiesce_Ended fuel i buffered buffered' :
  quiesce fuel ss i (deadline_after i) (drain_ring (batch quiet_items ss i) buffered) = Ended buffered' ↔
  ∃ n, i ≤ n < i + fuel ∧ (∀ j, i ≤ j < n → ¬ silent_at j ∧ quiet_ok (ss j) = true) ∧ silent_at n ∧
    buffered' = drain_ring (batch quiet_items ss (S n)) buffered.
Proof.
  revert i. induction fuel as [|fuel IH]; intros i.
  { split; [done|]. intros (n & Hn & _). lia. }
  rewrite quiesce_step, drain_batch. unfold silent_at in *. split.
  - destruct (Z.leb_spec (deadline_after (S i)) (quiet_now (ss i))) as [Hle|Hlt].
    + intros [= <-]. exists i. split; [lia|]. split; [lia|done].
    + destruct (quiet_ok (ss i)) eqn:Hok; [|done]. intros (n & Hn & Hall & Hend & ->)%IH. exists n.
      split; [lia|]. split; [|done]. intros j Hj. destruct (decide (j = i)) as [->|]; [split; [lia|done]|].
      apply Hall. lia.
  - intros (n & Hn & Hall & Hend & ->). destruct (decide (n = i)) as [->|Hne].
    + by rewrite (proj2 (Z.leb_le _ _)).
    + destruct (Hall i ltac:(lia)) as [Hlt Hok]. rewrite (proj2 (Z.leb_gt _ _)) by lia. rewrite Hok.
      apply IH. exists n. split; [lia|]. split; [|done]. intros j Hj. apply Hall. lia.
Qed.
End quiet.

(** ** The loops amount to one trace, and end *)

Section collecting.
Context `{Sha256} {Handle : Type}.
Context (watch : list string) (sort : list RawEvent → list RawEvent) (moments : nat → @Moment Handle).
Context (child_pid : Z) (d : Delivery).

(** The loops end after poll [n], with exit code [code], and silence [m]. *)
Definition collected_by (n m : nat) (code : Z) : Prop :=
  (∀ j, j < n → goes_on (polls d) j) ∧ ends_with (polls d) n code ∧
  (∀ j, j < m → ¬ silent_at (silences d) (started d + quiescence) j ∧ quiet_ok (silences d j) = true) ∧
  silent_at (silences d) (started d + quiescence) m.

Definition delivered (n m : nat) : list string :=
  batch poll_items (polls d) (S n) ++ batch quiet_items (silences d) (S m).

Lemma drain_all_Ended fuel buffered buffered' code :
  drain_all fuel d buffered = Ended (buffered', code) ↔
  ∃ n m, n < fuel ∧ m < fuel ∧ collected_by n m code ∧ buffered' = drain_ring (delivered n m) buffered.
Proof.
  unfold drain_all, collected_by, delivered. rewrite looped_bind_Ended. split.
  - intros ([b c] & Hp & Hq). apply looped_bind_Ended in Hq as (b' & Hq & [= <- <-]).
    apply (poll_child_Ended (polls d) fuel 0 buffered) in Hp as (n & Hn & Hall & Hend & ->).
    apply (quiesce_Ended (silences d) (started d + quiescence) fuel 0) in Hq as (m & Hm & Hall' & Hend' & ->).
    exists n, m. split; [lia|]. split; [lia|]. split; [|by rewrite drain_ring_app].
    split; [intros; apply Hall; lia|]. split; [done|]. split; [intros; apply Hall'; lia|done].
  - intros (n & m & Hn & Hm & (H1 & H2 & H3 & H4) & ->). rewrite drain_ring_app.
    eexists (_, code). split.
    + apply (poll_child_Ended (polls d) fuel 0 buffered). exists n. split; [lia|].
      split; [intros; apply H1; lia|done].
    + apply looped_bind_Ended. eexists. split; [|done].
      apply (quiesce_Ended (silences d) (started d + quiescence) fuel 0). exists m. split; [lia|].
      split; [intros; apply H3; lia|done].
Qed.

Lemma collect_events_Ended fuel st r :
  collect_events fuel watch sort moments child_pid d st = Ended r ↔
  ∃ n m code, n < fuel ∧ m < fuel ∧ collected_by n m code ∧
    let '(raw_events, malformed) := drain_ring (delivered n m) ([], malformed_events st) in
    r = finish_with_sort watch sort moments child_pid code raw_events (with_malformed malformed st).
Proof.
  unfold collect_events. rewrite looped_bind_Ended. split.
  - intros ([[raw malformed] code] & (n & m & Hn & Hm & Hc & Heq)%drain_all_Ended & [= <-]).
    exists n, m, code. by rewrite <- Heq.
  - intros (n & m & code & Hn & Hm & Hc & Hr). destruct (drain_ring _ _) as [raw malformed] eqn:Heq.
    exists (raw, malformed, code). split; [|by rewrite Hr]. apply drain_all_Ended.
    exists n, m. by rewrite Heq.
Qed.

(** [trace] is the program without its polling. *)
Definition traced_from (cwd : string) (root_observation : FileObservation) (drop_count : Z)
    (r : partial (@Collector Handle * list TracedEvent)) : partial (list TracedEvent * ProcessInstance * Z) :=
  let root := root_process (new_collector (Handle := Handle) child_pid cwd) in
  '(st, events) ← r;
  Returns (Exec root root_observation :: events, root, sat_add_u64 drop_count (malformed_events st)).

Lemma traced_from_trace fuel cwd root_observation drop_count r :
  collect_events fuel watch sort moments child_pid d (new_collector child_pid cwd) = Ended r →
  ∃ n m code, collected_by n m code ∧
    traced_from cwd root_observation drop_count r
    = trace watch sort moments child_pid code cwd root_observation drop_count (delivered n m).
Proof.
  intros (n & m & code & _ & _ & Hc & Hr)%collect_events_Ended. exists n, m, code. split; [done|].
  unfold trace, traced_from. destruct (drain_ring _ _) as [raw malformed]. by rewrite Hr.
Qed.

(** How the records are batched does not matter.  If the polling loops end, the
    result is that of one [trace] of all the records delivered up to the end, with
    the code of the first final status that [waitpid] gave; and the loops ended at
    the first test of the clock that found 100 ms gone since the last full record,
    or since the child's end if there was none. *)
Theorem collect_refines_trace fuel cwd root_observation drop_count r :
  collect_events fuel watch sort moments child_pid d (new_collector child_pid cwd) = Ended r →
  ∃ n m code,
    traced_from cwd root_observation drop_count r
    = trace watch sort moments child_pid code cwd root_observation drop_count (delivered n m) ∧
    ends_with (polls d) n code ∧ (∀ j c, j < n → ¬ ends_with (polls d) j c) ∧
    (∀ j, j < m → ¬ silent_at (silences d) (started d + quiescence) j) ∧
    silent_at (silences d) (started d + quiescence) m.
Proof.
  intros (n & m & code & (Hgo & Hend & Hq & Hs) & Heq)%(traced_from_trace _ _ root_observation drop_count).
  exists n, m, code. split; [done|]. split; [done|]. split; [|split; [|done]].
  - intros j c Hj (s & Hw & Hc). destruct (Hgo j Hj) as (s' & Hw' & Hc' & _). congruence.
  - intros j Hj. by apply Hq.
Qed.

(** *** The end of the loops *)

(** The clock does not run backwards. *)
Definition clock_runs : Prop :=
  ∀ j, (started d ≤ quiet_now (silences d j))%Z ∧
    ∀ i, i ≤ j → (quiet_refreshed (silences d i) ≤ quiet_now (silences d j))%Z.

Lemma deadline_bound n k : clock_runs → n ≤ S k →
  (deadline_after (silences d) (started d + quiescence) n ≤ quiet_now (silences d k) + quiescence)%Z.
Proof.
  intros Hclock. destruct (Hclock k) as [Hs Hr]. induction n as [|n IH]; intros Hn; cbn [deadline_after].
  { lia. }
  case_bool_decide; [apply IH; lia|]. specialize (Hr n ltac:(lia)). lia.
Qed.

Lemma deadline_silent k i :
  (∀ j, k < j → full_records (quiet_items (silences d j)) = []) → k ≤ i →
  deadline_after (silences d) (started d + quiescence) (S i)
  = deadline_after (silences d) (started d + quiescence) (S k).
Proof.
  intros Hq Hi. induction i as [|i IH]; [by replace k with 0 by lia|].
  destruct (decide (k = S i)) as [->|]; [done|]. rewrite <- IH by lia.
  cbn [deadline_after]. by rewrite (bool_decide_true (full_records (quiet_items (silences d (S i))) = []))
    by (apply Hq; lia).
Qed.

Lemma first_silent m : silent_at (silences d) (started d + quiescence) m →
  ∃ k, k ≤ m ∧ silent_at (silences d) (started d + quiescence) k ∧
    ∀ j, j < k → ¬ silent_at (silences d) (started d + quiescence) j.
Proof.
  induction m as [m IH] using lt_wf_ind. intros Hm.
  destruct (decide (Exists (silent_at (silences d) (started d + quiescence)) (seq 0 m))) as [Hex|Hno].
  - apply Exists_exists in Hex as (j & Hj%elem_of_seq & Hs).
    destruct (IH j ltac:(lia) Hs) as (k & Hk & Hk' & Hall). exists k. split; [lia|done].
  - exists m. split; [lia|]. split; [done|]. intros j Hj Hs. apply Hno.
    apply Exists_exists. exists j. split; [apply elem_of_seq; lia|done].
Qed.

(** C39. The collection ends.  If [waitpid] reports the end of the child at some
    poll, the clock does not run backwards, no full record arrives after answer
    [k], and a later answer [m] is 100 ms after it, no poll failing until then,
    then the loops end with one result, whatever the number of iterations they may
    make beyond that. *)
Theorem collection_ends st n code k m :
  (∀ j, j < n → goes_on (polls d) j) → ends_with (polls d) n code → clock_runs →
  (∀ j, k < j → full_records (quiet_items (silences d j)) = []) → k ≤ m →
  (quiet_now (silences d k) + quiescence ≤ quiet_now (silences d m))%Z →
  (∀ j, j < m → quiet_ok (silences d j) = true) →
  ∃ r, ∀ fuel, n < fuel → m < fuel →
    collect_events fuel watch sort moments child_pid d st = Ended r.
Proof.
  intros Hgo Hend Hclock Hquiet Hk Hnow Hok.
  assert (Hm : silent_at (silences d) (started d + quiescence) m).
  { unfold silent_at. rewrite (deadline_silent k m) by done.
    pose proof (deadline_bound (S k) k Hclock). lia. }
  destruct (first_silent m Hm) as (k' & Hk' & Hs & Hfirst).
  assert (Hc : collected_by n k' code).
  { split; [done|]. split; [done|]. split; [|done]. intros j Hj. split; [by apply Hfirst|]. apply Hok. lia. }
  destruct (drain_ring (delivered n k') ([], malformed_events st)) as [raw malformed] eqn:Heq.
  eexists. intros fuel Hn Hf. apply collect_events_Ended. exists n, k', code. rewrite Heq.
  split; [done|]. split; [lia|]. split; [done|]. reflexivity.
Qed.

(** But it does not end while full records keep arriving, each within 100 ms of
    the last: nothing else bounds the first loop of [finish_with_sort].  In watch
    mode any process that works in a watched directory delivers such records. *)
Theorem chatter_never_ends fuel st :
  (∀ i, full_records (quiet_items (silences d i)) ≠ [] ∧
        (quiet_now (silences d i) < quiet_refreshed (silences d i) + quiescence)%Z) →
  ∀ r, collect_events fuel watch sort moments child_pid d st ≠ Ended r.
Proof.
  intros Hall r (n & m & code & _ & _ & (_ & _ & _ & Hs) & _)%collect_events_Ended.
  destruct (Hall m) as [Hne Hlt]. unfold silent_at in Hs. cbn [deadline_after] in Hs.
  rewrite bool_decide_false in Hs by done. lia.
Qed.
End collecting.

(** ** A child that stops *)

(** The wait for the stopped child returns exactly at the first [SIGSTOP] that no
    end of the child and no failure of [waitpid] precedes. *)
Lemma wait_stopped_Ended fuel wait i :
  wait_stopped fuel wait i = Ended () ↔
  ∃ n, i ≤ n < i + fuel ∧ wait n = Some (Stopped SIGSTOP) ∧
    ∀ j, i ≤ j < n → ∃ status, wait j = Some status ∧ real_exit_code status = None.
Proof.
  revert i. induction fuel as [|fuel IH]; intros i.
  { split; [done|]. intros (n & Hn & _). lia. }
  assert (Hstep : ∀ status, wait i = Some status → real_exit_code status = None →
    status ≠ Stopped SIGSTOP → wait_stopped fuel wait (S i) = Ended () ↔
    ∃ n, i ≤ n < i + S fuel ∧ wait n = Some (Stopped SIGSTOP) ∧
      ∀ j, i ≤ j < n → ∃ status, wait j = Some status ∧ real_exit_code status = None).
  { intros status Hw Hr Hne. rewrite IH. split; intros (n & Hn & Hstop & Hall).
    - exists n. split; [lia|]. split; [done|]. intros j Hj.
      destruct (decide (j = i)) as [->|]; [eauto|]. apply Hall. lia.
    - exists n. assert (n ≠ i) by (intros ->; congruence). split; [lia|]. split; [done|].
      intros j Hj. apply Hall. lia. }
  assert (Hfinal : (∀ status, wait i = Some status → is_Some (real_exit_code status)) →
    ¬ ∃ n, i ≤ n < i + S fuel ∧ wait n = Some (Stopped SIGSTOP) ∧
      ∀ j, i ≤ j < n → ∃ status, wait j = Some status ∧ real_exit_code status = None).
  { intros Hf (n & Hn & Hstop & Hall). destruct (decide (n = i)) as [->|].
    - destruct (Hf _ Hstop) as [? [=]].
    - destruct (Hall i ltac:(lia)) as (s & Hs & Hr). destruct (Hf _ Hs) as [? ?]. congruence. }
  cbn [wait_stopped]. destruct (wait i) as [[c|s|s| |]|] eqn:Hw.
  - split; [done|]. intros Hex. destruct Hfinal; [|exact Hex]. intros ? [= <-]. by eexists.
  - split; [done|]. intros Hex. destruct Hfinal; [|exact Hex]. intros ? [= <-]. by eexists.
  - destruct (decide (s = SIGSTOP)) as [->|Hne].
    + rewrite bool_decide_true by done. split; [|done]. intros _. exists i. split; [lia|]. split; [done|lia].
    + rewrite bool_decide_false by done. apply (Hstep _ eq_refl); [done|congruence].
  - by apply (Hstep _ eq_refl).
  - by apply (Hstep _ eq_refl).
  - split; [done|]. intros Hex. destruct Hfinal; [|exact Hex]. done.
Qed.

(** [spawn_suspended] returns the child exactly when no argument has a NUL byte,
    the fork succeeded and the child is seen to stop before it ends. *)
Theorem spawn_suspended_Ended fuel fork wait command child :
  spawn_suspended fuel fork wait command = Ended child ↔
  Forall (λ arg, str_all (λ c, negb (c =?= "000"%char)) arg = true) command ∧ fork = Some child ∧
  wait_stopped fuel wait 0 = Ended ().
Proof.
  unfold spawn_suspended. destruct (existsb _ command) eqn:He.
  - split; [done|]. intros (Hf & _). apply existsb_exists in He as (arg & Hin & Harg).
    rewrite Forall_forall in Hf. rewrite Hf in Harg by (by apply list_elem_of_In). done.
  - assert (Hall : Forall (λ arg, str_all (λ c, negb (c =?= "000"%char)) arg = true) command).
    { apply Forall_forall. intros arg Hin. destruct (str_all _ arg) eqn:Ha; [done|].
      assert (Hx : existsb (λ arg, negb (str_all (λ c, negb (c =?= "000"%char)) arg)) command = true); [|congruence].
      apply existsb_exists. exists arg. rewrite Ha. split; [by apply list_elem_of_In|done]. }
    destruct fork as [c|]; [|naive_solver].
    destruct (wait_stopped fuel wait 0) as [[]| |]; simpl; naive_solver.
Qed.
