(* ===== verification/TracerProcesses.v ===== *)
(** * Process lifetimes, inherited descriptors and external activity

    [collector_inv] says that every lifetime in the collector's tables was
    issued by its generation counter. Every step preserves it, so that a fork
    gives the child a lifetime nothing is recorded under, and the child starts
    with exactly the descriptors of its parent. *)
From S2P Require Export TracerFacts.

Section processes.
Context `{Sha256} {Handle : Type}.
Abbreviation State := (@Collector Handle).
Implicit Types (st : State) (l : ProcessLifetime) (fd : Z).

(** [l]'s generation is below its PID's counter, or the counter is saturated. *)
Definition issued st l : Prop :=
  ∃ g, next_generations st !! pid l = Some g ∧ (generation l < g ∨ g = U32_MAX)%Z.

Record collector_inv st : Prop := {
  ci_current q p : current_processes st !! q = Some p → pid (lifetime p) = q ∧ issued st (lifetime p);
  ci_fds l fd s : fd_table st !! (l, fd) = Some s → issued st l;
  ci_generations q g : next_generations st !! q = Some g → (0 ≤ g ≤ U32_MAX)%Z
}.

(** [st'] has issued at least what [st] has. *)
Definition issues_more st st' : Prop := ∀ l, issued st l → issued st' l.

Lemma issues_more_refl st : issues_more st st.
Proof. by intros l. Qed.

Lemma inv_new root_pid cwd : collector_inv (new_collector root_pid cwd).
Proof.
  split; simpl.
  - intros q p [<- <-]%lookup_singleton_Some. split; [done|]. exists 1%Z. simpl.
    rewrite lookup_singleton_eq. split; [done|lia].
  - intros l fd s. by rewrite lookup_empty.
  - intros q g [<- <-]%lookup_singleton_Some. unfold U32_MAX. lia.
Qed.

(** A change that touches neither processes nor descriptors. *)
Lemma inv_same st st' :
  current_processes st' = current_processes st → next_generations st' = next_generations st →
  fd_table st' = fd_table st → collector_inv st → collector_inv st'.
Proof.
  intros Hc Hg Hf [H1 H2 H3]. split; unfold issued in *; rewrite ?Hc, ?Hg, ?Hf; auto.
Qed.

Lemma inv_with_fds m st :
  (∀ l fd s, m !! (l, fd) = Some s → issued st l) → collector_inv st → collector_inv (with_fds m st).
Proof. intros Hm [H1 H2 H3]. split; [exact H1|exact Hm|exact H3]. Qed.

Lemma inv_insert_fd l fd s st :
  issued st l → collector_inv st → collector_inv (with_fds (<[(l, fd) := s]> (fd_table st)) st).
Proof.
  intros Hl Hst. apply inv_with_fds; [|done]. intros l' fd' s'.
  rewrite lookup_insert_Some. intros [[[= <- <-] _]|[_ Hs]]; [done|by eapply ci_fds].
Qed.

Lemma inv_delete_fd l fd st :
  collector_inv st → collector_inv (with_fds (delete (l, fd) (fd_table st)) st).
Proof.
  intros Hst. apply inv_with_fds; [|done]. intros l' fd' s' [_ Hs]%lookup_delete_Some.
  by eapply ci_fds.
Qed.

Lemma inv_rewrite_paths from to flags st :
  collector_inv st → collector_inv (rewrite_open_file_paths from to flags st).
Proof.
  intros Hst. apply inv_with_fds; [|done]. intros l fd s. rewrite lookup_fmap.
  intros (s' & Hs & _)%fmap_Some. by eapply ci_fds.
Qed.

(** ** Lifetimes *)

Lemma issued_start q st l : collector_inv st → issued st l → issued (start_process q st).1 l.
Proof.
  intros Hst (g & Hg & Hlt). unfold issued, start_process. simpl.
  destruct (decide (pid l = q)) as [<-|Hne].
  - exists (sat_add_u32 g 1). rewrite lookup_insert_eq, Hg. split; [done|].
    apply (ci_generations _ Hst) in Hg. unfold sat_add_u32, U32_MAX in *. lia.
  - exists g. by rewrite lookup_insert_ne.
Qed.

Lemma start_process_spec q st : collector_inv st →
  let '(st', p) := start_process q st in
  collector_inv st' ∧ pid (lifetime p) = q ∧ issued st' (lifetime p) ∧ issues_more st st' ∧
  fd_table st' = fd_table st.
Proof.
  intros Hst. pose proof (λ l, issued_start q st l Hst) as Hmore.
  assert (Hg : (0 ≤ default 0 (next_generations st !! q) ≤ U32_MAX)%Z).
  { destruct (next_generations st !! q) as [g|] eqn:Hg; simpl.
    - by eapply ci_generations.
    - unfold U32_MAX. lia. }
  assert (Hnew : issued (start_process q st).1 (lifetime (start_process q st).2)).
  { unfold issued, start_process. simpl. eexists. rewrite lookup_insert_eq. split; [done|].
    unfold sat_add_u32. simpl. lia. }
  unfold start_process in *. simpl in *. split; [|by split_and!].
  split; simpl.
  - intros q' p. rewrite lookup_insert_Some. intros [[<- <-]|[Hne Hp]]; [by split|].
    destruct (ci_current _ Hst q' p Hp) as [Hpid Hi]. split; [done|]. by apply Hmore.
  - intros l fd s Hs. apply Hmore. by eapply ci_fds.
  - intros q' g. rewrite lookup_insert_Some. intros [[<- <-]|[Hne Hg']].
    + unfold sat_add_u32, U32_MAX in *. lia.
    + by eapply ci_generations.
Qed.

Lemma current_process_spec q st : collector_inv st →
  let '(st', p) := current_process q st in
  collector_inv st' ∧ pid (lifetime p) = q ∧ issued st' (lifetime p) ∧ issues_more st st' ∧
  fd_table st' = fd_table st.
Proof.
  intros Hst. unfold current_process. destruct (current_processes st !! q) as [p|] eqn:Hp.
  - destruct (ci_current _ Hst q p Hp) as [Hpid Hi]. split_and!; [done..|apply issues_more_refl|done].
  - by apply start_process_spec.
Qed.

Lemma exec_process_inv q st : collector_inv st → collector_inv (exec_process q st).1.
Proof.
  intros Hst. unfold exec_process. case_match; [by apply (inv_same st)|].
  pose proof (current_process_spec q st Hst) as Hc.
  destruct (current_process q st) as [st1 p]. destruct Hc as (Hi & Hpid & Hiss & _ & _). simpl.
  split; simpl.
  - intros q' p'. rewrite lookup_insert_Some. intros [[<- <-]|[_ Hp']]; [by split|].
    exact (ci_current _ Hi q' p' Hp').
  - exact (ci_fds _ Hi).
  - exact (ci_generations _ Hi).
Qed.

Lemma resolve_path_spec env p dfd raw st : collector_inv st →
  collector_inv (resolve_path env p dfd raw st).1 ∧
  (∀ l, issued st l → issued (resolve_path env p dfd raw st).1 l) ∧
  fd_table (resolve_path env p dfd raw st).1 = fd_table st.
Proof.
  intros Hst. unfold resolve_path. repeat case_match; simpl; split_and!; auto; by destruct Hst.
Qed.

(** ** Forks *)

Lemma elem_of_inherit_list (env : Env Handle) (parent : ProcessLifetime)
    (m : gmap (ProcessLifetime * Z) OpenFileState) (fd : Z) (s : OpenFileState) :
  (fd, s) ∈ prod_map id (inherit env) <$> inherited parent m ↔
  (inherit env <$> m !! (parent, fd)) = Some s.
Proof.
  rewrite list_elem_of_fmap, fmap_Some. split.
  - intros ([fd' x] & [= -> ->] & Hx%elem_of_inherited). eauto.
  - intros (x & Hx & ->). exists (fd, x). split; [done|]. by apply elem_of_inherited.
Qed.

(** The descriptors after a fork, whatever order the table is visited in. *)
Lemma fork_fds env p c st l fd :
  let '(st', (parent, child)) := fork_process env p c st in
  fd_table st' !! (l, fd) =
    if decide (l = lifetime child) then
      match (inherit env <$> fd_table st !! (lifetime parent, fd)) with
      | Some s => Some s
      | None => fd_table st !! (l, fd)
      end
    else fd_table st !! (l, fd).
Proof.
  unfold fork_process.
  assert (Hc : fd_table (current_process p st).1 = fd_table st)
    by (unfold current_process; by case_match).
  destruct (current_process p st) as [st1 parent]. simpl in Hc.
  assert (Hs : fd_table (start_process c st1).1 = fd_table st) by exact Hc.
  destruct (start_process c st1) as [st2 child]. simpl in Hs.
  set (st3 := match process_cwds st2 !! lifetime parent with Some _ => _ | None => _ end).
  assert (H3 : fd_table st3 = fd_table st) by (unfold st3; by case_match).
  simpl. rewrite H3. clearbody st3. destruct (decide (l = lifetime child)) as [->|Hne].
  - destruct (inherit env <$> _) as [s|] eqn:Hs'.
    + apply foldl_insert_lookup; [by apply elem_of_inherit_list|].
      intros y Hy%elem_of_inherit_list. congruence.
    + apply foldl_insert_lookup_ne. right. intros x Hx%elem_of_inherit_list. congruence.
  - apply foldl_insert_lookup_ne. by left.
Qed.

Lemma fork_process_spec env p c st : collector_inv st →
  let '(st', (parent, child)) := fork_process env p c st in
  collector_inv st' ∧ pid (lifetime parent) = p ∧ pid (lifetime child) = c.
Proof.
  intros Hst. pose proof (λ l fd, fork_fds env p c st l fd) as Hfds. unfold fork_process in *.
  pose proof (current_process_spec p st Hst) as Hc.
  destruct (current_process p st) as [st1 parent]. destruct Hc as (Hi1 & Hp & Hpi & Hm1 & Hf1).
  pose proof (start_process_spec c st1 Hi1) as Hs.
  destruct (start_process c st1) as [st2 child]. destruct Hs as (Hi2 & Hcp & Hci & Hm2 & Hf2).
  set (st3 := match process_cwds st2 !! lifetime parent with Some _ => _ | None => _ end) in *.
  assert (Hi3 : collector_inv st3) by (unfold st3; case_match; [by destruct Hi2|done]).
  assert (Hiss : ∀ l, issued st2 l → issued st3 l) by (unfold st3; by case_match).
  assert (Hf3 : fd_table st3 = fd_table st2) by (unfold st3; by case_match).
  simpl in *. clearbody st3. split_and!; [|done..]. apply inv_with_fds; [|done].
  intros l fd s Hl. rewrite Hfds in Hl. apply Hiss.
  destruct (decide (l = lifetime child)) as [->|Hne]; [done|].
  apply Hm2, Hm1. by eapply ci_fds.
Qed.

(** ** Every step preserves the invariant *)

(** Follows the invariant through the calls of a step, in hypothesis [Hs]. *)
Ltac follow_inv Hs Hst :=
  repeat (simpl in Hs; match type of Hs with
  | context [current_process ?p ?s] =>
      let Hc := fresh "Hc" in let st1 := fresh "st1" in let p1 := fresh "p1" in
      pose proof (current_process_spec p s Hst) as Hc; clear Hst;
      destruct (current_process p s) as [st1 p1]; destruct Hc as (Hst & _ & Hc & _ & _)
  | context [resolve_path ?e ?p ?d ?r ?s] =>
      let Hr := fresh "Hr" in let Hm := fresh "Hm" in
      pose proof (resolve_path_spec e p d r s Hst) as (Hr & Hm & _); clear Hst;
      rename Hr into Hst; destruct (resolve_path e p d r s)
  | mbind _ _ = Returns _ => apply partial_bind_Returns in Hs as (? & _ & Hs)
  | context [match ?x with _ => _ end] => destruct x
  end); simpl in Hst.

Lemma process_event_inv env watch fds e st st' pushed ok : collector_inv st →
  process_event env watch fds e st = Returns (st', pushed, ok) → collector_inv st'.
Proof.
  intros Hst Hs. unfold process_event in Hs.
  destruct (kind_try_from (ev_kind e)) as [[]|]; [..|by injection Hs as <- _ _].
  - unfold process_file_open in Hs.
    follow_inv Hs Hst; simplify_eq/=; try done; apply inv_insert_fd; auto.
  - unfold process_file_close in Hs.
    follow_inv Hs Hst; simplify_eq/=; try done; by apply inv_delete_fd.
  - unfold process_exec in Hs. pose proof (exec_process_inv (pe_tgid (payload_process_exec (ev_payload e))) st Hst) as Hx.
    destruct (exec_process _ st) as [st1 p]. simpl in Hx. clear Hst.
    follow_inv Hs Hx; by simplify_eq/=.
  - unfold process_exit in Hs. follow_inv Hs Hst; by simplify_eq/=.
  - unfold process_file_mmap in Hs.
    follow_inv Hs Hst; simplify_eq/=; try done; by apply inv_insert_fd.
  - unfold process_rename_source in Hs. follow_inv Hs Hst; simplify_eq/=; try done; by destruct Hst.
  - unfold process_rename_destination in Hs. simpl in Hs.
    destruct (pending_renames st !! _) as [pending|]; [|by simplify_eq].
    assert (Hst0 : collector_inv (with_renames (delete
      (fp_pid (payload_file_path (ev_payload e)), fp_operation_id (payload_file_path (ev_payload e)))
      (pending_renames st)) st)) by (by destruct Hst).
    clear Hst.
    follow_inv Hs Hst0; simplify_eq/=; try done; by apply inv_rewrite_paths.
  - unfold process_file_unlink in Hs. follow_inv Hs Hst; by simplify_eq/=.
  - unfold process_fork in Hs.
    pose proof (fork_process_spec env (pf_parent_pid (payload_process_fork (ev_payload e)))
      (pf_child_pid (payload_process_fork (ev_payload e))) st Hst) as Hf.
    destruct (fork_process _ _ _ st) as [st1 [parent child]]. simplify_eq/=. by destruct Hf.
Qed.

Lemma process_buffered_events_inv watch (moments : nat → @Moment Handle) i raw st events st' events' :
  collector_inv st →
  process_buffered_events watch moments i raw st events = Returns (st', events') →
  collector_inv st'.
Proof.
  revert i st events. induction raw as [|[ts data] raw IH]; intros i st events Hst Hr; simpl in Hr.
  { by injection Hr as <- <-. }
  apply partial_bind_Returns in Hr as ([st1 events1] & H1 & Hr). unfold process_buffered_event in H1.
  eapply IH; [|exact Hr]. destruct (String.length data <? event_size)%nat.
  - injection H1 as <- <-. by destruct Hst.
  - apply partial_bind_Returns in H1 as ([[st2 pushed] ok] & Hstep & H1).
    apply process_event_inv in Hstep; [|done]. injection H1 as <- <-.
    destruct ok; [done|]. by destruct Hstep.
Qed.

(** C24. After any run of the collector, a fork starts a child lifetime under which
    no descriptor was recorded before, as long as the PID's generation counter
    has not saturated; the child holds exactly the parent's descriptors (with
    cloned handles), and nobody else's descriptors change. *)
Theorem fork_inherits_descriptors watch (moments : nat → @Moment Handle) raw root_pid cwd st
    events env p c :
  process_buffered_events watch moments 0 raw (new_collector root_pid cwd) []
    = Returns (st, events) →
  (default 0 (next_generations (current_process p st).1 !! c) < U32_MAX)%Z →
  let '(st', (parent, child)) := fork_process env p c st in
  pid (lifetime parent) = p ∧ pid (lifetime child) = c ∧
  (∀ fd, fd_table st !! (lifetime child, fd) = None) ∧
  (∀ fd, fd_table st' !! (lifetime child, fd) = inherit env <$> fd_table st !! (lifetime parent, fd)) ∧
  (∀ l fd, l ≠ lifetime child → fd_table st' !! (l, fd) = fd_table st !! (l, fd)).
Proof.
  intros Hrun Hg. apply process_buffered_events_inv in Hrun; [|apply inv_new].
  pose proof (fork_process_spec env p c st Hrun) as Hspec.
  pose proof (λ l fd, fork_fds env p c st l fd) as Hfds.
  pose proof (current_process_spec p st Hrun) as Hc.
  unfold fork_process in *. destruct (current_process p st) as [st1 parent].
  destruct Hc as (Hi1 & _ & _ & Hm1 & Hf1). simpl in *. destruct Hspec as (_ & Hp & _).
  assert (Hfresh : ∀ fd, fd_table st !! (mkLifetime c (default 0%Z (next_generations st1 !! c)), fd) = None).
  { intros fd. apply eq_None_not_Some. intros [s Hs]. apply (ci_fds _ Hrun) in Hs.
    apply Hm1 in Hs as (g & Hg' & Hlt). simpl in *. rewrite Hg' in Hg, Hlt. simpl in *. lia. }
  split_and!; [done..| |].
  - intros fd. rewrite Hfds, decide_True by done. rewrite Hfresh. destruct (fd_table st !! (lifetime parent, fd)); done.
  - intros l fd Hne. by rewrite Hfds, decide_False.
Qed.
End processes.
