(* ===== verification/TracerReports.v ===== *)
(** * What the collector reports

    External processes are reported only for the watched paths, and the root's
    exit carries the status [waitpid] returned. *)
From S2P Require Export TracerProcesses.

Section reports.
Context `{Sha256} {Handle : Type}.
Implicit Types (st : @Collector Handle) (events : list TracedEvent).

(** ** External activity *)

(** What an event of a process outside the traced tree may be about. *)
Definition reported (watch : list string) (e : TracedEvent) : Prop :=
  match e with
  | FileOpen _ path _ _ true _ | FileUnlink _ path _ true _ => is_watched watch path = true
  | FileRename _ from to _ true _ => is_watched watch from = true ∨ is_watched watch to = true
  | FileClose _ _ path true _ | FileMmap _ _ _ _ path true _ => is_Some path
  | _ => True
  end.

Ltac follow_cases Hs :=
  repeat (simpl in Hs; match type of Hs with
  | mbind _ _ = Returns _ => apply partial_bind_Returns in Hs as (? & _ & Hs)
  | context [match ?x with _ => _ end] => destruct x eqn:?
  end); simplify_eq/=.

(** The remembered observation does not change the path of a descriptor. *)
Lemma open_observation_path (env : Env Handle) s o s' :
  open_observation env s = Returns (o, s') → of_path s' = of_path s.
Proof.
  unfold open_observation. destruct (of_open_observation s); [by intros [= _ <-]|].
  intros (o' & _ & Ho)%partial_bind_Returns. by injection Ho as _ <-.
Qed.

Lemma process_event_reported env watch fds e st st' pushed ok :
  process_event env watch fds e st = Returns (st', pushed, ok) → Forall (reported watch) pushed.
Proof.
  intros Hs. unfold process_event in Hs.
  destruct (kind_try_from (ev_kind e)) as [[]|]; [..|by injection Hs as _ <- _].
  - unfold process_file_open in Hs. destruct (current_process _ st) as [st1 p].
    destruct (resolve_path _ _ _ _ st1) as [st2 raw]. cbv zeta in Hs.
    destruct (_ && _) eqn:Hw; [by injection Hs as _ <- _|].
    apply partial_bind_Returns in Hs as ([o s] & Ho%open_observation_path & Hs).
    injection Hs as _ <- _. repeat constructor. simpl in *. rewrite Ho.
    destruct (_ =?= 1%Z); [|done]. by apply negb_false_iff in Hw.
  - unfold process_file_close in Hs. follow_cases Hs; repeat constructor; simpl; by repeat case_match.
  - unfold process_exec in Hs. follow_cases Hs; repeat constructor.
  - unfold process_exit in Hs. follow_cases Hs; repeat constructor.
  - unfold process_file_mmap in Hs. follow_cases Hs; repeat constructor; simpl; by repeat case_match.
  - unfold process_rename_source in Hs. follow_cases Hs; repeat constructor.
  - unfold process_rename_destination in Hs. cbv zeta in Hs.
    destruct (pending_renames st !! _) as [pending|]; [|by injection Hs as _ <- _].
    destruct (decode_event_path _ _); [|by injection Hs as _ <- _].
    destruct (resolve_path _ _ _ _ _) as [st2 to_path].
    destruct (_ && _) eqn:Hw; [by injection Hs as _ <- _|].
    apply partial_bind_Returns in Hs as (o & _ & Hs).
    apply partial_bind_Returns in Hs as (r & _ & Hs). injection Hs as _ <- _.
    destruct (pr_external pending || _); simpl in Hw.
    + apply negb_false_iff, orb_true_iff in Hw.
      destruct r; rewrite ?Forall_cons, Forall_nil; simpl; tauto.
    + destruct r; repeat constructor.
  - unfold process_file_unlink in Hs. destruct (current_process _ st) as [st1 p].
    destruct (decode_event_path _ _); [|by injection Hs as _ <- _].
    destruct (resolve_path _ _ _ _ st1) as [st2 path].
    destruct (_ && _) eqn:Hw; [by injection Hs as _ <- _|].
    apply partial_bind_Returns in Hs as (o & _ & Hs). injection Hs as _ <- _.
    repeat constructor. simpl. destruct (_ =?= 1%Z); [|done]. by apply negb_false_iff in Hw.
  - unfold process_fork in Hs. follow_cases Hs; repeat constructor.
Qed.

Lemma buffered_reported watch (moments : nat → @Moment Handle) i raw st events st' events' :
  Forall (reported watch) events →
  process_buffered_events watch moments i raw st events = Returns (st', events') →
  Forall (reported watch) events'.
Proof.
  revert i st events. induction raw as [|[ts data] raw IH]; intros i st events He Hr; simpl in Hr.
  { by injection Hr as <- <-. }
  apply partial_bind_Returns in Hr as ([st1 events1] & H1 & Hr). eapply IH; [|exact Hr].
  unfold process_buffered_event in H1. destruct (String.length data <? event_size)%nat.
  - by injection H1 as <- <-.
  - apply partial_bind_Returns in H1 as ([[st2 pushed] ok] & Hstep%process_event_reported & H1).
    injection H1 as _ <-. by apply Forall_app.
Qed.

(** ** The root's exit *)

Definition exit_of (child : Z) (e : TracedEvent) : bool :=
  match e with Exit process _ => pid (lifetime process) =?= child | _ => false end.

Lemma set_last_exit_Some child code l l' :
  set_last_exit child code l = Some l' →
  ∃ pre process old post, l = pre ++ Exit process old :: post ∧
    l' = pre ++ Exit process code :: post ∧ pid (lifetime process) = child ∧
    Forall (λ e, exit_of child e = false) pre.
Proof.
  revert l'. induction l as [|e l IH]; intros l' Hl; [done|].
  assert (Hrec : exit_of child e = false → cons e <$> set_last_exit child code l = Some l' →
    ∃ pre process old post, e :: l = pre ++ Exit process old :: post ∧
      l' = pre ++ Exit process code :: post ∧ pid (lifetime process) = child ∧
      Forall (λ e, exit_of child e = false) pre).
  { intros He (l1 & Hl1 & ->)%fmap_Some.
    destruct (IH _ Hl1) as (pre & process & old & post & -> & -> & Hpid & Hpre).
    exists (e :: pre), process, old, post. split_and!; [done..|by constructor]. }
  destruct e as [| | | | | | |process old]; simpl in Hl; try (apply Hrec; done).
  destruct (_ =?= _) eqn:Hpid; [|by apply Hrec].
  injection Hl as <-. repx_bool. by exists [], process, old, l.
Qed.

Lemma set_last_exit_None child code l :
  set_last_exit child code l = None → Forall (λ e, exit_of child e = false) l.
Proof.
  induction l as [|e l IH]; intros Hl; [done|].
  destruct e as [| | | | | | |process old]; simpl in Hl;
    try (apply fmap_None in Hl; constructor; auto; done).
  destruct (_ =?= _) eqn:Hpid; [done|]. apply fmap_None in Hl. constructor; auto.
Qed.

(** The trace with the root's last exit set, or one added at the end. *)
Lemma synthesize_exit_spec child code st events :
  collector_inv st →
  ∃ pre process post,
    (synthesize_exit child code st events).2 = pre ++ Exit process code :: post ∧
    ((∃ old, events = pre ++ Exit process old :: post) ∨ (events = pre ∧ post = [])) ∧
    pid (lifetime process) = child ∧ Forall (λ e, exit_of child e = false) post.
Proof.
  intros Hst. unfold synthesize_exit. destruct (set_last_exit child code _) as [l'|] eqn:Hl.
  - apply set_last_exit_Some in Hl as (pre & process & old & post & Hev & -> & Hpid & Hpre).
    exists (reverse post), process, (reverse pre). simpl. split_and!.
    + by rewrite reverse_app, reverse_cons, <- app_assoc.
    + left. exists old. rewrite <- (reverse_involutive events), Hev.
      by rewrite reverse_app, reverse_cons, <- app_assoc.
    + done.
    + by apply Forall_reverse.
  - pose proof (current_process_spec child st Hst) as Hc. unfold exit_process.
    destruct (current_process child st) as [st1 process]. destruct Hc as (_ & Hpid & _).
    exists events, process, []. simpl. split_and!; auto.
Qed.

(** The parts of a trace. *)
Lemma trace_parts watch sort (moments : nat → @Moment Handle) child code cwd obs drops items
    events root lost :
  trace watch sort moments child code cwd obs drops items = Returns (events, root, lost) →
  root = root_process (new_collector (Handle := Handle) child cwd) ∧
  ∃ st collected, process_buffered_events watch moments 0 (sort (full_records items))
      (with_malformed (sat_count 0 (short_records items)) (new_collector child cwd)) []
      = Returns (st, collected) ∧
    events = Exec root obs :: (synthesize_exit child code st collected).2.
Proof.
  intros Ht. unfold trace in Ht. rewrite drain_ring_eq in Ht. simpl in Ht.
  apply partial_bind_Returns in Ht as ([st3 ev3] & Hfin & Ht). injection Ht as <- <- <-.
  split; [done|]. unfold finish_with_sort in Hfin.
  apply partial_bind_Returns in Hfin as ([st1 ev1] & Hbuf & Hfin).
  exists st1, ev1. split; [done|].
  destruct (synthesize_exit child code st1 ev1). by injection Hfin as _ <-.
Qed.

Lemma trace_reported watch sort (moments : nat → @Moment Handle) child code cwd obs
    drops items events root lost :
  trace watch sort moments child code cwd obs drops items = Returns (events, root, lost) →
  Forall (reported watch) events.
Proof.
  intros (-> & st & collected & Hbuf & ->)%trace_parts.
  apply buffered_reported in Hbuf; [|constructor]. constructor; [done|].
  unfold synthesize_exit. destruct (set_last_exit child code _) as [l'|] eqn:Hl.
  - apply set_last_exit_Some in Hl as (pre & process & old & post & Hev & -> & _).
    simpl. apply Forall_reverse. apply Forall_reverse in Hbuf. rewrite Hev in Hbuf.
    apply Forall_app in Hbuf as [Hpre Hpost]. apply Forall_cons in Hpost as [_ Hpost].
    apply Forall_app. split; [done|]. by constructor.
  - destruct (exit_process child st). simpl. apply Forall_app. split; [done|by repeat constructor].
Qed.

(** C25. The watch filter: an event of a process outside the traced tree appears
    in a trace only if the path it opens or unlinks, or one side of its rename,
    lies within a watched prefix; its closes and mappings appear only for
    descriptors whose path is known. *)
Theorem trace_external_watched watch sort (moments : nat → @Moment Handle) child code cwd obs
    drops items events root lost :
  trace watch sort moments child code cwd obs drops items = Returns (events, root, lost) →
  Forall (reported watch) events.
Proof. apply trace_reported. Qed.

(** A trace starts with the root's exec, and the last exit of the root's PID
    carries the status [waitpid] returned: no exit of that PID follows it. *)
Theorem trace_root_frame watch sort (moments : nat → @Moment Handle) child code cwd obs
    drops items events root lost :
  trace watch sort moments child code cwd obs drops items = Returns (events, root, lost) →
  root = mkInstance (mkLifetime child 0) 0 ∧
  ∃ pre process post, events = Exec root obs :: pre ++ Exit process code :: post ∧
    pid (lifetime process) = child ∧ Forall (λ e, exit_of child e = false) post.
Proof.
  intros (-> & st & collected & Hbuf & ->)%trace_parts. split; [done|].
  apply process_buffered_events_inv in Hbuf; [|by destruct (inv_new (Handle := Handle) child cwd)].
  destruct (synthesize_exit_spec child code st collected Hbuf)
    as (pre & process & post & -> & _ & Hpid & Hpost). eauto 10.
Qed.
End reports.
