(* ===== verification/TracerExamples.v ===== *)
(** * A concrete trace

    PID 7 opens [/w/out] for writing and forks PID 8, which closes the
    descriptor; PID 99, outside the traced tree, opens a watched and an
    unwatched file.  The records arrive out of order and one is too short. *)
From S2P Require Export TracerReports.

Module TracerExamples.
Export Digest.Toy.

(** ** Records *)

Fixpoint zeros (n : nat) : string := match n with 0 => "" | S n => String "000" (zeros n) end.
Definition fit (n : nat) (s : string) : string := str_take n (s +:+ zeros n).

Definition record (kind : EventKind) (source ts : Z) (payload : string) : string :=
  le_bytes 4 (kind_repr kind) +:+ le_bytes 1 source +:+ zeros 3 +:+ le_bytes 8 ts
  +:+ fit payload_size payload.

Definition open_record (source ts pid fd flags : Z) (path : string) : string :=
  record KindFileOpen source ts
    (le_bytes 4 pid +:+ le_bytes 4 pid +:+ le_bytes 4 fd +:+ le_bytes 4 AT_FDCWD
     +:+ le_bytes 4 flags +:+ fit MAX_PATH_LEN path +:+ le_bytes 4 (Z.of_nat (String.length path))).
Definition close_record (ts pid fd : Z) : string :=
  record KindFileClose 0 ts (le_bytes 4 pid +:+ le_bytes 4 pid +:+ le_bytes 4 fd).
Definition fork_record (ts parent child : Z) : string :=
  record KindProcessFork 0 ts (le_bytes 4 parent +:+ le_bytes 4 child).
Definition exit_record (ts pid code : Z) : string :=
  record KindProcessExit 0 ts (le_bytes 4 pid +:+ le_bytes 4 pid +:+ le_bytes 4 code).

(** ** The operating system: [/proc] is gone, every path is a file *)

Definition hello : File :=
  {| file_metadata := IoOk {| is_file := true; file_len := 5 |}; file_seek := true;
     file_contents := Some "hello" |}.
Definition env : Env unit := {|
  env_read_link _ := None; env_canonicalize _ := None;
  env_metadata _ := IoOk {| is_file := true; file_len := 5 |};
  env_open _ := IoOk tt; env_file _ := hello; env_try_clone := Some |}.
Definition moments (i : nat) : @Moment unit := {|
  moment_env := env; moment_fds fds := (map_to_list fds).*2 |}.

(** A sort by timestamp. *)
Definition ts_le (a b : RawEvent) : Prop := (a.1 ≤ b.1)%Z.
#[export] Instance ts_le_dec : RelDecision ts_le.
Proof. intros a b. unfold ts_le. apply _. Defined.
#[export] Instance ts_le_trans : Transitive ts_le.
Proof. intros a b c. unfold ts_le. lia. Qed.
#[export] Instance ts_le_total : Total ts_le.
Proof. intros a b. unfold ts_le. lia. Qed.

Definition ts_sort : list RawEvent → list RawEvent := merge_sort ts_le.

Lemma ts_sort_sorts : sorts_by_timestamp ts_sort.
Proof.
  intros l. split; [apply merge_sort_Permutation|]. apply (StronglySorted_merge_sort ts_le).
Qed.

(** ** The records of a run *)

Definition good_items : list string :=
  [close_record 40 8 3; open_record 0 10 7 3 577 "/w/out"; fork_record 20 7 8;
   open_record 1 25 99 5 0 "/w/in"; open_record 1 26 99 6 0 "/etc/passwd"; exit_record 50 7 0].
Definition items : list string := "short" :: good_items.
Definition watch : list string := ["/w"].
Definition run_of (items : list string) : partial (list TracedEvent * ProcessInstance * Z) :=
  trace watch ts_sort moments 7 3 "/home" (Content "root") 0 items.

Definition p7 : ProcessInstance := mkInstance (mkLifetime 7 0) 0.
Definition p8 : ProcessInstance := mkInstance (mkLifetime 8 0) 0.
Definition p99 : ProcessInstance := mkInstance (mkLifetime 99 0) 0.
Definition expected : list TracedEvent :=
  [Exec p7 (Content "root");
   FileOpen p7 "/w/out" 577 3 false (Content EMPTY_CONTENT_HASH);
   Fork p7 p8;
   FileOpen p99 "/w/in" 0 5 true (Content (digest "hello"));
   FileClose p8 3 (Some "/w/out") false (Some (Content (digest "hello")));
   Exit p7 3].

Example run_good : run_of good_items = Returns (expected, p7, 0%Z).
Proof. vm_compute. reflexivity. Qed.

Example run_short : run_of items = Returns (expected, p7, 1%Z).
Proof. vm_compute. reflexivity. Qed.

(** ** Witnesses *)

Lemma trace_arrival_order_irrelevant_witness :
  sorts_by_timestamp ts_sort ∧ items ≡ₚ reverse items ∧ NoDup (full_records items).*1 ∧
  run_of items = run_of (reverse items).
Proof.
  assert (Hs : sorts_by_timestamp ts_sort) by exact ts_sort_sorts.
  assert (Hp : items ≡ₚ reverse items) by (symmetry; apply reverse_Permutation).
  assert (Hnd : NoDup (full_records items).*1)
    by (apply (bool_decide_unpack _); vm_compute; exact I).
  split; [exact Hs|]. split; [exact Hp|]. split; [exact Hnd|].
  exact (trace_arrival_order_irrelevant watch ts_sort ts_sort moments 7 3 "/home" (Content "root") 0
           items (reverse items) Hs Hs Hp Hnd).
Defined.

Lemma trace_lossless_iff_witness :
  run_of good_items = Returns (expected, p7, 0%Z) ∧
  ∃ st collected, accepted_run watch moments 0 (ts_sort (full_records good_items))
    (new_collector 7 "/home") [] st collected ∧ pending_renames st = ∅.
Proof.
  split; [exact run_good|].
  assert (Hd : (0 ≤ 0)%Z) by lia. pose proof run_good as Hrun. unfold run_of in Hrun.
  pose proof (trace_lossless_iff watch ts_sort moments 7 3 "/home" (Content "root") 0 good_items
    expected p7 0 Hd Hrun) as [Hl _].
  destruct (Hl eq_refl) as (_ & _ & Hacc). exact Hacc.
Defined.

Lemma trace_external_watched_witness :
  run_of items = Returns (expected, p7, 1%Z) ∧ Forall (reported watch) expected.
Proof.
  split; [exact run_short|]. pose proof run_short as Hrun. unfold run_of in Hrun.
  exact (trace_external_watched watch ts_sort moments 7 3 "/home" (Content "root") 0 items expected
    p7 1 Hrun).
Defined.

Lemma trace_root_frame_witness :
  run_of items = Returns (expected, p7, 1%Z) ∧
  ∃ pre process post, expected = Exec p7 (Content "root") :: pre ++ Exit process 3 :: post ∧
    pid (lifetime process) = 7%Z ∧ Forall (λ e, exit_of 7 e = false) post.
Proof.
  split; [exact run_short|]. pose proof run_short as Hrun. unfold run_of in Hrun.
  pose proof (trace_root_frame watch ts_sort moments 7 3 "/home" (Content "root") 0 items expected
    p7 1 Hrun) as [_ Hf].
  exact Hf.
Defined.

Definition opened : partial (@Collector unit * list TracedEvent) :=
  process_buffered_events watch moments 0 (full_records [open_record 0 10 7 3 577 "/w/out"])
    (new_collector 7 "/home") [].

Lemma fork_inherits_descriptors_witness :
  ∃ st events, opened = Returns (st, events) ∧
    (∀ fd, fd_table st !! (mkLifetime 8 0, fd) = None) ∧
    of_path <$> fd_table (fork_process env 7 8 st).1 !! (mkLifetime 8 0, 3%Z) = Some "/w/out".
Proof.
  destruct opened as [[st events]|] eqn:Hrun; [|vm_compute in Hrun; discriminate Hrun].
  exists st, events. split; [reflexivity|].
  pose proof (fork_inherits_descriptors watch moments
    (full_records [open_record 0 10 7 3 577 "/w/out"]) 7 "/home" st events env 7 8 Hrun) as Hf.
  vm_compute in Hrun. injection Hrun as <- <-. specialize (Hf eq_refl).
  vm_compute in Hf. destruct Hf as (_ & _ & Hnone & Hin & _). split; [exact Hnone|].
  vm_compute. reflexivity.
Defined.
End TracerExamples.
