(* ===== verification/Setup.v ===== *)
(** * Setting a trace up ([repx/src/tracer.rs], the first half of [trace_command])

    The watch prefixes and their in-kernel form, the discovery of tracepoint
    field offsets from the kernel's format files, the search for the bytecode, the
    attachment of the probes and the resolution of the traced executable;
    [trace_command] puts them in front of the collector. *)
From S2P Require Export Text Collect.

(** ** Tracepoint field offsets *)

Record OffsetSpec := mkSpec {
  spec_key : Z; spec_system : string; spec_event : string; spec_field : string;
  spec_required : bool
}.

Definition ALL_OFFSET_SPECS : list OffsetSpec :=
  [mkSpec OPENAT_ENTER_DFD "syscalls" "sys_enter_openat" "dfd" true;
   mkSpec OPENAT_ENTER_FILENAME "syscalls" "sys_enter_openat" "filename" true;
   mkSpec OPENAT_ENTER_FLAGS "syscalls" "sys_enter_openat" "flags" true;
   mkSpec OPENAT_EXIT_RET "syscalls" "sys_exit_openat" "ret" true;
   mkSpec RENAME_ENTER_OLD_PATH "syscalls" "sys_enter_rename" "oldname" true;
   mkSpec RENAME_ENTER_NEW_PATH "syscalls" "sys_enter_rename" "newname" true;
   mkSpec RENAMEAT_ENTER_OLD_DFD "syscalls" "sys_enter_renameat" "olddfd" true;
   mkSpec RENAMEAT_ENTER_OLD_PATH "syscalls" "sys_enter_renameat" "oldname" true;
   mkSpec RENAMEAT_ENTER_NEW_DFD "syscalls" "sys_enter_renameat" "newdfd" true;
   mkSpec RENAMEAT_ENTER_NEW_PATH "syscalls" "sys_enter_renameat" "newname" true;
   mkSpec RENAMEAT2_ENTER_FLAGS "syscalls" "sys_enter_renameat2" "flags" true;
   mkSpec UNLINK_ENTER_PATH "syscalls" "sys_enter_unlink" "pathname" true;
   mkSpec UNLINKAT_ENTER_DFD "syscalls" "sys_enter_unlinkat" "dfd" true;
   mkSpec UNLINKAT_ENTER_PATH "syscalls" "sys_enter_unlinkat" "pathname" true;
   mkSpec UNLINKAT_ENTER_FLAGS "syscalls" "sys_enter_unlinkat" "flag" true;
   mkSpec CLOSE_ENTER_FD "syscalls" "sys_enter_close" "fd" true;
   mkSpec MMAP_ENTER_PROT "syscalls" "sys_enter_mmap" "prot" true;
   mkSpec MMAP_ENTER_FLAGS "syscalls" "sys_enter_mmap" "flags" true;
   mkSpec MMAP_ENTER_FD "syscalls" "sys_enter_mmap" "fd" true;
   mkSpec RENAME_EXIT_RET "syscalls" "sys_exit_rename" "ret" true;
   mkSpec RENAMEAT_EXIT_RET "syscalls" "sys_exit_renameat" "ret" true;
   mkSpec RENAMEAT2_EXIT_RET "syscalls" "sys_exit_renameat2" "ret" true;
   mkSpec UNLINK_EXIT_RET "syscalls" "sys_exit_unlink" "ret" true;
   mkSpec UNLINKAT_EXIT_RET "syscalls" "sys_exit_unlinkat" "ret" true;
   mkSpec EXEC_DATA_LOC_FILENAME "sched" "sched_process_exec" "filename" true;
   mkSpec FORK_CHILD_PID "sched" "sched_process_fork" "child_pid" true;
   mkSpec CLONE_EXIT_RET "syscalls" "sys_exit_clone" "ret" false;
   mkSpec CLONE3_EXIT_RET "syscalls" "sys_exit_clone3" "ret" false].

Definition parse_format_field_offset (line target_name : string) : option Z :=
  let line := trim line in
  if negb (starts_with "field:" line) then None
  else
    after_field ← strip_prefix "field:" line;
    semicolon_pos ← str_find ";" after_field;
    name ← last_word (str_take semicolon_pos after_field);
    if negb (name =?= target_name) then None
    else
      let rest := str_drop semicolon_pos after_field in
      offset_start ← str_find "offset:" rest;
      let after_offset := str_drop (offset_start + 7) rest in
      end_pos ← str_find ";" after_offset;
      parse_u32 (trim (str_take end_pos after_offset)).

(** [lines().find_map(|line| parse_format_field_offset(line, field))]. *)
Definition find_offset (content field : string) : option Z :=
  head (omap (λ line, parse_format_field_offset line field) (str_lines content)).

Definition fallback_offsets : gmap Z Z := list_to_map
  [(OPENAT_ENTER_DFD, 16);
   (OPENAT_ENTER_FILENAME, 24);
   (OPENAT_ENTER_FLAGS, 32);
   (OPENAT_EXIT_RET, 16);
   (RENAME_ENTER_OLD_PATH, 16);
   (RENAME_ENTER_NEW_PATH, 24);
   (RENAMEAT_ENTER_OLD_DFD, 16);
   (RENAMEAT_ENTER_OLD_PATH, 24);
   (RENAMEAT_ENTER_NEW_DFD, 32);
   (RENAMEAT_ENTER_NEW_PATH, 40);
   (RENAMEAT2_ENTER_FLAGS, 48);
   (UNLINK_ENTER_PATH, 16);
   (UNLINKAT_ENTER_DFD, 16);
   (UNLINKAT_ENTER_PATH, 24);
   (UNLINKAT_ENTER_FLAGS, 32);
   (CLOSE_ENTER_FD, 16);
   (MMAP_ENTER_PROT, 32);
   (MMAP_ENTER_FLAGS, 40);
   (MMAP_ENTER_FD, 48);
   (EXEC_DATA_LOC_FILENAME, 8);
   (FORK_CHILD_PID, 44);
   (CLONE_EXIT_RET, 16);
   (CLONE3_EXIT_RET, 16);
   (RENAME_EXIT_RET, 16);
   (RENAMEAT_EXIT_RET, 16);
   (RENAMEAT2_EXIT_RET, 16);
   (UNLINK_EXIT_RET, 16);
   (UNLINKAT_EXIT_RET, 16)]%Z.

Inductive DiscoverError :=
  | NoDebugfs
  | UnreadableFormat (path : string)
  | MissingField (field path : string).

Definition debugfs_events : string := "/sys/kernel/debug/tracing/events".
Definition format_path (spec : OffsetSpec) : string :=
  path_push (path_push (path_push debugfs_events (spec_system spec)) (spec_event spec)) "format".

(** One iteration of the loop over [ALL_OFFSET_SPECS]. *)
Definition discover_spec (read_format : string → option string) (spec : OffsetSpec)
    (offsets : gmap Z Z) : result DiscoverError (gmap Z Z) :=
  match read_format (format_path spec) with
  | None => if spec_required spec then Err (UnreadableFormat (format_path spec)) else Ok offsets
  | Some content =>
      match find_offset content (spec_field spec) with
      | Some offset => Ok (<[spec_key spec := offset]> offsets)
      | None =>
          if spec_required spec then Err (MissingField (spec_field spec) (format_path spec))
          else Ok offsets
      end
  end.

Fixpoint discover_specs (read_format : string → option string) (specs : list OffsetSpec)
    (offsets : gmap Z Z) : result DiscoverError (gmap Z Z) :=
  match specs with
  | [] => Ok offsets
  | spec :: specs =>
      offsets ← discover_spec read_format spec offsets; discover_specs read_format specs offsets
  end.

(** [allow_fallback]: [REPX_FALLBACK_OFFSETS] or [CI] is set. *)
Definition discover_tracepoint_offsets (debugfs_exists allow_fallback : bool)
    (read_format : string → option string) : result DiscoverError (gmap Z Z) :=
  if negb debugfs_exists then if allow_fallback then Ok fallback_offsets else Err NoDebugfs
  else discover_specs read_format ALL_OFFSET_SPECS ∅.

(** ** Watch prefixes *)

Inductive WatchError :=
  | TooManyDirs (n : nat)
  | PrefixTooLong (prefix : string).

Definition watch_prefixes (canonicalize : string → option string) (watch_dirs : list string)
    : result WatchError (list string) :=
  if (MAX_WATCH_PREFIXES <? length watch_dirs)%nat then Err (TooManyDirs (length watch_dirs))
  else
    let prefixes := (λ dir, default dir (canonicalize dir)) <$> watch_dirs in
    match List.find (λ prefix, MAX_PREFIX_LEN <? String.length prefix)%nat prefixes with
    | Some prefix => Err (PrefixTooLong prefix)
    | None => Ok prefixes
    end.

(** The zeroed array with the path copied to its front; the slice
    [prefix[..copy_len]] panics when the path is longer than the array. *)
Definition watched_prefix (path_str : string) : partial WatchedPrefix :=
  let copy_len := String.length path_str in
  if (MAX_PREFIX_LEN <? copy_len)%nat then Panics
  else Returns (mkPrefix (path_str +:+ zero_bytes (MAX_PREFIX_LEN - copy_len)) (Z.of_nat copy_len)).

(** The contents of the [WATCHED_PREFIXES] map, from index [i] on. *)
Fixpoint arm_prefixes (i : Z) (prefixes : list string) (watched : gmap Z WatchedPrefix)
    : partial (gmap Z WatchedPrefix) :=
  match prefixes with
  | [] => Returns watched
  | path_str :: prefixes =>
      prefix ← watched_prefix path_str;
      arm_prefixes (i + 1) prefixes (<[i := prefix]> watched)
  end.

(** ** The traced executable *)

(** [path] is the [PATH] variable; [is_file] is [Path::is_file]. *)
Definition resolve_executable (canonicalize : string → option string) (path : option string)
    (is_file : string → bool) (command : string) : string :=
  if str_contains "/" command then default command (canonicalize command)
  else
    match path with
    | Some paths =>
        match List.find is_file ((λ dir, path_push dir command) <$> str_split ":" paths) with
        | Some candidate => candidate
        | None => command
        end
    | None => command
    end.

(** ** The probes *)

Definition search_paths (exe_dir : option string) : list string :=
  ["repx-ebpf/target/bpfel-unknown-none/release/repx-ebpf";
   "repx-ebpf/target/bpfel-unknown-none/debug/repx-ebpf";
   "../repx-ebpf/target/bpfel-unknown-none/release/repx-ebpf";
   "../repx-ebpf/target/bpfel-unknown-none/debug/repx-ebpf";
   "target/bpfel-unknown-none/release/repx-ebpf";
   "target/bpfel-unknown-none/debug/repx-ebpf"]
  ++ match exe_dir with
     | Some dir => [path_push dir "../../repx-ebpf/target/bpfel-unknown-none/release/repx-ebpf"]
     | None => []
     end.

(** [embedded] is [REPX_EBPF_BIN] of the build, [exe_dir] the directory of the
    running executable and [read] is [fs::read]. *)
Definition load_ebpf (embedded exe_dir : option string) (read : string → option string) : option string :=
  match embedded with
  | Some path => read path
  | None => head (omap read (search_paths exe_dir))
  end.

(** What attaching a program answers: [program_mut] knows no program of that name,
    or one of the three fallible calls fails, or it is attached. *)
Inductive Attachment := NoProgram | NotAttached | Attached.

Definition REQUIRED_PROBES : list (string * string * string) :=
  [("repx_openat_enter", "syscalls", "sys_enter_openat");
   ("repx_openat_exit", "syscalls", "sys_exit_openat");
   ("repx_rename_enter", "syscalls", "sys_enter_rename");
   ("repx_rename_exit", "syscalls", "sys_exit_rename");
   ("repx_renameat_enter", "syscalls", "sys_enter_renameat");
   ("repx_renameat_exit", "syscalls", "sys_exit_renameat");
   ("repx_renameat2_enter", "syscalls", "sys_enter_renameat2");
   ("repx_renameat2_exit", "syscalls", "sys_exit_renameat2");
   ("repx_unlink_enter", "syscalls", "sys_enter_unlink");
   ("repx_unlink_exit", "syscalls", "sys_exit_unlink");
   ("repx_unlinkat_enter", "syscalls", "sys_enter_unlinkat");
   ("repx_unlinkat_exit", "syscalls", "sys_exit_unlinkat");
   ("repx_close_enter", "syscalls", "sys_enter_close");
   ("repx_mmap_enter", "syscalls", "sys_enter_mmap");
   ("repx_exec", "sched", "sched_process_exec");
   ("repx_fork", "sched", "sched_process_fork");
   ("repx_exit", "sched", "sched_process_exit")].

Definition BEST_EFFORT_PROBES : list (string * string * string) :=
  [("repx_clone_exit", "syscalls", "sys_exit_clone");
   ("repx_clone3_exit", "syscalls", "sys_exit_clone3")].

(** [unwrap] panics on an unknown program. *)
Definition attach_tracepoint (attach : string → string → string → Attachment)
    (probe : string * string * string) : partial bool :=
  let '(prog_name, category, name) := probe in
  match attach prog_name category name with
  | NoProgram => Panics | NotAttached => Returns false | Attached => Returns true
  end.

(** The program that fails first, if there is one. *)
Fixpoint attach_required (attach : string → string → string → Attachment)
    (probes : list (string * string * string)) : partial (option string) :=
  match probes with
  | [] => Returns None
  | probe :: probes =>
      ok ← attach_tracepoint attach probe;
      if ok : bool then attach_required attach probes else Returns (Some probe.1.1)
  end.

(** The programs that could be attached. *)
Fixpoint attach_best_effort (attach : string → string → string → Attachment)
    (probes : list (string * string * string)) : partial (list string) :=
  match probes with
  | [] => Returns []
  | probe :: probes =>
      ok ← attach_tracepoint attach probe;
      attached ← attach_best_effort attach probes;
      Returns (if ok : bool then probe.1.1 :: attached else attached)
  end.

(** ** [trace_command] *)

(** [OutOfFuel] is not an outcome of the program: the fuel of a polling loop was
    too small. *)
Inductive TraceError :=
  | BadWatch (e : WatchError)
  | LoadFailed
  | BadOffsets (e : DiscoverError)
  | AttachFailed (prog_name : string)
  | NoCurrentDir
  | SpawnFailed
  | KernelFailed
  | OutOfFuel.

(** What the machine answers to one call of [trace_command].  [m_run] is what the
    kernel delivers for the offsets, the watched prefixes, the best-effort probes
    and the child it was given, with the value of [DROP_COUNT] at the end; or
    [None] when a map or the resuming signal fails. *)
Record Machine (Handle : Type) := mkMachine {
  m_fs : FileSystem;
  m_canonicalize : string → option string;
  m_embedded : option string;
  m_exe_dir : option string;
  m_read : string → option string;
  m_accepts : string → bool;
  m_debugfs_exists : bool;
  m_allow_fallback : bool;
  m_read_format : string → option string;
  m_attach : string → string → string → Attachment;
  m_path : option string;
  m_is_file : string → bool;
  m_current_dir : option string;
  m_fork : option Z;
  m_wait : nat → option WaitStatus;
  m_run : gmap Z Z → gmap Z WatchedPrefix → list string → Z → option (Delivery * option Z);
  m_moments : nat → @Moment Handle
}.
Arguments m_fs {Handle}. Arguments m_canonicalize {Handle}. Arguments m_embedded {Handle}.
Arguments m_exe_dir {Handle}. Arguments m_read {Handle}. Arguments m_accepts {Handle}.
Arguments m_debugfs_exists {Handle}. Arguments m_allow_fallback {Handle}.
Arguments m_read_format {Handle}. Arguments m_attach {Handle}.
Arguments m_path {Handle}. Arguments m_is_file {Handle}. Arguments m_current_dir {Handle}.
Arguments m_fork {Handle}. Arguments m_wait {Handle}. Arguments m_run {Handle}.
Arguments m_moments {Handle}.

Definition of_loop {A} (e : TraceError) (x : looped A) : result TraceError A :=
  match x with Ended a => Ok a | LoopFailed => Err e | LoopFuel => Err OutOfFuel end.

(** Everything up to the arming of the watch: the prefixes, the offsets, the
    best-effort probes attached and the watched prefixes in the kernel. *)
Definition set_up {Handle} (m : Machine Handle) (watch_dirs : list string)
    : partial (result TraceError (list string * gmap Z Z * list string * gmap Z WatchedPrefix)) :=
  match watch_prefixes (m_canonicalize m) watch_dirs with
  | Err e => Returns (Err (BadWatch e))
  | Ok prefixes =>
      match load_ebpf (m_embedded m) (m_exe_dir m) (m_read m) with
      | None => Returns (Err LoadFailed)
      | Some ebpf_bytes =>
          if negb (m_accepts m ebpf_bytes) then Returns (Err LoadFailed)
          else
            match discover_tracepoint_offsets (m_debugfs_exists m) (m_allow_fallback m)
                    (m_read_format m) with
            | Err e => Returns (Err (BadOffsets e))
            | Ok offsets =>
                failed ← attach_required (m_attach m) REQUIRED_PROBES;
                match failed with
                | Some prog_name => Returns (Err (AttachFailed prog_name))
                | None =>
                    attached ← attach_best_effort (m_attach m) BEST_EFFORT_PROBES;
                    watched ← arm_prefixes 0 prefixes ∅;
                    Returns (Ok (prefixes, offsets, attached, watched))
                end
            end
      end
  end.

(** From the resuming of the child on: the child runs and is collected. *)
Definition run_child `{Sha256} {Handle} (m : Machine Handle) (fuel : nat)
    (sort : list RawEvent → list RawEvent) (prefixes : list string)
    (run : option (Delivery * option Z)) (child_pid : Z) (root_cwd : string)
    (root_observation : FileObservation)
    : partial (result TraceError (list TracedEvent * ProcessInstance * Z)) :=
  match run with
  | None => Returns (Err KernelFailed)
  | Some (delivery, drop_count) =>
      match of_loop KernelFailed (collect_events fuel prefixes sort (m_moments m) child_pid delivery
                                    (new_collector child_pid root_cwd)) with
      | Err e => Returns (Err e)
      | Ok collected =>
          traced ← traced_from child_pid root_cwd root_observation (default 0%Z drop_count) collected;
          Returns (Ok traced)
      end
  end.

(** [command[0]] panics on an empty command. *)
Definition trace_command `{Sha256} {Handle} (m : Machine Handle) (fuel : nat)
    (sort : list RawEvent → list RawEvent) (command watch_dirs : list string)
    : partial (result TraceError (list TracedEvent * ProcessInstance * Z)) :=
  armed ← set_up m watch_dirs;
  match armed with
  | Err e => Returns (Err e)
  | Ok (prefixes, offsets, attached, watched) =>
      match command with
      | [] => Panics
      | program :: _ =>
          let root_binary :=
            resolve_executable (m_canonicalize m) (m_path m) (m_is_file m) program in
          root_observation ← @observe_path _ (m_fs m) root_binary;
          match m_current_dir m with
          | None => Returns (Err NoCurrentDir)
          | Some root_cwd =>
              match of_loop SpawnFailed (spawn_suspended fuel (m_fork m) (m_wait m) command) with
              | Err e => Returns (Err e)
              | Ok child_pid =>
                  run_child m fuel sort prefixes (m_run m offsets watched attached child_pid) child_pid
                    root_cwd root_observation
              end
          end
      end
  end.
