(* ===== verification/SetupFacts.v ===== *)
(** * What the setup of a trace guarantees

    A trace starts only with every required tracepoint offset known and every
    watch prefix in the kernel's map, whole. *)
From S2P Require Export Setup TracerExamples.

(** ** Format lines *)

Definition tab : string := String "009" "".

(** A line of a format file: [<tab>field:DECL NAME;<tab>offset:N;REST]. *)
Definition format_line (decl name : string) (offset : Z) (rest : string) : string :=
  tab +:+ "field:" +:+ decl +:+ String " " name +:+ String ";" (tab +:+ "offset:" +:+ decimal offset
  +:+ String ";" rest).

Lemma digits_no_semicolon s : str_all is_ascii_digit s = true → str_all (λ d, negb (d =?= ";"%char)) s = true.
Proof.
  induction s as [|c s IH]; [done|]. simpl. intros [Hc Hs]%andb_true_iff. rewrite IH by done.
  rewrite bool_decide_false; [done|]. by intros ->.
Qed.

Lemma digits_hex s : str_all is_ascii_digit s = true → hex_text s = true.
Proof.
  unfold hex_text. induction s as [|c s IH]; [done|]. simpl. intros [Hc Hs]%andb_true_iff.
  rewrite IH by done. unfold is_ascii_digit in Hc. by rewrite Hc.
Qed.

Lemma word_no_semicolon s : str_all is_word_byte s = true → str_all (λ d, negb (d =?= ";"%char)) s = true.
Proof.
  induction s as [|c s IH]; [done|]. simpl. intros [Hc Hs]%andb_true_iff. rewrite IH by done.
  apply word_byte in Hc as (_ & _ & Hc). by rewrite bool_decide_false.
Qed.

Lemma trim_format_line decl name offset rest :
  ∃ rest', trim (format_line decl name offset rest)
  = "field:" +:+ decl +:+ String " " name +:+ String ";" (tab +:+ "offset:" +:+ decimal offset
    +:+ String ";" rest').
Proof.
  unfold format_line, trim, tab.
  assert (Hstart : ∀ s n, trim_start (S (S n)) (String "009" (String "f" s)) = String "f" s)
    by (intros; by rewrite !trim_start_step).
  match goal with |- context [trim_start ?n ?s] =>
    replace (trim_start n s) with ("field:" +:+ decl +:+ String " " name +:+ String ";"
      (String "009" "" +:+ "offset:" +:+ decimal offset +:+ String ";" rest))
      by (symmetry; apply Hstart) end.
  replace ("field:" +:+ decl +:+ String " " name +:+ String ";" (String "009" "" +:+ "offset:"
      +:+ decimal offset +:+ String ";" rest))
    with (("field:" +:+ decl +:+ String " " name +:+ String ";" (String "009" "" +:+ "offset:"
      +:+ decimal offset)) +:+ String ";" rest)
    by (rewrite !str_app_cons, !str_app_assoc, !str_app_cons, !str_app_assoc; done).
  destruct (trim_end_keeps ";" (String.length (("field:" +:+ decl +:+ String " " name +:+
    String ";" (String "009" "" +:+ "offset:" +:+ decimal offset)) +:+ String ";" rest))
    ("field:" +:+ decl +:+ String " " name +:+ String ";" (String "009" "" +:+ "offset:"
      +:+ decimal offset)) rest) as [rest' Heq].
  { apply (bool_decide_unpack _). vm_compute. done. }
  exists rest'. rewrite Heq.
  rewrite !str_app_cons, !str_app_assoc, !str_app_cons, !str_app_assoc. done.
Qed.

(** The format-file parser reads the kernel's lines: for a declaration of
    ASCII text without semicolons, a name and an offset that fits [u32], it
    returns the offset for that name and nothing for any other, whatever follows
    the offset. *)
Theorem parse_format_line decl name offset rest target :
  ascii_text decl = true → str_all (λ d, negb (d =?= ";"%char)) decl = true →
  str_all is_word_byte name = true → name ≠ "" → (0 ≤ offset ≤ U32_MAX)%Z →
  parse_format_field_offset (format_line decl name offset rest) target
  = if name =?= target then Some offset else None.
Proof.
  intros Ha Hd Hn Hne Ho. destruct (trim_format_line decl name offset rest) as [rest' Htrim].
  unfold parse_format_field_offset. cbv zeta. rewrite Htrim. rewrite starts_with_app. cbn [negb].
  set (tail := tab +:+ _). set (body := decl +:+ _).
  rewrite (proj2 (strip_prefix_Some "field:" _ body)) by done. cbn [mbind option_bind].
  assert (Hbody : body = (decl +:+ String " " name) +:+ String ";" tail) by (unfold body; by rewrite str_app_assoc).
  assert (Hns : str_all (λ d, negb (d =?= ";"%char)) (decl +:+ String " " name) = true).
  { rewrite str_all_app, Hd. simpl. by apply word_no_semicolon. }
  rewrite Hbody, str_find_char by done. cbn [mbind option_bind]. rewrite str_take_app, str_drop_app.
  rewrite last_word_decl by done. cbn [mbind option_bind]. destruct (name =?= target) eqn:Heq; cbn [negb]; [|done].
  assert (Hfind : str_find "offset:" (String ";" tail) = Some 2) by reflexivity.
  rewrite Hfind. cbn [mbind option_bind]. destruct (decimal_digits offset) as [Hdig Hnn]; [lia|].
  replace (str_drop (2 + 7) (String ";" tail)) with (decimal offset +:+ String ";" rest') by done.
  rewrite str_find_char by by apply digits_no_semicolon. cbn [mbind option_bind]. rewrite str_take_app.
  assert (Htr : trim (decimal offset) = decimal offset).
  { pose proof (trim_start_hex (String.length (decimal offset)) (decimal offset) ""
      (digits_hex _ Hdig) Hnn) as Hts.
    rewrite str_app_nil_r in Hts. unfold trim. rewrite Hts. by apply trim_end_hex, digits_hex. }
  rewrite Htr. by apply parse_u32_decimal.
Qed.

(** ** Discovery *)

(** The offset the format files give for a field. *)
Definition spec_offset (read_format : string → option string) (spec : OffsetSpec) : option Z :=
  content ← read_format (format_path spec); find_offset content (spec_field spec).

Lemma discover_spec_Ok read_format spec offsets m :
  discover_spec read_format spec offsets = Ok m ↔
  (spec_required spec = true → is_Some (spec_offset read_format spec)) ∧
  m = match spec_offset read_format spec with
      | Some o => <[spec_key spec := o]> offsets
      | None => offsets
      end.
Proof.
  unfold discover_spec, spec_offset. destruct (read_format _) as [content|]; simpl.
  - destruct (find_offset _ _) as [o|]; [naive_solver|]. destruct (spec_required spec); split.
    + done.
    + intros [Hs _]. by destruct (Hs eq_refl).
    + intros [= <-]. by split.
    + by intros [_ ->].
  - destruct (spec_required spec); split.
    + done.
    + intros [Hs _]. by destruct (Hs eq_refl).
    + intros [= <-]. by split.
    + by intros [_ ->].
Qed.

Lemma discover_specs_Ok read_format specs offsets m :
  NoDup (spec_key <$> specs) → discover_specs read_format specs offsets = Ok m →
  Forall (λ spec, (spec_required spec = true → is_Some (spec_offset read_format spec)) ∧
    m !! spec_key spec = match spec_offset read_format spec with
                         | Some o => Some o | None => offsets !! spec_key spec end) specs ∧
  ∀ k, k ∉ spec_key <$> specs → m !! k = offsets !! k.
Proof.
  revert offsets. induction specs as [|spec specs IH]; intros offsets Hnd Hm; simpl in Hm.
  { injection Hm as <-. by split. }
  apply result_bind_Ok in Hm as (offsets1 & [Hreq ->]%discover_spec_Ok & Hm).
  csimpl in Hnd. apply NoDup_cons in Hnd as [Hnot Hnd].
  apply (IH _ Hnd) in Hm as [Hall Hout]. split.
  - constructor.
    + split; [done|]. rewrite Hout by done.
      destruct (spec_offset read_format spec); [by rewrite lookup_insert_eq|done].
    + rewrite Forall_forall in Hall |- *. intros spec' Hin. destruct (Hall spec' Hin) as [Hr ->].
      split; [done|]. destruct (spec_offset read_format spec') as [o'|]; [done|].
      destruct (spec_offset read_format spec); [|done]. apply lookup_insert_ne.
      intros Heq. apply Hnot. rewrite Heq. by apply list_elem_of_fmap_2.
  - intros k Hk. csimpl in Hk. apply not_elem_of_cons in Hk as [Hne Hk]. rewrite Hout by done.
    destruct (spec_offset read_format spec); [by apply lookup_insert_ne|done].
Qed.

Definition offset_keys : list Z := Z.of_nat <$> seq 0 28.

(** The table names every key once, and only the clone exits are optional. *)
Lemma spec_keys :
  NoDup (spec_key <$> ALL_OFFSET_SPECS) ∧
  (∀ k, k ∈ spec_key <$> ALL_OFFSET_SPECS ↔ (0 ≤ k < MAX_OFFSET_KEY)%Z) ∧
  (∀ spec, spec ∈ ALL_OFFSET_SPECS → spec_required spec = false →
     spec_key spec = CLONE_EXIT_RET ∨ spec_key spec = CLONE3_EXIT_RET).
Proof.
  assert (Hnd : NoDup (spec_key <$> ALL_OFFSET_SPECS)) by (apply (bool_decide_unpack _); vm_compute; exact I).
  split; [exact Hnd|]. split.
  - intros k. assert (Hp : spec_key <$> ALL_OFFSET_SPECS ≡ₚ offset_keys)
      by (apply (bool_decide_unpack _); vm_compute; exact I).
    rewrite Hp. unfold offset_keys, MAX_OFFSET_KEY. rewrite list_elem_of_fmap. split.
    + intros (n & -> & Hn%elem_of_seq). lia.
    + intros Hk. exists (Z.to_nat k). rewrite elem_of_seq. lia.
  - assert (Hall : Forall (λ spec, spec_required spec = false →
      spec_key spec = CLONE_EXIT_RET ∨ spec_key spec = CLONE3_EXIT_RET) ALL_OFFSET_SPECS)
      by (apply (bool_decide_unpack _); vm_compute; exact I).
    rewrite Forall_forall in Hall. exact Hall.
Qed.

Lemma fallback_keys k : is_Some (fallback_offsets !! k) ↔ (0 ≤ k < MAX_OFFSET_KEY)%Z.
Proof.
  rewrite <- elem_of_dom. assert (Hd : dom fallback_offsets = list_to_set (C := gset Z) offset_keys)
    by (apply (bool_decide_unpack _); vm_compute; exact I).
  rewrite Hd, elem_of_list_to_set. unfold offset_keys, MAX_OFFSET_KEY. rewrite list_elem_of_fmap. split.
  - intros (n & -> & Hn%elem_of_seq). lia.
  - intros Hk. exists (Z.to_nat k). rewrite elem_of_seq. lia.
Qed.

(** Offset discovery fails closed: when it succeeds the table holds only keys
    of the shared encoding, every key but the two clone exits has an offset, and
    each offset is the one the kernel's format file gives, or, without debugfs
    and with the fallback allowed, the built-in one. *)
Theorem discover_fail_closed debugfs allow read_format m :
  discover_tracepoint_offsets debugfs allow read_format = Ok m →
  (∀ k, is_Some (m !! k) → 0 ≤ k < MAX_OFFSET_KEY)%Z ∧
  (∀ k, (0 ≤ k < MAX_OFFSET_KEY)%Z → k ≠ CLONE_EXIT_RET → k ≠ CLONE3_EXIT_RET → is_Some (m !! k)) ∧
  if debugfs then Forall (λ spec, m !! spec_key spec = spec_offset read_format spec) ALL_OFFSET_SPECS
  else allow = true ∧ m = fallback_offsets.
Proof.
  destruct spec_keys as (Hnd & Hkeys & Hopt). intros Hm. unfold discover_tracepoint_offsets in Hm.
  destruct debugfs; simpl in Hm.
  - apply (discover_specs_Ok _ _ _ _ Hnd) in Hm as [Hall Hout].
    assert (Hlook : ∀ spec, spec ∈ ALL_OFFSET_SPECS → m !! spec_key spec = spec_offset read_format spec).
    { intros spec Hin. rewrite Forall_forall in Hall. destruct (Hall spec Hin) as [_ ->].
      rewrite lookup_empty. by destruct (spec_offset _ _). }
    split_and!.
    + intros k Hk. apply Hkeys. destruct (decide (k ∈ spec_key <$> ALL_OFFSET_SPECS)) as [|Hno]; [done|].
      rewrite Hout, lookup_empty in Hk by done. by destruct Hk.
    + intros k Hk H1 H2. apply Hkeys, list_elem_of_fmap in Hk as (spec & -> & Hin).
      rewrite Hlook by done. rewrite Forall_forall in Hall. destruct (Hall spec Hin) as [Hreq _].
      destruct (spec_required spec) eqn:Hr; [by apply Hreq|].
      destruct (Hopt spec Hin Hr); congruence.
    + by apply Forall_forall.
  - destruct allow; [|done]. injection Hm as <-. split_and!; [apply fallback_keys|..|done|done].
    intros k Hk _ _. by apply fallback_keys.
Qed.

(** ** Arming the watch *)

Lemma arm_prefixes_lookup prefixes i watched :
  Forall (λ p, String.length p ≤ MAX_PREFIX_LEN) prefixes → (0 ≤ i)%Z →
  ∃ watched', arm_prefixes i prefixes watched = Returns watched' ∧
    ∀ k, watched' !! k =
      match (if (i <=? k)%Z then prefixes !! Z.to_nat (k - i) else None) with
      | Some p => Some (mkPrefix (p +:+ zero_bytes (MAX_PREFIX_LEN - String.length p))
                          (Z.of_nat (String.length p)))
      | None => watched !! k
      end.
Proof.
  intros Hlen. revert i watched. induction Hlen as [|p prefixes Hp Hlen IH]; intros i watched Hi; simpl.
  { exists watched. split; [done|]. intros k. by destruct (i <=? k)%Z; rewrite ?lookup_nil. }
  unfold watched_prefix. rewrite (proj2 (Nat.ltb_ge _ _)) by done. simpl.
  edestruct (IH (i + 1)%Z) as (watched' & -> & Hlook); [lia|]. exists watched'. split; [done|].
  intros k. rewrite Hlook. destruct (decide (k = i)) as [->|Hne].
  - rewrite Z.leb_refl, Z.sub_diag. rewrite (proj2 (Z.leb_gt _ _)) by lia. simpl. apply lookup_insert_eq.
  - destruct (Z.leb_spec (i + 1) k) as [Hle|Hgt].
    + rewrite (proj2 (Z.leb_le i k)) by lia.
      replace (Z.to_nat (k - i)) with (S (Z.to_nat (k - (i + 1)))) by lia. simpl.
      destruct (prefixes !! _); [done|]. by apply lookup_insert_ne.
    + rewrite (proj2 (Z.leb_gt i k)) by lia. by apply lookup_insert_ne.
Qed.

Lemma watch_prefixes_Ok canonicalize dirs prefixes :
  watch_prefixes canonicalize dirs = Ok prefixes ↔
  prefixes = (λ dir, default dir (canonicalize dir)) <$> dirs ∧
  length dirs ≤ MAX_WATCH_PREFIXES ∧ Forall (λ p, String.length p ≤ MAX_PREFIX_LEN) prefixes.
Proof.
  unfold watch_prefixes. destruct (Nat.ltb_spec MAX_WATCH_PREFIXES (length dirs)) as [Hgt|Hle].
  { split; [done|]. intros (_ & ? & _). lia. }
  destruct (List.find _ _) as [p|] eqn:Hf.
  - split; [done|]. intros (-> & _ & Hall). apply List.find_some in Hf as [Hin Hp].
    apply list_elem_of_In in Hin. rewrite Forall_forall in Hall. apply Hall in Hin.
    apply Nat.ltb_lt in Hp. lia.
  - split; [|by intros (-> & _)]. intros [= <-]. split_and!; [done..|]. apply Forall_forall.
    intros p Hp%list_elem_of_In. pose proof (List.find_none _ _ Hf p Hp) as Hn.
    by apply Nat.ltb_ge in Hn.
Qed.

(** Arming the kernel's prefix map: the requested directories are accepted
    exactly when there are at most eight of them and every canonical path fits
    the 128-byte array; then no copy panics, and the entry of an index is the
    whole canonical path of that directory, zero-padded, with its length; there
    are no other entries. *)
Theorem watch_armed_exactly canonicalize dirs :
  let prefixes := (λ dir, default dir (canonicalize dir)) <$> dirs in
  (length dirs ≤ MAX_WATCH_PREFIXES → Forall (λ p, String.length p ≤ MAX_PREFIX_LEN) prefixes →
   watch_prefixes canonicalize dirs = Ok prefixes ∧
   ∃ watched, arm_prefixes 0 prefixes ∅ = Returns watched ∧
     (∀ (i : nat) p, prefixes !! i = Some p →
        ∃ w, watched !! Z.of_nat i = Some w ∧ str_take (Z.to_nat (wp_len w)) (wp_prefix w) = p ∧
             String.length (wp_prefix w) = MAX_PREFIX_LEN) ∧
     ∀ k, is_Some (watched !! k) → (0 ≤ k < Z.of_nat (length dirs))%Z) ∧
  ((∃ e, watch_prefixes canonicalize dirs = Err e) ↔
   MAX_WATCH_PREFIXES < length dirs ∨ Exists (λ p, MAX_PREFIX_LEN < String.length p) prefixes).
Proof.
  intros prefixes. split.
  - intros Hn Hlen. split; [by apply watch_prefixes_Ok|].
    destruct (arm_prefixes_lookup prefixes 0 ∅ Hlen) as (watched & Harm & Hlook); [done|].
    exists watched. split; [done|]. split.
    + intros i p Hp. rewrite Hlook. rewrite (proj2 (Z.leb_le _ _)) by lia.
      replace (Z.to_nat (Z.of_nat i - 0)) with i by lia. rewrite Hp. eexists. split; [done|]. simpl.
      rewrite Nat2Z.id, str_take_app, str_length_app. split; [done|].
      assert (Hz : ∀ n, String.length (zero_bytes n) = n) by (clear; intros n; induction n; simpl; lia).
      rewrite Hz. rewrite Forall_lookup in Hlen. specialize (Hlen i p Hp). lia.
    + intros k Hk. rewrite Hlook in Hk. destruct (Z.leb_spec 0 k) as [Hle|]; [|by destruct Hk].
      destruct (prefixes !! _) as [p|] eqn:Hp; [|by destruct Hk].
      apply lookup_lt_Some in Hp. unfold prefixes in Hp. rewrite length_fmap in Hp. lia.
  - destruct (watch_prefixes canonicalize dirs) as [ps|e] eqn:Hw.
    + apply watch_prefixes_Ok in Hw as (-> & Hn & Hlen). split; [by intros [e He]|].
      intros [Hgt|Hex]; [lia|]. apply Exists_exists in Hex as (p & Hin & Hp).
      rewrite Forall_forall in Hlen. apply Hlen in Hin. lia.
    + split; [|by eauto]. intros _.
      destruct (decide (MAX_WATCH_PREFIXES < length dirs)) as [|Hn]; [by left|right].
      destruct (decide (Forall (λ p, String.length p ≤ MAX_PREFIX_LEN) prefixes)) as [Hall|Hno].
      * assert (Hok : watch_prefixes canonicalize dirs = Ok prefixes); [|congruence].
        apply watch_prefixes_Ok. split_and!; [done|lia|done].
      * apply not_Forall_Exists in Hno; [|apply _]. eapply Exists_impl; [exact Hno|]. simpl. lia.
Qed.

(** ** A whole trace *)

Lemma attach_required_None attach probes :
  attach_required attach probes = Returns None ↔
  Forall (λ p, attach p.1.1 p.1.2 p.2 = Attached) probes.
Proof.
  induction probes as [|[[prog category] name] probes IH]; cbn [attach_required].
  { split; [constructor|done]. }
  rewrite Forall_cons, <- IH. unfold attach_tracepoint. cbn [fst snd].
  destruct (attach prog category name); cbn; naive_solver.
Qed.

Lemma of_loop_Ok {A} e (x : looped A) a : of_loop e x = Ok a ↔ x = Ended a.
Proof. destruct x; simpl; naive_solver. Qed.

(** What [set_up] leaves behind: the bytecode was accepted, the offsets found,
    every required probe attached and the watch armed whole. *)
Lemma set_up_Ok {Handle} (m : Machine Handle) dirs prefixes offsets attached watched :
  set_up m dirs = Returns (Ok (prefixes, offsets, attached, watched)) →
  watch_prefixes (m_canonicalize m) dirs = Ok prefixes ∧
  discover_tracepoint_offsets (m_debugfs_exists m) (m_allow_fallback m) (m_read_format m) = Ok offsets ∧
  Forall (λ p, m_attach m p.1.1 p.1.2 p.2 = Attached) REQUIRED_PROBES ∧
  attach_best_effort (m_attach m) BEST_EFFORT_PROBES = Returns attached ∧
  arm_prefixes 0 prefixes ∅ = Returns watched.
Proof.
  unfold set_up. destruct (watch_prefixes _ _) as [ps|] eqn:Hw; [|done].
  destruct (load_ebpf _ _ _) as [bytes|]; [|done]. destruct (m_accepts m bytes); [|done]. cbn [negb].
  destruct (discover_tracepoint_offsets _ _ _) as [os|] eqn:Hd; [|done].
  intros (failed & Hf & Hrest)%partial_bind_Returns. destruct failed; [done|].
  apply partial_bind_Returns in Hrest as (att & Ha & Hrest).
  apply partial_bind_Returns in Hrest as (wd & Harm & [= <- <- <- <-]).
  by rewrite attach_required_None in Hf.
Qed.

(** C13. A successful [trace_command] is one [trace].  The watch directories were
    armed whole, the offsets found, every required probe attached, and the child
    seen to stop before it was resumed; and the result is the one-shot trace, for
    the child's first final status, of the records delivered until the ring buffer
    was silent for 100 ms, with the exec of the resolved program in front and the
    kernel's drop count added to the losses. *)
Theorem trace_command_refines_trace `{Sha256} {Handle} (m : Machine Handle) fuel sort program args dirs
    events root lost :
  trace_command m fuel sort (program :: args) dirs = Returns (Ok (events, root, lost)) →
  ∃ prefixes offsets attached watched root_observation root_cwd child_pid d drops n k code,
    watch_prefixes (m_canonicalize m) dirs = Ok prefixes ∧
    discover_tracepoint_offsets (m_debugfs_exists m) (m_allow_fallback m) (m_read_format m) = Ok offsets ∧
    Forall (λ p, m_attach m p.1.1 p.1.2 p.2 = Attached) REQUIRED_PROBES ∧
    arm_prefixes 0 prefixes ∅ = Returns watched ∧
    @observe_path _ (m_fs m) (resolve_executable (m_canonicalize m) (m_path m) (m_is_file m) program)
      = Returns root_observation ∧
    (∃ i, m_wait m i = Some (Stopped SIGSTOP) ∧ m_fork m = Some child_pid) ∧
    m_current_dir m = Some root_cwd ∧
    m_run m offsets watched attached child_pid = Some (d, drops) ∧ collected_by d n k code ∧
    trace prefixes sort (m_moments m) child_pid code root_cwd root_observation (default 0%Z drops)
      (delivered d n k) = Returns (events, root, lost) ∧
    Forall (reported prefixes) events.
Proof.
  intros Ht. unfold trace_command in Ht. apply partial_bind_Returns in Ht as (armed & Hset & Ht).
  destruct armed as [[[[prefixes offsets] attached] watched]|e]; [|done].
  apply set_up_Ok in Hset as (Hw & Hd & Hatt & Hbest & Harm).
  apply partial_bind_Returns in Ht as (obs & Hobs & Ht).
  destruct (m_current_dir m) as [cwd|] eqn:Hcwd; [|done].
  destruct (of_loop SpawnFailed _) as [child|e] eqn:Hsp; [|done].
  apply of_loop_Ok, spawn_suspended_Ended in Hsp as (_ & Hfork & (i & _ & Hstop & _)%wait_stopped_Ended).
  unfold run_child in Ht. destruct (m_run m _ _ _ _) as [[d drops]|] eqn:Hrun; [|done].
  destruct (of_loop KernelFailed _) as [r|e] eqn:Hcol; [|done].
  apply of_loop_Ok in Hcol. apply partial_bind_Returns in Ht as (traced & Htr & [= ->]).
  destruct (traced_from_trace _ _ _ _ _ _ _ obs (default 0%Z drops) _ Hcol) as (n & k & code & Hc & Heq).
  rewrite Heq in Htr. pose proof (trace_reported _ _ _ _ _ _ _ _ _ _ _ _ Htr) as Hrep.
  exists prefixes, offsets, attached, watched, obs, cwd, child, d, drops, n, k, code. split_and!; eauto.
Qed.

Module SetupExamples.
Export TracerExamples.

(** Format files that describe every field of every specification. *)
Definition all_formats : string :=
  str_concat ((λ spec, format_line "unsigned long" (spec_field spec) 16
                         (tab +:+ "size:8;" +:+ String "010" "")) <$> ALL_OFFSET_SPECS).

(** The child runs for two polls and ends at the third; then the ring buffer is
    silent, but for one late record. *)
Definition poll_of (items : list string) (i : nat) : Poll :=
  match i with
  | 0 => mkPoll (take 2 items) (Some StillAlive) true
  | 1 => mkPoll [] (Some OtherStatus) true
  | _ => mkPoll (take 3 (drop 2 items)) (Some (Exited 3)) true
  end.
Definition silence_of (items : list string) (i : nat) : Silence :=
  mkSilence (if (i =? 1)%nat then drop 5 items else []) (Z.of_nat i * 60000000)
    (Z.of_nat i * 60000000) true.
Definition delivery_of (items : list string) : Delivery :=
  mkDelivery (poll_of items) 0 (silence_of items).

Definition machine_of (p : Z) (items : list string) (drops : option Z) : Machine unit := {|
  m_fs := env_fs env; m_canonicalize dir := Some dir;
  m_embedded := None; m_exe_dir := Some "/opt/repx/target/release";
  m_read path := if path =?= "target/bpfel-unknown-none/release/repx-ebpf" then Some "ELF" else None;
  m_accepts := starts_with "ELF";
  m_debugfs_exists := true; m_allow_fallback := false;
  m_read_format path := if str_contains "clone3" path then None else Some all_formats;
  m_attach prog _ _ := if prog =?= "repx_clone3_exit" then NotAttached else Attached;
  m_path := Some "/usr/bin:/bin"; m_is_file := starts_with "/bin";
  m_current_dir := Some "/home"; m_fork := Some p;
  m_wait i := Some (if (i =? 0)%nat then OtherStatus else Stopped SIGSTOP);
  m_run _ _ _ _ := Some (delivery_of items, drops); m_moments := moments |}.
Definition machine : Machine unit := machine_of 7 items None.

Example machine_trace :
  trace_command machine 5 ts_sort ["make"] watch
  = Returns (Ok (Exec p7 (Content (digest "hello")) :: drop 1 expected, p7, 1%Z)).
Proof. vm_compute. reflexivity. Qed.

Lemma trace_command_refines_trace_witness :
  trace_command machine 5 ts_sort ["make"] watch
    = Returns (Ok (Exec p7 (Content (digest "hello")) :: drop 1 expected, p7, 1%Z)) ∧
  ∃ prefixes, watch_prefixes (m_canonicalize machine) watch = Ok prefixes ∧
    Forall (reported prefixes) (Exec p7 (Content (digest "hello")) :: drop 1 expected).
Proof.
  split; [exact machine_trace|].
  destruct (trace_command_refines_trace machine 5 ts_sort "make" [] watch _ _ _ machine_trace)
    as (prefixes & _ & _ & _ & _ & _ & _ & _ & _ & _ & _ & _ & Hw & _ & _ & _ & _ & _ & _ & _ & _ & _ & Hrep).
  exists prefixes. split; [exact Hw|exact Hrep].
Defined.

Lemma collection_ends_witness :
  ∃ r, ∀ fuel, 2 < fuel → 3 < fuel →
    collect_events fuel watch ts_sort moments 7 (delivery_of items) (new_collector 7 "/home") = Ended r.
Proof.
  apply (collection_ends watch ts_sort moments 7 (delivery_of items) (new_collector 7 "/home") 2 3 1 3).
  - intros j Hj. destruct j as [|[|j]]; [eexists; split; [reflexivity|done]..|lia].
  - eexists. split; reflexivity.
  - intros j. cbn. split; [lia|]. intros i Hi. lia.
  - intros j Hj. cbn. rewrite (proj2 (Nat.eqb_neq _ _)) by lia. reflexivity.
  - lia.
  - vm_compute. discriminate.
  - reflexivity.
Defined.

Definition found_offsets : gmap Z Z := list_to_map ((λ k, (k, 16%Z)) <$> (Z.of_nat <$> seq 0 22 ++ seq 23 5)).

Lemma discover_fail_closed_witness :
  discover_tracepoint_offsets true false (m_read_format machine) = Ok found_offsets ∧
  is_Some (found_offsets !! FORK_CHILD_PID).
Proof.
  assert (Hd : discover_tracepoint_offsets true false (m_read_format machine) = Ok found_offsets)
    by (vm_compute; reflexivity).
  split; [exact Hd|].
  destruct (discover_fail_closed true false (m_read_format machine) found_offsets Hd) as (_ & Hall & _).
  apply Hall; clear; [|discriminate|discriminate]. split; [discriminate|reflexivity].
Defined.

Lemma parse_format_line_witness :
  str_all is_word_byte "filename" = true ∧
  parse_format_field_offset (format_line "const char *" "filename" 24 "") "filename" = Some 24%Z.
Proof.
  split; [reflexivity|].
  rewrite (parse_format_line "const char *" "filename" 24 "" "filename" eq_refl eq_refl eq_refl);
    [reflexivity|discriminate|]. unfold U32_MAX. lia.
Defined.

(** Eight prefixes of the full length. *)
Definition long_prefix : string := String "/" (str_concat (replicate 127 "a")).

Lemma watch_armed_exactly_witness :
  watch_prefixes Some (replicate 8 long_prefix) = Ok (replicate 8 long_prefix) ∧
  ∃ e, watch_prefixes Some [long_prefix +:+ "a"] = Err e.
Proof.
  split.
  - apply (proj1 (watch_armed_exactly Some (replicate 8 long_prefix))).
    + vm_compute. lia.
    + apply (bool_decide_unpack _). vm_compute. exact I.
  - apply (proj2 (watch_armed_exactly Some [long_prefix +:+ "a"])). right. left. vm_compute. lia.
Defined.
End SetupExamples.
