(* ===== verification/Ebpf.v ===== *)
(** * The kernel probes ([repx-ebpf/src/main.rs])

    Each tracepoint handler is one definition on [Kernel], the BPF maps and the
    records submitted to the ring buffer; [fire] dispatches a tracepoint and a
    run is a list of firings.  A handler's [Result] is discarded by its wrapper,
    so a failed [read_field] returns the state reached so far.

    What the kernel answers during one handler is a [Ctx]: the thread, the
    clock, the raw record of the tracepoint, strings in user and kernel memory,
    and for each kind of record whether the ring buffer has room and what the
    reserved memory holds before it is written.  Maps have the capacities of
    [Limits]; handlers are atomic. *)
From S2P Require Export Common.

Definition PATH_OP_RENAME : Z := 1.
Definition PATH_OP_UNLINK : Z := 2.

Record OpenatStash := mkOpenat {
  os_dfd : Z; os_flags : Z; os_path : string; os_path_len : Z; os_from_watch : Z
}.
Record PathOpStash := mkPathOp {
  po_old_dfd : Z; po_new_dfd : Z; po_flags : Z; po_operation : Z; po_from_watch : Z
}.
Record PathStash := mkPath { ps_path : string; ps_path_len : Z }.

(** ** State *)

Record Kernel := mkKernel {
  EVENTS : list string;
  TRACKED_PIDS : gmap Z Z;
  ROOT_PID : gmap Z Z;
  OPENAT_STASH : gmap Z OpenatStash;
  PATH_OP_STASH : gmap Z PathOpStash;
  PATH_OP_OLD_PATH : gmap Z PathStash;
  PATH_OP_NEW_PATH : gmap Z PathStash;
  DROP_COUNT : gmap Z Z;
  TRACEPOINT_OFFSETS : gmap Z Z;
  WATCH_MODE : gmap Z Z;
  WATCHED_PREFIXES : gmap Z WatchedPrefix;
  WATCHED_FDS : gmap Z Z
}.

Definition with_events (x : list string) (st : Kernel) : Kernel :=
  mkKernel x (TRACKED_PIDS st) (ROOT_PID st) (OPENAT_STASH st) (PATH_OP_STASH st)
    (PATH_OP_OLD_PATH st) (PATH_OP_NEW_PATH st) (DROP_COUNT st) (TRACEPOINT_OFFSETS st)
    (WATCH_MODE st) (WATCHED_PREFIXES st) (WATCHED_FDS st).
Definition with_tracked (x : gmap Z Z) (st : Kernel) : Kernel :=
  mkKernel (EVENTS st) x (ROOT_PID st) (OPENAT_STASH st) (PATH_OP_STASH st)
    (PATH_OP_OLD_PATH st) (PATH_OP_NEW_PATH st) (DROP_COUNT st) (TRACEPOINT_OFFSETS st)
    (WATCH_MODE st) (WATCHED_PREFIXES st) (WATCHED_FDS st).
Definition with_openat (x : gmap Z OpenatStash) (st : Kernel) : Kernel :=
  mkKernel (EVENTS st) (TRACKED_PIDS st) (ROOT_PID st) x (PATH_OP_STASH st)
    (PATH_OP_OLD_PATH st) (PATH_OP_NEW_PATH st) (DROP_COUNT st) (TRACEPOINT_OFFSETS st)
    (WATCH_MODE st) (WATCHED_PREFIXES st) (WATCHED_FDS st).
Definition with_path_ops (x : gmap Z PathOpStash) (st : Kernel) : Kernel :=
  mkKernel (EVENTS st) (TRACKED_PIDS st) (ROOT_PID st) (OPENAT_STASH st) x
    (PATH_OP_OLD_PATH st) (PATH_OP_NEW_PATH st) (DROP_COUNT st) (TRACEPOINT_OFFSETS st)
    (WATCH_MODE st) (WATCHED_PREFIXES st) (WATCHED_FDS st).
Definition with_old_paths (x : gmap Z PathStash) (st : Kernel) : Kernel :=
  mkKernel (EVENTS st) (TRACKED_PIDS st) (ROOT_PID st) (OPENAT_STASH st) (PATH_OP_STASH st)
    x (PATH_OP_NEW_PATH st) (DROP_COUNT st) (TRACEPOINT_OFFSETS st)
    (WATCH_MODE st) (WATCHED_PREFIXES st) (WATCHED_FDS st).
Definition with_new_paths (x : gmap Z PathStash) (st : Kernel) : Kernel :=
  mkKernel (EVENTS st) (TRACKED_PIDS st) (ROOT_PID st) (OPENAT_STASH st) (PATH_OP_STASH st)
    (PATH_OP_OLD_PATH st) x (DROP_COUNT st) (TRACEPOINT_OFFSETS st)
    (WATCH_MODE st) (WATCHED_PREFIXES st) (WATCHED_FDS st).
Definition with_drops (x : gmap Z Z) (st : Kernel) : Kernel :=
  mkKernel (EVENTS st) (TRACKED_PIDS st) (ROOT_PID st) (OPENAT_STASH st) (PATH_OP_STASH st)
    (PATH_OP_OLD_PATH st) (PATH_OP_NEW_PATH st) x (TRACEPOINT_OFFSETS st)
    (WATCH_MODE st) (WATCHED_PREFIXES st) (WATCHED_FDS st).
Definition with_watched_fds (x : gmap Z Z) (st : Kernel) : Kernel :=
  mkKernel (EVENTS st) (TRACKED_PIDS st) (ROOT_PID st) (OPENAT_STASH st) (PATH_OP_STASH st)
    (PATH_OP_OLD_PATH st) (PATH_OP_NEW_PATH st) (DROP_COUNT st) (TRACEPOINT_OFFSETS st)
    (WATCH_MODE st) (WATCHED_PREFIXES st) x.

(** ** Capacities: [with_max_entries] of each map, and whether the ring fills *)

Record Limits := mkLimits {
  max_tracked : option Z; max_openat : option Z; max_path_ops : option Z;
  max_old_paths : option Z; max_new_paths : option Z; max_watched_fds : option Z;
  ring_fills : bool
}.

Definition kernel_limits : Limits := {|
  max_tracked := Some 4096%Z; max_openat := Some 4096%Z; max_path_ops := Some 4096%Z;
  max_old_paths := Some 4096%Z; max_new_paths := Some 4096%Z; max_watched_fds := Some 8192%Z;
  ring_fills := true |}.

(** Maps and a ring buffer without bounds. *)
Definition unlimited : Limits := mkLimits None None None None None None false.

(** [HashMap::insert(key, value, 0)]: a new key needs a free entry. *)
Definition bpf_insert {A} (max : option Z) (k : Z) (v : A) (m : gmap Z A) : option (gmap Z A) :=
  let full := match max with Some n => (n <=? Z.of_nat (size m))%Z | None => false end in
  if full && negb (bool_decide (is_Some (m !! k))) then None else Some (<[k := v]> m).

(** ** One handler's view of the kernel *)

Record Ctx := mkCtx {
  pid_tgid : Z;
  ktime : Z;
  ctx_read : Z → nat → option Z;
  user_str : Z → option string;
  kernel_str : Z → option string;
  ring_room : EventKind → bool;
  ring_buf : EventKind → string
}.

Definition ctx_tgid (ctx : Ctx) : Z := Z.shiftr (pid_tgid ctx) 32.
Definition ctx_pid (ctx : Ctx) : Z := wrap_u32 (pid_tgid ctx).

(** [n as i32] for an unsigned or wider [n]. *)
Definition as_i32 (n : Z) : Z :=
  let v := wrap_u32 n in if (v <? 2147483648)%Z then v else (v - 4294967296)%Z.
Definition as_i64 (n : Z) : Z :=
  if (n <? 9223372036854775808)%Z then n else (n - 18446744073709551616)%Z.

(** [bpf_probe_read_*_str_bytes(ptr, &mut buf)] into a zeroed buffer of [n]
    bytes: at most [n - 1] bytes and a NUL; the slice excludes the NUL, and a
    fault leaves zeros and no bytes. *)
Definition probe_read_str (n : nat) (s : option string) : string * Z :=
  let bytes := str_take (n - 1) (default "" s) in
  (bytes +:+ zero_bytes (n - String.length bytes), Z.of_nat (String.length bytes)).

(** ** Records in reserved memory *)

(** [bs] written at [o]. *)
Definition put (o : nat) (bs buf : string) : string :=
  str_take o buf +:+ bs +:+ str_drop (o + String.length bs) buf.

Definition write_header (kind : EventKind) (source ts : Z) (buf : string) : string :=
  let o := offset_of event_header in
  put (o 3) (le_bytes 8 ts) (put (o 1) (le_bytes 1 source) (put (o 0) (le_bytes 4 (kind_repr kind)) buf)).

(** The fields of a payload, written one after the other. *)
Definition write_payload (fields : list field_type) (values : list string) (buf : string) : string :=
  foldl (λ buf '(i, bs), put (payload_offset + offset_of fields i) bs buf) buf
    (imap (λ i bs, (i, bs)) values).

Definition file_open_values (p : FileOpenEvent) : list string :=
  [le_bytes 4 (fo_pid p); le_bytes 4 (fo_tgid p); le_bytes 4 (fo_fd p); le_bytes 4 (fo_dfd p);
   le_bytes 4 (fo_flags p); fo_path p; le_bytes 4 (fo_path_len p)].
Definition file_close_values (p : FileCloseEvent) : list string :=
  [le_bytes 4 (fc_pid p); le_bytes 4 (fc_tgid p); le_bytes 4 (fc_fd p)].
Definition file_mmap_values (p : FileMmapEvent) : list string :=
  [le_bytes 4 (fm_pid p); le_bytes 4 (fm_tgid p); le_bytes 4 (fm_fd p); le_bytes 4 (fm_prot p);
   le_bytes 4 (fm_flags p)].
Definition file_path_values (p : FilePathEvent) : list string :=
  [le_bytes 4 (fp_pid p); le_bytes 4 (fp_tgid p); le_bytes 4 (fp_dfd p); le_bytes 4 (fp_flags p);
   le_bytes 8 (fp_operation_id p); fp_path p; le_bytes 4 (fp_path_len p)].
Definition process_exec_values (p : ProcessExecEvent) : list string :=
  [le_bytes 4 (pe_pid p); le_bytes 4 (pe_tgid p); pe_filename p; le_bytes 4 (pe_filename_len p)].
Definition process_exit_values (p : ProcessExitEvent) : list string :=
  [le_bytes 4 (px_pid p); le_bytes 4 (px_tgid p); le_bytes 4 (px_exit_code p)].
Definition process_fork_values (p : ProcessForkEvent) : list string :=
  [le_bytes 4 (pf_parent_pid p); le_bytes 4 (pf_child_pid p)].

(** ** Helpers of the handlers *)

Definition is_tracked (tgid : Z) (st : Kernel) : bool :=
  bool_decide (is_Some (TRACKED_PIDS st !! tgid)).

(** [record_drop]: an unguarded [count + 1] on [u64]. *)
Definition record_drop (st : Kernel) : Kernel :=
  let count := default 0%Z (DROP_COUNT st !! 0%Z) in
  match bpf_insert (Some 1%Z) 0 ((count + 1) `mod` 18446744073709551616)%Z (DROP_COUNT st) with
  | Some m => with_drops m st
  | None => st
  end.

Definition untrack_pid (tgid : Z) (st : Kernel) : Kernel :=
  with_tracked (delete tgid (TRACKED_PIDS st)) st.

Definition watch_enabled (st : Kernel) : bool :=
  negb (default 0%Z (WATCH_MODE st !! 0%Z) =?= 0%Z).

(** [read_field]: the bytes of the field, as an unsigned number. *)
Definition read_field (ctx : Ctx) (st : Kernel) (key : Z) (size : nat) : option Z :=
  let offset := default 0%Z (TRACEPOINT_OFFSETS st !! key) in
  if offset =?= 0%Z then None else ctx_read ctx offset size.

(** [let x = read_field(ctx, key)?; k]. *)
Definition with_field (ctx : Ctx) (st : Kernel) (key : Z) (size : nat) (k : Z → Kernel) : Kernel :=
  match read_field ctx st key size with Some x => k x | None => st end.

Definition prefix_matches (path : string) (path_len : Z) (p : WatchedPrefix) : bool :=
  let plen := wp_len p in
  if (plen =?= 0%Z) || (Z.of_nat MAX_PREFIX_LEN <? plen)%Z || (path_len <? plen)%Z then false
  else
    forallb (λ j, (plen <=? Z.of_nat j)%Z
      || (String.get (Nat.land j (MAX_PATH_LEN - 1)) path
          =?= String.get (Nat.land j (MAX_PREFIX_LEN - 1)) (wp_prefix p))) (seq 0 MAX_PREFIX_LEN).

Definition matches_watched_prefix (st : Kernel) (path : string) (path_len : Z) : bool :=
  existsb (λ i, match WATCHED_PREFIXES st !! Z.of_nat i with
                | Some p => prefix_matches path path_len p
                | None => false
                end) (seq 0 MAX_WATCH_PREFIXES).

Definition starts_at_root (path : string) : bool := String.get 0 path =?= Some "/"%char.
Definition ebpf_path_is_absolute (path : string) (path_len : Z) : bool :=
  (0 <? path_len)%Z && starts_at_root path.

(** The key of [WATCHED_FDS]. *)
Definition fd_key (tgid fd : Z) : Z := Z.lor (Z.shiftl tgid 32) (wrap_u32 fd).

Section handlers.
Context (lim : Limits).

Definition track_pid (tgid : Z) (st : Kernel) : Kernel :=
  match bpf_insert (max_tracked lim) tgid 1%Z (TRACKED_PIDS st) with
  | Some m => with_tracked m st
  | None => record_drop st
  end.

(** [EVENTS.reserve], the writes of the branch, [entry.submit(0)]. *)
Definition submit (ctx : Ctx) (kind : EventKind) (source : Z) (fields : list field_type)
    (values : list string) (st : Kernel) : Kernel :=
  if ring_fills lim && negb (ring_room ctx kind) then record_drop st
  else
    let record := write_payload fields values
                    (write_header kind source (ktime ctx) (ring_buf ctx kind)) in
    with_events (EVENTS st ++ [record]) st.

(** ** Paths of renames and unlinks *)

(** [stash_old_path] and [stash_new_path]: the length stored, 0 if nothing is. *)
Definition stash_old_path (ctx : Ctx) (path_ptr : Z) (st : Kernel) : Kernel * Z :=
  let '(path, path_len) := probe_read_str MAX_PATH_LEN (user_str ctx path_ptr) in
  if path_len =?= 0%Z then (record_drop st, 0%Z)
  else
    match bpf_insert (max_old_paths lim) (pid_tgid ctx) (mkPath path path_len)
            (PATH_OP_OLD_PATH st) with
    | Some m => (with_old_paths m st, path_len)
    | None => (record_drop st, 0%Z)
    end.

Definition stash_new_path (ctx : Ctx) (path_ptr : Z) (st : Kernel) : Kernel * Z :=
  let '(path, path_len) := probe_read_str MAX_PATH_LEN (user_str ctx path_ptr) in
  if path_len =?= 0%Z then (record_drop st, 0%Z)
  else
    match bpf_insert (max_new_paths lim) (pid_tgid ctx) (mkPath path path_len)
            (PATH_OP_NEW_PATH st) with
    | Some m => (with_new_paths m st, path_len)
    | None => (record_drop st, 0%Z)
    end.

Definition remove_path_stash (pid_tgid : Z) (st : Kernel) : Kernel :=
  with_new_paths (delete pid_tgid (PATH_OP_NEW_PATH st))
    (with_old_paths (delete pid_tgid (PATH_OP_OLD_PATH st))
      (with_path_ops (delete pid_tgid (PATH_OP_STASH st)) st)).

Definition insert_path_op (pid_tgid : Z) (stash : PathOpStash) (st : Kernel) : Kernel :=
  match bpf_insert (max_path_ops lim) pid_tgid stash (PATH_OP_STASH st) with
  | Some m => with_path_ops m st
  | None => remove_path_stash pid_tgid (record_drop st)
  end.

Definition stash_rename (ctx : Ctx) (old_dfd old_path_ptr new_dfd new_path_ptr flags : Z)
    (st : Kernel) : Kernel :=
  let key := pid_tgid ctx in
  let tracked := is_tracked (ctx_tgid ctx) st in
  if negb tracked && negb (watch_enabled st) then st
  else
    let stash := mkPathOp old_dfd new_dfd flags PATH_OP_RENAME (if tracked then 0 else 1)%Z in
    let '(st, old_path_len) := stash_old_path ctx old_path_ptr st in
    let '(st, new_path_len) := stash_new_path ctx new_path_ptr st in
    if (old_path_len =?= 0%Z) || (new_path_len =?= 0%Z) then remove_path_stash key st
    else
      match PATH_OP_OLD_PATH st !! key, PATH_OP_NEW_PATH st !! key with
      | None, _ | Some _, None => remove_path_stash key (record_drop st)
      | Some old_path, Some new_path =>
          let both_absolute := ebpf_path_is_absolute (ps_path old_path) (ps_path_len old_path)
                               && ebpf_path_is_absolute (ps_path new_path) (ps_path_len new_path) in
          if negb tracked && both_absolute
             && negb (matches_watched_prefix st (ps_path old_path) (ps_path_len old_path))
             && negb (matches_watched_prefix st (ps_path new_path) (ps_path_len new_path))
          then remove_path_stash key st
          else insert_path_op key stash st
      end.

Definition stash_unlink (ctx : Ctx) (dfd path_ptr flags : Z) (st : Kernel) : Kernel :=
  let key := pid_tgid ctx in
  let tracked := is_tracked (ctx_tgid ctx) st in
  if negb tracked && negb (watch_enabled st) then st
  else
    let stash := mkPathOp dfd 0 flags PATH_OP_UNLINK (if tracked then 0 else 1)%Z in
    let '(st, path_len) := stash_old_path ctx path_ptr st in
    if path_len =?= 0%Z then remove_path_stash key st
    else
      match PATH_OP_OLD_PATH st !! key with
      | None => remove_path_stash key (record_drop st)
      | Some path =>
          if negb tracked && ebpf_path_is_absolute (ps_path path) (ps_path_len path)
             && negb (matches_watched_prefix st (ps_path path) (ps_path_len path))
          then remove_path_stash key st
          else insert_path_op key stash st
      end.

Definition emit_path_event (ctx : Ctx) (kind : EventKind) (source dfd flags : Z) (path : PathStash)
    (st : Kernel) : Kernel :=
  submit ctx kind source file_path_fields
    (file_path_values (mkFilePath (ctx_pid ctx) (ctx_tgid ctx) dfd flags (ktime ctx)
                         (ps_path path) (ps_path_len path))) st.

(** ** openat *)

Definition try_openat_enter (ctx : Ctx) (st : Kernel) : Kernel :=
  let tracked := is_tracked (ctx_tgid ctx) st in
  with_field ctx st OPENAT_ENTER_DFD 4 (λ dfd,
  with_field ctx st OPENAT_ENTER_FILENAME 8 (λ filename_ptr,
  with_field ctx st OPENAT_ENTER_FLAGS 4 (λ flags,
    let '(path, path_len) := probe_read_str MAX_PATH_LEN (user_str ctx filename_ptr) in
    let stash := mkOpenat (as_i32 dfd) flags path path_len (if tracked then 0 else 1)%Z in
    let is_write := negb (Z.land flags 3 =?= 0%Z) in
    let is_absolute := starts_at_root path in
    if negb tracked && (negb (watch_enabled st)
         || ((negb is_write || is_absolute) && negb (matches_watched_prefix st path path_len)))
    then st
    else
      match bpf_insert (max_openat lim) (pid_tgid ctx) stash (OPENAT_STASH st) with
      | Some m => with_openat m st
      | None => record_drop st
      end))).

(** [WATCHED_FDS.insert], for the descriptor of a watched open. *)
Definition register_fd (tgid fd : Z) (st : Kernel) : Kernel :=
  match bpf_insert (max_watched_fds lim) (fd_key tgid fd) 1%Z (WATCHED_FDS st) with
  | Some m => with_watched_fds m st
  | None => record_drop st
  end.

Definition try_openat_exit (ctx : Ctx) (st : Kernel) : Kernel :=
  match OPENAT_STASH st !! pid_tgid ctx with
  | None => st
  | Some stash =>
      let st := with_openat (delete (pid_tgid ctx) (OPENAT_STASH st)) st in
      with_field ctx st OPENAT_EXIT_RET 8 (λ ret,
        let fd := as_i32 ret in
        if (fd <? 0)%Z then st
        else
          let st := submit ctx KindFileOpen (os_from_watch stash) file_open_fields
            (file_open_values (mkFileOpen (ctx_pid ctx) (ctx_tgid ctx) fd (os_dfd stash)
               (os_flags stash) (os_path stash) (os_path_len stash))) st in
          if os_from_watch stash =?= 1%Z then
            register_fd (ctx_tgid ctx) fd st
          else st)
  end.

(** ** rename and unlink *)

Definition try_rename_enter (ctx : Ctx) (st : Kernel) : Kernel :=
  with_field ctx st RENAME_ENTER_OLD_PATH 8 (λ old_path,
  with_field ctx st RENAME_ENTER_NEW_PATH 8 (λ new_path,
    stash_rename ctx (-100) old_path (-100) new_path 0 st)).

Definition try_renameat_enter (ctx : Ctx) (st : Kernel) : Kernel :=
  with_field ctx st RENAMEAT_ENTER_OLD_DFD 4 (λ old_dfd,
  with_field ctx st RENAMEAT_ENTER_OLD_PATH 8 (λ old_path,
  with_field ctx st RENAMEAT_ENTER_NEW_DFD 4 (λ new_dfd,
  with_field ctx st RENAMEAT_ENTER_NEW_PATH 8 (λ new_path,
    stash_rename ctx (as_i32 old_dfd) old_path (as_i32 new_dfd) new_path 0 st)))).

Definition try_renameat2_enter (ctx : Ctx) (st : Kernel) : Kernel :=
  with_field ctx st RENAMEAT_ENTER_OLD_DFD 4 (λ old_dfd,
  with_field ctx st RENAMEAT_ENTER_OLD_PATH 8 (λ old_path,
  with_field ctx st RENAMEAT_ENTER_NEW_DFD 4 (λ new_dfd,
  with_field ctx st RENAMEAT_ENTER_NEW_PATH 8 (λ new_path,
  with_field ctx st RENAMEAT2_ENTER_FLAGS 4 (λ flags,
    stash_rename ctx (as_i32 old_dfd) old_path (as_i32 new_dfd) new_path flags st))))).

Definition try_unlink_enter (ctx : Ctx) (st : Kernel) : Kernel :=
  with_field ctx st UNLINK_ENTER_PATH 8 (λ path, stash_unlink ctx (-100) path 0 st).

Definition try_unlinkat_enter (ctx : Ctx) (st : Kernel) : Kernel :=
  with_field ctx st UNLINKAT_ENTER_DFD 4 (λ dfd,
  with_field ctx st UNLINKAT_ENTER_PATH 8 (λ path,
  with_field ctx st UNLINKAT_ENTER_FLAGS 4 (λ flags,
    stash_unlink ctx (as_i32 dfd) path flags st))).

Definition try_path_op_exit (ret_key : Z) (ctx : Ctx) (st : Kernel) : Kernel :=
  let key := pid_tgid ctx in
  match PATH_OP_STASH st !! key with
  | None => st
  | Some stash =>
      with_field ctx st ret_key 8 (λ ret,
        if (as_i64 ret <? 0)%Z then remove_path_stash key st
        else if po_operation stash =?= PATH_OP_RENAME then
          match PATH_OP_OLD_PATH st !! key with
          | None => remove_path_stash key (record_drop st)
          | Some old_path =>
              let st := emit_path_event ctx KindFileRenameSource (po_from_watch stash)
                          (po_old_dfd stash) (po_flags stash) old_path st in
              match PATH_OP_NEW_PATH st !! key with
              | None => remove_path_stash key (record_drop st)
              | Some new_path =>
                  remove_path_stash key
                    (emit_path_event ctx KindFileRenameDestination (po_from_watch stash)
                       (po_new_dfd stash) (po_flags stash) new_path st)
              end
          end
        else if po_operation stash =?= PATH_OP_UNLINK then
          match PATH_OP_OLD_PATH st !! key with
          | None => remove_path_stash key (record_drop st)
          | Some path =>
              remove_path_stash key
                (emit_path_event ctx KindFileUnlink (po_from_watch stash)
                   (po_old_dfd stash) (po_flags stash) path st)
          end
        else remove_path_stash key st)
  end.

(** ** close and mmap *)

Definition try_close_enter (ctx : Ctx) (st : Kernel) : Kernel :=
  with_field ctx st CLOSE_ENTER_FD 4 (λ fd,
    let tgid := ctx_tgid ctx in
    let values := file_close_values (mkFileClose (ctx_pid ctx) tgid (as_i32 fd)) in
    if is_tracked tgid st then submit ctx KindFileClose 0 file_close_fields values st
    else
      match WATCHED_FDS st !! fd_key tgid fd with
      | Some _ =>
          submit ctx KindFileClose 1 file_close_fields values
            (with_watched_fds (delete (fd_key tgid fd) (WATCHED_FDS st)) st)
      | None => st
      end).

Definition try_mmap_enter (ctx : Ctx) (st : Kernel) : Kernel :=
  with_field ctx st MMAP_ENTER_PROT 8 (λ prot,
  with_field ctx st MMAP_ENTER_FLAGS 8 (λ flags,
  with_field ctx st MMAP_ENTER_FD 8 (λ fd,
    if (as_i64 fd <? 0)%Z then st
    else
      let tgid := ctx_tgid ctx in
      let values := file_mmap_values
        (mkFileMmap (ctx_pid ctx) tgid (as_i32 fd) (wrap_u32 prot) (wrap_u32 flags)) in
      if is_tracked tgid st then submit ctx KindFileMmap 0 file_mmap_fields values st
      else
        match WATCHED_FDS st !! fd_key tgid fd with
        | Some _ => submit ctx KindFileMmap 1 file_mmap_fields values st
        | None => st
        end))).

(** ** Processes *)

Definition try_exec (ctx : Ctx) (st : Kernel) : Kernel :=
  let tgid := ctx_tgid ctx in
  let st := match ROOT_PID st !! tgid with Some _ => track_pid tgid st | None => st end in
  if negb (is_tracked tgid st) then st
  else
    with_field ctx st EXEC_DATA_LOC_FILENAME 4 (λ data_loc,
      let filename_offset := Z.land data_loc 65535 in
      let '(filename, filename_len) :=
        probe_read_str MAX_PATH_LEN (kernel_str ctx filename_offset) in
      submit ctx KindProcessExec 0 process_exec_fields
        (process_exec_values (mkProcessExec (ctx_pid ctx) tgid filename filename_len)) st).

Definition try_fork (ctx : Ctx) (st : Kernel) : Kernel :=
  let parent_pid := ctx_tgid ctx in
  with_field ctx st FORK_CHILD_PID 4 (λ child_pid,
    if negb (is_tracked parent_pid st) then st
    else
      track_pid child_pid
        (submit ctx KindProcessFork 0 process_fork_fields
           (process_fork_values (mkProcessFork parent_pid child_pid)) st)).

Definition try_clone_exit (ret_key : Z) (ctx : Ctx) (st : Kernel) : Kernel :=
  with_field ctx st ret_key 8 (λ ret,
    if (as_i64 ret <=? 0)%Z then st
    else if negb (is_tracked (ctx_tgid ctx) st) then st
    else track_pid (wrap_u32 ret) st).

Definition try_exit (ctx : Ctx) (st : Kernel) : Kernel :=
  let tgid := ctx_tgid ctx in
  let pid := ctx_pid ctx in
  if negb (is_tracked tgid st) then st
  else if negb (pid =?= tgid) then untrack_pid pid st
  else
    untrack_pid tgid
      (submit ctx KindProcessExit 0 process_exit_fields
         (process_exit_values (mkProcessExit pid tgid 0)) st).

(** ** Tracepoints *)

Inductive Tracepoint :=
  | repx_openat_enter | repx_openat_exit
  | repx_rename_enter | repx_renameat_enter | repx_renameat2_enter
  | repx_unlink_enter | repx_unlinkat_enter
  | repx_rename_exit | repx_renameat_exit | repx_renameat2_exit
  | repx_unlink_exit | repx_unlinkat_exit
  | repx_close_enter | repx_mmap_enter
  | repx_exec | repx_fork | repx_clone_exit | repx_clone3_exit | repx_exit.

Definition fire (tp : Tracepoint) : Ctx → Kernel → Kernel :=
  match tp with
  | repx_openat_enter => try_openat_enter
  | repx_openat_exit => try_openat_exit
  | repx_rename_enter => try_rename_enter
  | repx_renameat_enter => try_renameat_enter
  | repx_renameat2_enter => try_renameat2_enter
  | repx_unlink_enter => try_unlink_enter
  | repx_unlinkat_enter => try_unlinkat_enter
  | repx_rename_exit => try_path_op_exit RENAME_EXIT_RET
  | repx_renameat_exit => try_path_op_exit RENAMEAT_EXIT_RET
  | repx_renameat2_exit => try_path_op_exit RENAMEAT2_EXIT_RET
  | repx_unlink_exit => try_path_op_exit UNLINK_EXIT_RET
  | repx_unlinkat_exit => try_path_op_exit UNLINKAT_EXIT_RET
  | repx_close_enter => try_close_enter
  | repx_mmap_enter => try_mmap_enter
  | repx_exec => try_exec
  | repx_fork => try_fork
  | repx_clone_exit => try_clone_exit CLONE_EXIT_RET
  | repx_clone3_exit => try_clone_exit CLONE3_EXIT_RET
  | repx_exit => try_exit
  end.

Definition fire_all (firings : list (Tracepoint * Ctx)) (st : Kernel) : Kernel :=
  foldl (λ st '(tp, ctx), fire tp ctx st) st firings.
End handlers.

(** ** The maps as [trace_command] leaves them before it resumes the child *)

Definition armed_kernel (offsets : gmap Z Z) (watched : gmap Z WatchedPrefix) (watching : bool)
    (child_pid : Z) : Kernel :=
  mkKernel [] {[child_pid := 1%Z]} {[child_pid := 1%Z]} ∅ ∅ ∅ ∅ ∅ offsets
    (if watching then {[0%Z := 1%Z]} else ∅) watched ∅.

Definition drop_count (st : Kernel) : Z := default 0%Z (DROP_COUNT st !! 0%Z).
