(* ===== verification/EbpfRecords.v ===== *)
(** * Records written by the kernel are read back by userspace

    Byte-level facts about writing fields into reserved memory, the general
    layout theorem of [repr(C)] structs, and the round trip between the handlers'
    writes and the decoders of [Common]. *)
From S2P Require Export Ebpf.

#[global] Arguments payload_offset : simpl never.
#[global] Arguments payload_size : simpl never.
#[global] Arguments event_size : simpl never.
#[global] Arguments offset_of : simpl never.
#[global] Arguments size_of : simpl never.
#[global] Arguments put : simpl never.

(** ** Bytes at positions *)

Lemma str_ext (s t : string) : (∀ i, String.get i s = String.get i t) → s = t.
Proof.
  revert t. induction s as [|c s IH]; intros [|d t] Hst; [done|by specialize (Hst 0)..|].
  assert (Some c = Some d) as [= ->] by exact (Hst 0). f_equal. apply IH. intros i. exact (Hst (S i)).
Qed.

Lemma get_app i s t :
  String.get i (s +:+ t)
  = if (i <? String.length s)%nat then String.get i s else String.get (i - String.length s) t.
Proof.
  revert i. induction s as [|c s IH]; intros i.
  - simpl. by rewrite Nat.sub_0_r.
  - rewrite str_app_cons. destruct i as [|i]; [done|]. simpl. rewrite IH. by destruct s, i.
Qed.

Lemma get_take i n s : String.get i (str_take n s) = if (i <? n)%nat then String.get i s else None.
Proof.
  revert i s. induction n as [|n IH]; intros i [|c s]; simpl; [by destruct i..|by case_match|].
  destruct i as [|i]; [done|]. rewrite IH. by destruct n, i.
Qed.

Lemma get_drop i n s : String.get i (str_drop n s) = String.get (n + i) s.
Proof.
  revert s. induction n as [|n IH]; intros s; simpl; [by destruct s|].
  destruct s as [|c s]; [by destruct i|]. by rewrite IH.
Qed.

Lemma get_length i s : String.length s ≤ i → String.get i s = None.
Proof. revert i. induction s as [|c s IH]; intros [|i] Hi; simpl in *; try done; [lia|]. apply IH. lia. Qed.


Lemma get_bytes_at i o n s :
  String.get i (bytes_at o n s) = if (i <? n)%nat then String.get (o + i) s else None.
Proof. unfold bytes_at. by rewrite get_take, get_drop. Qed.

Lemma length_bytes_at o n s : o + n ≤ String.length s → String.length (bytes_at o n s) = n.
Proof. intros Hs. unfold bytes_at. rewrite str_length_take, str_length_drop. lia. Qed.

(** A slice of a slice. *)
Lemma bytes_at_at o n p m s : o + n ≤ m → bytes_at o n (bytes_at p m s) = bytes_at (p + o) n s.
Proof.
  intros Hm. apply str_ext. intros i. rewrite !get_bytes_at. destruct (Nat.ltb_spec i n); [|done].
  rewrite (proj2 (Nat.ltb_lt _ _)) by lia. f_equal. lia.
Qed.

(** ** Writing *)

Lemma length_put o bs buf :
  o + String.length bs ≤ String.length buf → String.length (put o bs buf) = String.length buf.
Proof. intros Ho. unfold put. rewrite !str_length_app, str_length_take, str_length_drop. lia. Qed.

Lemma get_put i o bs buf : o + String.length bs ≤ String.length buf →
  String.get i (put o bs buf)
  = if (o <=? i)%nat && (i <? o + String.length bs)%nat then String.get (i - o) bs else String.get i buf.
Proof.
  intros Ho. unfold put. rewrite !get_app, str_length_take, get_take, get_drop.
  rewrite (Nat.min_l o) by lia.
  destruct (Nat.ltb_spec i o), (Nat.leb_spec o i); try lia; simpl; [done|].
  destruct (Nat.ltb_spec (i - o) (String.length bs)), (Nat.ltb_spec i (o + String.length bs)); try lia; [done|].
  f_equal. lia.
Qed.

Lemma bytes_at_put o bs buf : o + String.length bs ≤ String.length buf →
  bytes_at o (String.length bs) (put o bs buf) = bs.
Proof.
  intros Ho. apply str_ext. intros i. rewrite get_bytes_at.
  destruct (Nat.ltb_spec i (String.length bs)).
  - rewrite get_put by done. rewrite (proj2 (Nat.leb_le _ _)), (proj2 (Nat.ltb_lt _ _)) by lia. simpl.
    f_equal. lia.
  - symmetry. by apply get_length.
Qed.

Lemma bytes_at_put_ne o' n o bs buf : o + String.length bs ≤ String.length buf →
  o' + n ≤ o ∨ o + String.length bs ≤ o' → bytes_at o' n (put o bs buf) = bytes_at o' n buf.
Proof.
  intros Ho Hne. apply str_ext. intros i. rewrite !get_bytes_at. destruct (Nat.ltb_spec i n); [|done].
  rewrite get_put by done. destruct (Nat.leb_spec o (o' + i)), (Nat.ltb_spec (o' + i) (o + String.length bs));
    simpl; [lia|done..].
Qed.

(** ** Little-endian numbers *)

Lemma length_le_bytes n v : String.length (le_bytes n v) = n.
Proof. revert v. induction n as [|n IH]; intros v; simpl; auto. Qed.

Lemma le_value_le_bytes n v : le_value (le_bytes n v) = (v `mod` 256 ^ Z.of_nat n)%Z.
Proof.
  revert v. induction n as [|n IH]; intros v; [by rewrite Z.mod_1_r|]. cbn [le_bytes le_value].
  rewrite IH. unfold byte_val. rewrite N_ascii_embedding.
  - rewrite Z2N.id by (apply Z.mod_pos_bound; lia).
    rewrite Nat2Z.inj_succ, Z.pow_succ_r by lia.
    rewrite (Z.rem_mul_r v 256) by lia. done.
  - pose proof (Z.mod_pos_bound v 256 ltac:(lia)). lia.
Qed.

#[global] Arguments le_bytes : simpl never.

Definition u8 (v : Z) : Prop := (0 ≤ v < 256)%Z.
Definition u32 (v : Z) : Prop := (0 ≤ v < 4294967296)%Z.
Definition i32 (v : Z) : Prop := (-2147483648 ≤ v < 2147483648)%Z.
Definition u64 (v : Z) : Prop := (0 ≤ v < 18446744073709551616)%Z.

(** What a field of four or eight bytes reads back. *)
Lemma le_value_u32 v : u32 v → le_value (le_bytes 4 v) = v.
Proof. intros Hv. rewrite le_value_le_bytes. apply Z.mod_small. exact Hv. Qed.
Lemma le_value_u64 v : u64 v → le_value (le_bytes 8 v) = v.
Proof. intros Hv. rewrite le_value_le_bytes. apply Z.mod_small. exact Hv. Qed.
Lemma le_value_i32 v : i32 v →
  (let u := le_value (le_bytes 4 v) in if (u <? 2147483648)%Z then u else (u - 4294967296)%Z) = v.
Proof.
  unfold i32. intros Hv. rewrite le_value_le_bytes. change (256 ^ Z.of_nat 4)%Z with 4294967296%Z.
  cbv zeta. destruct (Z.leb_spec 0 v).
  - rewrite Z.mod_small by lia. destruct (Z.ltb_spec v 2147483648); lia.
  - rewrite <- (Z.mod_add v 1) by lia. rewrite Z.mod_small by lia.
    destruct (Z.ltb_spec (v + 1 * 4294967296) 2147483648); lia.
Qed.

(** ** Layout of structs *)

Lemma align_up_ge n a : 0 < a → n ≤ align_up n a.
Proof.
  intros Ha. unfold align_up. pose proof (Nat.div_mod (n + a - 1) a ltac:(lia)).
  pose proof (Nat.mod_upper_bound (n + a - 1) a ltac:(lia)). lia.
Qed.

Lemma field_align_pos t : 0 < field_align t.
Proof. destruct t; simpl; lia. Qed.

(** Fields follow one another without overlap and end before [last]. *)
Lemma offsets_from_spec fields n :
  let '(os, last) := offsets_from n fields in
  length os = length fields ∧ n ≤ last ∧
  (∀ i o t, os !! i = Some o → fields !! i = Some t → n ≤ o ∧ o + field_size t ≤ last) ∧
  (∀ i j oi oj t, i < j → os !! i = Some oi → os !! j = Some oj → fields !! i = Some t →
     oi + field_size t ≤ oj).
Proof.
  revert n. induction fields as [|t fields IH]; intros n; simpl.
  { split_and!; [done|lia|by intros [|i] o t|by intros [|i] j oi oj t]. }
  pose proof (align_up_ge n (field_align t) (field_align_pos t)) as Hal.
  specialize (IH (align_up n (field_align t) + field_size t)).
  destruct (offsets_from _ fields) as [os last]. destruct IH as (Hlen & Hle & Hin & Hord).
  split_and!.
  - simpl. lia.
  - lia.
  - intros [|i] o t' Ho Ht'; simplify_eq/=; [lia|]. specialize (Hin i o t' Ho Ht'). lia.
  - intros [|i] [|j] oi oj t' Hij Hoi Hoj Ht'; simplify_eq/=; [lia| |lia|].
    + apply lookup_lt_Some in Hoj as Hj. rewrite Hlen in Hj. apply lookup_lt_is_Some in Hj as [tj Htj].
      specialize (Hin j oj tj Hoj Htj). lia.
    + eapply Hord; [|done..]. lia.
Qed.

Lemma offset_of_lookup fields i t : fields !! i = Some t →
  (offsets_from 0 fields).1 !! i = Some (offset_of fields i).
Proof.
  intros Ht. unfold offset_of. pose proof (offsets_from_spec fields 0) as Hs.
  destruct (offsets_from 0 fields) as [os last]. destruct Hs as (Hlen & _). simpl.
  apply lookup_lt_Some in Ht. rewrite <- Hlen in Ht.
  apply lookup_lt_is_Some in Ht as [o Ho]. rewrite Ho. f_equal. symmetry.
  by apply nth_lookup_Some.
Qed.

Lemma struct_align_pos fields : 0 < struct_align fields.
Proof. induction fields as [|t fields IH]; simpl; [lia|]. unfold struct_align in *. simpl. lia. Qed.

Lemma offset_of_bound fields i t : fields !! i = Some t → offset_of fields i + field_size t ≤ size_of fields.
Proof.
  intros Ht. pose proof (offset_of_lookup fields i t Ht) as Ho.
  pose proof (offsets_from_spec fields 0) as Hs. unfold size_of.
  destruct (offsets_from 0 fields) as [os last]. destruct Hs as (_ & _ & Hin & _). simpl in *.
  specialize (Hin i _ t Ho Ht). pose proof (align_up_ge last (struct_align fields) (struct_align_pos _)). lia.
Qed.

Lemma offset_of_order fields i j ti tj : i < j → fields !! i = Some ti → fields !! j = Some tj →
  offset_of fields i + field_size ti ≤ offset_of fields j.
Proof.
  intros Hij Hi Hj. pose proof (offset_of_lookup fields i ti Hi) as Hoi.
  pose proof (offset_of_lookup fields j tj Hj) as Hoj.
  pose proof (offsets_from_spec fields 0) as Hs.
  destruct (offsets_from 0 fields) as [os last]. destruct Hs as (_ & _ & _ & Hord). by eapply Hord.
Qed.

(** ** Writing a payload *)

(** The values fill the fields they are written to. *)
Definition fills (fields : list field_type) (values : list string) : Prop :=
  Forall2 (λ t bs, String.length bs = field_size t) fields values.

Section write.
Context (fields : list field_type).
Definition at_ (i : nat) : nat := payload_offset + offset_of fields i.
#[local] Opaque payload_offset at_.
Definition write (buf : string) (ps : list (nat * string)) : string :=
  foldl (λ buf '(i, bs), put (at_ i) bs buf) buf ps.

Definition fits (len : nat) (p : nat * string) : Prop :=
  ∃ t, fields !! p.1 = Some t ∧ String.length p.2 = field_size t ∧ at_ p.1 + field_size t ≤ len.

Lemma write_length ps buf : Forall (fits (String.length buf)) ps →
  String.length (write buf ps) = String.length buf.
Proof.
  revert buf. induction ps as [|[i bs] ps IH]; intros buf Hps; [done|].
  apply Forall_cons in Hps as [(t & Ht & Hlen & Hb) Hps]. simpl in *. unfold write in *. simpl.
  rewrite IH; [apply length_put; lia|]. by rewrite length_put by lia.
Qed.

Lemma write_frame o n ps buf : Forall (fits (String.length buf)) ps →
  (∀ i t, i ∈ ps.*1 → fields !! i = Some t → o + n ≤ at_ i ∨ at_ i + field_size t ≤ o) →
  bytes_at o n (write buf ps) = bytes_at o n buf.
Proof.
  revert buf. induction ps as [|[i bs] ps IH]; intros buf Hps Hd; [done|].
  apply Forall_cons in Hps as [(t & Ht & Hlen & Hb) Hps]. simpl in *. unfold write in *. simpl.
  rewrite IH.
  - apply bytes_at_put_ne; [lia|]. rewrite Hlen. apply Hd; [set_solver|done].
  - by rewrite length_put by lia.
  - intros j t' Hj. apply Hd. set_solver.
Qed.

Lemma write_read ps buf i bs : Forall (fits (String.length buf)) ps → NoDup ps.*1 → (i, bs) ∈ ps →
  bytes_at (at_ i) (String.length bs) (write buf ps) = bs.
Proof.
  revert buf. induction ps as [|[j cs] ps IH]; intros buf Hps Hnd Hin; [set_solver|].
  apply Forall_cons in Hps as [(t & Ht & Hlen & Hb) Hps]. apply NoDup_cons in Hnd as [Hj Hnd].
  simpl in *. unfold write in *. simpl. apply elem_of_cons in Hin as [[= -> ->]|Hin].
  - change (foldl _ ?b ps) with (write b ps). rewrite write_frame.
    + apply bytes_at_put. lia.
    + by rewrite length_put by lia.
    + intros k tk Hk Htk. rewrite Hlen.
      change (at_ k) with (payload_offset + offset_of fields k).
      change (at_ j) with (payload_offset + offset_of fields j).
      assert (k ≠ j) by (by intros ->).
      destruct (decide (k < j)).
      * right. pose proof (offset_of_order fields k j tk t ltac:(lia) Htk Ht). lia.
      * left. pose proof (offset_of_order fields j k t tk ltac:(lia) Ht Htk). lia.
  - apply IH; [by rewrite length_put by lia|done|done].
Qed.
End write.

Lemma payload_fits fields values len : fills fields values → payload_offset + size_of fields ≤ len →
  Forall (fits fields len) (imap (λ i bs, (i, bs)) values).
Proof.
  intros Hf Hlen. apply Forall_forall. intros [i bs] Hin. apply elem_of_lookup_imap in Hin as (j & x & [= -> ->] & Hx).
  destruct (Forall2_lookup_r _ _ _ _ _ Hf Hx) as (t & Ht & Hb). exists t. cbn [fst snd].
  split_and!; [done..|]. pose proof (offset_of_bound fields j t Ht).
  change (at_ fields j) with (payload_offset + offset_of fields j). lia.
Qed.

Lemma imap_fst (values : list string) : (imap (λ i bs, (i, bs)) values).*1 = seq 0 (length values).
Proof.
  rewrite fmap_imap. apply list_eq. intros i. rewrite list_lookup_imap. simpl.
  destruct (values !! i) as [x|] eqn:Hx; simpl.
  - rewrite lookup_seq_lt; [done|by eapply lookup_lt_Some].
  - symmetry. apply lookup_seq_ge. by apply lookup_ge_None.
Qed.

Lemma length_write_payload fields values buf :
  fills fields values → payload_offset + size_of fields ≤ String.length buf →
  String.length (write_payload fields values buf) = String.length buf.
Proof. intros Hf Hlen. apply write_length. by apply payload_fits. Qed.

Lemma read_write_payload fields values buf i bs :
  fills fields values → payload_offset + size_of fields ≤ String.length buf → values !! i = Some bs →
  bytes_at (payload_offset + offset_of fields i) (String.length bs) (write_payload fields values buf) = bs.
Proof.
  intros Hf Hlen Hi. apply write_read; [by apply payload_fits|rewrite imap_fst; apply NoDup_seq|].
  apply elem_of_lookup_imap. eauto.
Qed.

Lemma write_payload_before fields values buf o n :
  fills fields values → payload_offset + size_of fields ≤ String.length buf → o + n ≤ payload_offset →
  bytes_at o n (write_payload fields values buf) = bytes_at o n buf.
Proof.
  intros Hf Hlen Hb. apply write_frame; [by apply payload_fits|]. intros i t _ _. left.
  change (at_ fields i) with (payload_offset + offset_of fields i). lia.
Qed.

(** ** The members of the payload union *)

Inductive Payload :=
  | file_open (p : FileOpenEvent)
  | file_close (p : FileCloseEvent)
  | file_mmap (p : FileMmapEvent)
  | file_path (p : FilePathEvent)
  | process_exec (p : ProcessExecEvent)
  | process_exit (p : ProcessExitEvent)
  | process_fork (p : ProcessForkEvent).

Definition payload_fields (p : Payload) : list field_type :=
  match p with
  | file_open _ => file_open_fields
  | file_close _ => file_close_fields
  | file_mmap _ => file_mmap_fields
  | file_path _ => file_path_fields
  | process_exec _ => process_exec_fields
  | process_exit _ => process_exit_fields
  | process_fork _ => process_fork_fields
  end.

Definition payload_values (p : Payload) : list string :=
  match p with
  | file_open p => file_open_values p
  | file_close p => file_close_values p
  | file_mmap p => file_mmap_values p
  | file_path p => file_path_values p
  | process_exec p => process_exec_values p
  | process_exit p => process_exit_values p
  | process_fork p => process_fork_values p
  end.

(** The member a kind of event uses, read from the payload's bytes. *)
Definition read_payload (kind : EventKind) (bytes : string) : Payload :=
  match kind with
  | KindFileOpen => file_open (payload_file_open bytes)
  | KindFileClose => file_close (payload_file_close bytes)
  | KindFileMmap => file_mmap (payload_file_mmap bytes)
  | KindFileRenameSource | KindFileRenameDestination | KindFileUnlink =>
      file_path (payload_file_path bytes)
  | KindProcessExec => process_exec (payload_process_exec bytes)
  | KindProcessExit => process_exit (payload_process_exit bytes)
  | KindProcessFork => process_fork (payload_process_fork bytes)
  end.

(** The kind is one that uses the member, and every field fits its width. *)
Definition payload_ok (kind : EventKind) (p : Payload) : Prop :=
  match p with
  | file_open p =>
      kind = KindFileOpen ∧ u32 (fo_pid p) ∧ u32 (fo_tgid p) ∧ i32 (fo_fd p) ∧ i32 (fo_dfd p) ∧
      u32 (fo_flags p) ∧ String.length (fo_path p) = MAX_PATH_LEN ∧ u32 (fo_path_len p)
  | file_close p => kind = KindFileClose ∧ u32 (fc_pid p) ∧ u32 (fc_tgid p) ∧ i32 (fc_fd p)
  | file_mmap p =>
      kind = KindFileMmap ∧ u32 (fm_pid p) ∧ u32 (fm_tgid p) ∧ i32 (fm_fd p) ∧ u32 (fm_prot p) ∧
      u32 (fm_flags p)
  | file_path p =>
      kind ∈ [KindFileRenameSource; KindFileRenameDestination; KindFileUnlink] ∧
      u32 (fp_pid p) ∧ u32 (fp_tgid p) ∧ i32 (fp_dfd p) ∧ u32 (fp_flags p) ∧
      u64 (fp_operation_id p) ∧ String.length (fp_path p) = MAX_PATH_LEN ∧ u32 (fp_path_len p)
  | process_exec p =>
      kind = KindProcessExec ∧ u32 (pe_pid p) ∧ u32 (pe_tgid p) ∧
      String.length (pe_filename p) = MAX_PATH_LEN ∧ u32 (pe_filename_len p)
  | process_exit p => kind = KindProcessExit ∧ u32 (px_pid p) ∧ u32 (px_tgid p) ∧ i32 (px_exit_code p)
  | process_fork p => kind = KindProcessFork ∧ u32 (pf_parent_pid p) ∧ u32 (pf_child_pid p)
  end.

Lemma payload_fills kind p : payload_ok kind p → fills (payload_fields p) (payload_values p).
Proof.
  destruct p; simpl; intros Hp; repeat constructor; rewrite ?length_le_bytes; try done; tauto.
Qed.

Lemma payload_size_bound p : size_of (payload_fields p) ≤ payload_size.
Proof. destruct p; apply Nat.leb_le; reflexivity. Qed.

(** Reading the fields of a payload: each value reads back at its offset. *)
Definition holds (fields : list field_type) (values : list string) (s : string) : Prop :=
  ∀ i bs, values !! i = Some bs → bytes_at (offset_of fields i) (String.length bs) s = bs.

Lemma read_u32_at fields values s i v : holds fields values s → values !! i = Some (le_bytes 4 v) →
  u32 v → read_u32 (offset_of fields i) s = v.
Proof.
  intros Hs Hi Hv. specialize (Hs i _ Hi). rewrite length_le_bytes in Hs.
  unfold read_u32. rewrite Hs. by apply le_value_u32.
Qed.

Lemma read_u64_at fields values s i v : holds fields values s → values !! i = Some (le_bytes 8 v) →
  u64 v → read_u64 (offset_of fields i) s = v.
Proof.
  intros Hs Hi Hv. specialize (Hs i _ Hi). rewrite length_le_bytes in Hs.
  unfold read_u64. rewrite Hs. by apply le_value_u64.
Qed.

Lemma read_i32_at fields values s i v : holds fields values s → values !! i = Some (le_bytes 4 v) →
  i32 v → read_i32 (offset_of fields i) s = v.
Proof.
  intros Hs Hi Hv. specialize (Hs i _ Hi). rewrite length_le_bytes in Hs.
  unfold read_i32, read_u32. rewrite Hs. by apply le_value_i32.
Qed.

Lemma read_array_at fields values s i bs n : holds fields values s → values !! i = Some bs →
  String.length bs = n → bytes_at (offset_of fields i) n s = bs.
Proof. intros Hs Hi <-. by apply Hs. Qed.

Lemma read_payload_holds kind p s : payload_ok kind p →
  holds (payload_fields p) (payload_values p) s → read_payload kind s = p.
Proof.
  destruct p as [p|p|p|p|p|p|p]; simpl; intros Hok Hs; destruct p; simpl in *;
    destruct_and?; try (subst kind; simpl; f_equal; unfold payload_file_open, payload_file_close,
      payload_file_mmap, payload_process_exec, payload_process_exit, payload_process_fork; f_equal;
      (eapply read_u32_at || eapply read_i32_at || eapply read_array_at); done).
  match goal with H : kind ∈ _ |- _ =>
    assert (read_payload kind s = file_path (payload_file_path s)) as -> by
      (repeat (apply elem_of_cons in H as [->|H]; [done|]); by apply elem_of_nil in H) end.
  unfold payload_file_path. do 2 f_equal;
    (eapply read_u32_at || eapply read_i32_at || eapply read_u64_at || eapply read_array_at); done.
Qed.

(** ** Whole records *)

Definition encode_record (kind : EventKind) (source ts : Z) (p : Payload) (buf : string) : string :=
  write_payload (payload_fields p) (payload_values p) (write_header kind source ts buf).

Lemma length_write_header kind source ts buf : 16 ≤ String.length buf →
  String.length (write_header kind source ts buf) = String.length buf.
Proof.
  intros Hb. unfold write_header. change (offset_of event_header 0) with 0.
  change (offset_of event_header 1) with 4. change (offset_of event_header 3) with 8.
  assert (H0 : 0 + String.length (le_bytes 4 (kind_repr kind)) ≤ String.length buf)
    by (rewrite length_le_bytes; lia).
  assert (H1 : 4 + String.length (le_bytes 1 source) ≤ String.length (put 0 (le_bytes 4 (kind_repr kind)) buf))
    by (rewrite length_put, length_le_bytes by done; lia).
  rewrite !length_put; rewrite ?length_put, ?length_le_bytes by done; try done; lia.
Qed.

Lemma read_write_header kind source ts buf : 16 ≤ String.length buf → u8 source → u64 ts →
  let s := write_header kind source ts buf in
  read_u32 (offset_of event_header 0) s = kind_repr kind ∧
  le_value (bytes_at (offset_of event_header 1) 1 s) = source ∧
  read_u64 (offset_of event_header 3) s = ts.
Proof.
  intros Hb Hsrc Hts. cbv zeta. unfold write_header, read_u32, read_u64.
  change (offset_of event_header 0) with 0. change (offset_of event_header 1) with 4.
  change (offset_of event_header 3) with 8.
  set (b0 := put 0 (le_bytes 4 (kind_repr kind)) buf). set (b1 := put 4 (le_bytes 1 source) b0).
  pose proof (length_le_bytes 4 (kind_repr kind)) as L4. pose proof (length_le_bytes 1 source) as L1.
  pose proof (length_le_bytes 8 ts) as L8.
  assert (Hb0 : String.length b0 = String.length buf) by (apply length_put; lia).
  assert (Hb1 : String.length b1 = String.length buf) by (unfold b1; rewrite length_put; lia).
  pose proof (bytes_at_put 0 (le_bytes 4 (kind_repr kind)) buf ltac:(lia)) as R0.
  pose proof (bytes_at_put 4 (le_bytes 1 source) b0 ltac:(lia)) as R1.
  pose proof (bytes_at_put 8 (le_bytes 8 ts) b1 ltac:(lia)) as R2.
  rewrite L4 in R0. rewrite L1 in R1. rewrite L8 in R2. split_and!.
  - rewrite bytes_at_put_ne by lia. unfold b1. rewrite bytes_at_put_ne by lia. unfold b0. rewrite R0.
    apply le_value_u32. unfold u32. destruct kind; simpl; lia.
  - rewrite bytes_at_put_ne by lia. unfold b1. rewrite R1, le_value_le_bytes.
    apply Z.mod_small. exact Hsrc.
  - rewrite R2. by apply le_value_u64.
Qed.

Lemma length_encode_record kind source ts p buf : payload_ok kind p → String.length buf = event_size →
  String.length (encode_record kind source ts p buf) = event_size.
Proof.
  intros Hp Hb. unfold encode_record.
  assert (Hh : String.length (write_header kind source ts buf) = event_size)
    by (rewrite length_write_header; [done|rewrite Hb; apply Nat.leb_le; reflexivity]).
  rewrite length_write_payload; [done|by eapply payload_fills|]. rewrite Hh.
  pose proof (payload_size_bound p).
  assert (payload_offset + payload_size ≤ event_size) by (apply Nat.leb_le; reflexivity). lia.
Qed.

(** What the collector reads from a record. *)
Definition decodes_as (record : string) (kind : EventKind) (source ts : Z) (p : Payload) : Prop :=
  String.length record = event_size ∧
  kind_try_from (ev_kind (read_event record)) = Some kind ∧
  ev_source (read_event record) = source ∧ ev_timestamp_ns (read_event record) = ts ∧
  read_payload kind (ev_payload (read_event record)) = p.

Lemma encode_decodes kind source ts p buf :
  payload_ok kind p → u8 source → u64 ts → String.length buf = event_size →
  decodes_as (encode_record kind source ts p buf) kind source ts p.
Proof.
  intros Hp Hsrc Hts Hb. split; [by apply length_encode_record|].
  pose proof (payload_fills _ _ Hp) as Hf. pose proof (payload_size_bound p) as Hsz.
  assert (H16 : 16 ≤ String.length buf) by (rewrite Hb; apply Nat.leb_le; reflexivity).
  assert (Hall : payload_offset + payload_size ≤ event_size) by (apply Nat.leb_le; reflexivity).
  pose proof (length_write_header kind source ts buf H16) as Hh.
  destruct (read_write_header kind source ts buf H16 Hsrc Hts) as (Hk & Hs & Ht).
  assert (Hfit : payload_offset + size_of (payload_fields p)
    ≤ String.length (write_header kind source ts buf)) by lia.
  assert (Hbefore : ∀ o n, o + n ≤ payload_offset →
    bytes_at o n (encode_record kind source ts p buf) = bytes_at o n (write_header kind source ts buf))
    by (intros; by apply write_payload_before).
  assert (Hkind : ev_kind (read_event (encode_record kind source ts p buf)) = kind_repr kind).
  { unfold read_event, read_u32 in *. cbn [ev_kind]. rewrite Hbefore; [done|].
    apply Nat.leb_le. reflexivity. }
  split_and!.
  - rewrite Hkind. by apply kind_try_from_repr.
  - unfold read_event. cbn [ev_source]. rewrite Hbefore; [done|]. apply Nat.leb_le. reflexivity.
  - unfold read_event, read_u64 in *. cbn [ev_timestamp_ns]. rewrite Hbefore; [done|].
    apply Nat.leb_le. reflexivity.
  - apply (read_payload_holds kind p _ Hp). intros i bs Hi.
    assert (Hr := read_write_payload _ _ _ i bs Hf Hfit Hi).
    destruct (Forall2_lookup_r _ _ _ _ _ Hf Hi) as (t & Htf & Hlen).
    pose proof (offset_of_bound _ i t Htf). unfold read_event. cbn [ev_payload].
    rewrite bytes_at_at by lia. exact Hr.
Qed.

(** What a probe writes into a ring-buffer record is what the collector
    reads: for every kind of event and every payload whose fields fit their
    widths, the record has the size of [Event], and decoding it gives back the
    kind, the source, the timestamp and the payload, whatever the reserved
    memory held before. *)
Theorem record_roundtrip kind source ts p buf :
  payload_ok kind p → u8 source → u64 ts → String.length buf = event_size →
  let record := write_payload (payload_fields p) (payload_values p) (write_header kind source ts buf) in
  String.length record = event_size ∧
  kind_try_from (ev_kind (read_event record)) = Some kind ∧
  ev_source (read_event record) = source ∧ ev_timestamp_ns (read_event record) = ts ∧
  read_payload kind (ev_payload (read_event record)) = p.
Proof. exact (encode_decodes kind source ts p buf). Qed.
