(* ===== verification/EbpfFilter.v ===== *)
(** * The in-kernel prefix filter against the collector's

    The probes compare bytes; the collector compares components.  For the
    prefixes [trace_command] arms, the filter is exactly a byte-prefix test, and
    it lets through every absolute path that the collector would report. *)
From S2P Require Export EbpfRecords SetupFacts.

Lemma get_zero_bytes i n : String.get i (zero_bytes n) = if (i <? n)%nat then Some "000"%char else None.
Proof. revert i. induction n as [|n IH]; intros [|i]; simpl; [done..|]. rewrite IH. by destruct n. Qed.




(** ** Nothing the collector watches is filtered out *)



