(* ===== verification/EbpfRefine.v ===== *)
(** * A run without drops is a run without bounds

    The maps have capacities and the ring buffer fills up; every handler that
    runs into a bound counts a drop.  So a run whose drop count is 0 has reached
    the state it would have reached with unbounded maps and an unbounded ring:
    [unlimited] is the specification, and the drop count is the handlers' only
    deviation from it. *)
From S2P Require Export EbpfRecords.

Definition U64_MOD : Z := 18446744073709551616.

(** [DROP_COUNT] has no key but 0. *)
Definition drops_ok (st : Kernel) : Prop := ∀ k, is_Some (DROP_COUNT st !! k) → k = 0%Z.

(** From [x0], the bounded run reached [x] with at most [n] drops; with none it
    agrees with the ideal result [y]. *)
Definition tracks {A} (n : Z) (x0 : Kernel) (x y : Kernel * A) : Prop :=
  drops_ok x.1 ∧ ∃ d, (0 ≤ d ≤ n)%Z ∧ drop_count x.1 = ((drop_count x0 + d) `mod` U64_MOD)%Z ∧
    (d = 0%Z → x = y).

Abbreviation counted x := (x, tt).

Definition count_ok (st : Kernel) : Prop := (0 ≤ drop_count st < U64_MOD)%Z.

Lemma record_drop_spec st : drops_ok st →
  drops_ok (record_drop st) ∧ drop_count (record_drop st) = ((drop_count st + 1) `mod` U64_MOD)%Z.
Proof.
  intros Hst. unfold record_drop.
  assert (Hins : ∀ v, bpf_insert (Some 1%Z) 0%Z v (DROP_COUNT st) = Some (<[0%Z := v]> (DROP_COUNT st))).
  { intros v. unfold bpf_insert. destruct (DROP_COUNT st !! 0%Z) as [c|] eqn:Hc.
    - rewrite bool_decide_true by done. by rewrite andb_false_r.
    - assert (Hemp : DROP_COUNT st = ∅).
      { apply map_empty. intros k. destruct (DROP_COUNT st !! k) as [c|] eqn:Hk; [|done].
        assert (k = 0%Z) as -> by eauto. congruence. }
      by rewrite Hemp, map_size_empty. }
  rewrite Hins. split.
  - intros k. simpl. destruct (decide (k = 0%Z)) as [|Hne]; [done|].
    rewrite lookup_insert_ne by done. apply Hst.
  - unfold drop_count at 1. simpl. by rewrite lookup_insert_eq.
Qed.

(** ** Composition *)

Lemma tracks_refl {A} x (a : A) : drops_ok x → count_ok x → tracks 0 x (x, a) (x, a).
Proof.
  intros Hx Hc. split; [done|]. exists 0%Z. split; [lia|]. split; [|done].
  rewrite Z.add_0_r, Z.mod_small; [done|]. exact Hc.
Qed.

Lemma tracks_count_ok {A} n x0 (x y : Kernel * A) : tracks n x0 x y → count_ok x.1.
Proof. intros (_ & d & _ & Hd & _). unfold count_ok. rewrite Hd. by apply Z.mod_pos_bound. Qed.

Lemma tracks_bind {A B} n m x0 (x y : Kernel * A) (f g : Kernel * A → Kernel * B) :
  tracks n x0 x y →
  (drops_ok x.1 → count_ok x.1 → tracks m x.1 (f x) (g x)) →
  tracks (n + m) x0 (f x) (g y).
Proof.
  intros Hx Hf. pose proof (tracks_count_ok _ _ _ _ Hx) as Hc.
  destruct Hx as (Hok & d & Hd & Hcount & Heq).
  destruct (Hf Hok Hc) as (Hok' & d' & Hd' & Hcount' & Heq'). split; [done|].
  exists (d + d')%Z. split; [lia|]. split.
  - rewrite Hcount', Hcount. rewrite Zplus_mod_idemp_l. f_equal. lia.
  - intros Hz. rewrite <- Heq by lia. apply Heq'. lia.
Qed.

Lemma tracks_weaken {A} n m x0 (x y : Kernel * A) : (n ≤ m)%Z → tracks n x0 x y → tracks m x0 x y.
Proof. intros Hnm (Hok & d & Hd & Hrest). split; [done|]. exists d. split; [lia|done]. Qed.

(** A change that leaves the counter alone. *)
Lemma tracks_same {A} x0 x (a : A) : drops_ok x0 → count_ok x0 → DROP_COUNT x = DROP_COUNT x0 →
  tracks 0 x0 (x, a) (x, a).
Proof.
  intros Hok Hc Hd. unfold tracks, drops_ok, drop_count, count_ok in *. simpl. rewrite Hd.
  split; [done|]. exists 0%Z. split; [lia|]. split; [|done]. rewrite Z.add_0_r, Z.mod_small; done.
Qed.

(** A drop and then a change that leaves the counter alone. *)
Lemma tracks_drop {A} x0 x (a : A) y : drops_ok x0 → DROP_COUNT x = DROP_COUNT (record_drop x0) →
  tracks 1 x0 (x, a) y.
Proof.
  intros Hok Hd. destruct (record_drop_spec x0 Hok) as [Hok' Hc'].
  unfold tracks, drops_ok, drop_count in *. simpl. rewrite Hd. split; [done|].
  exists 1%Z. split; [lia|]. split; [done|lia].
Qed.

(** Only the counter of the starting state matters. *)
Lemma tracks_from {A} n x0 x1 (x y : Kernel * A) :
  DROP_COUNT x1 = DROP_COUNT x0 → tracks n x1 x y → tracks n x0 x y.
Proof. unfold tracks, drop_count. by intros ->. Qed.

Section refine.
Context (lim : Limits).

(** An insertion either succeeds as without bounds, or is counted. *)
Lemma tracks_insert {A V} (max : option Z) (k : Z) (v : V) (m : Kernel → gmap Z V)
    (upd : gmap Z V → Kernel → Kernel) (fail : Kernel → Kernel) (a b : A) x :
  (∀ m' z, DROP_COUNT (upd m' z) = DROP_COUNT z) → (∀ z, DROP_COUNT (fail z) = DROP_COUNT z) →
  drops_ok x → count_ok x →
  tracks 1 x
    (match bpf_insert max k v (m x) with
     | Some m' => (upd m' x, a) | None => (fail (record_drop x), b) end)
    (match bpf_insert None k v (m x) with
     | Some m' => (upd m' x, a) | None => (fail (record_drop x), b) end).
Proof.
  intros Hupd Hfail Hok Hc. unfold bpf_insert at 2. simpl.
  destruct (bpf_insert max k v (m x)) as [m'|] eqn:Hi.
  - unfold bpf_insert in Hi. destruct (_ && _); [done|]. injection Hi as <-.
    apply (tracks_weaken 0); [lia|]. by apply tracks_same.
  - apply tracks_drop; [done|]. by rewrite Hfail.
Qed.

Lemma tracks_submit ctx kind source fields values x : drops_ok x → count_ok x →
  tracks 1 x (counted (submit lim ctx kind source fields values x))
    (counted (submit unlimited ctx kind source fields values x)).
Proof.
  intros Hok Hc. unfold submit. simpl. destruct (ring_fills lim && _).
  - by apply tracks_drop.
  - apply (tracks_weaken 0); [lia|]. by apply tracks_same.
Qed.

Lemma tracks_track_pid tgid x : drops_ok x → count_ok x →
  tracks 1 x (counted (track_pid lim tgid x)) (counted (track_pid unlimited tgid x)).
Proof.
  intros Hok Hc. unfold track_pid, bpf_insert. simpl. destruct (_ && _).
  - by apply tracks_drop.
  - apply (tracks_weaken 0); [lia|]. by apply tracks_same.
Qed.

Lemma tracks_stash_old ctx ptr x : drops_ok x → count_ok x →
  tracks 1 x (stash_old_path lim ctx ptr x) (stash_old_path unlimited ctx ptr x).
Proof.
  intros Hok Hc. unfold stash_old_path. destruct (probe_read_str _ _) as [path len].
  destruct (len =?= 0%Z); [by apply tracks_drop|].
  unfold bpf_insert. simpl. destruct (_ && _); [by apply tracks_drop|].
  apply (tracks_weaken 0); [lia|]. by apply tracks_same.
Qed.

Lemma tracks_stash_new ctx ptr x : drops_ok x → count_ok x →
  tracks 1 x (stash_new_path lim ctx ptr x) (stash_new_path unlimited ctx ptr x).
Proof.
  intros Hok Hc. unfold stash_new_path. destruct (probe_read_str _ _) as [path len].
  destruct (len =?= 0%Z); [by apply tracks_drop|].
  unfold bpf_insert. simpl. destruct (_ && _); [by apply tracks_drop|].
  apply (tracks_weaken 0); [lia|]. by apply tracks_same.
Qed.

Lemma tracks_insert_path_op key stash x : drops_ok x → count_ok x →
  tracks 1 x (counted (insert_path_op lim key stash x)) (counted (insert_path_op unlimited key stash x)).
Proof.
  intros Hok Hc. unfold insert_path_op, bpf_insert. simpl. destruct (_ && _); [by apply tracks_drop|].
  apply (tracks_weaken 0); [lia|]. by apply tracks_same.
Qed.

(** Closes a goal in which both runs have done the same without a drop, or
    have just dropped. *)
Ltac tracks_leaf := first
  [ apply (tracks_weaken 0); [lia|]; by apply tracks_same
  | apply (tracks_weaken 1); [lia|]; by apply tracks_drop ].

Lemma tracks_stash_rename ctx d1 p1 d2 p2 fl x : drops_ok x → count_ok x →
  tracks 3 x (counted (stash_rename lim ctx d1 p1 d2 p2 fl x))
    (counted (stash_rename unlimited ctx d1 p1 d2 p2 fl x)).
Proof.
  intros Hok Hc. unfold stash_rename. destruct (negb _ && negb _); [tracks_leaf|].
  set (tracked := is_tracked _ x). clearbody tracked.
  pose proof (tracks_stash_old ctx p1 x Hok Hc) as H1.
  destruct (stash_old_path lim ctx p1 x) as [x1 l1], (stash_old_path unlimited ctx p1 x) as [y1 k1].
  apply (tracks_bind 1 2 x (x1, l1) (y1, k1) (λ '(st, l1), _) (λ '(st, k1), _) H1). simpl.
  intros Hok1 Hc1. pose proof (tracks_stash_new ctx p2 x1 Hok1 Hc1) as H2.
  destruct (stash_new_path lim ctx p2 x1) as [x2 l2], (stash_new_path unlimited ctx p2 x1) as [y2 k2].
  apply (tracks_bind 1 1 x1 (x2, l2) (y2, k2) (λ '(st, l2), _) (λ '(st, k2), _) H2). simpl.
  intros Hok2 Hc2. destruct (_ || _); [tracks_leaf|].
  destruct (PATH_OP_OLD_PATH x2 !! _); [|tracks_leaf]. destruct (PATH_OP_NEW_PATH x2 !! _); [|tracks_leaf].
  destruct (_ && _); [tracks_leaf|]. by apply tracks_insert_path_op.
Qed.

Lemma tracks_stash_unlink ctx d p fl x : drops_ok x → count_ok x →
  tracks 2 x (counted (stash_unlink lim ctx d p fl x)) (counted (stash_unlink unlimited ctx d p fl x)).
Proof.
  intros Hok Hc. unfold stash_unlink. destruct (negb _ && negb _); [tracks_leaf|].
  set (tracked := is_tracked _ x). clearbody tracked.
  pose proof (tracks_stash_old ctx p x Hok Hc) as H1.
  destruct (stash_old_path lim ctx p x) as [x1 l1], (stash_old_path unlimited ctx p x) as [y1 k1].
  apply (tracks_bind 1 1 x (x1, l1) (y1, k1) (λ '(st, l1), _) (λ '(st, k1), _) H1). simpl.
  intros Hok1 Hc1. destruct (l1 =?= 0%Z); [tracks_leaf|].
  destruct (PATH_OP_OLD_PATH x1 !! _); [|tracks_leaf].
  destruct (_ && _); [tracks_leaf|]. by apply tracks_insert_path_op.
Qed.

Lemma tracks_path_op_exit key ctx x : drops_ok x → count_ok x →
  tracks 3 x (counted (try_path_op_exit lim key ctx x)) (counted (try_path_op_exit unlimited key ctx x)).
Proof.
  intros Hok Hc. unfold try_path_op_exit. destruct (PATH_OP_STASH x !! _) as [stash|]; [|tracks_leaf].
  unfold with_field. destruct (read_field _ _ _ _) as [ret|]; [|tracks_leaf].
  destruct (_ <? 0)%Z; [tracks_leaf|]. destruct (_ =?= PATH_OP_RENAME).
  - destruct (PATH_OP_OLD_PATH x !! _) as [old|]; [|tracks_leaf].
    unfold emit_path_event.
    match goal with |- context [submit lim ?c KindFileRenameSource ?s ?f ?v x] =>
      pose proof (tracks_submit c KindFileRenameSource s f v x Hok Hc) as H1;
      set (x1 := submit lim c KindFileRenameSource s f v x) in *;
      set (y1 := submit unlimited c KindFileRenameSource s f v x) in * end.
    clearbody x1 y1.
    apply (tracks_bind 1 2 x (x1, tt) (y1, tt) (λ '(st, _), _) (λ '(st, _), _) H1). simpl.
    intros Hok1 Hc1. destruct (PATH_OP_NEW_PATH x1 !! _) as [new|]; [|tracks_leaf].
    match goal with |- tracks _ _ (counted (remove_path_stash ?key (submit _ ?c ?k ?s ?f ?v _))) _ =>
      apply (tracks_bind 1 1 x1 _ _ (λ '(st, _), counted (remove_path_stash key st))
        (λ '(st, _), counted (remove_path_stash key st)) (tracks_submit c k s f v x1 Hok1 Hc1)) end.
    simpl. intros. tracks_leaf.
  - destruct (_ =?= PATH_OP_UNLINK); [|tracks_leaf].
    destruct (PATH_OP_OLD_PATH x !! _) as [old|]; [|tracks_leaf]. unfold emit_path_event.
    match goal with |- tracks _ _ (counted (remove_path_stash ?key (submit _ ?c ?k ?s ?f ?v _))) _ =>
      apply (tracks_bind 1 2 x _ _ (λ '(st, _), counted (remove_path_stash key st))
        (λ '(st, _), counted (remove_path_stash key st)) (tracks_submit c k s f v x Hok Hc)) end.
    simpl. intros. tracks_leaf.
Qed.

Lemma tracks_openat_enter ctx x : drops_ok x → count_ok x →
  tracks 3 x (counted (try_openat_enter lim ctx x)) (counted (try_openat_enter unlimited ctx x)).
Proof.
  intros Hok Hc. unfold try_openat_enter, with_field.
  do 3 (destruct (read_field _ _ _ _); [|tracks_leaf]).
  destruct (probe_read_str _ _) as [path len]. destruct (_ && _); [tracks_leaf|].
  unfold bpf_insert. simpl. destruct (_ && _); tracks_leaf.
Qed.

Lemma tracks_openat_exit ctx x : drops_ok x → count_ok x →
  tracks 3 x (counted (try_openat_exit lim ctx x)) (counted (try_openat_exit unlimited ctx x)).
Proof.
  intros Hok Hc. unfold try_openat_exit. destruct (OPENAT_STASH x !! _) as [stash|]; [|tracks_leaf].
  cbv zeta. set (x1 := with_openat _ x).
  apply (tracks_from _ x x1); [done|].
  assert (Hok1 : drops_ok x1) by exact Hok. assert (Hc1 : count_ok x1) by exact Hc. clearbody x1.
  unfold with_field. destruct (read_field _ _ _ _) as [ret|]; [|tracks_leaf].
  destruct (_ <? 0)%Z; [tracks_leaf|].
  match goal with |- context [submit lim ?c ?k ?s ?f ?v x1] =>
    pose proof (tracks_submit c k s f v x1 Hok1 Hc1) as H1;
    set (x2 := submit lim c k s f v x1) in *; set (y2 := submit unlimited c k s f v x1) in * end.
  apply (tracks_bind 1 2 x1 (x2, tt) (y2, tt)
    (λ '(st, _), counted (if os_from_watch stash =?= 1%Z
                          then register_fd lim (ctx_tgid ctx) (as_i32 ret) st else st))
    (λ '(st, _), counted (if os_from_watch stash =?= 1%Z
                          then register_fd unlimited (ctx_tgid ctx) (as_i32 ret) st else st)) H1).
  simpl. intros Hok2 Hc2. destruct (_ =?= 1%Z); [|tracks_leaf].
  unfold register_fd, bpf_insert. cbn [unlimited max_watched_fds andb].
  destruct (_ && _); tracks_leaf.
Qed.

Lemma tracks_exec ctx x : drops_ok x → count_ok x →
  tracks 3 x (counted (try_exec lim ctx x)) (counted (try_exec unlimited ctx x)).
Proof.
  intros Hok Hc. unfold try_exec. cbv zeta.
  set (x1 := match ROOT_PID x !! _ with Some _ => track_pid lim _ x | None => x end).
  set (y1 := match ROOT_PID x !! _ with Some _ => track_pid unlimited _ x | None => x end).
  assert (H1 : tracks 1 x (x1, tt) (y1, tt)).
  { unfold x1, y1. destruct (ROOT_PID x !! _); [by apply tracks_track_pid|tracks_leaf]. }
  clearbody x1 y1.
  apply (tracks_bind 1 2 x (x1, tt) (y1, tt) (λ '(st, _), _) (λ '(st, _), _) H1). simpl.
  intros Hok1 Hc1. destruct (negb _); [tracks_leaf|]. unfold with_field.
  destruct (read_field _ _ _ _) as [loc|]; [|tracks_leaf].
  apply (tracks_weaken 1); [lia|]. by apply tracks_submit.
Qed.

Lemma tracks_fork ctx x : drops_ok x → count_ok x →
  tracks 3 x (counted (try_fork lim ctx x)) (counted (try_fork unlimited ctx x)).
Proof.
  intros Hok Hc. unfold try_fork, with_field. destruct (read_field _ _ _ _) as [child|]; [|tracks_leaf].
  destruct (negb _); [tracks_leaf|].
  match goal with |- tracks _ _ (counted (track_pid _ ?t (submit _ ?c ?k ?s ?f ?v _))) _ =>
    apply (tracks_bind 1 2 x _ _ (λ '(st, _), counted (track_pid lim t st))
      (λ '(st, _), counted (track_pid unlimited t st)) (tracks_submit c k s f v x Hok Hc)) end.
  simpl. intros. apply (tracks_weaken 1); [lia|]. by apply tracks_track_pid.
Qed.

(** One firing counts at most three drops. *)
Lemma tracks_fire tp ctx x : drops_ok x → count_ok x →
  tracks 3 x (counted (fire lim tp ctx x)) (counted (fire unlimited tp ctx x)).
Proof.
  intros Hok Hc. destruct tp; simpl; auto using tracks_path_op_exit, tracks_openat_enter,
    tracks_openat_exit, tracks_exec, tracks_fork.
  - unfold try_rename_enter, with_field. do 2 (destruct (read_field _ _ _ _); [|tracks_leaf]).
    by apply tracks_stash_rename.
  - unfold try_renameat_enter, with_field. do 4 (destruct (read_field _ _ _ _); [|tracks_leaf]).
    by apply tracks_stash_rename.
  - unfold try_renameat2_enter, with_field. do 5 (destruct (read_field _ _ _ _); [|tracks_leaf]).
    by apply tracks_stash_rename.
  - unfold try_unlink_enter, with_field. destruct (read_field _ _ _ _); [|tracks_leaf].
    apply (tracks_weaken 2); [lia|]. by apply tracks_stash_unlink.
  - unfold try_unlinkat_enter, with_field. do 3 (destruct (read_field _ _ _ _); [|tracks_leaf]).
    apply (tracks_weaken 2); [lia|]. by apply tracks_stash_unlink.
  - unfold try_close_enter, with_field. destruct (read_field _ _ _ _); [|tracks_leaf].
    destruct (is_tracked _ _); [apply (tracks_weaken 1); [lia|]; by apply tracks_submit|].
    destruct (WATCHED_FDS x !! _); [|tracks_leaf].
    match goal with |- context [with_watched_fds ?m x] => set (x1 := with_watched_fds m x) end.
    apply (tracks_from _ x x1); [done|]. apply (tracks_weaken 1); [lia|]. by apply tracks_submit.
  - unfold try_mmap_enter, with_field. do 3 (destruct (read_field _ _ _ _); [|tracks_leaf]).
    destruct (_ <? 0)%Z; [tracks_leaf|].
    destruct (is_tracked _ _); [apply (tracks_weaken 1); [lia|]; by apply tracks_submit|].
    destruct (WATCHED_FDS x !! _); [|tracks_leaf]. apply (tracks_weaken 1); [lia|]. by apply tracks_submit.
  - unfold try_clone_exit, with_field. destruct (read_field _ _ _ _); [|tracks_leaf].
    destruct (_ <=? 0)%Z; [tracks_leaf|]. destruct (negb _); [tracks_leaf|].
    apply (tracks_weaken 1); [lia|]. by apply tracks_track_pid.
  - unfold try_clone_exit, with_field. destruct (read_field _ _ _ _); [|tracks_leaf].
    destruct (_ <=? 0)%Z; [tracks_leaf|]. destruct (negb _); [tracks_leaf|].
    apply (tracks_weaken 1); [lia|]. by apply tracks_track_pid.
  - unfold try_exit. destruct (negb _); [tracks_leaf|]. destruct (negb _); [tracks_leaf|].
    match goal with |- tracks _ _ (counted (untrack_pid ?t (submit _ ?c ?k ?s ?f ?v _))) _ =>
      apply (tracks_bind 1 2 x _ _ (λ '(st, _), counted (untrack_pid t st))
        (λ '(st, _), counted (untrack_pid t st)) (tracks_submit c k s f v x Hok Hc)) end.
    simpl. intros. tracks_leaf.
Qed.

Lemma tracks_fire_all firings x : drops_ok x → count_ok x →
  tracks (3 * Z.of_nat (length firings)) x (counted (fire_all lim firings x))
    (counted (fire_all unlimited firings x)).
Proof.
  revert x. induction firings as [|[tp ctx] firings IH]; intros x Hok Hc; [by apply tracks_refl|].
  pose proof (tracks_bind 3 (3 * Z.of_nat (length firings)) x _ _
    (λ '(st, _), counted (fire_all lim firings st))
    (λ '(st, _), counted (fire_all unlimited firings st)) (tracks_fire tp ctx x Hok Hc)) as Hb.
  simpl in Hb. apply (tracks_weaken (3 + 3 * Z.of_nat (length firings))); [simpl; lia|].
  apply Hb. apply IH.
Qed.
End refine.

(** A run that ends with drop count 0 never dropped, so each of its prefixes is
    the prefix of a run without limits. *)
Lemma undropped_prefix lim offsets watched watching child firings later :
  (Z.of_nat (length (firings ++ later)) < 2 ^ 62)%Z →
  drop_count (fire_all lim (firings ++ later) (armed_kernel offsets watched watching child)) = 0%Z →
  fire_all lim firings (armed_kernel offsets watched watching child)
  = fire_all unlimited firings (armed_kernel offsets watched watching child).
Proof.
  rewrite length_app, Nat2Z.inj_add. intros Hn Hd.
  set (st0 := armed_kernel offsets watched watching child) in *.
  assert (Hok : drops_ok st0) by (intros k [v Hv]; simpl in Hv; by rewrite lookup_empty in Hv).
  destruct (tracks_fire_all lim firings st0 Hok) as (Hok1 & d1 & Hb1 & Hcount1 & Heq); [by split|].
  simpl in Hcount1. change (drop_count st0) with 0%Z in Hcount1. unfold U64_MOD in *.
  rewrite Z.mod_small in Hcount1 by lia.
  destruct (tracks_fire_all lim later (fire_all lim firings st0) Hok1) as (_ & d2 & Hb2 & Hcount2 & _).
  { unfold count_ok, U64_MOD. lia. }
  simpl in Hcount2. unfold fire_all in Hd. rewrite foldl_app in Hd. unfold fire_all in Hcount1, Hcount2.
  unfold U64_MOD in Hcount2. rewrite Hd, Hcount1, Z.mod_small in Hcount2 by lia.
  assert (d1 = 0%Z) as -> by lia. specialize (Heq eq_refl). by injection Heq.
Qed.

(** C18. The drop count certifies the run: from the maps [trace_command] arms, a
    run of fewer than 2^62 tracepoints that ends with drop count 0 is in exactly
    the state, and has submitted exactly the records, of a kernel whose maps and
    ring buffer are unbounded. *)
Theorem undropped_run_is_unbounded lim offsets watched watching child firings :
  (Z.of_nat (length firings) < 2 ^ 62)%Z →
  let st := fire_all lim firings (armed_kernel offsets watched watching child) in
  drop_count st = 0%Z →
  st = fire_all unlimited firings (armed_kernel offsets watched watching child).
Proof.
  cbv zeta. intros Hn Hd.
  apply (undropped_prefix lim offsets watched watching child firings []); by rewrite app_nil_r.
Qed.
