(* ===== verification/EbpfPairing.v ===== *)
(** * Entry and exit of a system call are paired per thread

    The arguments of an [openat], rename or unlink are stashed when the call
    enters and reported when it returns.  Whatever other threads do in between,
    and whatever other probes the thread itself fires, the stash of a thread is
    its own: the record carries the arguments of the call that returned. *)
From S2P Require Export EbpfRefine.

(** ** What the helpers leave alone *)

(** The maps that only one family of probes, or only userspace, changes. *)
Record same_setup (st st' : Kernel) : Prop := {
  same_offsets : TRACEPOINT_OFFSETS st' = TRACEPOINT_OFFSETS st;
  same_root : ROOT_PID st' = ROOT_PID st;
  same_mode : WATCH_MODE st' = WATCH_MODE st;
  same_prefixes : WATCHED_PREFIXES st' = WATCHED_PREFIXES st
}.

Definition same_openat (t : Z) (st st' : Kernel) : Prop :=
  same_setup st st' ∧ OPENAT_STASH st' !! t = OPENAT_STASH st !! t.

Definition same_path_op (t : Z) (st st' : Kernel) : Prop :=
  same_setup st st' ∧ PATH_OP_STASH st' !! t = PATH_OP_STASH st !! t ∧
  PATH_OP_OLD_PATH st' !! t = PATH_OP_OLD_PATH st !! t ∧
  PATH_OP_NEW_PATH st' !! t = PATH_OP_NEW_PATH st !! t.

#[export] Instance same_setup_refl : Reflexive same_setup.
Proof. by split. Qed.
#[export] Instance same_setup_trans : Transitive same_setup.
Proof. intros x y z [] []. split; congruence. Qed.
#[export] Instance same_openat_refl t : Reflexive (same_openat t).
Proof. by split. Qed.
#[export] Instance same_openat_trans t : Transitive (same_openat t).
Proof. intros x y z [] []. split; [by trans y|congruence]. Qed.
#[export] Instance same_path_op_refl t : Reflexive (same_path_op t).
Proof. by split. Qed.
#[export] Instance same_path_op_trans t : Transitive (same_path_op t).
Proof. intros x y z (? & ? & ? & ?) (? & ? & ? & ?). split; [by trans y|]. split_and!; congruence. Qed.

(** A change of the state that leaves every stash alone. *)
Definition quiet (st st' : Kernel) : Prop := ∀ t, same_openat t st st' ∧ same_path_op t st st'.

#[export] Instance quiet_refl : Reflexive quiet.
Proof. by split. Qed.
#[export] Instance quiet_trans : Transitive quiet.
Proof. intros x y z H1 H2 t. destruct (H1 t), (H2 t). split; by trans y. Qed.

Create HintDb kernel discriminated.

Lemma quiet_record_drop st : quiet st (record_drop st).
Proof. unfold record_drop. case_match; by repeat split. Qed.
Lemma quiet_untrack p st : quiet st (untrack_pid p st).
Proof. by repeat split. Qed.
Lemma quiet_with_watched_fds m st : quiet st (with_watched_fds m st).
Proof. by repeat split. Qed.
Lemma quiet_with_events l st : quiet st (with_events l st).
Proof. by repeat split. Qed.
Lemma quiet_with_tracked m st : quiet st (with_tracked m st).
Proof. by repeat split. Qed.
#[export] Hint Resolve quiet_refl quiet_record_drop quiet_untrack quiet_with_watched_fds
  quiet_with_events quiet_with_tracked : kernel.

Section frames.
Context (lim : Limits).

Lemma quiet_submit ctx k src fs vs st : quiet st (submit lim ctx k src fs vs st).
Proof. unfold submit. case_match; auto with kernel. Qed.
Lemma quiet_track p st : quiet st (track_pid lim p st).
Proof. unfold track_pid. case_match; auto with kernel. Qed.
Lemma quiet_register t fd st : quiet st (register_fd lim t fd st).
Proof. unfold register_fd. case_match; auto with kernel. Qed.

(** The probes that touch no stash. *)
Lemma quiet_fire tp ctx st :
  tp ∈ [repx_close_enter; repx_mmap_enter; repx_exec; repx_fork; repx_clone_exit; repx_clone3_exit;
        repx_exit] →
  quiet st (fire lim tp ctx st).
Proof.
  intros Htp. repeat (apply elem_of_cons in Htp as [->|Htp]); simpl; [..|by apply elem_of_nil in Htp].
  - unfold try_close_enter, with_field. repeat case_match; auto using quiet_submit with kernel.
    etrans; [|apply quiet_submit]. auto with kernel.
  - unfold try_mmap_enter, with_field. repeat case_match; auto using quiet_submit with kernel.
  - unfold try_exec. cbv zeta. set (st1 := match ROOT_PID st !! _ with Some _ => _ | None => st end).
    assert (H1 : quiet st st1) by (unfold st1; case_match; auto using quiet_track with kernel).
    trans st1; [done|]. unfold with_field. repeat case_match; auto using quiet_submit with kernel.
  - unfold try_fork, with_field. repeat case_match; auto with kernel.
    etrans; [apply quiet_submit|apply quiet_track].
  - unfold try_clone_exit, with_field. repeat case_match; auto using quiet_track with kernel.
  - unfold try_clone_exit, with_field. repeat case_match; auto using quiet_track with kernel.
  - unfold try_exit. repeat case_match; auto with kernel.
    etrans; [apply quiet_submit|]. auto with kernel.
Qed.

(** The probes of [openat] change only the stash of their own thread. *)
Lemma openat_enter_frame ctx st t : t ≠ pid_tgid ctx →
  same_openat t st (try_openat_enter lim ctx st).
Proof.
  intros Hne. unfold try_openat_enter, with_field.
  do 3 (destruct (read_field _ _ _ _); [|done]).
  destruct (probe_read_str _ _) as [path len]. destruct (_ && _); [done|].
  unfold bpf_insert. destruct (_ && _); [apply (quiet_record_drop st t)|].
  split; [by split|]. simpl. by apply lookup_insert_ne.
Qed.

Lemma openat_exit_frame ctx st t : t ≠ pid_tgid ctx →
  same_openat t st (try_openat_exit lim ctx st).
Proof.
  intros Hne. unfold try_openat_exit. destruct (OPENAT_STASH st !! pid_tgid ctx) as [stash|]; [|done].
  cbv zeta. trans (with_openat (delete (pid_tgid ctx) (OPENAT_STASH st)) st).
  { split; [by split|]. simpl. by apply lookup_delete_ne. }
  unfold with_field. repeat case_match; try done.
  - etrans; [apply quiet_submit|apply quiet_register].
  - apply quiet_submit.
Qed.

(** The probes of renames and unlinks do not touch [openat]'s stash. *)
Lemma same_openat_old_paths m st t : same_openat t st (with_old_paths m st).
Proof. by split. Qed.

Lemma stash_old_openat ctx p st t : same_openat t st (stash_old_path lim ctx p st).1.
Proof. unfold stash_old_path. repeat (case_match; simpl); try apply (quiet_record_drop st t); by split. Qed.
Lemma stash_new_openat ctx p st t : same_openat t st (stash_new_path lim ctx p st).1.
Proof. unfold stash_new_path. repeat (case_match; simpl); try apply (quiet_record_drop st t); by split. Qed.
Lemma remove_openat k st t : same_openat t st (remove_path_stash k st).
Proof. by split. Qed.
Lemma drop_remove_openat k st t : same_openat t st (remove_path_stash k (record_drop st)).
Proof. etrans; [apply (quiet_record_drop st t)|apply remove_openat]. Qed.
Lemma insert_op_openat k s st t : same_openat t st (insert_path_op lim k s st).
Proof. unfold insert_path_op. case_match; [by split|apply drop_remove_openat]. Qed.

Lemma stash_rename_openat ctx d1 p1 d2 p2 fl st t : same_openat t st (stash_rename lim ctx d1 p1 d2 p2 fl st).
Proof.
  unfold stash_rename. case_match; [done|].
  pose proof (stash_old_openat ctx p1 st t) as H1. destruct (stash_old_path lim ctx p1 st) as [st1 l1].
  pose proof (stash_new_openat ctx p2 st1 t) as H2. destruct (stash_new_path lim ctx p2 st1) as [st2 l2].
  trans st1; [done|]. trans st2; [done|]. simpl in *.
  repeat case_match; auto using remove_openat, drop_remove_openat, insert_op_openat.
Qed.

Lemma stash_unlink_openat ctx d p fl st t : same_openat t st (stash_unlink lim ctx d p fl st).
Proof.
  unfold stash_unlink. case_match; [done|].
  pose proof (stash_old_openat ctx p st t) as H1. destruct (stash_old_path lim ctx p st) as [st1 l1].
  trans st1; [done|]. simpl in *.
  repeat case_match; auto using remove_openat, drop_remove_openat, insert_op_openat.
Qed.

Lemma path_op_exit_openat key ctx st t : same_openat t st (try_path_op_exit lim key ctx st).
Proof.
  unfold try_path_op_exit, with_field, emit_path_event. destruct (PATH_OP_STASH st !! _); [|done].
  destruct (read_field _ _ _ _); [|done]. destruct (_ <? 0)%Z; [apply remove_openat|].
  destruct (_ =?= PATH_OP_RENAME).
  - destruct (PATH_OP_OLD_PATH st !! _); [|apply drop_remove_openat].
    etrans; [apply quiet_submit|]. destruct (PATH_OP_NEW_PATH _ !! _); [|apply drop_remove_openat].
    etrans; [apply quiet_submit|apply remove_openat].
  - destruct (_ =?= PATH_OP_UNLINK); [|apply remove_openat].
    destruct (PATH_OP_OLD_PATH st !! _); [|apply drop_remove_openat].
    etrans; [apply quiet_submit|apply remove_openat].
Qed.

(** A firing that is not this thread's [openat]. *)
Definition not_openat_of (t : Z) (f : Tracepoint * Ctx) : Prop :=
  pid_tgid f.2 ≠ t ∨ f.1 ∉ [repx_openat_enter; repx_openat_exit].

Lemma path_enter_openat tp ctx st t :
  tp ∈ [repx_rename_enter; repx_renameat_enter; repx_renameat2_enter; repx_unlink_enter;
        repx_unlinkat_enter] →
  same_openat t st (fire lim tp ctx st).
Proof.
  intros Htp. repeat (apply elem_of_cons in Htp as [->|Htp]); [..|by apply elem_of_nil in Htp];
    cbn [fire]; unfold try_rename_enter, try_renameat_enter, try_renameat2_enter, try_unlink_enter,
      try_unlinkat_enter, with_field;
    repeat (destruct (read_field _ _ _ _); [|reflexivity]);
    match goal with
    | |- context [stash_rename] => apply stash_rename_openat
    | |- _ => apply stash_unlink_openat
    end.
Qed.

Lemma path_exit_openat tp ctx st t :
  tp ∈ [repx_rename_exit; repx_renameat_exit; repx_renameat2_exit; repx_unlink_exit;
        repx_unlinkat_exit] →
  same_openat t st (fire lim tp ctx st).
Proof.
  intros Htp. repeat (apply elem_of_cons in Htp as [->|Htp]); [..|by apply elem_of_nil in Htp];
    apply path_op_exit_openat.
Qed.

Lemma fire_openat_frame tp ctx st t : not_openat_of t (tp, ctx) → same_openat t st (fire lim tp ctx st).
Proof.
  intros Hno. destruct tp;
    try (apply path_enter_openat; repeat constructor; fail);
    try (apply path_exit_openat; repeat constructor; fail);
    try (apply quiet_fire; repeat constructor; fail).
  - apply openat_enter_frame. destruct Hno as [Hne|Hno]; [done|set_solver].
  - apply openat_exit_frame. destruct Hno as [Hne|Hno]; [done|set_solver].
Qed.

Lemma fire_all_openat_frame firings st t : Forall (not_openat_of t) firings →
  same_openat t st (fire_all lim firings st).
Proof.
  intros Hf. revert st. induction Hf as [|[tp ctx] firings Hno _ IH]; intros st; [done|].
  simpl. etrans; [by apply fire_openat_frame|apply IH].
Qed.
End frames.

(** ** Frames of the rename and unlink stashes *)

Section path_frames.
Context (lim : Limits).

Lemma openat_enter_path_op ctx st t : same_path_op t st (try_openat_enter lim ctx st).
Proof.
  unfold try_openat_enter, with_field. do 3 (destruct (read_field _ _ _ _); [|done]).
  destruct (probe_read_str _ _) as [path len]. destruct (_ && _); [done|].
  unfold bpf_insert. destruct (_ && _); [apply (quiet_record_drop st t)|]. by repeat split.
Qed.

Lemma openat_exit_path_op ctx st t : same_path_op t st (try_openat_exit lim ctx st).
Proof.
  unfold try_openat_exit. destruct (OPENAT_STASH st !! pid_tgid ctx) as [stash|]; [|done].
  cbv zeta. trans (with_openat (delete (pid_tgid ctx) (OPENAT_STASH st)) st); [by repeat split|].
  unfold with_field. destruct (read_field _ _ _ _); [|done]. destruct (_ <? 0)%Z; [done|].
  etrans; [apply quiet_submit|]. case_match; [apply quiet_register|done].
Qed.

Lemma remove_path_op k st t : t ≠ k → same_path_op t st (remove_path_stash k st).
Proof. intros Hne. split; [by split|]. simpl. by rewrite !lookup_delete_ne. Qed.
Lemma drop_remove_path_op k st t : t ≠ k → same_path_op t st (remove_path_stash k (record_drop st)).
Proof. intros Hne. etrans; [apply (quiet_record_drop st t)|by apply remove_path_op]. Qed.

Lemma stash_old_path_op ctx p st t : t ≠ pid_tgid ctx → same_path_op t st (stash_old_path lim ctx p st).1.
Proof.
  intros Hne. unfold stash_old_path. destruct (probe_read_str _ _).
  case_match; [apply (quiet_record_drop st t)|]. unfold bpf_insert.
  destruct (_ && _); [apply (quiet_record_drop st t)|]. split; [by split|]. simpl.
  by rewrite lookup_insert_ne.
Qed.
Lemma stash_new_path_op ctx p st t : t ≠ pid_tgid ctx → same_path_op t st (stash_new_path lim ctx p st).1.
Proof.
  intros Hne. unfold stash_new_path. destruct (probe_read_str _ _).
  case_match; [apply (quiet_record_drop st t)|]. unfold bpf_insert.
  destruct (_ && _); [apply (quiet_record_drop st t)|]. split; [by split|]. simpl.
  by rewrite lookup_insert_ne.
Qed.
Lemma insert_op_path_op k s st t : t ≠ k → same_path_op t st (insert_path_op lim k s st).
Proof.
  intros Hne. unfold insert_path_op, bpf_insert. destruct (_ && _); [by apply drop_remove_path_op|].
  split; [by split|]. simpl. by rewrite lookup_insert_ne.
Qed.

Lemma stash_rename_path_op ctx d1 p1 d2 p2 fl st t : t ≠ pid_tgid ctx →
  same_path_op t st (stash_rename lim ctx d1 p1 d2 p2 fl st).
Proof.
  intros Hne. unfold stash_rename. case_match; [done|].
  pose proof (stash_old_path_op ctx p1 st t Hne) as H1. destruct (stash_old_path lim ctx p1 st) as [st1 l1].
  pose proof (stash_new_path_op ctx p2 st1 t Hne) as H2. destruct (stash_new_path lim ctx p2 st1) as [st2 l2].
  trans st1; [done|]. trans st2; [done|]. simpl in *.
  repeat case_match; auto using remove_path_op, drop_remove_path_op, insert_op_path_op.
Qed.

Lemma stash_unlink_path_op ctx d p fl st t : t ≠ pid_tgid ctx →
  same_path_op t st (stash_unlink lim ctx d p fl st).
Proof.
  intros Hne. unfold stash_unlink. case_match; [done|].
  pose proof (stash_old_path_op ctx p st t Hne) as H1. destruct (stash_old_path lim ctx p st) as [st1 l1].
  trans st1; [done|]. simpl in *.
  repeat case_match; auto using remove_path_op, drop_remove_path_op, insert_op_path_op.
Qed.

Lemma path_op_exit_path_op key ctx st t : t ≠ pid_tgid ctx →
  same_path_op t st (try_path_op_exit lim key ctx st).
Proof.
  intros Hne. unfold try_path_op_exit, with_field, emit_path_event.
  destruct (PATH_OP_STASH st !! _); [|done].
  destruct (read_field _ _ _ _); [|done]. destruct (_ <? 0)%Z; [by apply remove_path_op|].
  destruct (_ =?= PATH_OP_RENAME).
  - destruct (PATH_OP_OLD_PATH st !! _); [|by apply drop_remove_path_op].
    etrans; [apply quiet_submit|]. destruct (PATH_OP_NEW_PATH _ !! _); [|by apply drop_remove_path_op].
    etrans; [apply quiet_submit|by apply remove_path_op].
  - destruct (_ =?= PATH_OP_UNLINK); [|by apply remove_path_op].
    destruct (PATH_OP_OLD_PATH st !! _); [|by apply drop_remove_path_op].
    etrans; [apply quiet_submit|by apply remove_path_op].
Qed.

(** A firing that is not a rename or unlink of this thread. *)
Definition not_path_op_of (t : Z) (f : Tracepoint * Ctx) : Prop :=
  pid_tgid f.2 ≠ t ∨
  f.1 ∈ [repx_openat_enter; repx_openat_exit; repx_close_enter; repx_mmap_enter; repx_exec; repx_fork;
         repx_clone_exit; repx_clone3_exit; repx_exit].

Lemma fire_path_op_frame tp ctx st t : not_path_op_of t (tp, ctx) → same_path_op t st (fire lim tp ctx st).
Proof.
  intros Hno. destruct tp; try (apply quiet_fire; repeat constructor; fail);
    try apply openat_enter_path_op; try apply openat_exit_path_op;
    (assert (Hne : t ≠ pid_tgid ctx) by (destruct Hno as [Hne|Hno]; [done|set_solver]));
    cbn [fire]; try (by apply path_op_exit_path_op);
    unfold try_rename_enter, try_renameat_enter, try_renameat2_enter, try_unlink_enter,
      try_unlinkat_enter, with_field;
    repeat (destruct (read_field _ _ _ _); [|reflexivity]);
    match goal with
    | |- context [stash_rename] => by apply stash_rename_path_op
    | |- _ => by apply stash_unlink_path_op
    end.
Qed.

Lemma fire_all_path_op_frame firings st t : Forall (not_path_op_of t) firings →
  same_path_op t st (fire_all lim firings st).
Proof.
  intros Hf. revert st. induction Hf as [|[tp ctx] firings Hno _ IH]; intros st; [done|].
  simpl. etrans; [by apply fire_path_op_frame|apply IH].
Qed.
End path_frames.

(** ** What a firing does to the records and to the tracked processes

    Handlers append records, track processes, and untrack a thread that exits;
    whatever these steps keep, a firing keeps. *)

Create HintDb closure discriminated.

Section closure.
Context (lim : Limits) (tp : Tracepoint) (ctx : Ctx) (P : Kernel → Prop).
Context (Pother : ∀ st st', EVENTS st' = EVENTS st → TRACKED_PIDS st' = TRACKED_PIDS st → P st → P st')
  (Pevent : ∀ st r, P st → P (with_events (EVENTS st ++ [r]) st))
  (Ptrack : ∀ st p, P st → P (with_tracked (<[p := 1%Z]> (TRACKED_PIDS st)) st))
  (Puntrack : ∀ st, tp = repx_exit → P st → P (untrack_pid (ctx_pid ctx) st)).

Lemma closed_drop st : P st → P (record_drop st).
Proof. intros Hst. unfold record_drop. case_match; by apply (Pother st). Qed.
Lemma closed_submit c k src fs vs st : P st → P (submit lim c k src fs vs st).
Proof. intros Hst. unfold submit. case_match; auto using closed_drop. Qed.
Lemma closed_track p st : P st → P (track_pid lim p st).
Proof. intros Hst. unfold track_pid, bpf_insert. case_match eqn:Hm; [|by apply closed_drop].
  case_match; [done|]. injection Hm as <-. auto. Qed.
Lemma closed_remove k st : P st → P (remove_path_stash k st).
Proof. by apply (Pother st). Qed.
Lemma closed_register t fd st : P st → P (register_fd lim t fd st).
Proof. intros Hst. unfold register_fd. case_match; [by apply (Pother st)|by apply closed_drop]. Qed.
Lemma closed_insert k s st : P st → P (insert_path_op lim k s st).
Proof. intros Hst. unfold insert_path_op. case_match; [by apply (Pother st)|by apply closed_remove, closed_drop]. Qed.
Lemma closed_old p st : P st → P (stash_old_path lim ctx p st).1.
Proof. intros Hst. unfold stash_old_path. repeat case_match; simpl; try by apply closed_drop. by apply (Pother st). Qed.
Lemma closed_new p st : P st → P (stash_new_path lim ctx p st).1.
Proof. intros Hst. unfold stash_new_path. repeat case_match; simpl; try by apply closed_drop. by apply (Pother st). Qed.
#[local] Hint Resolve closed_drop closed_submit closed_track closed_remove closed_register closed_insert : closure.

Lemma closed_stash_rename d1 p1 d2 p2 fl st : P st → P (stash_rename lim ctx d1 p1 d2 p2 fl st).
Proof.
  intros Hst. unfold stash_rename. case_match; [done|].
  pose proof (closed_old p1 st Hst) as H1. destruct (stash_old_path lim ctx p1 st) as [st1 l1].
  pose proof (closed_new p2 st1 H1) as H2. destruct (stash_new_path lim ctx p2 st1) as [st2 l2].
  simpl in H2. repeat case_match; auto with closure.
Qed.

Lemma closed_stash_unlink d p fl st : P st → P (stash_unlink lim ctx d p fl st).
Proof.
  intros Hst. unfold stash_unlink. case_match; [done|].
  pose proof (closed_old p st Hst) as H1. destruct (stash_old_path lim ctx p st) as [st1 l1].
  simpl in H1. repeat case_match; auto with closure.
Qed.

Lemma closed_path_op_exit key st : P st → P (try_path_op_exit lim key ctx st).
Proof.
  intros Hst. unfold try_path_op_exit, emit_path_event, with_field. repeat case_match; auto with closure.
Qed.

Lemma fire_closed st : P st → P (fire lim tp ctx st).
Proof.
  intros Hst. destruct tp; cbn [fire]; auto using closed_path_op_exit;
    unfold try_openat_enter, try_openat_exit, try_rename_enter, try_renameat_enter, try_renameat2_enter,
      try_unlink_enter, try_unlinkat_enter, try_close_enter, try_mmap_enter, try_exec, try_fork,
      try_clone_exit, try_exit, with_field;
    repeat case_match; auto using closed_stash_rename, closed_stash_unlink with closure;
    try (apply closed_submit || apply closed_register); try by apply (Pother st).
  - apply closed_submit. by apply (Pother st).
  - repx_bool. replace (ctx_tgid ctx) with (ctx_pid ctx) by done. auto with closure.
Qed.
End closure.

Lemma records_kept lim firings st : ∃ l, EVENTS (fire_all lim firings st) = EVENTS st ++ l.
Proof.
  revert st. induction firings as [|[tp ctx] firings IH]; intros st; [exists []; by rewrite app_nil_r|].
  assert (∃ l, EVENTS (fire lim tp ctx st) = EVENTS st ++ l) as [l1 H1].
  { apply (fire_closed lim tp ctx (λ st', ∃ l, EVENTS st' = EVENTS st ++ l)).
    - by intros ? ? -> _ ?.
    - intros st' r [l Hl]. exists (l ++ [r]). simpl. by rewrite Hl, app_assoc.
    - by intros.
    - by intros.
    - exists []. by rewrite app_nil_r. }
  destruct (IH (fire lim tp ctx st)) as [l2 H2]. exists (l1 ++ l2). simpl. by rewrite app_assoc, <- H1.
Qed.

(** The exit of thread [p]. *)
Definition thread_exit (p : Z) (f : Tracepoint * Ctx) : Prop := f.1 = repx_exit ∧ ctx_pid f.2 = p.

Lemma tracked_kept lim p firings st : Forall (λ f, ¬ thread_exit p f) firings →
  is_tracked p st = true → is_tracked p (fire_all lim firings st) = true.
Proof.
  unfold is_tracked. rewrite !bool_decide_eq_true. intros Hf. revert st.
  induction Hf as [|[tp ctx] firings Hno _ IH]; intros st Hst; [done|]. apply IH.
  apply (fire_closed lim tp ctx (λ st', is_Some (TRACKED_PIDS st' !! p))); [| | | |exact Hst].
  - by intros ? ? _ ->.
  - by intros.
  - intros st' q Hq. simpl. rewrite lookup_insert. case_decide; [by eexists|done].
  - intros st' -> Hq. simpl. rewrite lookup_delete_ne; [done|]. intros Heq. by apply Hno.
Qed.

Lemma setup_kept lim firings st : same_setup st (fire_all lim firings st).
Proof.
  revert st. induction firings as [|[tp ctx] firings IH]; intros st; [done|].
  trans (fire lim tp ctx st); [|apply IH].
  apply (fire_openat_frame lim tp ctx st (pid_tgid ctx + 1)). left. simpl. lia.
Qed.

Lemma read_kept lim firings ctx st key n :
  read_field ctx (fire_all lim firings st) key n = read_field ctx st key n.
Proof. unfold read_field. by rewrite (same_offsets _ _ (setup_kept lim firings st)). Qed.

Lemma fire_all_app lim firings1 firings2 st :
  fire_all lim (firings1 ++ firings2) st = fire_all lim firings2 (fire_all lim firings1 st).
Proof. apply foldl_app. Qed.

(** ** What the records carry *)

(** The ranges of the kernel's answers. *)
Record ctx_ok (ctx : Ctx) : Prop := {
  ok_thread : u64 (pid_tgid ctx);
  ok_time : u64 (ktime ctx);
  ok_read o n v : ctx_read ctx o n = Some v → (0 ≤ v < 256 ^ Z.of_nat n)%Z;
  ok_buf k : String.length (ring_buf ctx k) = event_size
}.

Lemma ctx_pid_u32 ctx : u32 (ctx_pid ctx).
Proof. unfold ctx_pid, u32, wrap_u32. apply Z.mod_pos_bound. lia. Qed.
Lemma ctx_tgid_u32 ctx : ctx_ok ctx → u32 (ctx_tgid ctx).
Proof.
  intros Hc. destruct (ok_thread _ Hc). unfold ctx_tgid, u32. rewrite Z.shiftr_div_pow2 by lia.
  change (2 ^ 32)%Z with 4294967296%Z. split; [apply Z.div_pos; lia|].
  apply Z.div_lt_upper_bound; lia.
Qed.
Lemma as_i32_i32 n : i32 (as_i32 n).
Proof.
  unfold as_i32, i32, wrap_u32. pose proof (Z.mod_pos_bound n 4294967296 ltac:(lia)).
  cbv zeta. destruct (Z.ltb_spec (n `mod` 4294967296) 2147483648); lia.
Qed.
Lemma read_field_u32 ctx st key v : ctx_ok ctx → read_field ctx st key 4 = Some v → u32 v.
Proof.
  unfold read_field. intros Hc Hr. destruct (_ =?= 0%Z); [done|]. by apply (ok_read _ Hc) in Hr.
Qed.

Lemma probe_read_str_ok n s : 0 < n → (Z.of_nat n < 4294967296)%Z →
  String.length (probe_read_str n s).1 = n ∧ u32 (probe_read_str n s).2.
Proof.
  intros Hn Hb. unfold probe_read_str. simpl. rewrite str_length_app, zero_bytes_length, str_length_take.
  unfold u32. lia.
Qed.

Lemma submit_unlimited ctx kind source p st :
  submit unlimited ctx kind source (payload_fields p) (payload_values p) st
  = with_events (EVENTS st ++ [encode_record kind source (ktime ctx) p (ring_buf ctx kind)]) st.
Proof. done. Qed.

Lemma encode_ctx_decodes ctx kind source p : ctx_ok ctx → payload_ok kind p → u8 source →
  decodes_as (encode_record kind source (ktime ctx) p (ring_buf ctx kind)) kind source (ktime ctx) p.
Proof. intros [] Hp Hs. by apply encode_decodes. Qed.

(** ** Opens *)

(** Which opens are reported: those of tracked processes and, in watch mode,
    those on a watched prefix and relative writes. *)
Definition open_wanted (tracked : bool) (st : Kernel) (flags : Z) (path : string) (path_len : Z) : bool :=
  tracked || watch_enabled st
             && ((negb (Z.land flags 3 =?= 0%Z) && negb (starts_at_root path))
                 || matches_watched_prefix st path path_len).

Lemma openat_enter_unlimited ctx st dfd ptr flags :
  read_field ctx st OPENAT_ENTER_DFD 4 = Some dfd →
  read_field ctx st OPENAT_ENTER_FILENAME 8 = Some ptr →
  read_field ctx st OPENAT_ENTER_FLAGS 4 = Some flags →
  let tracked := is_tracked (ctx_tgid ctx) st in
  let '(path, path_len) := probe_read_str MAX_PATH_LEN (user_str ctx ptr) in
  try_openat_enter unlimited ctx st
  = if open_wanted tracked st flags path path_len
    then with_openat (<[pid_tgid ctx := mkOpenat (as_i32 dfd) flags path path_len
                          (if tracked then 0 else 1)%Z]> (OPENAT_STASH st)) st
    else st.
Proof.
  intros H1 H2 H3. unfold try_openat_enter, with_field. rewrite H1, H2, H3. cbv zeta.
  destruct (probe_read_str _ _) as [path path_len]. unfold open_wanted.
  destruct (is_tracked _ _), (watch_enabled st), (Z.land flags 3 =?= 0%Z), (starts_at_root path),
    (matches_watched_prefix st path path_len); reflexivity.
Qed.

(** One thread's [openat], whatever fires in between. *)
Lemma open_pairs st ctx1 ctx2 mid dfd ptr flags ret :
  ctx_ok ctx1 → ctx_ok ctx2 → pid_tgid ctx2 = pid_tgid ctx1 →
  Forall (not_openat_of (pid_tgid ctx1)) mid →
  read_field ctx1 st OPENAT_ENTER_DFD 4 = Some dfd →
  read_field ctx1 st OPENAT_ENTER_FILENAME 8 = Some ptr →
  read_field ctx1 st OPENAT_ENTER_FLAGS 4 = Some flags →
  read_field ctx2 st OPENAT_EXIT_RET 8 = Some ret →
  let tracked := is_tracked (ctx_tgid ctx1) st in
  let '(path, path_len) := probe_read_str MAX_PATH_LEN (user_str ctx1 ptr) in
  let st2 := fire_all unlimited ((repx_openat_enter, ctx1) :: mid) st in
  let st3 := fire unlimited repx_openat_exit ctx2 st2 in
  if open_wanted tracked st flags path path_len && (0 <=? as_i32 ret)%Z then
    ∃ record, EVENTS st3 = EVENTS st2 ++ [record] ∧
      decodes_as record KindFileOpen (if tracked then 0 else 1) (ktime ctx2)
        (file_open (mkFileOpen (ctx_pid ctx1) (ctx_tgid ctx1) (as_i32 ret) (as_i32 dfd) flags
                      path path_len))
  else (open_wanted tracked st flags path path_len = false → OPENAT_STASH st !! pid_tgid ctx1 = None) →
    EVENTS st3 = EVENTS st2.
Proof.
  intros Hc1 Hc2 Ht Hmid H1 H2 H3 H4. cbv zeta.
  pose proof (openat_enter_unlimited ctx1 st dfd ptr flags H1 H2 H3) as Henter. cbv zeta in Henter.
  destruct (probe_read_str MAX_PATH_LEN (user_str ctx1 ptr)) as [path path_len] eqn:Hread.
  change (fire_all unlimited ((repx_openat_enter, ctx1) :: mid) st)
    with (fire_all unlimited mid (try_openat_enter unlimited ctx1 st)).
  set (st1 := try_openat_enter unlimited ctx1 st) in *.
  pose proof (fire_all_openat_frame unlimited mid st1 (pid_tgid ctx1) Hmid) as [Hsetup Hstash].
  set (st2 := fire_all unlimited mid st1) in *.
  assert (Hoff : TRACEPOINT_OFFSETS st2 = TRACEPOINT_OFFSETS st).
  { rewrite (same_offsets _ _ Hsetup), Henter. by case_match. }
  change (fire unlimited repx_openat_exit ctx2 st2) with (try_openat_exit unlimited ctx2 st2).
  unfold try_openat_exit. rewrite Ht, Hstash, Henter.
  destruct (open_wanted _ _ _ _ _); simpl; [|intros Hnone; by rewrite Hnone].
  rewrite lookup_insert_eq. unfold with_field, read_field in *. simpl. rewrite Hoff.
  rewrite H4. destruct (Z.ltb_spec (as_i32 ret) 0) as [Hneg|Hpos].
  { by rewrite (proj2 (Z.leb_gt _ _)). }
  rewrite (proj2 (Z.leb_le _ _)) by done.
  set (src := (if is_tracked (ctx_tgid ctx1) st then 0 else 1)%Z).
  set (p := mkFileOpen (ctx_pid ctx1) (ctx_tgid ctx1) (as_i32 ret) (as_i32 dfd) flags path path_len).
  exists (encode_record KindFileOpen src (ktime ctx2) (file_open p) (ring_buf ctx2 KindFileOpen)).
  split.
  - unfold ctx_pid, ctx_tgid in *. rewrite Ht. by destruct (src =?= 1%Z).
  - apply encode_ctx_decodes; [done| |unfold src, u8; case_match; lia].
    destruct (probe_read_str_ok MAX_PATH_LEN (user_str ctx1 ptr)) as [Hlen Hlenu];
      [unfold MAX_PATH_LEN; lia..|]. rewrite Hread in Hlen, Hlenu.
    simpl. split_and!; try done; auto using ctx_pid_u32, ctx_tgid_u32, as_i32_i32.
    by eapply (read_field_u32 ctx1 st OPENAT_ENTER_FLAGS).
Qed.

(** The states of an undropped run before, at and after a system call of one
    thread are those of a kernel without limits. *)
Lemma undropped_split lim offsets watched watching child before enter mid exit after :
  let start := armed_kernel offsets watched watching child in
  let run := (before ++ enter :: mid) ++ exit :: after in
  (Z.of_nat (length run) < 2 ^ 62)%Z → drop_count (fire_all lim run start) = 0%Z →
  fire_all lim before start = fire_all unlimited before start ∧
  fire_all lim (before ++ enter :: mid) start = fire_all unlimited (before ++ enter :: mid) start ∧
  fire lim exit.1 exit.2 (fire_all lim (before ++ enter :: mid) start)
    = fire unlimited exit.1 exit.2 (fire_all unlimited (before ++ enter :: mid) start).
Proof.
  cbv zeta. intros Hn Hd. split; [|split].
  - apply (undropped_prefix lim _ _ _ _ before ((enter :: mid) ++ exit :: after)); by rewrite app_assoc.
  - by apply (undropped_prefix lim _ _ _ _ _ (exit :: after)).
  - rewrite cons_middle, app_assoc in Hn, Hd.
    pose proof (undropped_prefix lim _ _ _ _ ((before ++ enter :: mid) ++ [exit]) after Hn Hd) as H.
    rewrite (fire_all_app lim (_ ++ _)), (fire_all_app unlimited (_ ++ _)) in H. destruct exit as [tp ctx]. exact H.
Qed.

(** C19. Every open that returns is reported with its own arguments: between the
    entry and the return of a thread's [openat] any other probes may fire, of any
    thread (of this one, anything but [openat]), in any order.  Take the maps as
    [trace_command] arms them, any capacities, and a run of fewer than 2^62 firings
    that ends with drop count 0, in which the probes can read the fields of the call
    ([read_field]) and the kernel answers within its types ([ctx_ok]).  If the open
    is wanted and returns a descriptor, exactly one record is submitted at its
    return; it decodes to the thread, the returned descriptor and the arguments of
    the entry, and is still there at the end of the run.  If it is not wanted, or
    fails, nothing is submitted at its return, unless it is not wanted and the
    thread's number has an earlier open that never returned. *)
Theorem open_reported lim offsets watched watching child before ctx1 mid ctx2 after dfd ptr flags ret :
  let start := armed_kernel offsets watched watching child in
  let entered := before ++ (repx_openat_enter, ctx1) :: mid in
  let run := entered ++ (repx_openat_exit, ctx2) :: after in
  (Z.of_nat (length run) < 2 ^ 62)%Z → drop_count (fire_all lim run start) = 0%Z →
  ctx_ok ctx1 → ctx_ok ctx2 → pid_tgid ctx2 = pid_tgid ctx1 → Forall (not_openat_of (pid_tgid ctx1)) mid →
  read_field ctx1 start OPENAT_ENTER_DFD 4 = Some dfd →
  read_field ctx1 start OPENAT_ENTER_FILENAME 8 = Some ptr →
  read_field ctx1 start OPENAT_ENTER_FLAGS 4 = Some flags →
  read_field ctx2 start OPENAT_EXIT_RET 8 = Some ret →
  let st := fire_all lim before start in
  let st2 := fire_all lim entered start in
  let st3 := fire lim repx_openat_exit ctx2 st2 in
  let tracked := is_tracked (ctx_tgid ctx1) st in
  let '(path, path_len) := probe_read_str MAX_PATH_LEN (user_str ctx1 ptr) in
  if open_wanted tracked st flags path path_len && (0 <=? as_i32 ret)%Z then
    ∃ record, EVENTS st3 = EVENTS st2 ++ [record] ∧ record ∈ EVENTS (fire_all lim run start) ∧
      decodes_as record KindFileOpen (if tracked then 0 else 1) (ktime ctx2)
        (file_open (mkFileOpen (ctx_pid ctx1) (ctx_tgid ctx1) (as_i32 ret) (as_i32 dfd) flags
                      path path_len))
  else (open_wanted tracked st flags path path_len = false → OPENAT_STASH st !! pid_tgid ctx1 = None) →
    EVENTS st3 = EVENTS st2.
Proof.
  cbv zeta. intros Hn Hd Hc1 Hc2 Ht Hmid H1 H2 H3 H4.
  set (start := armed_kernel offsets watched watching child) in *.
  destruct (undropped_split lim offsets watched watching child before _ mid _ after Hn Hd)
    as (Hst & Hst2 & Hst3).
  pose proof (open_pairs (fire_all unlimited before start) ctx1 ctx2 mid dfd ptr flags ret Hc1 Hc2 Ht Hmid) as H.
  rewrite !read_kept in H. specialize (H H1 H2 H3 H4). cbv zeta in H. fold start in Hst, Hst2, Hst3.
  cbn [fst snd] in Hst3. rewrite Hst3, Hst2, Hst, fire_all_app.
  destruct (probe_read_str MAX_PATH_LEN (user_str ctx1 ptr)) as [path path_len].
  destruct (_ && _); [|exact H]. destruct H as (record & Hev & Hdec). exists record. split; [exact Hev|].
  split; [|exact Hdec]. rewrite cons_middle, app_assoc, !fire_all_app.
  destruct (records_kept lim after (fire_all lim [(repx_openat_exit, ctx2)]
    (fire_all lim ((repx_openat_enter, ctx1) :: mid) (fire_all lim before start)))) as [l ->].
  rewrite <- (fire_all_app lim before). cbn [fire_all foldl]. fold (fire_all lim (before ++ (repx_openat_enter, ctx1) :: mid) start).
  rewrite Hst3, fire_all_app, Hev. apply elem_of_app. left. apply elem_of_app. right. constructor.
Qed.

(** ** Renames *)

Definition rename_wanted (tracked : bool) (st : Kernel) (old_path new_path : PathStash) : bool :=
  tracked || watch_enabled st
             && negb (ebpf_path_is_absolute (ps_path old_path) (ps_path_len old_path)
                      && ebpf_path_is_absolute (ps_path new_path) (ps_path_len new_path)
                      && negb (matches_watched_prefix st (ps_path old_path) (ps_path_len old_path))
                      && negb (matches_watched_prefix st (ps_path new_path) (ps_path_len new_path))).

(** What a thread has stashed for a rename. *)
Definition rename_stashed (t : Z) (stash : PathOpStash) (old_path new_path : PathStash) (st : Kernel) : Prop :=
  PATH_OP_STASH st !! t = Some stash ∧ PATH_OP_OLD_PATH st !! t = Some old_path ∧
  PATH_OP_NEW_PATH st !! t = Some new_path.

Definition read_path (s : option string) : PathStash :=
  let '(path, path_len) := probe_read_str MAX_PATH_LEN s in mkPath path path_len.

Lemma stash_rename_unlimited ctx od op nd np fl st s1 s2 :
  user_str ctx op = Some s1 → user_str ctx np = Some s2 → s1 ≠ "" → s2 ≠ "" →
  let tracked := is_tracked (ctx_tgid ctx) st in
  rename_wanted tracked st (read_path (Some s1)) (read_path (Some s2)) = true →
  let st1 := stash_rename unlimited ctx od op nd np fl st in
  same_setup st st1 ∧ EVENTS st1 = EVENTS st ∧
  rename_stashed (pid_tgid ctx) (mkPathOp od nd fl PATH_OP_RENAME (if tracked then 0 else 1)%Z)
    (read_path (Some s1)) (read_path (Some s2)) st1.
Proof.
  intros Hu1 Hu2 Hn1 Hn2. cbv zeta. intros Hw.
  assert (Hlen : ∀ s, s ≠ "" → (ps_path_len (read_path (Some s)) =?= 0%Z) = false).
  { intros s Hs. unfold read_path, probe_read_str. cbn [ps_path_len]. apply bool_decide_eq_false.
    change (default "" (Some s)) with s. rewrite str_length_take. unfold MAX_PATH_LEN.
    destruct s; [done|]. simpl String.length. lia. }
  pose proof (Hlen s1 Hn1) as L1. pose proof (Hlen s2 Hn2) as L2.
  unfold stash_rename, stash_old_path, stash_new_path. rewrite Hu1, Hu2.
  unfold read_path in *.
  destruct (probe_read_str MAX_PATH_LEN (Some s1)) as [path1 len1].
  destruct (probe_read_str MAX_PATH_LEN (Some s2)) as [path2 len2].
  cbn [ps_path ps_path_len] in L1, L2. unfold bpf_insert. cbn [unlimited max_old_paths max_new_paths andb].
  destruct (negb (is_tracked (ctx_tgid ctx) st) && negb (watch_enabled st)) eqn:Hskip.
  { exfalso. unfold rename_wanted in Hw. by destruct (is_tracked _ _), (watch_enabled st). }
  rewrite !L1. cbn [orb]. rewrite !L2. cbn [orb PATH_OP_OLD_PATH PATH_OP_NEW_PATH with_new_paths with_old_paths].
  rewrite !lookup_insert_eq. cbn [ps_path ps_path_len].
  set (st2 := with_new_paths _ _).
  assert (Hm : ∀ p l, matches_watched_prefix st2 p l = matches_watched_prefix st p l) by done.
  rewrite !Hm. unfold rename_wanted in Hw. cbn [ps_path ps_path_len] in Hw.
  assert (Hcond : negb (is_tracked (ctx_tgid ctx) st)
     && (ebpf_path_is_absolute path1 len1 && ebpf_path_is_absolute path2 len2)
     && negb (matches_watched_prefix st path1 len1) && negb (matches_watched_prefix st path2 len2) = false).
  { destruct (is_tracked (ctx_tgid ctx) st); [done|]. cbn [orb negb andb] in *.
    apply andb_true_iff in Hw as [_ Hw]. apply negb_true_iff in Hw. exact Hw. }
  rewrite Hcond. unfold insert_path_op, bpf_insert. cbn [unlimited max_path_ops andb].
  split; [by split|]. split; [done|]. split_and!; cbn; apply lookup_insert_eq.
Qed.

Lemma read_path_ok s : String.length (ps_path (read_path s)) = MAX_PATH_LEN ∧ u32 (ps_path_len (read_path s)).
Proof. apply (probe_read_str_ok MAX_PATH_LEN s); unfold MAX_PATH_LEN; lia. Qed.

(** A successful rename submits its two halves. *)
Lemma rename_submits st ctx1 ctx2 mid od op nd np fl ret s1 s2 :
  ctx_ok ctx1 → ctx_ok ctx2 → pid_tgid ctx2 = pid_tgid ctx1 →
  Forall (not_path_op_of (pid_tgid ctx1)) mid →
  read_field ctx1 st RENAMEAT_ENTER_OLD_DFD 4 = Some od →
  read_field ctx1 st RENAMEAT_ENTER_OLD_PATH 8 = Some op →
  read_field ctx1 st RENAMEAT_ENTER_NEW_DFD 4 = Some nd →
  read_field ctx1 st RENAMEAT_ENTER_NEW_PATH 8 = Some np →
  read_field ctx1 st RENAMEAT2_ENTER_FLAGS 4 = Some fl →
  read_field ctx2 st RENAMEAT2_EXIT_RET 8 = Some ret → (0 ≤ as_i64 ret)%Z →
  user_str ctx1 op = Some s1 → user_str ctx1 np = Some s2 → s1 ≠ "" → s2 ≠ "" →
  let tracked := is_tracked (ctx_tgid ctx1) st in
  rename_wanted tracked st (read_path (Some s1)) (read_path (Some s2)) = true →
  let st2 := fire_all unlimited ((repx_renameat2_enter, ctx1) :: mid) st in
  let st3 := fire unlimited repx_renameat2_exit ctx2 st2 in
  let half dfd path := file_path (mkFilePath (ctx_pid ctx1) (ctx_tgid ctx1) dfd fl (ktime ctx2)
                                    (ps_path path) (ps_path_len path)) in
  let source := (if tracked then 0 else 1)%Z in
  ∃ from to, EVENTS st3 = EVENTS st2 ++ [from; to] ∧
    decodes_as from KindFileRenameSource source (ktime ctx2) (half (as_i32 od) (read_path (Some s1))) ∧
    decodes_as to KindFileRenameDestination source (ktime ctx2) (half (as_i32 nd) (read_path (Some s2))).
Proof.
  intros Hc1 Hc2 Ht Hmid H1 H2 H3 H4 H5 H6 Hret Hu1 Hu2 Hn1 Hn2. cbv zeta. intros Hw.
  change (fire_all unlimited ((repx_renameat2_enter, ctx1) :: mid) st)
    with (fire_all unlimited mid (try_renameat2_enter unlimited ctx1 st)).
  unfold try_renameat2_enter, with_field. rewrite H1, H2, H3, H4, H5.
  destruct (stash_rename_unlimited ctx1 (as_i32 od) op (as_i32 nd) np fl st s1 s2 Hu1 Hu2 Hn1 Hn2 Hw)
    as (Hset1 & _ & Hst1).
  set (st1 := stash_rename unlimited ctx1 _ _ _ _ _ st) in *.
  pose proof (fire_all_path_op_frame unlimited mid st1 (pid_tgid ctx1) Hmid) as (Hset2 & E1 & E2 & E3).
  set (st2 := fire_all unlimited mid st1) in *. clearbody st1.
  destruct Hst1 as (S1 & S2 & S3). rewrite S1 in E1. rewrite S2 in E2. rewrite S3 in E3.
  assert (Hoff : TRACEPOINT_OFFSETS st2 = TRACEPOINT_OFFSETS st)
    by (rewrite (same_offsets _ _ Hset2); apply Hset1).
  clearbody st2. cbn [fire]. unfold try_path_op_exit. rewrite Ht, E1. unfold with_field, read_field in *.
  rewrite Hoff. rewrite H6. rewrite (proj2 (Z.ltb_ge _ _)) by done. cbn [po_operation].
  rewrite bool_decide_true by done. rewrite E2.
  set (src := (if is_tracked (ctx_tgid ctx1) st then 0 else 1)%Z).
  unfold emit_path_event. cbn [po_old_dfd po_new_dfd po_flags po_from_watch].
  set (mk dfd path := file_path (mkFilePath (ctx_pid ctx1) (ctx_tgid ctx1) dfd fl (ktime ctx2)
                                    (ps_path path) (ps_path_len path))).
  assert (Hids : ctx_pid ctx2 = ctx_pid ctx1 ∧ ctx_tgid ctx2 = ctx_tgid ctx1)
    by (unfold ctx_pid, ctx_tgid; by rewrite Ht).
  destruct Hids as [-> ->].
  change file_path_fields with (payload_fields (mk (as_i32 od) (read_path (Some s1)))) at 1.
  exists (encode_record KindFileRenameSource src (ktime ctx2) (mk (as_i32 od) (read_path (Some s1)))
            (ring_buf ctx2 KindFileRenameSource)),
    (encode_record KindFileRenameDestination src (ktime ctx2) (mk (as_i32 nd) (read_path (Some s2)))
       (ring_buf ctx2 KindFileRenameDestination)).
  assert (Hok : ∀ k dfd s, k ∈ [KindFileRenameSource; KindFileRenameDestination; KindFileUnlink] →
    payload_ok k (mk (as_i32 dfd) (read_path s))).
  { intros k dfd s Hk. destruct (read_path_ok s). simpl. split_and!; try done;
      auto using ctx_pid_u32, ctx_tgid_u32, as_i32_i32, ok_time.
    eapply (read_field_u32 ctx1 st RENAMEAT2_ENTER_FLAGS); [done|]. exact H5. }
  split_and!.
  - unfold submit. cbn [unlimited ring_fills andb PATH_OP_NEW_PATH with_events]. rewrite E3.
    cbn [EVENTS remove_path_stash with_new_paths with_old_paths with_path_ops with_events].
    by rewrite <- app_assoc.
  - apply encode_ctx_decodes; [done|apply Hok; set_solver|unfold src, u8; case_match; lia].
  - apply encode_ctx_decodes; [done|apply Hok; set_solver|unfold src, u8; case_match; lia].
Qed.

(** A successful rename is reported as two halves that belong together:
    whatever other probes fire between the entry and the return of a thread's
    [renameat2], two adjacent records are submitted, the source and then the
    destination, with the paths and directories of the entry, and with one
    operation number, which is also the timestamp of both. *)
Theorem rename_reported st ctx1 ctx2 mid od op nd np fl ret s1 s2 :
  ctx_ok ctx1 → ctx_ok ctx2 → pid_tgid ctx2 = pid_tgid ctx1 →
  Forall (not_path_op_of (pid_tgid ctx1)) mid →
  read_field ctx1 st RENAMEAT_ENTER_OLD_DFD 4 = Some od →
  read_field ctx1 st RENAMEAT_ENTER_OLD_PATH 8 = Some op →
  read_field ctx1 st RENAMEAT_ENTER_NEW_DFD 4 = Some nd →
  read_field ctx1 st RENAMEAT_ENTER_NEW_PATH 8 = Some np →
  read_field ctx1 st RENAMEAT2_ENTER_FLAGS 4 = Some fl →
  read_field ctx2 st RENAMEAT2_EXIT_RET 8 = Some ret → (0 ≤ as_i64 ret)%Z →
  user_str ctx1 op = Some s1 → user_str ctx1 np = Some s2 → s1 ≠ "" → s2 ≠ "" →
  let tracked := is_tracked (ctx_tgid ctx1) st in
  rename_wanted tracked st (read_path (Some s1)) (read_path (Some s2)) = true →
  let st2 := fire_all unlimited ((repx_renameat2_enter, ctx1) :: mid) st in
  let st3 := fire unlimited repx_renameat2_exit ctx2 st2 in
  let half dfd path := file_path (mkFilePath (ctx_pid ctx1) (ctx_tgid ctx1) dfd fl (ktime ctx2)
                                    (ps_path path) (ps_path_len path)) in
  let source := (if tracked then 0 else 1)%Z in
  ∃ from to, EVENTS st3 = EVENTS st2 ++ [from; to] ∧
    decodes_as from KindFileRenameSource source (ktime ctx2) (half (as_i32 od) (read_path (Some s1))) ∧
    decodes_as to KindFileRenameDestination source (ktime ctx2) (half (as_i32 nd) (read_path (Some s2))).
Proof. exact (rename_submits st ctx1 ctx2 mid od op nd np fl ret s1 s2). Qed.
