(* ===== verification/EbpfTree.v ===== *)
(** * What a run of the probes reports

    The processes a run may report are those of the traced tree, which is
    computed from the firings alone.  The invariant carries through every
    handler: what is tracked or stashed belongs to the tree, or to watch mode,
    and every submitted record is one that the collector reads back. *)
From S2P Require Export TracerFacts EbpfPairing.

(** ** The traced tree, from the firings *)

(** The process a firing reports as created by its thread. *)
Definition spawned (st0 : Kernel) (f : Tracepoint * Ctx) : option Z :=
  let clone key := match read_field f.2 st0 key 8 with
                   | Some ret => if (as_i64 ret <=? 0)%Z then None else Some (wrap_u32 ret)
                   | None => None
                   end in
  match f.1 with
  | repx_fork => read_field f.2 st0 FORK_CHILD_PID 4
  | repx_clone_exit => clone CLONE_EXIT_RET
  | repx_clone3_exit => clone CLONE3_EXIT_RET
  | _ => None
  end.

Definition grow (st0 : Kernel) (family : gset Z) (f : Tracepoint * Ctx) : gset Z :=
  if bool_decide (ctx_tgid f.2 ∈ family)
  then match spawned st0 f with Some child => {[child]} ∪ family | None => family end
  else family.

(** The tree under [family] after the firings; nobody leaves it. *)
Definition descendants (st0 : Kernel) (family : gset Z) (firings : list (Tracepoint * Ctx)) : gset Z :=
  foldl (grow st0) family firings.

Lemma grow_incl st0 family f : family ⊆ grow st0 family f.
Proof. unfold grow. repeat case_match; set_solver. Qed.

(** ** The invariant *)

Definition subject (p : Payload) : Z :=
  match p with
  | file_open p => fo_tgid p
  | file_close p => fc_tgid p
  | file_mmap p => fm_tgid p
  | file_path p => fp_tgid p
  | process_exec p => pe_tgid p
  | process_exit p => px_tgid p
  | process_fork p => pf_parent_pid p
  end.

(** Source 0 is the traced tree, source 1 an observation in watch mode. *)
Definition source_ok (family : gset Z) (watching : bool) (tgid source : Z) : Prop :=
  (source = 0%Z ∧ tgid ∈ family) ∨ (source = 1%Z ∧ watching = true).

Definition record_ok (family : gset Z) (watching : bool) (record : string) : Prop :=
  ∃ kind source ts p, decodes_as record kind source ts p ∧ payload_ok kind p ∧
    source_ok family watching (subject p) source.

Definition path_ok (p : PathStash) : Prop := String.length (ps_path p) = MAX_PATH_LEN ∧ u32 (ps_path_len p).

Record in_tree (st0 : Kernel) (family : gset Z) (st : Kernel) : Prop := {
  tree_setup : same_setup st0 st;
  tree_roots k : is_Some (ROOT_PID st !! k) → k ∈ family;
  tree_tracked k : is_Some (TRACKED_PIDS st !! k) → k ∈ family;
  tree_openat t s : OPENAT_STASH st !! t = Some s →
    source_ok family (watch_enabled st0) (Z.shiftr t 32) (os_from_watch s) ∧
    i32 (os_dfd s) ∧ u32 (os_flags s) ∧ String.length (os_path s) = MAX_PATH_LEN ∧ u32 (os_path_len s);
  tree_path_op t s : PATH_OP_STASH st !! t = Some s →
    source_ok family (watch_enabled st0) (Z.shiftr t 32) (po_from_watch s) ∧
    i32 (po_old_dfd s) ∧ i32 (po_new_dfd s) ∧ u32 (po_flags s);
  tree_old t p : PATH_OP_OLD_PATH st !! t = Some p → path_ok p;
  tree_new t p : PATH_OP_NEW_PATH st !! t = Some p → path_ok p;
  tree_fds k : is_Some (WATCHED_FDS st !! k) → watch_enabled st0 = true;
  tree_events : Forall (record_ok family (watch_enabled st0)) (EVENTS st)
}.

Lemma source_ok_mono f1 f2 w tgid source : f1 ⊆ f2 → source_ok f1 w tgid source → source_ok f2 w tgid source.
Proof. intros Hf [[]|]; [left|by right]. set_solver. Qed.

Lemma record_ok_mono f1 f2 w r : f1 ⊆ f2 → record_ok f1 w r → record_ok f2 w r.
Proof.
  intros Hf (k & s & ts & p & Hd & Hp & Hs). exists k, s, ts, p. split_and!; [done..|].
  by eapply source_ok_mono.
Qed.

Lemma in_tree_mono st0 f1 f2 st : f1 ⊆ f2 → in_tree st0 f1 st → in_tree st0 f2 st.
Proof.
  intros Hf []. split; try done; eauto using Forall_impl, record_ok_mono.
  - intros t s Hs. destruct (tree_openat0 t s Hs). split; [by eapply source_ok_mono|done].
  - intros t s Hs. destruct (tree_path_op0 t s Hs). split; [by eapply source_ok_mono|done].
Qed.

Lemma same_watch st0 st : same_setup st0 st → watch_enabled st = watch_enabled st0.
Proof. intros Hs. unfold watch_enabled. by rewrite (same_mode _ _ Hs). Qed.
Lemma same_read st0 st ctx key n : same_setup st0 st → read_field ctx st key n = read_field ctx st0 key n.
Proof. intros Hs. unfold read_field. by rewrite (same_offsets _ _ Hs). Qed.

(** ** Each helper keeps it *)

Section preserve.
Context (lim : Limits) (st0 : Kernel) (family : gset Z) (ctx : Ctx) (Hctx : ctx_ok ctx).
Abbreviation good := (in_tree st0 family).
Abbreviation sourced := (source_ok family (watch_enabled st0) (ctx_tgid ctx)).

Lemma good_record_drop st : good st → good (record_drop st).
Proof. intros []. unfold record_drop. destruct (bpf_insert _ _ _ _); split; try done. by destruct tree_setup0. Qed.

Lemma good_untrack p st : good st → good (untrack_pid p st).
Proof.
  intros []. split; try done; [by destruct tree_setup0|]. intros k. simpl. rewrite lookup_delete_is_Some.
  intros []; auto.
Qed.

Lemma bpf_insert_lookup {A} max k (v : A) m m' j x : bpf_insert max k v m = Some m' → m' !! j = Some x →
  (j = k ∧ x = v) ∨ m !! j = Some x.
Proof.
  unfold bpf_insert. destruct (_ && _); [done|]. intros [= <-] [[-> <-]|[_ ?]]%lookup_insert_Some; auto.
Qed.

Lemma good_track p st : p ∈ family → good st → good (track_pid lim p st).
Proof.
  intros Hp Hst. unfold track_pid. destruct (bpf_insert _ _ _ _) as [m|] eqn:Hm; [|by apply good_record_drop].
  destruct Hst. split; try done; [by destruct tree_setup0|]. intros k [x Hx].
  destruct (bpf_insert_lookup _ _ _ _ _ _ _ Hm Hx) as [[-> _]|]; eauto.
Qed.

Lemma good_submit kind source p st : payload_ok kind p →
  source_ok family (watch_enabled st0) (subject p) source → good st →
  good (submit lim ctx kind source (payload_fields p) (payload_values p) st).
Proof.
  intros Hp Hs Hst. unfold submit. destruct (_ && _); [by apply good_record_drop|].
  destruct Hst. split; try done; [by destruct tree_setup0|]. simpl. apply Forall_app. split; [done|].
  constructor; [|done]. exists kind, source, (ktime ctx), p. split_and!; [|done..].
  apply encode_ctx_decodes; [done..|]. destruct Hs as [[-> _]|[-> _]]; unfold u8; lia.
Qed.

Lemma good_emit kind source dfd flags path st :
  kind ∈ [KindFileRenameSource; KindFileRenameDestination; KindFileUnlink] → i32 dfd → u32 flags →
  path_ok path → sourced source → good st → good (emit_path_event lim ctx kind source dfd flags path st).
Proof.
  intros Hk Hd Hf [Hl Hpl] Hs Hst. unfold emit_path_event.
  apply (good_submit kind source (file_path _)); [|done..]. simpl.
  split_and!; auto using ctx_pid_u32, ctx_tgid_u32, ok_time.
Qed.

Lemma good_without_openat t st : good st → good (with_openat (delete t (OPENAT_STASH st)) st).
Proof.
  intros []. split; try done; [by destruct tree_setup0|]. simpl.
  intros k s [_ Hs]%lookup_delete_Some. by apply tree_openat0.
Qed.

Lemma good_remove t st : good st → good (remove_path_stash t st).
Proof.
  intros []. split; try done; [by destruct tree_setup0|..]; simpl;
    intros k s [_ Hs]%lookup_delete_Some; eauto.
Qed.

Lemma good_drop_remove t st : good st → good (remove_path_stash t (record_drop st)).
Proof. auto using good_remove, good_record_drop. Qed.

Lemma good_stash_old ptr st : good st → good (stash_old_path lim ctx ptr st).1.
Proof.
  intros Hst. unfold stash_old_path.
  pose proof (read_path_ok (user_str ctx ptr)) as Hok. unfold read_path in Hok.
  destruct (probe_read_str _ _) as [path len]. destruct (len =?= 0%Z); [by apply good_record_drop|].
  destruct (bpf_insert _ _ _ _) as [m|] eqn:Hm; [|by apply good_record_drop].
  destruct Hst. split; try done; [by destruct tree_setup0|]. simpl. intros k s Hs.
  destruct (bpf_insert_lookup _ _ _ _ _ _ _ Hm Hs) as [[_ ->]|]; eauto.
Qed.

Lemma good_stash_new ptr st : good st → good (stash_new_path lim ctx ptr st).1.
Proof.
  intros Hst. unfold stash_new_path.
  pose proof (read_path_ok (user_str ctx ptr)) as Hok. unfold read_path in Hok.
  destruct (probe_read_str _ _) as [path len]. destruct (len =?= 0%Z); [by apply good_record_drop|].
  destruct (bpf_insert _ _ _ _) as [m|] eqn:Hm; [|by apply good_record_drop].
  destruct Hst. split; try done; [by destruct tree_setup0|]. simpl. intros k s Hs.
  destruct (bpf_insert_lookup _ _ _ _ _ _ _ Hm Hs) as [[_ ->]|]; eauto.
Qed.

Lemma good_insert_path_op s st : sourced (po_from_watch s) → i32 (po_old_dfd s) → i32 (po_new_dfd s) →
  u32 (po_flags s) → good st → good (insert_path_op lim (pid_tgid ctx) s st).
Proof.
  intros Hs Ho Hn Hf Hst. unfold insert_path_op.
  destruct (bpf_insert _ _ _ _) as [m|] eqn:Hm; [|by apply good_drop_remove].
  destruct Hst. split; try done; [by destruct tree_setup0|]. simpl. intros k x Hx.
  destruct (bpf_insert_lookup _ _ _ _ _ _ _ Hm Hx) as [[-> ->]|]; eauto.
Qed.

Lemma good_with_field st key n k : good st → (∀ x, read_field ctx st0 key n = Some x → good (k x)) →
  good (with_field ctx st key n k).
Proof.
  intros Hst Hk. unfold with_field. rewrite (same_read _ _ _ _ _ (tree_setup _ _ _ Hst)).
  destruct (read_field ctx st0 key n); auto.
Qed.

Lemma tracked_family st p : good st → is_tracked p st = true → p ∈ family.
Proof. intros Hst ?%bool_decide_eq_true. by apply (tree_tracked _ _ _ Hst). Qed.

(** The source a stash is given. *)
Lemma stash_sourced st : good st → negb (is_tracked (ctx_tgid ctx) st) && negb (watch_enabled st) = false →
  sourced (if is_tracked (ctx_tgid ctx) st then 0 else 1)%Z.
Proof.
  intros Hst Hc. rewrite (same_watch _ _ (tree_setup _ _ _ Hst)) in Hc.
  destruct (is_tracked _ st) eqn:Ht.
  - left. split; [done|]. by apply (tracked_family st).
  - right. split; [done|]. by destruct (watch_enabled st0).
Qed.

Lemma read32 key v : read_field ctx st0 key 4 = Some v → u32 v.
Proof. apply read_field_u32, Hctx. Qed.

(** ** Each handler keeps it *)

Lemma good_stash_rename od op nd np fl st : i32 od → i32 nd → u32 fl → good st →
  good (stash_rename lim ctx od op nd np fl st).
Proof.
  intros Ho Hn Hf Hst. unfold stash_rename. cbv zeta. destruct (negb _ && negb _) eqn:Hc; [done|].
  pose proof (stash_sourced st Hst Hc) as Hs. set (source := (if is_tracked _ _ then 0 else 1)%Z) in *. clearbody source.
  pose proof (good_stash_old op st Hst) as H1. destruct (stash_old_path lim ctx op st) as [st1 l1].
  pose proof (good_stash_new np st1 H1) as H2. destruct (stash_new_path lim ctx np st1) as [st2 l2].
  simpl in H2. repeat case_match; auto using good_remove, good_drop_remove, good_insert_path_op.
Qed.

Lemma good_stash_unlink d p fl st : i32 d → u32 fl → good st → good (stash_unlink lim ctx d p fl st).
Proof.
  intros Hd Hf Hst. unfold stash_unlink. cbv zeta. destruct (negb _ && negb _) eqn:Hc; [done|].
  pose proof (stash_sourced st Hst Hc) as Hs. set (source := (if is_tracked _ _ then 0 else 1)%Z) in *. clearbody source.
  pose proof (good_stash_old p st Hst) as H1. destruct (stash_old_path lim ctx p st) as [st1 l1].
  simpl in H1. assert (i32 0) by (unfold i32; lia).
  repeat case_match; auto using good_remove, good_drop_remove, good_insert_path_op.
Qed.

Lemma good_openat_enter st : good st → good (try_openat_enter lim ctx st).
Proof.
  intros Hst. unfold try_openat_enter. cbv zeta.
  apply good_with_field; [done|]. intros dfd _. apply good_with_field; [done|]. intros ptr _.
  apply good_with_field; [done|]. intros flags Hflags%read32.
  pose proof (read_path_ok (user_str ctx ptr)) as Hok. unfold read_path in Hok.
  destruct (probe_read_str _ _) as [path len]. destruct (negb _ && (_ || _)) eqn:Hc; [done|].
  assert (Hs : sourced (if is_tracked (ctx_tgid ctx) st then 0 else 1)%Z).
  { apply stash_sourced; [done|]. by destruct (is_tracked _ _), (watch_enabled st). }
  destruct (bpf_insert _ _ _ _) as [m|] eqn:Hm; [|by apply good_record_drop].
  destruct Hst. split; try done; [by destruct tree_setup0|]. simpl. intros k x Hx.
  destruct (bpf_insert_lookup _ _ _ _ _ _ _ Hm Hx) as [[-> ->]|]; [|eauto].
  destruct Hok. split_and!; try done; apply as_i32_i32.
Qed.

Lemma good_register fd st : watch_enabled st0 = true → good st → good (register_fd lim (ctx_tgid ctx) fd st).
Proof.
  intros Hw Hst. unfold register_fd. destruct (bpf_insert _ _ _ _) as [m|]; [|by apply good_record_drop].
  destruct Hst. split; try done. by destruct tree_setup0.
Qed.

Lemma good_openat_exit st : good st → good (try_openat_exit lim ctx st).
Proof.
  intros Hst. unfold try_openat_exit. destruct (OPENAT_STASH st !! pid_tgid ctx) as [s|] eqn:Hl; [|done].
  destruct (tree_openat _ _ _ Hst _ _ Hl) as (Hs & Hd & Hf & Hp & Hpl). cbv zeta.
  apply good_with_field; [by apply good_without_openat|]. intros ret _. case_match; [by apply good_without_openat|].
  assert (good (submit lim ctx KindFileOpen (os_from_watch s) file_open_fields
    (file_open_values (mkFileOpen (ctx_pid ctx) (ctx_tgid ctx) (as_i32 ret) (os_dfd s) (os_flags s)
       (os_path s) (os_path_len s))) (with_openat (delete (pid_tgid ctx) (OPENAT_STASH st)) st))).
  { apply (good_submit KindFileOpen (os_from_watch s) (file_open _)); [|done|by apply good_without_openat].
    simpl. split_and!; auto using ctx_pid_u32, ctx_tgid_u32, as_i32_i32. }
  case_match eqn:He; [|done]. apply good_register; [|done]. apply bool_decide_eq_true in He.
  destruct Hs as [[]|[]]; [congruence|done].
Qed.

Lemma good_path_op_exit key st : good st → good (try_path_op_exit lim key ctx st).
Proof.
  intros Hst. unfold try_path_op_exit. cbv zeta.
  destruct (PATH_OP_STASH st !! pid_tgid ctx) as [s|] eqn:Hl; [|done].
  destruct (tree_path_op _ _ _ Hst _ _ Hl) as (Hs & Ho & Hn & Hf).
  apply good_with_field; [done|]. intros ret _. case_match; [by apply good_remove|].
  case_match; [|case_match; [|by apply good_remove]].
  - destruct (PATH_OP_OLD_PATH st !! _) as [old|] eqn:Hold; [|by apply good_drop_remove].
    pose proof (tree_old _ _ _ Hst _ _ Hold) as Hok.
    assert (Hst1 : good (emit_path_event lim ctx KindFileRenameSource (po_from_watch s) (po_old_dfd s)
      (po_flags s) old st)) by (apply good_emit; auto; set_solver).
    set (st1 := emit_path_event _ _ _ _ _ _ _ _) in *. clearbody st1.
    destruct (PATH_OP_NEW_PATH st1 !! _) as [new|] eqn:Hnew; [|by apply good_drop_remove].
    pose proof (tree_new _ _ _ Hst1 _ _ Hnew). apply good_remove, good_emit; auto; set_solver.
  - destruct (PATH_OP_OLD_PATH st !! _) as [old|] eqn:Hold; [|by apply good_drop_remove].
    pose proof (tree_old _ _ _ Hst _ _ Hold). apply good_remove, good_emit; auto; set_solver.
Qed.

Lemma good_without_fd k st : good st → good (with_watched_fds (delete k (WATCHED_FDS st)) st).
Proof.
  intros []. split; try done; [by destruct tree_setup0|]. simpl. intros j [x [_ Hx]%lookup_delete_Some].
  eauto.
Qed.

Lemma good_close st : good st → good (try_close_enter lim ctx st).
Proof.
  intros Hst. unfold try_close_enter. cbv zeta. apply good_with_field; [done|]. intros fd _.
  assert (Hok : payload_ok KindFileClose (file_close (mkFileClose (ctx_pid ctx) (ctx_tgid ctx) (as_i32 fd))))
    by (simpl; split_and!; auto using ctx_pid_u32, ctx_tgid_u32, as_i32_i32).
  destruct (is_tracked _ _) eqn:Ht.
  - apply (good_submit KindFileClose 0 (file_close _) st Hok); [left|done]. eauto using tracked_family.
  - destruct (WATCHED_FDS st !! _) eqn:Hw; [|done].
    apply (good_submit KindFileClose 1 (file_close _) _ Hok); [right|by apply good_without_fd].
    split; [done|]. by eapply (tree_fds _ _ _ Hst).
Qed.

Lemma good_mmap st : good st → good (try_mmap_enter lim ctx st).
Proof.
  intros Hst. unfold try_mmap_enter. apply good_with_field; [done|]. intros prot _.
  apply good_with_field; [done|]. intros flags _. apply good_with_field; [done|]. intros fd _. cbv zeta.
  case_match; [done|].
  assert (Hw32 : ∀ n, u32 (wrap_u32 n)) by (intros n; apply Z.mod_pos_bound; lia).
  assert (Hok : payload_ok KindFileMmap (file_mmap (mkFileMmap (ctx_pid ctx) (ctx_tgid ctx) (as_i32 fd)
    (wrap_u32 prot) (wrap_u32 flags))))
    by (simpl; split_and!; auto using ctx_pid_u32, ctx_tgid_u32, as_i32_i32).
  destruct (is_tracked _ _) eqn:Ht.
  - apply (good_submit KindFileMmap 0 (file_mmap _) st Hok); [left|done]. eauto using tracked_family.
  - destruct (WATCHED_FDS st !! _) eqn:Hw; [|done].
    apply (good_submit KindFileMmap 1 (file_mmap _) _ Hok); [right|done].
    split; [done|]. by eapply (tree_fds _ _ _ Hst).
Qed.

Lemma good_exec st : good st → good (try_exec lim ctx st).
Proof.
  intros Hst. unfold try_exec. cbv zeta. set (st1 := match ROOT_PID st !! _ with Some _ => _ | None => st end).
  assert (H1 : good st1).
  { unfold st1. destruct (ROOT_PID st !! _) eqn:Hr; [|done]. apply good_track; [|done].
    by eapply (tree_roots _ _ _ Hst). }
  clearbody st1. destruct (is_tracked _ _) eqn:Ht; [|done]. cbn [negb].
  apply good_with_field; [done|]. intros loc _.
  destruct (probe_read_str_ok MAX_PATH_LEN (kernel_str ctx (Z.land loc 65535))) as [Hl Hlu];
    [unfold MAX_PATH_LEN; lia..|]. destruct (probe_read_str _ _) as [name len].
  apply (good_submit KindProcessExec 0 (process_exec _)); [|left; eauto using tracked_family|done].
  simpl. split_and!; auto using ctx_pid_u32, ctx_tgid_u32.
Qed.

Lemma good_exit st : good st → good (try_exit lim ctx st).
Proof.
  intros Hst. unfold try_exit. cbv zeta. destruct (is_tracked _ _) eqn:Ht; [|done]. cbn [negb].
  case_match; [by apply good_untrack|]. apply good_untrack.
  apply (good_submit KindProcessExit 0 (process_exit _)); [|left; eauto using tracked_family|done].
  simpl. split_and!; auto using ctx_pid_u32, ctx_tgid_u32. unfold i32. lia.
Qed.

Lemma good_fork st : (∀ child, ctx_tgid ctx ∈ family → read_field ctx st0 FORK_CHILD_PID 4 = Some child →
  child ∈ family) → good st → good (try_fork lim ctx st).
Proof.
  intros Hfam Hst. unfold try_fork. cbv zeta. apply good_with_field; [done|]. intros child Hc.
  destruct (is_tracked _ _) eqn:Ht; [|done]. cbn [negb]. pose proof (tracked_family _ _ Hst Ht) as Hin.
  apply good_track; [by apply Hfam|].
  apply (good_submit KindProcessFork 0 (process_fork _)); [|left; by split|done].
  simpl. split_and!; eauto using ctx_tgid_u32, read32.
Qed.

Lemma good_clone_exit key st : (∀ ret, ctx_tgid ctx ∈ family → read_field ctx st0 key 8 = Some ret →
  (as_i64 ret <=? 0)%Z = false → wrap_u32 ret ∈ family) → good st → good (try_clone_exit lim key ctx st).
Proof.
  intros Hfam Hst. unfold try_clone_exit. apply good_with_field; [done|]. intros ret Hr.
  destruct (as_i64 ret <=? 0)%Z eqn:Hpos; [done|]. destruct (is_tracked _ _) eqn:Ht; [|done]. cbn [negb].
  apply good_track; [|done]. eauto using tracked_family.
Qed.
End preserve.

Section runs.
Context (lim : Limits) (st0 : Kernel).

Lemma grow_spawned family f child : ctx_tgid f.2 ∈ family → spawned st0 f = Some child →
  child ∈ grow st0 family f.
Proof. intros Hin Hs. unfold grow. rewrite bool_decide_true by done. rewrite Hs. set_solver. Qed.

(** One firing, whatever the tracepoint. *)
Lemma in_tree_fire tp ctx family st : ctx_ok ctx → in_tree st0 family st →
  in_tree st0 (grow st0 family (tp, ctx)) (fire lim tp ctx st).
Proof.
  intros Hc Hst.
  assert (Hm : ctx_tgid ctx ∈ grow st0 family (tp, ctx) → ctx_tgid ctx ∈ family)
    by (unfold grow; cbn [fst snd]; by case_bool_decide).
  pose proof (in_tree_mono _ _ _ _ (grow_incl st0 family (tp, ctx)) Hst) as Hst'.
  assert (H32 : ∀ key v, read_field ctx st0 key 4 = Some v → u32 v) by (intros; by eapply read_field_u32).
  assert (Hfds : i32 (-100) ∧ u32 0) by (unfold i32, u32; lia). destruct Hfds.
  set (family' := grow st0 family (tp, ctx)) in *.
  destruct tp; cbn [fire].
  - by apply good_openat_enter.
  - by apply good_openat_exit.
  - apply good_with_field; [done|]. intros. apply good_with_field; [done|]. intros. by apply good_stash_rename.
  - do 4 (apply good_with_field; [done|]; intros). apply good_stash_rename; auto using as_i32_i32.
  - do 5 (apply good_with_field; [done|]; intros). apply good_stash_rename; eauto using as_i32_i32.
  - apply good_with_field; [done|]. intros. by apply good_stash_unlink.
  - do 3 (apply good_with_field; [done|]; intros). apply good_stash_unlink; eauto using as_i32_i32.
  - by apply good_path_op_exit.
  - by apply good_path_op_exit.
  - by apply good_path_op_exit.
  - by apply good_path_op_exit.
  - by apply good_path_op_exit.
  - by apply good_close.
  - by apply good_mmap.
  - by apply good_exec.
  - apply good_fork; [done| |done]. intros child Hin Hr. by apply grow_spawned; [apply Hm|].
  - apply good_clone_exit; [|done]. intros ret Hin Hr Hpos. apply grow_spawned; [by apply Hm|].
    unfold spawned. cbn [fst snd]. by rewrite Hr, Hpos.
  - apply good_clone_exit; [|done]. intros ret Hin Hr Hpos. apply grow_spawned; [by apply Hm|].
    unfold spawned. cbn [fst snd]. by rewrite Hr, Hpos.
  - by apply good_exit.
Qed.

Lemma in_tree_run firings family st : Forall (λ f, ctx_ok f.2) firings → in_tree st0 family st →
  in_tree st0 (descendants st0 family firings) (fire_all lim firings st).
Proof.
  intros Hf. revert family st. unfold fire_all, descendants.
  induction Hf as [|[tp ctx] firings Hc _ IH]; intros family st Hst; [done|].
  cbn [foldl]. apply IH. by apply in_tree_fire.
Qed.
End runs.

Lemma armed_in_tree offsets watched watching child :
  let st := armed_kernel offsets watched watching child in in_tree st {[child]} st.
Proof.
  split; try done; simpl.
  - intros k [x [<- _]%lookup_singleton_Some]. set_solver.
  - intros k [x [<- _]%lookup_singleton_Some]. set_solver.
  - intros k [x Hx]. by rewrite lookup_empty in Hx.
Qed.

Lemma armed_watching offsets watched watching child :
  watch_enabled (armed_kernel offsets watched watching child) = watching.
Proof. by destruct watching. Qed.

Lemma armed_run lim offsets watched watching child firings : Forall (λ f, ctx_ok f.2) firings →
  let st0 := armed_kernel offsets watched watching child in
  let family := descendants st0 {[child]} firings in
  (∀ k, is_Some (TRACKED_PIDS (fire_all lim firings st0) !! k) → k ∈ family) ∧
  Forall (record_ok family watching) (EVENTS (fire_all lim firings st0)).
Proof.
  intros Hf. cbv zeta. pose proof (in_tree_run lim _ firings _ _ Hf (armed_in_tree offsets watched watching child)) as Hst.
  destruct Hst as [_ _ Ht _ _ _ _ _ He]. rewrite armed_watching in He. by split.
Qed.

(** C17. Whatever the probes see and in whatever order, under any capacities, the
    records they submit speak of the traced tree only: a record with source 0
    is about a process that the firings show to descend from the traced child
    (the parent, for a fork), and a record with another source has source 1 and
    exists only in watch mode; the kernel tracks no process outside the tree. *)
Theorem reports_only_the_tree lim offsets watched watching child firings :
  Forall (λ f, ctx_ok f.2) firings →
  let st0 := armed_kernel offsets watched watching child in
  let st := fire_all lim firings st0 in
  let family := descendants st0 {[child]} firings in
  dom (TRACKED_PIDS st) ⊆ family ∧
  Forall (λ record, ∃ kind source ts p, decodes_as record kind source ts p ∧
    (source = 0%Z ∧ subject p ∈ family ∨ source = 1%Z ∧ watching = true)) (EVENTS st).
Proof.
  intros Hf. cbv zeta. destruct (armed_run lim offsets watched watching child firings Hf) as [Ht He].
  split.
  - intros k Hk%elem_of_dom. by apply Ht.
  - eapply Forall_impl; [exact He|]. intros r (kind & source & ts & p & Hd & _ & Hs). by exists kind, source, ts, p.
Qed.

(** ** A child that is gone before its [clone] returns *)

(** A firing puts its child into the map, if nothing is dropped. *)
Lemma fork_tracks ctx st child : is_tracked (ctx_tgid ctx) st = true →
  read_field ctx st FORK_CHILD_PID 4 = Some child → is_tracked child (fire unlimited repx_fork ctx st) = true.
Proof.
  intros Hp Hf. cbn [fire]. unfold try_fork, with_field. rewrite Hf, Hp. cbn [negb].
  unfold is_tracked. cbn. rewrite lookup_insert_eq. by apply bool_decide_eq_true.
Qed.

Lemma clone_tracks ctx st ret : is_tracked (ctx_tgid ctx) st = true →
  read_field ctx st CLONE_EXIT_RET 8 = Some ret → (0 < as_i64 ret)%Z →
  is_tracked (wrap_u32 ret) (fire unlimited repx_clone_exit ctx st) = true.
Proof.
  intros Hp Hf Hpos. cbn [fire]. unfold try_clone_exit, with_field. rewrite Hf, Hp.
  rewrite (proj2 (Z.leb_gt _ _)) by done. cbn [negb].
  unfold is_tracked. cbn. rewrite lookup_insert_eq. by apply bool_decide_eq_true.
Qed.

Lemma exit_untracks lim ctx st child : ctx_tgid ctx = child → ctx_pid ctx = child →
  is_tracked child (fire lim repx_exit ctx st) = false.
Proof.
  intros He Hpid. cbn [fire]. unfold try_exit. rewrite He, Hpid, (bool_decide_true (child = child)) by done.
  destruct (is_tracked child st) eqn:Ht; cbn [negb]; [|done].
  unfold is_tracked. simpl. rewrite lookup_delete_eq. by apply bool_decide_eq_false.
Qed.

(** C36. A child that exits before its parent's [clone] returns stays tracked.  Take
    the maps as [trace_command] arms them, any capacities, and a run of fewer than
    2^62 firings that ends with drop count 0, in which a tracked process forks a
    child, the child's main thread exits, and only then the parent's [clone]
    returns the child's PID, whatever else fires in between (but not the exit of
    the parent's main thread, nor an earlier exit of the child).  The fork tracks
    the child and its exit untracks it; the return tracks it again, and it is still
    tracked at the end of the run, if no thread with its number exits after the
    return.  So the next process that is given the PID is reported as one of the
    traced tree. *)
Theorem dead_child_retracked lim offsets watched watching root_pid before ctx_fork mid1 ctx_exit mid2 ctx_clone
    after child ret :
  let start := armed_kernel offsets watched watching root_pid in
  let parent := ctx_tgid ctx_fork in
  let alive := before ++ (repx_fork, ctx_fork) :: mid1 in
  let dead := alive ++ [(repx_exit, ctx_exit)] in
  let run := dead ++ mid2 ++ (repx_clone_exit, ctx_clone) :: after in
  (Z.of_nat (length run) < 2 ^ 62)%Z → drop_count (fire_all lim run start) = 0%Z →
  is_tracked parent (fire_all lim before start) = true → ctx_tgid ctx_clone = parent →
  ctx_tgid ctx_exit = child → ctx_pid ctx_exit = child → child ≠ parent →
  read_field ctx_fork start FORK_CHILD_PID 4 = Some child →
  read_field ctx_clone start CLONE_EXIT_RET 8 = Some ret → (0 < as_i64 ret)%Z → wrap_u32 ret = child →
  Forall (λ f, ¬ thread_exit parent f) (mid1 ++ mid2) → Forall (λ f, ¬ thread_exit child f) (mid1 ++ after) →
  is_tracked child (fire_all lim alive start) = true ∧ is_tracked child (fire_all lim dead start) = false ∧
  is_tracked child (fire_all lim run start) = true.
Proof.
  cbv zeta. intros Hn Hd Hp Hc He Hpid Hne Hf Hr Hpos Hw [Hp1 Hp2]%Forall_app [Hc1 Hc2]%Forall_app.
  set (start := armed_kernel offsets watched watching root_pid) in *. set (parent := ctx_tgid ctx_fork) in *.
  pose proof (undropped_prefix lim offsets watched watching root_pid _ [] ltac:(by rewrite app_nil_r)
    ltac:(by rewrite app_nil_r)) as Hrun. fold start in Hrun.
  assert (Halive : is_tracked child (fire_all unlimited (before ++ (repx_fork, ctx_fork) :: mid1) start) = true ∧
    is_tracked parent (fire_all unlimited (before ++ (repx_fork, ctx_fork) :: mid1) start) = true).
  { assert (Hbefore : fire_all lim before start = fire_all unlimited before start).
    { rewrite <- !app_assoc in Hn, Hd. by eapply (undropped_prefix lim _ _ _ _ before). }
    rewrite Hbefore in Hp. rewrite fire_all_app. cbn [fire_all foldl].
    split; (apply tracked_kept; [done|]).
    - apply fork_tracks; [done|]. by rewrite read_kept.
    - apply (tracked_kept unlimited parent [(repx_fork, ctx_fork)]); [|done].
      constructor; [|done]. by intros [? _]. }
  destruct Halive as [Hchild Hparent].
  assert (Hpre : fire_all lim (before ++ (repx_fork, ctx_fork) :: mid1) start
    = fire_all unlimited (before ++ (repx_fork, ctx_fork) :: mid1) start).
  { rewrite <- !app_assoc in Hn, Hd. rewrite app_assoc in Hn, Hd. by eapply (undropped_prefix lim). }
  rewrite Hpre. split; [exact Hchild|]. split; [rewrite fire_all_app; by apply exit_untracks|].
  rewrite Hrun. clear Hrun Hpre. set (alive := before ++ (repx_fork, ctx_fork) :: mid1) in *. clearbody alive.
  rewrite !fire_all_app. match goal with |- context [fire_all unlimited (?f :: after) ?st] =>
    change (fire_all unlimited (f :: after) st) with (fire_all unlimited after (fire unlimited f.1 f.2 st)) end.
  apply tracked_kept; [done|]. rewrite <- Hw. apply clone_tracks; cbn [snd]; [rewrite Hc|by rewrite !read_kept|done].
  apply tracked_kept; [done|]. apply (tracked_kept unlimited parent [(repx_exit, ctx_exit)]); [|done].
  constructor; [|done]. intros [_ Hx]. simpl in Hx. congruence.
Qed.
