(* ===== verification/EbpfCompose.v ===== *)
(** * From the probes to the trace: renames

    The collector rejoins the two halves of a rename by thread and operation
    number.  In the order the probe submits them they give one rename; in the
    other order, which a sort by their equal timestamps may choose, both are
    lost.  [rename_traced] follows a rename from the system call through the ring
    buffer, the drain, the sort and the collector into the trace. *)
From S2P Require Export TracerExamples TracerReports EbpfTree.

(** ** Paths through a record *)

(** A path that a record carries in full: a C string of at most 255 bytes that
    is valid UTF-8. *)
Definition carried (s : string) : Prop :=
  s ≠ "" ∧ String.length s < MAX_PATH_LEN ∧ utf8_valid s = true ∧ trim_end_char "000" s = s.

Lemma decode_read_path s : carried s →
  decode_event_path (ps_path (read_path (Some s))) (ps_path_len (read_path (Some s))) = Some s.
Proof.
  intros (Hne & Hlen & Hutf & Htrim). unfold read_path, probe_read_str. change (default "" (Some s)) with s.
  cbn [ps_path ps_path_len]. unfold MAX_PATH_LEN in *.
  assert (Hall : str_take (256 - 1) s = s).
  { apply str_ext. intros i. rewrite get_take. destruct (Nat.ltb_spec i (256 - 1)); [done|].
    symmetry. apply get_length. lia. }
  rewrite Hall. unfold decode_event_path. rewrite str_length_app, zero_bytes_length, Nat2Z.id.
  replace (String.length s `min` _) with (String.length s) by lia.
  assert (Htake : ∀ t, str_take (String.length s) (s +:+ t) = s).
  { intros t. apply str_ext. intros i. rewrite get_take, get_app.
    destruct (Nat.ltb_spec i (String.length s)); [done|]. symmetry. by apply get_length. }
  rewrite Htake, Hutf, Htrim. by rewrite bool_decide_false.
Qed.

(** ** The collector's side of a rename *)

Section halves.
Context `{Sha256} {Handle : Type}.
Context (env : Env Handle) (watch : list string)
  (iter_fds : gmap (ProcessLifetime * Z) (@OpenFileState Handle) → list (@OpenFileState Handle)).
Context (from to : string) (source ts : Z) (half1 half2 : FilePathEvent) (raw1 raw2 : string).
Context (Hfrom : decodes_as from KindFileRenameSource source ts (file_path half1))
  (Hto : decodes_as to KindFileRenameDestination source ts (file_path half2))
  (Hpid : fp_pid half2 = fp_pid half1) (Hop : fp_operation_id half2 = fp_operation_id half1)
  (Hraw1 : decode_event_path (fp_path half1) (fp_path_len half1) = Some raw1)
  (Hraw2 : decode_event_path (fp_path half2) (fp_path_len half2) = Some raw2).
Abbreviation key := (fp_pid half1, fp_operation_id half1).
Abbreviation step record st := (process_event env watch iter_fds (read_event record) st).

Lemma step_from (st : @Collector Handle) :
  step from st = process_rename_source env half1 (source =?= 1%Z) st.
Proof.
  destruct Hfrom as (_ & Hk & Hs & _ & Hp). unfold process_event. rewrite Hk, Hs.
  assert (He : payload_file_path (ev_payload (read_event from)) = half1) by (by injection Hp).
  cbv zeta. by rewrite He.
Qed.

Lemma step_to (st : @Collector Handle) :
  step to st = process_rename_destination env watch half2 (source =?= 1%Z) st.
Proof.
  destruct Hto as (_ & Hk & Hs & _ & Hp). unfold process_event. rewrite Hk, Hs.
  assert (He : payload_file_path (ev_payload (read_event to)) = half2) by (by injection Hp).
  cbv zeta. by rewrite He.
Qed.

Lemma current_process_renames p (st : @Collector Handle) :
  pending_renames (current_process p st).1 = pending_renames st.
Proof. unfold current_process. by case_match. Qed.

Lemma resolve_path_renames p dfd raw (st : @Collector Handle) :
  pending_renames (resolve_path env p dfd raw st).1 = pending_renames st.
Proof. unfold resolve_path. repeat case_match; done. Qed.

(** The source is accepted and waits under its operation number. *)
Lemma source_pends (st : @Collector Handle) : ∃ st1,
  step from st = Returns (st1, [], true) ∧
  pending_renames st1 =
    <[key := mkRename (current_process (fp_tgid half1) st).2
       (resolve_path env (current_process (fp_tgid half1) st).2 (fp_dfd half1) raw1
          (current_process (fp_tgid half1) st).1).2 (fp_flags half1) (source =?= 1%Z)]>
      (pending_renames st).
Proof.
  rewrite step_from. unfold process_rename_source. rewrite Hraw1.
  pose proof (current_process_renames (fp_tgid half1) st) as H1.
  destruct (current_process _ st) as [sta p]. cbn [fst snd] in *.
  pose proof (resolve_path_renames p (fp_dfd half1) raw1 sta) as H2.
  destruct (resolve_path _ _ _ _ _) as [stb path]. cbn [fst snd] in *.
  eexists. split; [reflexivity|]. simpl. by rewrite H2, H1.
Qed.

(** The destination, once its source waits. *)
Lemma destination_joins (st st2 : @Collector Handle) pushed ok pending :
  pending_renames st !! key = Some pending → step to st = Returns (st2, pushed, ok) →
  let to_path := (resolve_path env (pr_process pending) (fp_dfd half2) raw2
                    (with_renames (delete key (pending_renames st)) st)).2 in
  let external := pr_external pending || (source =?= 1%Z) in
  ok = true ∧ pending_renames st2 = delete key (pending_renames st) ∧
  if external && negb (is_watched watch (pr_from_path pending) || is_watched watch to_path)
  then pushed = []
  else ∃ observation rest, pushed = FileRename (pr_process pending) (pr_from_path pending) to_path
                                      (pr_flags pending) external observation :: rest.
Proof.
  intros Hpend Hs. rewrite step_to in Hs. unfold process_rename_destination in Hs.
  rewrite Hpid, Hop, Hpend, Hraw2 in Hs. cbv zeta in *.
  pose proof (resolve_path_renames (pr_process pending) (fp_dfd half2) raw2
    (with_renames (delete key (pending_renames st)) st)) as Hr.
  destruct (resolve_path _ _ _ _ _) as [sta to_path]. cbn [fst snd] in *.
  destruct (_ && negb _).
  - injection Hs as <- <- <-. split; [done|]. by split.
  - apply partial_bind_Returns in Hs as (o & _ & Hs).
    apply partial_bind_Returns in Hs as (r & _ & Hs). injection Hs as <- <- <-.
    split; [done|]. split; [exact Hr|]. eauto.
Qed.

(** The order of a rename's halves decides whether it is traced.  The source
    and then the destination: both are accepted, nothing is left waiting, and
    the rename is reported unless it is external and touches no watched
    directory.  The destination first: it is rejected and reports nothing, and
    the source that follows is left waiting, to be counted as lost at the end. *)
Theorem rename_halves_order (st : @Collector Handle) :
  pending_renames st !! key = None →
  (∃ st1, step from st = Returns (st1, [], true) ∧
     ∀ st2 pushed ok, step to st1 = Returns (st2, pushed, ok) →
       ok = true ∧ pending_renames st2 = pending_renames st ∧
       (pushed = [] ∧ source = 1%Z ∨
        ∃ process from_path to_path observation rest,
          pushed = FileRename process from_path to_path (fp_flags half1) (source =?= 1%Z) observation
                   :: rest)) ∧
  step to st = Returns (st, [], false) ∧
  (∃ st1, step from st = Returns (st1, [], true) ∧
     size (pending_renames st1) = S (size (pending_renames st))).
Proof.
  intros Hnone. destruct (source_pends st) as (st1 & Hs1 & Hp1). split; [|split].
  - exists st1. split; [done|]. intros st2 pushed ok Hs2.
    destruct (destination_joins st1 st2 pushed ok _ ltac:(by rewrite Hp1, lookup_insert_eq) Hs2)
      as (-> & Hp2 & Hpush). split; [done|]. split.
    + rewrite Hp2, Hp1, delete_insert_eq. by apply delete_id.
    + cbv zeta in Hpush. cbn [pr_process pr_from_path pr_flags pr_external] in Hpush.
      rewrite orb_diag in Hpush. destruct (source =?= 1%Z) eqn:Hsrc.
      * destruct (true && _); [|right; destruct Hpush as (o & r & ->); eauto 10].
        left. by apply bool_decide_eq_true in Hsrc.
      * right. destruct Hpush as (o & r & ->). eauto 10.
  - rewrite step_to. unfold process_rename_destination. by rewrite Hpid, Hop, Hnone.
  - exists st1. split; [done|]. rewrite Hp1. by rewrite map_size_insert_None.
Qed.
End halves.

Lemma resolve_absolute {Handle} (env : Env Handle) p dfd raw (st : @Collector Handle) :
  starts_with "/" raw = true → resolve_path env p dfd raw st = (st, raw).
Proof. intros Ha. unfold resolve_path. by rewrite Ha. Qed.

(** ** Through the drain and the sort *)

(** Adjacent records of one timestamp stay adjacent and in order, as under a
    stable sort. *)
Definition keeps_ties (sort : list RawEvent → list RawEvent) : Prop :=
  ∀ l1 x y l2, x.1 = y.1 → ∃ m1 m2, sort (l1 ++ x :: y :: l2) = m1 ++ x :: y :: m2.

Lemma full_records_app items1 items2 :
  full_records (items1 ++ items2) = full_records items1 ++ full_records items2.
Proof.
  unfold full_records. induction items1 as [|data items IH]; [done|]. cbn [List.filter app].
  destruct (negb _); [|exact IH]. csimpl. by rewrite IH.
Qed.

Lemma full_record data kind source ts p : decodes_as data kind source ts p → full_records [data] = [(ts, data)].
Proof.
  intros (Hlen & _ & _ & <- & _). unfold full_records. cbn [List.filter]. rewrite Hlen, Nat.ltb_irrefl. done.
Qed.

Section collected.
Context `{Sha256} {Handle : Type} (watch : list string) (moments : nat → @Moment Handle).
Abbreviation process := (process_buffered_events watch moments).

Lemma buffered_app i l1 l2 st events r : process i (l1 ++ l2) st events = Returns r →
  ∃ st1 events1, process i l1 st events = Returns (st1, events1) ∧
    process (i + length l1) l2 st1 events1 = Returns r.
Proof.
  revert i st events. induction l1 as [|[ts data] l1 IH]; intros i st events Hr.
  - exists st, events. by rewrite Nat.add_0_r.
  - simpl in Hr |- *. apply partial_bind_Returns in Hr as ([st1 events1] & H1 & Hr). rewrite H1.
    rewrite Nat.add_succ_r. by apply (IH (S i)).
Qed.

Lemma buffered_grows i l st events st' events' : process i l st events = Returns (st', events') →
  ∃ more, events' = events ++ more.
Proof.
  revert i st events. induction l as [|[ts data] l IH]; intros i st events Hr; simpl in Hr.
  { injection Hr as <- <-. exists []. by rewrite app_nil_r. }
  apply partial_bind_Returns in Hr as ([st1 events1] & H1 & Hr). apply IH in Hr as [more ->].
  unfold process_buffered_event in H1. destruct (_ <? _)%nat; [injection H1 as <- <-; by eexists|].
  apply partial_bind_Returns in H1 as ([[st2 pushed] ok] & _ & H1). injection H1 as _ <-.
  exists (pushed ++ more). by rewrite app_assoc.
Qed.

(** What is processed is in the trace, unless it is an exit. *)
Lemma synthesized child code st (events : list TracedEvent) e : collector_inv (Handle := Handle) st →
  e ∈ events → (∀ process code, e ≠ Exit process code) → e ∈ (synthesize_exit child code st events).2.
Proof.
  intros Hst He Hne. destruct (synthesize_exit_spec child code st events Hst)
    as (pre & p & post & -> & [[old ->]|[-> ->]] & _).
  - rewrite !elem_of_app, !elem_of_cons in *. naive_solver.
  - rewrite elem_of_app. by left.
Qed.

(** Two adjacent halves of a rename of absolute paths. *)
Lemma halves_processed i from to ts half1 half2 raw1 raw2 t1 t2 l st events st' events' :
  decodes_as from KindFileRenameSource 0 ts (file_path half1) →
  decodes_as to KindFileRenameDestination 0 ts (file_path half2) →
  fp_pid half2 = fp_pid half1 → fp_operation_id half2 = fp_operation_id half1 →
  decode_event_path (fp_path half1) (fp_path_len half1) = Some raw1 →
  decode_event_path (fp_path half2) (fp_path_len half2) = Some raw2 →
  starts_with "/" raw1 = true → starts_with "/" raw2 = true →
  process i ((t1, from) :: (t2, to) :: l) st events = Returns (st', events') →
  ∃ observation, FileRename (current_process (fp_tgid half1) st).2 raw1 raw2 (fp_flags half1) false observation
                   ∈ events'.
Proof.
  intros Hfrom Hto Hpid Hop Hraw1 Hraw2 Ha1 Ha2 Hr. simpl in Hr.
  apply partial_bind_Returns in Hr as ([sta eva] & H1 & Hr). unfold process_buffered_event in H1.
  rewrite (proj1 Hfrom), Nat.ltb_irrefl in H1.
  destruct (source_pends (moment_env (moments i)) watch (moment_fds (moments i)) from 0 ts half1 raw1
    Hfrom Hraw1 st) as (st1 & Hstep & Hpend).
  rewrite Hstep in H1. injection H1 as <- <-.
  apply partial_bind_Returns in Hr as ([stb evb] & H2 & Hr). unfold process_buffered_event in H2.
  rewrite (proj1 Hto), Nat.ltb_irrefl in H2.
  apply partial_bind_Returns in H2 as ([[st2 pushed] ok] & Hs & H2).
  edestruct (destination_joins (moment_env (moments (S i))) watch (moment_fds (moments (S i))) to 0 ts half1
    half2 raw2 Hto Hpid Hop Hraw2 st1 st2 pushed ok) as (-> & _ & Hpush);
    [by rewrite Hpend, lookup_insert_eq|exact Hs|].
  cbv zeta in Hpush. cbn [pr_process pr_from_path pr_flags pr_external] in Hpush.
  rewrite bool_decide_false in Hpush by done. cbn [orb andb] in Hpush. rewrite !resolve_absolute in Hpush by done.
  destruct Hpush as (o & rest & ->). injection H2 as _ <-. apply buffered_grows in Hr as [more ->].
  exists o. rewrite !elem_of_app. left. right. apply list_elem_of_here.
Qed.

(** Two adjacent records of a run, in its trace. *)
Lemma halves_traced sort child code cwd obs drops items1 from to items2 ts half1 half2 raw1 raw2
    events root lost :
  keeps_ties sort →
  decodes_as from KindFileRenameSource 0 ts (file_path half1) →
  decodes_as to KindFileRenameDestination 0 ts (file_path half2) →
  fp_pid half2 = fp_pid half1 → fp_operation_id half2 = fp_operation_id half1 →
  decode_event_path (fp_path half1) (fp_path_len half1) = Some raw1 →
  decode_event_path (fp_path half2) (fp_path_len half2) = Some raw2 →
  starts_with "/" raw1 = true → starts_with "/" raw2 = true →
  trace watch sort moments child code cwd obs drops (items1 ++ from :: to :: items2)
    = Returns (events, root, lost) →
  ∃ process observation, pid (lifetime process) = fp_tgid half1 ∧
    FileRename process raw1 raw2 (fp_flags half1) false observation ∈ events.
Proof.
  intros Hties Hfrom Hto Hpid Hop Hraw1 Hraw2 Ha1 Ha2 Ht.
  apply trace_parts in Ht as (_ & st & collected & Hbuf & ->).
  rewrite (cons_middle from), (cons_middle to), !full_records_app in Hbuf.
  rewrite (full_record _ _ _ _ _ Hfrom), (full_record _ _ _ _ _ Hto) in Hbuf.
  destruct (Hties (full_records items1) (ts, from) (ts, to) (full_records items2) eq_refl) as (m1 & m2 & Hm).
  cbn [app] in Hbuf. rewrite Hm in Hbuf.
  set (st0 := with_malformed _ _) in Hbuf.
  assert (Hinv0 : collector_inv st0) by (destruct (inv_new (Handle := Handle) child cwd); by split).
  pose proof (process_buffered_events_inv _ _ _ _ _ _ _ _ Hinv0 Hbuf) as Hinv.
  apply buffered_app in Hbuf as (st1 & ev1 & H1 & H2).
  pose proof (process_buffered_events_inv _ _ _ _ _ _ _ _ Hinv0 H1) as Hinv1.
  destruct (halves_processed _ _ _ _ _ _ _ _ _ _ _ _ _ _ _ Hfrom Hto Hpid Hop Hraw1 Hraw2 Ha1 Ha2 H2)
    as [o Hin].
  pose proof (current_process_spec (fp_tgid half1) st1 Hinv1) as Hc.
  destruct (current_process (fp_tgid half1) st1) as [st2 p]. destruct Hc as (_ & Hp & _).
  exists p, o. split; [exact Hp|]. apply list_elem_of_further. by apply synthesized.
Qed.
End collected.

(** ** The whole way *)

(** C16. A rename goes from the system call to the trace unchanged.  Take the maps
    as [trace_command] arms them, any capacities, and a run of fewer than 2^62
    firings that ends with drop count 0.  If in it a tracked thread's [renameat2] of
    two absolute UTF-8 paths of at most 255 bytes returns success, with arguments and
    paths that the probes can read ([read_field], [user_str]) and kernel answers
    within their types ([ctx_ok]), whatever other probes fire between its entry and
    its return (but no other rename or unlink of that thread), then the trace that is collected from the run's records contains
    the rename of exactly these two paths, with the flags of the call, by a process
    with the thread's PID, if the collection returns a trace (it may panic on another
    event) and if the sort keeps adjacent records of one timestamp together and in
    order.  The two halves carry one
    timestamp and the program's sort is unstable, so the last condition can fail:
    see [rename_tie_unstable]. *)
Theorem rename_traced `{Sha256} {Handle} lim offsets watched watching root_pid before ctx1 mid ctx2 after
    od op nd np fl ret s1 s2 watch sort (moments : nat → @Moment Handle) child code cwd obs drops events root lost :
  let start := armed_kernel offsets watched watching root_pid in
  let run := (before ++ (repx_renameat2_enter, ctx1) :: mid) ++ (repx_renameat2_exit, ctx2) :: after in
  (Z.of_nat (length run) < 2 ^ 62)%Z → drop_count (fire_all lim run start) = 0%Z →
  ctx_ok ctx1 → ctx_ok ctx2 → pid_tgid ctx2 = pid_tgid ctx1 → Forall (not_path_op_of (pid_tgid ctx1)) mid →
  read_field ctx1 start RENAMEAT_ENTER_OLD_DFD 4 = Some od →
  read_field ctx1 start RENAMEAT_ENTER_OLD_PATH 8 = Some op →
  read_field ctx1 start RENAMEAT_ENTER_NEW_DFD 4 = Some nd →
  read_field ctx1 start RENAMEAT_ENTER_NEW_PATH 8 = Some np →
  read_field ctx1 start RENAMEAT2_ENTER_FLAGS 4 = Some fl →
  read_field ctx2 start RENAMEAT2_EXIT_RET 8 = Some ret → (0 ≤ as_i64 ret)%Z →
  user_str ctx1 op = Some s1 → user_str ctx1 np = Some s2 → carried s1 → carried s2 →
  starts_with "/" s1 = true → starts_with "/" s2 = true →
  is_tracked (ctx_tgid ctx1) (fire_all lim before start) = true → keeps_ties sort →
  trace watch sort moments child code cwd obs drops (EVENTS (fire_all lim run start))
    = Returns (events, root, lost) →
  ∃ process observation, pid (lifetime process) = ctx_tgid ctx1 ∧
    FileRename process s1 s2 fl false observation ∈ events.
Proof.
  cbv zeta. intros Hn Hd Hc1 Hc2 Ht Hmid H1 H2 H3 H4 H5 H6 Hret Hu1 Hu2 Hs1 Hs2 Ha1 Ha2 Htr Hties Htrace.
  set (start := armed_kernel offsets watched watching root_pid) in *.
  destruct (undropped_split lim offsets watched watching root_pid before _ mid _ after Hn Hd)
    as (Hst & _ & Hst3). fold start in Hst, Hst3. cbn [fst snd] in Hst3. rewrite Hst in Htr.
  pose proof (rename_submits (fire_all unlimited before start) ctx1 ctx2 mid od op nd np fl ret s1 s2
    Hc1 Hc2 Ht Hmid) as Hsub. rewrite !read_kept in Hsub.
  destruct (Hsub H1 H2 H3 H4 H5 H6 Hret Hu1 Hu2 (proj1 Hs1) (proj1 Hs2)) as (from & to & Hev & Hfrom & Hto).
  { unfold rename_wanted. by rewrite Htr. }
  rewrite Htr in Hfrom, Hto.
  destruct (records_kept lim after (fire lim repx_renameat2_exit ctx2
    (fire_all lim (before ++ (repx_renameat2_enter, ctx1) :: mid) start))) as [l Hl].
  rewrite fire_all_app in Htrace. cbn [fire_all foldl] in Htrace.
  fold (fire_all lim after (fire lim repx_renameat2_exit ctx2
    (fire_all lim (before ++ (repx_renameat2_enter, ctx1) :: mid) start))) in Htrace.
  rewrite Hl, Hst3, fire_all_app, Hev, <- app_assoc in Htrace. cbn [app] in Htrace.
  set (half1 := mkFilePath _ _ (as_i32 od) _ _ _ _) in Hfrom.
  set (half2 := mkFilePath _ _ (as_i32 nd) _ _ _ _) in Hto.
  exact (halves_traced watch moments sort child code cwd obs drops _ from to _ _ half1 half2 s1 s2 events root
    lost Hties Hfrom Hto eq_refl eq_refl (decode_read_path s1 Hs1) (decode_read_path s2 Hs2) Ha1 Ha2 Htrace).
Qed.
