(* ===== verification/EbpfExamples.v ===== *)
(** * Concrete runs of the probes

    PID 7 is traced, PID 99 is not; the field with key [k] lies at offset
    [k + 8] of its tracepoint's record.  The watch directories are [/w] and
    [/data]. *)
From S2P Require Export EbpfFilter EbpfRefine EbpfCompose.

Module EbpfExamples.
Export TracerExamples.

(** ** Contexts *)

Definition offsets : gmap Z Z := list_to_map ((λ k, (Z.of_nat k, Z.of_nat k + 8)%Z) <$> seq 0 28).

(** Thread [tid] of process [tgid]; [fields] gives the fields of the record by
    key, [user] the strings of user memory by pointer, and [room] whether the
    ring buffer has any. *)
Definition kctx (tgid tid time : Z) (fields : list (Z * Z)) (user : list (Z * string)) (room : bool)
    : Ctx := {|
  pid_tgid := tgid `mod` 4294967296 * 4294967296 + tid `mod` 4294967296;
  ktime := time `mod` 18446744073709551616;
  ctx_read o n := (λ v, (v `mod` 256 ^ Z.of_nat n)%Z) <$> (list_to_map fields : gmap Z Z) !! (o - 8)%Z;
  user_str p := (list_to_map user : gmap Z string) !! p;
  kernel_str p := (list_to_map user : gmap Z string) !! p;
  ring_room _ := room;
  ring_buf _ := zero_bytes event_size |}%Z.

Lemma kctx_ok tgid tid time fields user room : ctx_ok (kctx tgid tid time fields user room).
Proof.
  split; simpl.
  - unfold u64. pose proof (Z.mod_pos_bound tgid 4294967296 ltac:(lia)).
    pose proof (Z.mod_pos_bound tid 4294967296 ltac:(lia)). lia.
  - unfold u64. by apply Z.mod_pos_bound.
  - intros o n v Hv. destruct (_ !! _); [|done]. injection Hv as <-. apply Z.mod_pos_bound. lia.
  - intros _. exact (zero_bytes_length event_size).
Qed.

Definition dirs : list string := ["/w"; "/data"].
Definition armed : gmap Z WatchedPrefix :=
  match arm_prefixes 0 dirs ∅ with Returns m => m | _ => ∅ end.
Definition start : Kernel := armed_kernel offsets armed true 7.

(** ** Firings *)

Definition thread (tgid tid time : Z) (fields : list (Z * Z)) (user : list (Z * string)) : Ctx :=
  kctx tgid tid time fields user true.

Definition open_enter (tgid time flags : Z) (path : string) : Tracepoint * Ctx :=
  (repx_openat_enter, thread tgid tgid time [(0, -100); (1, 1000); (2, flags)]%Z [(1000%Z, path)]).
Definition open_exit (tgid time ret : Z) : Tracepoint * Ctx :=
  (repx_openat_exit, thread tgid tgid time [(3, ret)]%Z []).
Definition rename_enter (tgid time flags : Z) (from to : string) : Tracepoint * Ctx :=
  (repx_renameat2_enter, thread tgid tgid time
     [(6, -100); (7, 1000); (8, -100); (9, 2000); (10, flags)]%Z [(1000%Z, from); (2000%Z, to)]).
Definition rename_exit (tgid time ret : Z) : Tracepoint * Ctx :=
  (repx_renameat2_exit, thread tgid tgid time [(25, ret)]%Z []).
Definition fork (parent time child : Z) : Tracepoint * Ctx :=
  (repx_fork, thread parent parent time [(20%Z, child)] []).
Definition clone_exit (parent time child : Z) : Tracepoint * Ctx :=
  (repx_clone_exit, thread parent parent time [(21%Z, child)] []).
Definition exit (tgid time : Z) : Tracepoint * Ctx := (repx_exit, thread tgid tgid time [] []).
Definition close_enter (tgid time fd : Z) : Tracepoint * Ctx :=
  (repx_close_enter, thread tgid tgid time [(15%Z, fd)] []).

Lemma firings_ok (firings : list (Tracepoint * Ctx)) :
  (∀ f, f ∈ firings → ∃ a b c d e r, f.2 = kctx a b c d e r) → Forall (λ f, ctx_ok f.2) firings.
Proof.
  intros Hall. apply Forall_forall. intros f Hf. destruct (Hall f Hf) as (a & b & c & d & e & r & ->).
  apply kctx_ok.
Qed.

(** What userspace sees of a record: its kind, source and payload. *)
Definition summary (record : string) : option (EventKind * Z * Payload) :=
  let ev := read_event record in
  kind ← kind_try_from (ev_kind ev); Some (kind, ev_source ev, read_payload kind (ev_payload ev)).

(** ** Opens *)

Definition two_opens : list (Tracepoint * Ctx) :=
  [open_enter 7 10 577 "/w/out"; open_enter 99 11 0 "/w/in"; open_exit 99 12 5; open_exit 7 13 3;
   open_enter 99 14 0 "/etc/passwd"; open_exit 99 15 6].

Example two_opens_events :
  (λ r, '(k, s, p) ← summary r; Some (k, s, match p with file_open o => fo_tgid o | _ => 0%Z end))
    <$> EVENTS (fire_all kernel_limits two_opens start)
  = [Some (KindFileOpen, 1, 99)%Z; Some (KindFileOpen, 0, 7)%Z].
Proof. vm_compute. reflexivity. Qed.

(** ** Witnesses *)


Lemma record_roundtrip_witness :
  let p := file_close (mkFileClose 70 7 (-1)) in
  let record := write_payload (payload_fields p) (payload_values p)
                  (write_header KindFileClose 1 12345 (zero_bytes event_size)) in
  payload_ok KindFileClose p ∧ ev_timestamp_ns (read_event record) = 12345%Z ∧
  read_payload KindFileClose (ev_payload (read_event record)) = p.
Proof.
  cbv zeta. set (p := file_close (mkFileClose 70 7 (-1))).
  assert (Hp : payload_ok KindFileClose p) by (split_and!; [done|unfold u32, i32; simpl; lia..]).
  assert (Hs : u8 1) by (unfold u8; lia). assert (Ht : u64 12345) by (unfold u64; lia).
  destruct (record_roundtrip KindFileClose 1 12345 p (zero_bytes event_size) Hp Hs Ht
    (zero_bytes_length event_size)) as (_ & _ & _ & H4 & H5).
  split; [exact Hp|]. split; [exact H4|exact H5].
Defined.


Lemma undropped_run_is_unbounded_witness :
  drop_count (fire_all kernel_limits two_opens start) = 0%Z ∧
  fire_all kernel_limits two_opens start = fire_all unlimited two_opens start.
Proof.
  assert (Hn : (Z.of_nat (length two_opens) < 2 ^ 62)%Z) by reflexivity.
  assert (Hd : drop_count (fire_all kernel_limits two_opens start) = 0%Z) by (vm_compute; reflexivity).
  split; [exact Hd|]. exact (undropped_run_is_unbounded kernel_limits offsets armed true 7 two_opens Hn Hd).
Defined.

(** PID 99 opens a file while PID 7 is inside its own [openat]. *)
Lemma open_reported_witness :
  let entered := open_enter 7 10 577 "/w/out" :: [open_enter 99 11 0 "/w/in"; open_exit 99 12 5] in
  let st2 := fire_all kernel_limits entered start in
  ∃ record, EVENTS (fire kernel_limits repx_openat_exit (open_exit 7 13 3).2 st2) = EVENTS st2 ++ [record] ∧
    decodes_as record KindFileOpen 0 13 (file_open (mkFileOpen 7 7 3 (-100) 577
      (probe_read_str MAX_PATH_LEN (Some "/w/out")).1 6)).
Proof.
  cbv zeta.
  pose proof (open_reported kernel_limits offsets armed true 7 [] (open_enter 7 10 577 "/w/out").2
    [open_enter 99 11 0 "/w/in"; open_exit 99 12 5] (open_exit 7 13 3).2 [exit 7 20] 4294967196 1000 577 3
    eq_refl ltac:(vm_compute; reflexivity) (kctx_ok _ _ _ _ _ _) (kctx_ok _ _ _ _ _ _) eq_refl) as H.
  specialize (H ltac:(rewrite !Forall_cons; split_and!; [left|left|done]; vm_compute; congruence)).
  destruct (H eq_refl eq_refl eq_refl eq_refl) as (record & Hev & _ & Hdec).
  exists record. split; [exact Hev|exact Hdec].
Defined.

(** ** Whole runs *)

(** PID 7 forks 8, which exits before the [clone] of 7 returns; PID 50, outside
    the tree, then forks a process that is given PID 8. *)
Definition recycled : list (Tracepoint * Ctx) :=
  [fork 7 10 8; exit 8 11; clone_exit 7 12 8; fork 50 15 8; open_enter 8 20 0 "/etc/passwd";
   open_exit 8 21 3].

Example recycled_events :
  (λ r, '(k, s, _) ← summary r; Some (k, s)) <$> EVENTS (fire_all kernel_limits recycled start)
  = [Some (KindProcessFork, 0%Z); Some (KindProcessExit, 0%Z); Some (KindFileOpen, 0%Z)].
Proof. vm_compute. reflexivity. Qed.

Lemma recycled_ok : Forall (λ f, ctx_ok f.2) recycled.
Proof. unfold recycled. rewrite !Forall_cons. split_and!; try apply kctx_ok. done. Qed.

Lemma reports_only_the_tree_witness :
  dom (TRACKED_PIDS (fire_all kernel_limits recycled start)) ⊆ descendants start {[7%Z]} recycled ∧
  length (EVENTS (fire_all kernel_limits recycled start)) = 3.
Proof.
  split; [|vm_compute; reflexivity].
  exact (proj1 (reports_only_the_tree kernel_limits offsets armed true 7 recycled recycled_ok)).
Defined.

Lemma dead_child_retracked_witness :
  is_tracked 8 (fire_all kernel_limits [fork 7 10 8; exit 8 11] start) = false ∧
  is_tracked 8 (fire_all kernel_limits recycled start) = true.
Proof.
  assert (Hne : 8%Z ≠ ctx_tgid (fork 7 10 8).2) by (vm_compute; congruence).
  assert (Hpos : (0 < as_i64 8)%Z) by reflexivity.
  assert (Hafter : Forall (λ f, ¬ thread_exit 8 f)
    [fork 50 15 8; open_enter 8 20 0 "/etc/passwd"; open_exit 8 21 3])
    by (rewrite !Forall_cons; split_and!; [by intros [? _]..|done]).
  exact (proj2 (dead_child_retracked kernel_limits offsets armed true 7 [] (fork 7 10 8).2 [] (exit 8 11).2 []
    (clone_exit 7 12 8).2 [fork 50 15 8; open_enter 8 20 0 "/etc/passwd"; open_exit 8 21 3] 8 8 eq_refl
    ltac:(vm_compute; reflexivity) eq_refl eq_refl eq_refl eq_refl Hne eq_refl eq_refl Hpos eq_refl
    (Forall_nil_2 _) Hafter)).
Defined.

(** ** Renames, from the system call to the trace *)

Definition one_rename : list (Tracepoint * Ctx) :=
  [rename_enter 7 10 0 "/w/a" "/w/b"; rename_exit 7 13 0].
Definition renamed : Kernel := fire_all kernel_limits one_rename start.
Definition no_fds : gmap (ProcessLifetime * Z) (@OpenFileState unit) → list (@OpenFileState unit) :=
  λ fds, (map_to_list fds).*2.

Lemma carried_wa : carried "/w/a".
Proof. split; [done|]. split; [|by split]. apply Nat.ltb_lt. reflexivity. Qed.
Lemma carried_wb : carried "/w/b".
Proof. split; [done|]. split; [|by split]. apply Nat.ltb_lt. reflexivity. Qed.

(** Insertion sort is stable. *)
Fixpoint insert_record (x : RawEvent) (l : list RawEvent) : list RawEvent :=
  match l with
  | [] => [x]
  | y :: l => if (x.1 <=? y.1)%Z then x :: y :: l else y :: insert_record x l
  end.
Definition stable_sort (l : list RawEvent) : list RawEvent := foldr insert_record [] l.

Lemma insert_tie x y l : x.1 = y.1 → ∃ m1 m2, insert_record x (insert_record y l) = m1 ++ x :: y :: m2.
Proof.
  intros Hxy. induction l as [|z l (m1 & m2 & IH)]; simpl.
  - rewrite Hxy, Z.leb_refl. by exists [], [].
  - destruct (y.1 <=? z.1)%Z eqn:Hz; simpl.
    + rewrite Hxy, Z.leb_refl. by exists [], (z :: l).
    + rewrite Hxy, Hz, IH. by exists (z :: m1), m2.
Qed.

Lemma insert_keeps_tie z x y m1 m2 : x.1 = y.1 →
  ∃ n1 n2, insert_record z (m1 ++ x :: y :: m2) = n1 ++ x :: y :: n2.
Proof.
  intros Hxy. induction m1 as [|w m1 (n1 & n2 & IH)]; simpl.
  - rewrite Hxy. destruct (z.1 <=? y.1)%Z eqn:Hz; [by exists [z], m2|]. by exists [], (insert_record z m2).
  - destruct (z.1 <=? w.1)%Z; [by exists (z :: w :: m1), m2|]. rewrite IH. by exists (w :: n1), n2.
Qed.

Lemma stable_sort_keeps_ties : keeps_ties stable_sort.
Proof.
  intros l1 x y l2 Hxy. unfold stable_sort. rewrite foldr_app. simpl.
  destruct (insert_tie x y (foldr insert_record [] l2) Hxy) as (m1 & m2 & ->). revert m1 m2.
  induction l1 as [|z l1 IH]; intros m1 m2; [by exists m1, m2|]. simpl.
  destruct (IH m1 m2) as (n1 & n2 & ->). by apply insert_keeps_tie.
Qed.

(** PID 7 renames, PID 99 closes a file of its own in between; later PID 7 exits. *)
Definition rename_run : list (Tracepoint * Ctx) :=
  [rename_enter 7 10 0 "/w/a" "/w/b"; close_enter 99 11 3; rename_exit 7 13 0; exit 7 20].

Lemma rename_traced_witness :
  ∃ events root lost,
    trace dirs stable_sort moments 7 0 "/home" (Content "root") 0 (EVENTS (fire_all kernel_limits rename_run start))
      = Returns (events, root, lost) ∧
    ∃ process observation, pid (lifetime process) = 7%Z ∧
      FileRename process "/w/a" "/w/b" 0 false observation ∈ events.
Proof.
  assert (∃ r, trace dirs stable_sort moments 7 0 "/home" (Content "root") 0
    (EVENTS (fire_all kernel_limits rename_run start)) = Returns r) as [[[events root] lost] Htrace]
    by (eexists; vm_compute; reflexivity).
  exists events, root, lost. split; [exact Htrace|].
  pose proof (rename_traced kernel_limits offsets armed true 7 [] (rename_enter 7 10 0 "/w/a" "/w/b").2
    [close_enter 99 11 3] (rename_exit 7 13 0).2 [exit 7 20] 4294967196 1000 4294967196 2000 0 0
    "/w/a" "/w/b" dirs stable_sort moments 7 0 "/home" (Content "root") 0 events root lost
    eq_refl ltac:(vm_compute; reflexivity) (kctx_ok _ _ _ _ _ _) (kctx_ok _ _ _ _ _ _) eq_refl) as H.
  specialize (H ltac:(rewrite Forall_cons; split; [left; vm_compute; congruence|done])).
  exact (H eq_refl eq_refl eq_refl eq_refl eq_refl eq_refl ltac:(vm_compute; congruence) eq_refl eq_refl
    carried_wa carried_wb eq_refl eq_refl eq_refl stable_sort_keeps_ties Htrace).
Defined.

(** ** Two sorts by timestamp *)

Definition reverse_sort (l : list RawEvent) : list RawEvent := ts_sort (reverse l).

Lemma reverse_sort_sorts : sorts_by_timestamp reverse_sort.
Proof.
  intros l. destruct (ts_sort_sorts (reverse l)) as [Hp Hs]. split; [|exact Hs].
  unfold reverse_sort. by rewrite Hp, reverse_Permutation.
Qed.

Definition collect (sort : list RawEvent → list RawEvent) (st : Kernel)
    : partial (list TracedEvent * ProcessInstance * Z) :=
  trace dirs sort moments 7 0 "/home" (Content "root") (drop_count st) (EVENTS st).

(** The trace of a rename depends on the sorting algorithm: the two halves of
    a rename carry one timestamp, and the records are sorted by timestamp alone
    with a sort that need not be stable.  From the same kernel run, which
    dropped nothing, one correct sort gives the rename and no loss, and another
    gives no rename and two lost records. *)
Theorem rename_tie_unstable :
  sorts_by_timestamp ts_sort ∧ sorts_by_timestamp reverse_sort ∧ drop_count renamed = 0%Z ∧
  collect reverse_sort renamed
    = Returns ([Exec p7 (Content "root"); Exit p7 0], p7, 2%Z) ∧
  collect ts_sort renamed
    = Returns ([Exec p7 (Content "root"); FileRename p7 "/w/a" "/w/b" 0 false
                  (Content (digest "hello")); Exit p7 0], p7, 0%Z).
Proof.
  split; [exact ts_sort_sorts|]. split; [exact reverse_sort_sorts|]. split_and!; vm_compute; reflexivity.
Qed.

(** ** An open whose path cannot be read *)

(** The string at [1000] is not resident when the call enters. *)
Definition unread_open : list (Tracepoint * Ctx) :=
  [(repx_openat_enter, thread 7 7 10 [(0, -100); (1, 1000); (2, 577)]%Z []); open_exit 7 13 3].

(** An open whose path a probe cannot read is not counted: the record is
    submitted with an empty path, no drop is recorded, and the collector reports
    with no loss an open of the process's working directory that did not
    happen. *)
Theorem unread_open_misreported :
  let st := fire_all kernel_limits unread_open start in
  drop_count st = 0%Z ∧
  collect ts_sort st
    = Returns ([Exec p7 (Content "root");
                FileOpen p7 "/home/" 577 3 false (Content EMPTY_CONTENT_HASH); Exit p7 0], p7, 0%Z).
Proof. split; vm_compute; reflexivity. Qed.

(** ** An anonymous mapping *)

(** The descriptor argument is -1 in 32 bits, with zeros above: the sign test on
    64 bits lets it through, and it is recorded as -1. *)
Definition anonymous_mmap : list (Tracepoint * Ctx) :=
  [(repx_mmap_enter, thread 7 7 10 [(16, 3); (17, 34); (18, 4294967295)]%Z [])].

Lemma anonymous_mmap_reported :
  summary <$> EVENTS (fire_all kernel_limits anonymous_mmap start)
  = [Some (KindFileMmap, 0%Z, file_mmap (mkFileMmap 7 7 (-1) 3 34))].
Proof. vm_compute. reflexivity. Qed.
End EbpfExamples.
