(* ===== verification/EbpfAttach.v ===== *)
(** * Probes, their tracepoints and their offsets

    [trace_command] attaches each probe to an event by name and fills the map of
    field offsets from the format files of events.  The theorems join the two: a
    probe depends on no offset but those of its own event, and after a successful
    setup the probes are attached and those offsets are there. *)
From S2P Require Export Ebpf SetupFacts.

Definition program_name (tp : Tracepoint) : string :=
  match tp with
  | repx_openat_enter => "repx_openat_enter" | repx_openat_exit => "repx_openat_exit"
  | repx_rename_enter => "repx_rename_enter" | repx_renameat_enter => "repx_renameat_enter"
  | repx_renameat2_enter => "repx_renameat2_enter"
  | repx_unlink_enter => "repx_unlink_enter" | repx_unlinkat_enter => "repx_unlinkat_enter"
  | repx_rename_exit => "repx_rename_exit" | repx_renameat_exit => "repx_renameat_exit"
  | repx_renameat2_exit => "repx_renameat2_exit"
  | repx_unlink_exit => "repx_unlink_exit" | repx_unlinkat_exit => "repx_unlinkat_exit"
  | repx_close_enter => "repx_close_enter" | repx_mmap_enter => "repx_mmap_enter"
  | repx_exec => "repx_exec" | repx_fork => "repx_fork"
  | repx_clone_exit => "repx_clone_exit" | repx_clone3_exit => "repx_clone3_exit"
  | repx_exit => "repx_exit"
  end.

(** The category and name of the event that a probe is attached to. *)
Definition attachment (tp : Tracepoint) : option (string * string) :=
  (λ p, (p.1.2, p.2)) <$>
    List.find (λ p, p.1.1 =?= program_name tp) (REQUIRED_PROBES ++ BEST_EFFORT_PROBES).

(** The keys of the specifications of that event. *)
Definition own_keys (tp : Tracepoint) : list Z :=
  spec_key <$> List.filter (λ spec, Some (spec_system spec, spec_event spec) =?= attachment tp)
                 ALL_OFFSET_SPECS.

(** [repx_renameat2_enter] reads four fields at the offsets of another event. *)
Definition borrowed_keys (tp : Tracepoint) : list Z :=
  match tp with repx_renameat2_enter => own_keys repx_renameat_enter | _ => [] end.

Definition best_effort (tp : Tracepoint) : bool :=
  match tp with repx_clone_exit | repx_clone3_exit => true | _ => false end.

Definition with_offsets (x : gmap Z Z) (st : Kernel) : Kernel :=
  mkKernel (EVENTS st) (TRACKED_PIDS st) (ROOT_PID st) (OPENAT_STASH st) (PATH_OP_STASH st)
    (PATH_OP_OLD_PATH st) (PATH_OP_NEW_PATH st) (DROP_COUNT st) x
    (WATCH_MODE st) (WATCHED_PREFIXES st) (WATCHED_FDS st).

(** ** What does not read offsets *)

Section offsets.
Context (lim : Limits) (ctx : Ctx) (o : gmap Z Z).

(** The operation gives the same result under other offsets. *)
Definition blind (f : Kernel → Kernel) : Prop := ∀ st, f (with_offsets o st) = with_offsets o (f st).
Definition blind_pair {A} (f : Kernel → Kernel * A) : Prop :=
  ∀ st, f (with_offsets o st) = (with_offsets o (f st).1, (f st).2).

Lemma record_drop_blind : blind record_drop.
Proof. intros st. unfold record_drop. simpl. by case_match. Qed.
Lemma untrack_blind pid : blind (untrack_pid pid).
Proof. done. Qed.
Lemma track_blind pid : blind (track_pid lim pid).
Proof. intros st. unfold track_pid. simpl. case_match; [done|]. apply record_drop_blind. Qed.
Lemma submit_blind kind source fields values : blind (submit lim ctx kind source fields values).
Proof. intros st. unfold submit. case_match; [apply record_drop_blind|done]. Qed.
Lemma remove_blind key : blind (remove_path_stash key).
Proof. done. Qed.
Lemma insert_blind key stash : blind (insert_path_op lim key stash).
Proof.
  intros st. unfold insert_path_op. simpl. case_match; [done|]. by rewrite record_drop_blind, remove_blind.
Qed.
Lemma old_path_blind ptr : blind_pair (stash_old_path lim ctx ptr).
Proof.
  intros st. unfold stash_old_path. destruct (probe_read_str _ _). simpl.
  case_match; [by rewrite record_drop_blind|]. case_match; [done|]. by rewrite record_drop_blind.
Qed.
Lemma new_path_blind ptr : blind_pair (stash_new_path lim ctx ptr).
Proof.
  intros st. unfold stash_new_path. destruct (probe_read_str _ _). simpl.
  case_match; [by rewrite record_drop_blind|]. case_match; [done|]. by rewrite record_drop_blind.
Qed.
Lemma register_blind tgid fd : blind (register_fd lim tgid fd).
Proof. intros st. unfold register_fd. simpl. case_match; [done|]. apply record_drop_blind. Qed.

Lemma stash_rename_blind d1 p1 d2 p2 flags : blind (stash_rename lim ctx d1 p1 d2 p2 flags).
Proof.
  intros st. unfold stash_rename.
  change (is_tracked (ctx_tgid ctx) (with_offsets o st)) with (is_tracked (ctx_tgid ctx) st).
  change (watch_enabled (with_offsets o st)) with (watch_enabled st).
  case_match; [done|]. rewrite old_path_blind. destruct (stash_old_path lim ctx p1 st) as [s1 l1]. simpl.
  rewrite new_path_blind. destruct (stash_new_path lim ctx p2 s1) as [s2 l2]. simpl.
  case_match; [apply remove_blind|]. case_match; [|by rewrite record_drop_blind, remove_blind].
  case_match; [|by rewrite record_drop_blind, remove_blind].
  change (matches_watched_prefix (with_offsets o s2)) with (matches_watched_prefix s2).
  case_match; [apply remove_blind|apply insert_blind].
Qed.

Lemma stash_unlink_blind d1 p1 flags : blind (stash_unlink lim ctx d1 p1 flags).
Proof.
  intros st. unfold stash_unlink.
  change (is_tracked (ctx_tgid ctx) (with_offsets o st)) with (is_tracked (ctx_tgid ctx) st).
  change (watch_enabled (with_offsets o st)) with (watch_enabled st).
  case_match; [done|]. rewrite old_path_blind. destruct (stash_old_path lim ctx p1 st) as [s1 l1]. simpl.
  case_match; [apply remove_blind|]. case_match; [|by rewrite record_drop_blind, remove_blind].
  change (matches_watched_prefix (with_offsets o s1)) with (matches_watched_prefix s1).
  case_match; [apply remove_blind|apply insert_blind].
Qed.

(** Reading a field whose offset is the same. *)
Lemma with_field_blind st key size (k k' : Z → Kernel) :
  o !! key = TRACEPOINT_OFFSETS st !! key → (∀ x, k' x = with_offsets o (k x)) →
  with_field ctx (with_offsets o st) key size k' = with_offsets o (with_field ctx st key size k).
Proof.
  intros Hkey Hk. unfold with_field, read_field. simpl. rewrite Hkey. case_match; [|done]. apply Hk.
Qed.
End offsets.

(** ** What a probe reads *)

Lemma track_pid_offsets lim pid st : TRACEPOINT_OFFSETS (track_pid lim pid st) = TRACEPOINT_OFFSETS st.
Proof. unfold track_pid, record_drop. by repeat case_match. Qed.

Section fire.
Context (lim : Limits) (ctx : Ctx) (o : gmap Z Z).

Ltac own_key Hkeys := apply Hkeys, (bool_decide_unpack _); vm_compute; exact I.
Ltac own_fields Hkeys := repeat (apply with_field_blind; [own_key Hkeys|intros ?]).

Lemma path_op_exit_blind key st : o !! key = TRACEPOINT_OFFSETS st !! key →
  try_path_op_exit lim key ctx (with_offsets o st) = with_offsets o (try_path_op_exit lim key ctx st).
Proof.
  intros Hkey. unfold try_path_op_exit. simpl. case_match; [|done]. cbv zeta.
  apply with_field_blind; [done|]. intros ret. case_match; [done|]. unfold emit_path_event.
  destruct (_ =?= PATH_OP_RENAME).
  - destruct (PATH_OP_OLD_PATH st !! pid_tgid ctx); [|by rewrite record_drop_blind]. rewrite submit_blind.
    match goal with |- context [PATH_OP_NEW_PATH (with_offsets o ?s)] =>
      change (PATH_OP_NEW_PATH (with_offsets o s)) with (PATH_OP_NEW_PATH s) end.
    destruct (PATH_OP_NEW_PATH _ !! _); [by rewrite !submit_blind|by rewrite submit_blind, record_drop_blind].
  - destruct (_ =?= PATH_OP_UNLINK); [|done].
    destruct (PATH_OP_OLD_PATH st !! pid_tgid ctx); [by rewrite submit_blind|by rewrite record_drop_blind].
Qed.

Lemma clone_exit_blind key st : o !! key = TRACEPOINT_OFFSETS st !! key →
  try_clone_exit lim key ctx (with_offsets o st) = with_offsets o (try_clone_exit lim key ctx st).
Proof.
  intros Hkey. unfold try_clone_exit. apply with_field_blind; [done|]. intros ret.
  change (is_tracked (ctx_tgid ctx) (with_offsets o st)) with (is_tracked (ctx_tgid ctx) st).
  case_match; [done|]. case_match; [done|]. apply track_blind.
Qed.

(** The offsets that the probe reads are those of the state. *)
Definition same_keys (tp : Tracepoint) (st : Kernel) : Prop :=
  ∀ k, k ∈ own_keys tp ++ borrowed_keys tp → o !! k = TRACEPOINT_OFFSETS st !! k.

Lemma openat_enter_blind st : same_keys repx_openat_enter st →
  try_openat_enter lim ctx (with_offsets o st) = with_offsets o (try_openat_enter lim ctx st).
Proof.
  intros Hkeys. unfold try_openat_enter. cbv zeta. own_fields Hkeys. destruct (probe_read_str _ _).
  change (is_tracked (ctx_tgid ctx) (with_offsets o st)) with (is_tracked (ctx_tgid ctx) st).
  change (watch_enabled (with_offsets o st)) with (watch_enabled st).
  change (matches_watched_prefix (with_offsets o st)) with (matches_watched_prefix st).
  case_match; [done|]. simpl. case_match; [done|]. apply record_drop_blind.
Qed.

Lemma openat_exit_blind st : same_keys repx_openat_exit st →
  try_openat_exit lim ctx (with_offsets o st) = with_offsets o (try_openat_exit lim ctx st).
Proof.
  intros Hkeys. unfold try_openat_exit. simpl. case_match; [|done]. cbv zeta.
  change (with_openat (delete (pid_tgid ctx) (OPENAT_STASH st)) (with_offsets o st))
    with (with_offsets o (with_openat (delete (pid_tgid ctx) (OPENAT_STASH st)) st)).
  own_fields Hkeys. case_match; [done|].
  destruct (_ =?= 1%Z); rewrite submit_blind; [apply register_blind|done].
Qed.

Lemma mmap_enter_blind st : same_keys repx_mmap_enter st →
  try_mmap_enter lim ctx (with_offsets o st) = with_offsets o (try_mmap_enter lim ctx st).
Proof.
  intros Hkeys. unfold try_mmap_enter. own_fields Hkeys. cbv zeta. case_match; [done|].
  change (is_tracked (ctx_tgid ctx) (with_offsets o st)) with (is_tracked (ctx_tgid ctx) st).
  change (WATCHED_FDS (with_offsets o st)) with (WATCHED_FDS st).
  case_match; [apply submit_blind|]. case_match; [apply submit_blind|done].
Qed.

Lemma exec_blind st : same_keys repx_exec st →
  try_exec lim ctx (with_offsets o st) = with_offsets o (try_exec lim ctx st).
Proof.
  intros Hkeys. unfold try_exec. cbv zeta. change (ROOT_PID (with_offsets o st)) with (ROOT_PID st).
  assert (Hoff : ∀ r : option Z, TRACEPOINT_OFFSETS (match r with
    Some _ => track_pid lim (ctx_tgid ctx) st | None => st end) = TRACEPOINT_OFFSETS st)
    by (intros []; [apply track_pid_offsets|done]).
  assert (Htrack : ∀ r : option Z, match r with Some _ => track_pid lim (ctx_tgid ctx) (with_offsets o st)
      | None => with_offsets o st end
    = with_offsets o (match r with Some _ => track_pid lim (ctx_tgid ctx) st | None => st end))
    by (intros []; [apply track_blind|done]).
  rewrite Htrack. specialize (Hoff (ROOT_PID st !! ctx_tgid ctx)).
  set (s := match ROOT_PID st !! _ with Some _ => _ | None => _ end) in *. clearbody s.
  change (is_tracked (ctx_tgid ctx) (with_offsets o s)) with (is_tracked (ctx_tgid ctx) s).
  case_match; [done|]. unfold same_keys in Hkeys; rewrite <- Hoff in Hkeys. own_fields Hkeys.
  destruct (probe_read_str _ _). apply submit_blind.
Qed.

(** A probe depends on the offsets of its own event only, but for
    [repx_renameat2_enter]. *)
Lemma fire_blind tp st :
  same_keys tp st →
  fire lim tp ctx (with_offsets o st) = with_offsets o (fire lim tp ctx st).
Proof.
  intros Hkeys. destruct tp; cbn [fire].
  - by apply openat_enter_blind.
  - by apply openat_exit_blind.
  - unfold try_rename_enter. own_fields Hkeys. apply stash_rename_blind.
  - unfold try_renameat_enter. own_fields Hkeys. apply stash_rename_blind.
  - unfold try_renameat2_enter. own_fields Hkeys. apply stash_rename_blind.
  - unfold try_unlink_enter. own_fields Hkeys. apply stash_unlink_blind.
  - unfold try_unlinkat_enter. own_fields Hkeys. apply stash_unlink_blind.
  - apply path_op_exit_blind. own_key Hkeys.
  - apply path_op_exit_blind. own_key Hkeys.
  - apply path_op_exit_blind. own_key Hkeys.
  - apply path_op_exit_blind. own_key Hkeys.
  - apply path_op_exit_blind. own_key Hkeys.
  - unfold try_close_enter. own_fields Hkeys. cbv zeta.
    change (is_tracked (ctx_tgid ctx) (with_offsets o st)) with (is_tracked (ctx_tgid ctx) st).
    change (WATCHED_FDS (with_offsets o st)) with (WATCHED_FDS st).
    case_match; [apply submit_blind|]. case_match; [|done].
    by rewrite <- submit_blind.
  - by apply mmap_enter_blind.
  - by apply exec_blind.
  - unfold try_fork. cbv zeta. own_fields Hkeys.
    change (is_tracked (ctx_tgid ctx) (with_offsets o st)) with (is_tracked (ctx_tgid ctx) st).
    case_match; [done|]. by rewrite submit_blind, track_blind.
  - apply clone_exit_blind. own_key Hkeys.
  - apply clone_exit_blind. own_key Hkeys.
  - unfold try_exit. cbv zeta.
    change (is_tracked (ctx_tgid ctx) (with_offsets o st)) with (is_tracked (ctx_tgid ctx) st).
    case_match; [done|]. case_match; [apply untrack_blind|]. by rewrite submit_blind, untrack_blind.
Qed.
End fire.

(** ** Setup and probes together *)

Lemma required_attachment tp : best_effort tp = false →
  ∃ category event, attachment tp = Some (category, event) ∧
    (program_name tp, category, event) ∈ REQUIRED_PROBES.
Proof.
  intros Htp. destruct tp; try discriminate Htp; eexists _, _;
    (split; [reflexivity|apply (bool_decide_unpack _); vm_compute; exact I]).
Qed.

Lemma read_keys_required tp k : best_effort tp = false → k ∈ own_keys tp ++ borrowed_keys tp →
  (0 ≤ k < MAX_OFFSET_KEY)%Z ∧ k ≠ CLONE_EXIT_RET ∧ k ≠ CLONE3_EXIT_RET.
Proof.
  intros Htp. assert (Hall : Forall (λ k, (0 ≤ k < MAX_OFFSET_KEY)%Z ∧ k ≠ CLONE_EXIT_RET ∧ k ≠ CLONE3_EXIT_RET)
    (own_keys tp ++ borrowed_keys tp))
    by (destruct tp; try discriminate Htp; apply (bool_decide_unpack _); vm_compute; exact I).
  rewrite Forall_forall in Hall. apply Hall.
Qed.

(** C20. The probes are ready when the child is resumed.  After a successful setup
    every probe but the two best-effort ones is attached to its event; the offset
    of every field that it reads is in the map, found in the format files or taken
    from the fallback; and no other offset influences what it does. *)
Theorem probes_ready {Handle} (m : Machine Handle) dirs prefixes offsets attached watched tp :
  set_up m dirs = Returns (Ok (prefixes, offsets, attached, watched)) → best_effort tp = false →
  (∃ category event, attachment tp = Some (category, event) ∧
     m_attach m (program_name tp) category event = Attached) ∧
  (∀ k, k ∈ own_keys tp ++ borrowed_keys tp → is_Some (offsets !! k)) ∧
  ∀ lim ctx st o, (∀ k, k ∈ own_keys tp ++ borrowed_keys tp → o !! k = offsets !! k) →
    TRACEPOINT_OFFSETS st = offsets →
    fire lim tp ctx (with_offsets o st) = with_offsets o (fire lim tp ctx st).
Proof.
  intros (_ & Hd & Hatt & _ & _)%set_up_Ok Htp. split; [|split].
  - destruct (required_attachment tp Htp) as (category & event & Ha & Hin).
    exists category, event. split; [done|]. rewrite Forall_forall in Hatt. exact (Hatt _ Hin).
  - intros k Hk. apply (read_keys_required tp k Htp) in Hk as (Hr & H1 & H2).
    by destruct (discover_fail_closed _ _ _ _ Hd) as (_ & Hall & _); apply Hall.
  - intros lim ctx st o Ho <-. by apply fire_blind.
Qed.

(** [renameat2] has a format file of its own, of which only the flags are read:
    without the offsets of [renameat] the probe records nothing and counts
    nothing. *)
Theorem renameat2_borrows lim ctx st : TRACEPOINT_OFFSETS st !! RENAMEAT_ENTER_OLD_DFD = None →
  fire lim repx_renameat2_enter ctx st = st.
Proof.
  intros Hk. cbn [fire]. unfold try_renameat2_enter, with_field, read_field. by rewrite Hk.
Qed.

Module AttachExamples.
Export SetupExamples.

(** A setup, and the probe of [openat] with only its own offsets. *)
Lemma probes_ready_witness :
  ∃ prefixes offsets attached watched,
    set_up machine watch = Returns (Ok (prefixes, offsets, attached, watched)) ∧
    attached = ["repx_clone_exit"] ∧ (∀ k, k ∈ own_keys repx_openat_enter → is_Some (offsets !! k)).
Proof.
  destruct (set_up machine watch) as [[[[[prefixes offsets] attached] watched]|e]|] eqn:Hs;
    [|vm_compute in Hs; discriminate Hs..].
  exists prefixes, offsets, attached, watched. split; [reflexivity|]. split.
  - vm_compute in Hs. injection Hs as _ _ <- _. reflexivity.
  - destruct (probes_ready machine watch _ _ _ _ repx_openat_enter Hs eq_refl) as (_ & Hk & _).
    intros k Hin. apply Hk, elem_of_app. by left.
Defined.
End AttachExamples.
