(* ===== verification/Cli.v ===== *)
(** * The command line ([repx/src/main.rs])

    One definition per arm of [main], in the monad [cli]: the files the program
    reads and writes, the log of what it prints and writes, and how it ends.
    What the outside world answers to one invocation is a [World]: the two
    snapshots, the traced run, the current directory and which paths can be
    written.  Printing succeeds; [clap] has parsed the arguments. *)
From S2P Require Export ReportFacts Canonicalize Slice Setup Stability Dsse.

(** ** How a command ends *)

Inductive CliError :=
  | NoWorkspace | SnapshotFailed
  | TraceFailed (e : TraceError) | SelectFailed (e : SelectError)
  | WriteFailed (path : string) | DocumentRejected (e : ReadError)
  | PinnedRootDiffers (pinned root : string) | CommandDiffers
  | SelectionNotRepeated | SelectionDiffers
  | TooFewAttestations
  | KeyFileExists (path : string) | RestrictFailed (path : string) | KeyUnreadable | KeyRejected (e : KeyError)
  | EnvelopeUnreadable | EnvelopeMalformed | SignatureRejected (e : VerifyError)
  | PayloadMalformed | PayloadInvalid (e : ValidateError)
  | TooFewRuns (runs : nat) | RunDropped (run : nat) (events : Z).

(** A value; [exit(1)]; an [Err] that [main] returns; a panic.  [NoFuel] is not an
    outcome of the program: the fuel of a walk or of a polling loop was too small. *)
Inductive ended (A : Type) :=
  | Value (a : A) | ExitOne | Bail (e : CliError) | Aborted | NoFuel.
Arguments Value {A} a.
Arguments ExitOne {A}.
Arguments Bail {A} e.
Arguments Aborted {A}.
Arguments NoFuel {A}.

#[export] Instance ended_ret : MRet ended := λ A a, Value a.
#[export] Instance ended_bind : MBind ended := λ A B f x,
  match x with
  | Value a => f a | ExitOne => ExitOne | Bail e => Bail e | Aborted => Aborted | NoFuel => NoFuel
  end.

Definition of_walked {A} (x : walked A) : ended A :=
  match x with
  | Walked a => Value a | WalkError => Bail SnapshotFailed | WalkPanic => Aborted | WalkFuel => NoFuel
  end.
Definition of_result {E A} (wrap : E → CliError) (x : result E A) : ended A :=
  match x with Ok a => Value a | Err e => Bail (wrap e) end.
Definition of_traced {A} (x : result TraceError A) : ended A :=
  match x with
  | Ok a => Value a
  | Err OutOfFuel => NoFuel
  | Err e => Bail (TraceFailed e)
  end.
Definition of_partial {A} (x : partial A) : ended A :=
  match x with Returns a => Value a | Panics => Aborted end.

Lemma ended_bind_Value {A B} (f : A → ended B) x b :
  x ≫= f = Value b ↔ ∃ a, x = Value a ∧ f a = Value b.
Proof. destruct x; simpl; naive_solver. Qed.

(** ** What is printed and written *)

Section effects.
Context `{F64}.

(** The lines of the harness report. *)
Inductive HarnessLine :=
  | Banner (runs : nat) | HarnessCommand (text : string)
  | HarnessOutputRoots (paths : list string) | HarnessArtifacts (paths : list string)
  | RunStarted (run runs : nat) | RunWarning (events : Z) | RunFailed (events : Z)
  | RunRoot (short_root : string) (leaf_count : nat)
  | Summary (line : StabilityLine)
  | MismatchesHeader | DifferentRoots (different runs : nat) | AllIdentical (runs : nat)
  | TotalDropped (runs : nat) (events : Z).

Inductive Message :=
  | DroppedWarning (events : Z) | DroppedFailure (events : Z)
  | AttestationRoot (hash : string) | WrittenTo (path : string) | WorkspaceOutputs (n : nat)
  | Verified (hash : string) | Mismatch (expected actual : string)
  | Lines (lines : list Line)
  | StabilityJson (report : StabilityReport) | StabilityText (lines : list StabilityLine)
  | HarnessOut (report_path : option string) (line : HarnessLine)
  | ReportWritten (path : string)
  | KeysGenerated (private_key public_key : string)
  | EnvelopeWritten (path : string) | EnvelopeText (json : string)
  | SignatureVerified (key predicate root command : string).

Inductive Action :=
  | Printed (m : Message)
  | Wrote (path contents : string)
  | Restricted (path : string).

Record CliState := mkCli { files : gmap string string; actions : list Action }.

Definition cli (A : Type) : Type := CliState → CliState * ended A.

#[export] Instance cli_ret : MRet cli := λ A a st, (st, Value a).
#[export] Instance cli_bind : MBind cli := λ A B f m st,
  match m st with
  | (st, Value a) => f a st
  | (st, ExitOne) => (st, ExitOne)
  | (st, Bail e) => (st, Bail e)
  | (st, Aborted) => (st, Aborted)
  | (st, NoFuel) => (st, NoFuel)
  end.

Definition lift {A} (x : ended A) : cli A := λ st, (st, x).
Definition act (a : Action) : cli unit :=
  λ st, (mkCli (files st) (actions st ++ [a]), Value ()).
Definition say (m : Message) : cli unit := act (Printed m).
Definition read_file (path : string) : cli (option string) := λ st, (st, Value (files st !! path)).

(** [fs::write]: creates or replaces the file. *)
Definition write_file (writable : string → bool) (path contents : string) : cli unit :=
  λ st,
    if writable path
    then (mkCli (<[path := contents]> (files st)) (actions st ++ [Wrote path contents]), Value ())
    else (st, Bail (WriteFailed path)).

(** [set_mode(0o600)] on a file that exists. *)
Definition restrict_file (chmod : string → bool) (path : string) : cli unit :=
  λ st, if chmod path then act (Restricted path) st else (st, Bail (RestrictFailed path)).
End effects.

(** ** Serialisers of the crate [serde_json] *)

Class OpsJson := { ops_to_json : list CanonicalOp → string }.
Class AttestationVec := { attestation_to_vec : Attestation → string }.
(** The compact text of a document parses as its indented text does. *)
Class AttestationVecLaws `{AttestationVec} `{AttestationJson} : Prop := {
  attestation_vec_roundtrip att : attestation_of_json (attestation_to_vec att) = Some (without_nodes att)
}.
Class EnvelopeJson := {
  envelope_to_json : Envelope → string;
  envelope_of_json : string → option Envelope
}.
Class EnvelopeJsonLaws `{EnvelopeJson} : Prop := {
  (** Trailing white space is skipped. *)
  envelope_json_roundtrip e : envelope_of_json (envelope_to_json e +:+ String "010" "") = Some e
}.

(** ** The world of one invocation *)

Record World (Handle : Type) := mkWorld {
  w_current_dir : option string;
  w_before : WalkFs;
  w_machine : Machine Handle;
  w_after : WalkFs;
  w_canonicalize : string → option string;
  w_writable : string → bool;
  w_chmod : string → bool;
  w_exists : string → bool
}.
Arguments w_current_dir {Handle}. Arguments w_before {Handle}. Arguments w_machine {Handle}.
Arguments w_after {Handle}. Arguments w_canonicalize {Handle}. Arguments w_writable {Handle}.
Arguments w_exists {Handle}. Arguments w_chmod {Handle}.

(** What one traced run gives: the events with the root process, the number of
    events lost, and the selected outputs. *)
Record Observed := mkObserved {
  ob_events : list TracedEvent;
  ob_root : ProcessInstance;
  ob_dropped : Z;
  ob_selected : SelectedOutputs
}.

Section commands.
Context `{Sha256} `{CommitmentJson} `{AttestationJson} `{AttestationVec} `{OpsJson}.
Context `{Base64} `{Hex} `{Ed25519} `{EnvelopeJson} `{F64} `{hash_order : HashOrder} {Handle : Type}.
(** The fuel of the walks and of the polling loops, and the sort of the collector. *)
Context (fuel : nat) (sort : list RawEvent → list RawEvent) (w : World Handle).

(** ** The steps that [trace] and [verify] share *)

(** Snapshot, traced run, snapshot, selection. *)
Definition observe (workspace_root : string)
    (command watch_dirs artifact_paths root_paths : list string) : ended Observed :=
  before ← of_walked (@snapshot (w_before w) fuel workspace_root);
  traced ← of_partial (trace_command (w_machine w) fuel sort command watch_dirs);
  '(events, root_process, dropped_events) ← of_traced traced;
  after ← of_walked (@snapshot (w_after w) fuel workspace_root);
  selected_outputs ← of_result SelectFailed
    (select_outputs before after workspace_root artifact_paths root_paths);
  Value (mkObserved events root_process dropped_events selected_outputs).

(** [fs::canonicalize(dir).unwrap_or_else(|_| dir.clone())], of each directory. *)
Definition cli_watch_prefixes (watch_dirs : list string) : list string :=
  (λ dir, default dir (w_canonicalize w dir)) <$> watch_dirs.

Definition canonical_operations (prefixes : list string) (o : Observed) : list CanonicalOp :=
  let outputs := selected (ob_selected o) in
  if bool_decide (outputs = []) then canonicalize_events (ob_root o) prefixes (ob_events o)
  else canonicalize_output_slice (ob_events o) (ob_root o) outputs.

Definition document (workspace_root : string) (command artifact_paths root_paths : list string)
    (canonical : list CanonicalOp) (o : Observed) : Attestation :=
  new_with_outputs (build_merkle_tree canonical) command
    (output_selection_metadata (selected_mode (ob_selected o)) workspace_root artifact_paths root_paths)
    (attested_outputs_metadata workspace_root (selected (ob_selected o))).

(** [validate_output_selection]. *)
Definition validate_output_selection (expected : Attestation) (workspace_root : string)
    (artifact_paths root_paths : list string) : ended unit :=
  let no_flags := bool_decide (artifact_paths = []) && bool_decide (root_paths = []) in
  if (mode (output_selection expected) =?= "explicit") && no_flags then Bail SelectionNotRepeated
  else
    let output_mode := if no_flags then Inferred else Explicit in
    if output_selection_metadata output_mode workspace_root artifact_paths root_paths
         =?= output_selection expected
    then Value () else Bail SelectionDiffers.

(** ** [repx trace] *)

Definition trace_arm (output : string) (dump_ops : option string) (watch_dirs artifact_paths
    root_paths : list string) (allow_dropped_events : bool) (command : list string) : cli unit :=
  workspace_root ← lift (match w_current_dir w with Some d => Value d | None => Bail NoWorkspace end);
  o ← lift (observe workspace_root command watch_dirs artifact_paths root_paths);
  let prefixes := cli_watch_prefixes watch_dirs in
  _ ← (if (0 <? ob_dropped o)%Z then
         if allow_dropped_events then say (DroppedWarning (ob_dropped o))
         else _ ← say (DroppedFailure (ob_dropped o)); lift ExitOne
       else mret ());
  let canonical := canonical_operations prefixes o in
  _ ← match dump_ops with
      | Some path => write_file (w_writable w) path (ops_to_json canonical)
      | None => mret ()
      end;
  let att := document workspace_root command artifact_paths root_paths canonical o in
  _ ← write_file (w_writable w) output (write_to_file att);
  _ ← say (AttestationRoot (root_hash att));
  _ ← say (WrittenTo output);
  let outputs := selected (ob_selected o) in
  if bool_decide (outputs = []) then mret () else say (WorkspaceOutputs (length outputs)).

(** ** [repx verify] *)

Definition read_document (path : string) : cli Attestation :=
  data ← read_file path;
  lift (of_result DocumentRejected (read_from_file data)).

Definition verify_arm (attestation : string) (expected_root : option string)
    (watch_dirs artifact_paths root_paths command : list string) : cli unit :=
  expected ← read_document attestation;
  _ ← lift match expected_root with
           | Some pinned_root =>
               if root_hash expected =?= pinned_root then Value ()
               else Bail (PinnedRootDiffers pinned_root (root_hash expected))
           | None => Value ()
           end;
  _ ← lift (if Attestation.command expected =?= command then Value () else Bail CommandDiffers);
  workspace_root ← lift (match w_current_dir w with Some d => Value d | None => Bail NoWorkspace end);
  _ ← lift (validate_output_selection expected workspace_root artifact_paths root_paths);
  o ← lift (observe workspace_root command watch_dirs artifact_paths root_paths);
  let prefixes := cli_watch_prefixes watch_dirs in
  _ ← (if (0 <? ob_dropped o)%Z then _ ← say (DroppedFailure (ob_dropped o)); lift ExitOne
       else mret ());
  let actual := document workspace_root command artifact_paths root_paths
                  (canonical_operations prefixes o) o in
  if root_hash expected =?= root_hash actual then say (Verified (root_hash actual))
  else
    _ ← say (Mismatch (root_hash expected) (root_hash actual));
    _ ← say (Lines (print_attestation_diff expected actual));
    lift ExitOne.

(** ** [repx explain], [diff] and [stability] *)

Definition explain_arm (attestation : string) : cli unit :=
  att ← read_document attestation;
  say (Lines (explain_attestation att)).

Definition diff_arm (expected actual : string) : cli unit :=
  expected ← read_document expected;
  actual ← read_document actual;
  _ ← say (Lines (print_attestation_diff expected actual));
  if root_hash expected =?= root_hash actual then mret () else lift ExitOne.

(** The documents with their paths; the first failure ends the collection. *)
Fixpoint read_documents (paths : list string) : cli (list (string * Attestation)) :=
  match paths with
  | [] => mret []
  | path :: paths =>
      att ← read_document path;
      rest ← read_documents paths;
      mret ((path, att) :: rest)
  end.

Definition stability_arm (attestations : list string) (json strict : bool) : cli unit :=
  inputs ← read_documents attestations;
  report ← lift (match analyze inputs with Some r => Value r | None => Bail TooFewAttestations end);
  _ ← say (if json then StabilityJson report else StabilityText (print_human report));
  if strict && negb (root_matches report =?= run_count report) then lift ExitOne else mret ().

(** ** [repx generate-key], [sign] and [verify-signature] *)

(** [key] is the pair [dsse::generate_key_pair] draws. *)
Definition generate_key_arm (private_key public_key : string) (key : SigningKey) : cli unit :=
  _ ← lift (if w_exists w private_key then Bail (KeyFileExists private_key) else Value ());
  _ ← lift (if w_exists w public_key then Bail (KeyFileExists public_key) else Value ());
  _ ← write_file (w_writable w) private_key (write_signing_key key);
  _ ← restrict_file (w_chmod w) private_key;
  _ ← write_file (w_writable w) public_key (write_verifying_key (verifying_key key));
  say (KeysGenerated private_key public_key).

Definition read_key {A} (parse : string → result KeyError A) (path : string) : cli A :=
  data ← read_file path;
  lift match data with
       | None => Bail KeyUnreadable
       | Some hex => of_result KeyRejected (parse hex)
       end.

Definition sign_arm (key attestation : string) (output : option string) : cli unit :=
  signing_key ← read_key parse_signing_key key;
  att ← read_document attestation;
  let payload := attestation_to_vec att in
  let envelope := sign payload (predicate_type att) signing_key in
  let envelope_json := envelope_to_json envelope in
  match output with
  | Some path =>
      _ ← write_file (w_writable w) path (envelope_json +:+ String "010" "");
      say (EnvelopeWritten path)
  | None => say (EnvelopeText envelope_json)
  end.

Definition verify_signature_arm (key envelope : string) : cli unit :=
  vk ← read_key parse_verifying_key key;
  data ← read_file envelope;
  env ← lift match data with
             | None => Bail EnvelopeUnreadable
             | Some data =>
                 match envelope_of_json data with
                 | Some env => Value env
                 | None => Bail EnvelopeMalformed
                 end
             end;
  payload ← lift (of_result SignatureRejected (verify env vk));
  att ← lift match attestation_of_json payload with
             | Some att => Value att
             | None => Bail PayloadMalformed
             end;
  att ← lift match validate att with
             | (att, Ok _) => Value att
             | (_, Err e) => Bail (PayloadInvalid e)
             end;
  say (SignatureVerified key (predicate_type att) (root_hash att)
         (format_command (Attestation.command att))).
End commands.
