(* ===== verification/CliFacts.v ===== *)
(** * What the commands guarantee

    [trace] writes a complete document or none; [verify] accepts exactly when a
    complete run under the same policy has the root of the document read, so it
    binds the outputs and it accepts a reproduced build; a signature verifies
    the document that was signed. *)
From S2P Require Export Cli.

(** ** Sequencing *)

Section sequencing.
Context `{F64}.

Lemma cli_bind_Value {A B} (m : cli A) (f : A → cli B) st st' b :
  (m ≫= f) st = (st', Value b) ↔ ∃ st1 a, m st = (st1, Value a) ∧ f a st1 = (st', Value b).
Proof.
  unfold mbind, cli_bind. destruct (m st) as [st1 [a| |e| |]]; split; try done.
  - eauto.
  - by intros (? & ? & [= <- <-] & ?).
  - by intros (? & ? & ? & _).
  - by intros (? & ? & ? & _).
  - by intros (? & ? & ? & _).
  - by intros (? & ? & ? & _).
Qed.

Lemma lift_Value {A} (x : ended A) st st' a : lift x st = (st', Value a) ↔ st' = st ∧ x = Value a.
Proof. unfold lift. split; [by intros [= <- ->]|by intros [-> ->]]. Qed.

Lemma cli_bind_run {A B} (m : cli A) (f : A → cli B) st st1 a :
  m st = (st1, Value a) → (m ≫= f) st = f a st1.
Proof. unfold mbind, cli_bind. by intros ->. Qed.
End sequencing.

Section facts.
Context `{Sha256} `{CommitmentJson} `{AttestationJson} `{AttestationVec} `{OpsJson}.
Context `{Base64} `{Hex} `{Ed25519} `{EnvelopeJson} `{F64} `{hash_order : HashOrder} {Handle : Type}.
Context (fuel : nat) (sort : list RawEvent → list RawEvent) (w : World Handle).

Lemma read_from_file_valid data att : read_from_file data = Ok att → validate att = (att, Ok ()).
Proof.
  unfold read_from_file. destruct data as [data|]; [|done]. destruct (attestation_of_json data) as [a|]; [|done].
  destruct (validate a) as [a' [[]|e]] eqn:Hv; [|done]. intros [= <-].
  by eapply validate_idempotent.
Qed.

Lemma read_document_Value path st st' att :
  read_document path st = (st', Value att) ↔ st' = st ∧ read_from_file (files st !! path) = Ok att.
Proof.
  unfold read_document. rewrite (cli_bind_run _ _ st st (files st !! path)) by done.
  rewrite lift_Value. unfold of_result. destruct (read_from_file _); naive_solver.
Qed.

(** The metadata of a policy is sorted already. *)
Lemma selection_sorted output_mode root artifact_paths root_paths :
  let sel := output_selection_metadata output_mode root artifact_paths root_paths in
  mkSelection (mode sel) (sort_strings (artifacts sel)) (sort_strings (output_roots sel)) = sel.
Proof. unfold output_selection_metadata. cbn [mode artifacts output_roots]. by rewrite !sort_strings_idemp. Qed.

(** The policy check compares what a new run would record. *)
Lemma validate_output_selection_Value expected root artifact_paths root_paths :
  validate_output_selection expected root artifact_paths root_paths = Value () ↔
  output_selection expected =
    output_selection_metadata
      (if bool_decide (artifact_paths = []) && bool_decide (root_paths = []) then Inferred else Explicit)
      root artifact_paths root_paths.
Proof.
  unfold validate_output_selection. cbv zeta.
  generalize (bool_decide (artifact_paths = []) && bool_decide (root_paths = [])) as no_flags. intros no_flags.
  set (requested := output_selection_metadata _ _ _ _).
  destruct (decide (requested = output_selection expected)) as [<-|Hne].
  - rewrite (bool_decide_true (requested = requested)) by done.
    assert (Hm : (mode requested =?= "explicit") && no_flags = false) by (unfold requested; destruct no_flags; [reflexivity|apply andb_false_r]).
    rewrite Hm. by split.
  - rewrite (bool_decide_false (requested = _)) by done. split; [by case_match|congruence].
Qed.

(** The mode that a selection records is the one its flags ask for. *)
Lemma observe_mode root command watch_dirs artifact_paths root_paths o :
  observe fuel sort w root command watch_dirs artifact_paths root_paths = Value o →
  selected_mode (ob_selected o) =
    if bool_decide (artifact_paths = []) && bool_decide (root_paths = []) then Inferred else Explicit.
Proof.
  unfold observe. intros Ho. apply ended_bind_Value in Ho as (before & _ & Ho).
  apply ended_bind_Value in Ho as (traced & _ & Ho).
  apply ended_bind_Value in Ho as ([[events rp] lost] & _ & Ho).
  apply ended_bind_Value in Ho as (after & _ & Ho).
  apply ended_bind_Value in Ho as (sel & Hsel & Ho). injection Ho as <-. simpl.
  unfold select_outputs in Hsel. destruct (_ && _); [by injection Hsel as <-|].
  cbv zeta in Hsel. destruct (select_artifacts _ _ _ _); simpl in Hsel; [|done]. by injection Hsel as <-.
Qed.

(** ** [trace] *)

Lemma current_dir_Value root :
  match w_current_dir w with Some d => Value d | None => Bail NoWorkspace end = Value root ↔
  w_current_dir w = Some root.
Proof. destruct (w_current_dir w); naive_solver. Qed.

Lemma say_Value m st : say m st = (mkCli (files st) (actions st ++ [Printed m]), Value ()).
Proof. done. Qed.

Lemma write_file_Value writable path contents st st' :
  write_file writable path contents st = (st', Value ()) →
  files st' = <[path := contents]> (files st).
Proof. unfold write_file. case_match; [|done]. by intros [= <-]. Qed.

(** The step that refuses a lossy trace. *)
Lemma dropped_step_Value (lost : Z) (allow : bool) st st' :
  (if (0 <? lost)%Z then
     if allow then say (DroppedWarning lost) else _ ← say (DroppedFailure lost); lift ExitOne
   else mret ()) st = (st', Value ()) →
  files st' = files st ∧ ((0 < lost)%Z → allow = true).
Proof.
  destruct (Z.ltb_spec 0 lost); [destruct allow|]; [by intros [= <-]|done|]. intros [= <-].
  split; [done|lia].
Qed.

Lemma trace_writes `{!AttestationJsonLaws} output dump_ops watch_dirs artifact_paths root_paths
    allow command st :
  let '(st', e) := trace_arm fuel sort w output dump_ops watch_dirs artifact_paths root_paths allow
                     command st in
  (e = Value () → ∃ root o,
     w_current_dir w = Some root ∧
     observe fuel sort w root command watch_dirs artifact_paths root_paths = Value o ∧
     ((0 < ob_dropped o)%Z → allow = true) ∧
     read_from_file (files st' !! output)
     = Ok (document root command artifact_paths root_paths
             (canonical_operations (cli_watch_prefixes w watch_dirs) o) o)) ∧
  (∀ root o, w_current_dir w = Some root →
     observe fuel sort w root command watch_dirs artifact_paths root_paths = Value o →
     (0 < ob_dropped o)%Z → allow = false → e = ExitOne ∧ files st' = files st).
Proof.
  destruct (trace_arm _ _ _ _ _ _ _ _ _ _ _) as [st' e] eqn:Hrun. split.
  - intros ->. unfold trace_arm in Hrun.
    apply cli_bind_Value in Hrun as (? & root & [-> Hroot%current_dir_Value]%lift_Value & Hrun).
    apply cli_bind_Value in Hrun as (? & o & [-> Ho]%lift_Value & Hrun).
    apply cli_bind_Value in Hrun as (st1 & [] & [Hf1 Hdrop]%dropped_step_Value & Hrun).
    apply cli_bind_Value in Hrun as (st2 & [] & _ & Hrun).
    apply cli_bind_Value in Hrun as (st3 & [] & Hw%write_file_Value & Hrun).
    exists root, o. split; [done|]. split; [done|]. split; [done|].
    assert (Hst' : files st' = files st3).
    { apply cli_bind_Value in Hrun as (? & [] & [= <-] & Hrun).
      apply cli_bind_Value in Hrun as (? & [] & [= <-] & Hrun).
      case_bool_decide; by injection Hrun as <-. }
    rewrite Hst', Hw, lookup_insert_eq. apply read_write_roundtrip.
  - intros root o Hroot Ho Hdrop ->. unfold trace_arm in Hrun.
    rewrite (cli_bind_run _ _ st st root) in Hrun by (unfold lift; by rewrite Hroot).
    rewrite (cli_bind_run _ _ st st o) in Hrun by (unfold lift; by rewrite Ho).
    rewrite (proj2 (Z.ltb_lt _ _)) in Hrun by done. by injection Hrun as <- <-.
Qed.

(** C12. [trace] writes a document that reads back, or refuses.  If the command
    succeeds, the output file holds a document that [read_from_file] accepts and
    returns whole, made from this run's operations, outputs, command and policy,
    and events were lost only if that was allowed; and if events were lost and
    that was not allowed, the command exits with failure, having written
    nothing. *)
Theorem trace_writes_document `{!AttestationJsonLaws} output dump_ops watch_dirs artifact_paths root_paths
    allow command st :
  let '(st', e) := trace_arm fuel sort w output dump_ops watch_dirs artifact_paths root_paths allow
                     command st in
  (e = Value () → ∃ root o,
     w_current_dir w = Some root ∧
     observe fuel sort w root command watch_dirs artifact_paths root_paths = Value o ∧
     ((0 < ob_dropped o)%Z → allow = true) ∧
     read_from_file (files st' !! output)
     = Ok (document root command artifact_paths root_paths
             (canonical_operations (cli_watch_prefixes w watch_dirs) o) o)) ∧
  (∀ root o, w_current_dir w = Some root →
     observe fuel sort w root command watch_dirs artifact_paths root_paths = Value o →
     (0 < ob_dropped o)%Z → allow = false → e = ExitOne ∧ files st' = files st).
Proof. apply trace_writes. Qed.

(** A run that loses nothing and may write its file succeeds. *)
Lemma trace_arm_run output watch_dirs artifact_paths root_paths allow command st root o :
  w_current_dir w = Some root →
  observe fuel sort w root command watch_dirs artifact_paths root_paths = Value o →
  (ob_dropped o ≤ 0)%Z → w_writable w output = true →
  ∃ st', trace_arm fuel sort w output None watch_dirs artifact_paths root_paths allow command st
         = (st', Value ()) ∧
    files st' = <[output := write_to_file (document root command artifact_paths root_paths
      (canonical_operations (cli_watch_prefixes w watch_dirs) o) o)]> (files st).
Proof.
  intros Hroot Ho Hdrop Hw. unfold trace_arm.
  rewrite (cli_bind_run _ _ st st root) by (unfold lift; by rewrite Hroot).
  rewrite (cli_bind_run _ _ st st o) by (unfold lift; by rewrite Ho).
  rewrite (proj2 (Z.ltb_ge _ _)) by done. rewrite (cli_bind_run _ _ st st tt) by done.
  rewrite (cli_bind_run _ _ st st tt) by done.
  set (att := document _ _ _ _ _ _).
  set (st1 := mkCli (<[output := write_to_file att]> (files st))
                (actions st ++ [Wrote output (write_to_file att)])).
  rewrite (cli_bind_run _ _ st st1 tt) by (unfold write_file; by rewrite Hw).
  do 2 (erewrite cli_bind_run by reflexivity).
  case_bool_decide; eexists; (split; [reflexivity|done]).
Qed.

(** ** [verify] *)

(** The document that a run of [verify] builds for comparison. *)
Definition reproduced (root : string) (command watch_dirs artifact_paths root_paths : list string)
    (o : Observed) : Attestation :=
  document root command artifact_paths root_paths
    (canonical_operations (cli_watch_prefixes w watch_dirs) o) o.

(** The conditions under which [verify] reports success. *)
Definition verify_accepts (st : CliState) (attestation : string) (expected_root : option string)
    (watch_dirs artifact_paths root_paths command : list string) (expected : Attestation)
    (root : string) (o : Observed) : Prop :=
  read_from_file (files st !! attestation) = Ok expected ∧
  (∀ pinned, expected_root = Some pinned → root_hash expected = pinned) ∧
  Attestation.command expected = command ∧ w_current_dir w = Some root ∧
  output_selection expected = output_selection_metadata (selected_mode (ob_selected o)) root
                                artifact_paths root_paths ∧
  observe fuel sort w root command watch_dirs artifact_paths root_paths = Value o ∧
  (ob_dropped o ≤ 0)%Z ∧
  root_hash expected = root_hash (reproduced root command watch_dirs artifact_paths root_paths o).

Lemma verify_arm_Value attestation expected_root watch_dirs artifact_paths root_paths command st st' :
  verify_arm fuel sort w attestation expected_root watch_dirs artifact_paths root_paths command st
    = (st', Value ()) →
  ∃ expected root o, verify_accepts st attestation expected_root watch_dirs artifact_paths root_paths
    command expected root o.
Proof.
  unfold verify_arm. intros Hrun.
  apply cli_bind_Value in Hrun as (? & expected & [-> Hread]%read_document_Value & Hrun).
  apply cli_bind_Value in Hrun as (? & [] & [-> Hpin]%lift_Value & Hrun).
  apply cli_bind_Value in Hrun as (? & [] & [-> Hcmd]%lift_Value & Hrun).
  apply cli_bind_Value in Hrun as (? & root & [-> Hroot%current_dir_Value]%lift_Value & Hrun).
  apply cli_bind_Value in Hrun as (? & [] & [-> Hsel%validate_output_selection_Value]%lift_Value & Hrun).
  apply cli_bind_Value in Hrun as (? & o & [-> Ho]%lift_Value & Hrun).
  apply cli_bind_Value in Hrun as (st1 & [] & Hdrop & Hrun).
  exists expected, root, o. unfold verify_accepts.
  split; [done|]. split.
  { intros pinned ->. destruct (decide (root_hash expected = pinned)); [done|].
    by rewrite bool_decide_false in Hpin. }
  split; [clear -Hcmd; by case_bool_decide|]. split; [done|].
  split; [by rewrite (observe_mode _ _ _ _ _ _ Ho)|]. split; [done|].
  split; [destruct (Z.ltb_spec 0 (ob_dropped o)); [discriminate Hdrop|done]|].
  cbv zeta in Hrun. destruct (decide (root_hash expected
    = root_hash (reproduced root command watch_dirs artifact_paths root_paths o))) as [|Hne]; [done|].
  unfold reproduced in Hne. by rewrite bool_decide_false in Hrun.
Qed.

Lemma verify_arm_accepts attestation expected_root watch_dirs artifact_paths root_paths command st
    expected root o :
  verify_accepts st attestation expected_root watch_dirs artifact_paths root_paths command expected
    root o →
  verify_arm fuel sort w attestation expected_root watch_dirs artifact_paths root_paths command st
  = (mkCli (files st) (actions st ++ [Printed (Verified (root_hash expected))]), Value ()).
Proof.
  intros (Hread & Hpin & Hcmd & Hroot & Hsel & Ho & Hdrop & Heq). unfold verify_arm.
  rewrite (cli_bind_run _ _ st st expected) by by apply read_document_Value.
  rewrite (cli_bind_run _ _ st st tt).
  2: { unfold lift. destruct expected_root as [pinned|]; [|done]. by rewrite bool_decide_true by by apply Hpin. }
  rewrite (cli_bind_run _ _ st st tt) by (unfold lift; by rewrite bool_decide_true).
  rewrite (cli_bind_run _ _ st st root) by (unfold lift; by rewrite Hroot).
  rewrite (cli_bind_run _ _ st st tt).
  2: { apply lift_Value. split; [done|]. apply validate_output_selection_Value.
       by rewrite Hsel, (observe_mode _ _ _ _ _ _ Ho). }
  rewrite (cli_bind_run _ _ st st o) by (unfold lift; by rewrite Ho).
  rewrite (proj2 (Z.ltb_ge _ _)) by done. rewrite (cli_bind_run _ _ st st tt) by done.
  unfold reproduced in Heq. rewrite bool_decide_true by done. by rewrite <- Heq.
Qed.

(** C2. What a successful [verify] has established: the document it read is
    valid, has the pinned root if one was given, and has the command and the
    output policy of the command line; the build was run again and no event of it
    was lost; and the root hash of the document is the one that [trace] would
    have written for the run just made.  If the document has version 0.3.0, its
    lengths and those of the run fit the encoding, and the two commitments do not
    collide, then its outputs and its process root are those of the run.  The
    outputs of an older document are not bound: see [legacy_outputs_unbound]. *)
Theorem verify_sound `{!Sha256Laws} attestation expected_root watch_dirs artifact_paths root_paths
    command st st' :
  verify_arm fuel sort w attestation expected_root watch_dirs artifact_paths root_paths command st
    = (st', Value ()) →
  ∃ expected root o,
    read_from_file (files st !! attestation) = Ok expected ∧
    (∀ pinned, expected_root = Some pinned → root_hash expected = pinned) ∧
    Attestation.command expected = command ∧ w_current_dir w = Some root ∧
    output_selection expected = output_selection_metadata (selected_mode (ob_selected o)) root
                                  artifact_paths root_paths ∧
    observe fuel sort w root command watch_dirs artifact_paths root_paths = Value o ∧
    (ob_dropped o ≤ 0)%Z ∧
    let actual := reproduced root command watch_dirs artifact_paths root_paths o in
    root_hash expected = root_hash actual ∧
    (version expected = "0.3.0" → committed_fits expected → committed_fits actual →
     no_collision [committed_bytes expected; committed_bytes actual] →
     output_selection expected = output_selection actual ∧ outputs expected = outputs actual ∧
     process_root expected = process_root actual).
Proof.
  intros (expected & root & o & Hread & Hpin & Hcmd & Hroot & Hsel & Ho & Hdrop & Heq)%verify_arm_Value.
  exists expected, root, o. do 7 (split; [done|]). intros actual. split; [exact Heq|]. intros Hv Hf1 Hf2 Hnc.
  assert (Hvalid : validate expected = (expected, Ok ())) by (by eapply read_from_file_valid).
  assert (Hactual : validate actual = (actual, Ok ())) by apply new_with_outputs_validates.
  destruct (root_binds_document expected actual expected actual Hv eq_refl Hvalid Hactual Hf1 Hf2 Hnc Heq)
    as [(_ & Hs & Houts & Hp) _]. done.
Qed.

(** Any root hash makes a valid document of version 0.1.0 with any outputs: its
    one leaf is the root. *)
Definition legacy_document (predicate root : string) (command : list string) (sel : OutputSelection)
    (outs : list AttestedOutput) : Attestation :=
  mkAttestation "0.1.0" predicate root root command sel outs (mkTree [root] [] 1).

Lemma read_legacy_document `{!AttestationJsonLaws} predicate root command sel outs :
  let forged := legacy_document predicate root command sel outs in
  read_from_file (Some (write_to_file forged)) = Ok forged.
Proof.
  cbv zeta. unfold read_from_file, write_to_file. rewrite attestation_json_roundtrip.
  replace (validate _) with (legacy_document predicate root command sel outs, Ok (E := ValidateError) ()); [done|].
  unfold validate. change (root_hash_of _) with root. cbn. by rewrite !bool_decide_true by done.
Qed.

(** C34. [verify] does not bind the outputs of version 0.1 documents.  Where it
    accepts a file, it also accepts the file with the document replaced by one of
    version 0.1.0 with the same root hash, predicate, command and output policy,
    and any list of outputs whatever; no hash collides. *)
Theorem legacy_outputs_unbound `{!AttestationJsonLaws} attestation expected_root watch_dirs artifact_paths
    root_paths command st st' att outs :
  verify_arm fuel sort w attestation expected_root watch_dirs artifact_paths root_paths command st
    = (st', Value ()) →
  read_from_file (files st !! attestation) = Ok att →
  let forged := legacy_document (predicate_type att) (root_hash att) command (output_selection att) outs in
  let st_forged := mkCli (<[attestation := write_to_file forged]> (files st)) (actions st) in
  read_from_file (files st_forged !! attestation) = Ok forged ∧
  verify_arm fuel sort w attestation expected_root watch_dirs artifact_paths root_paths command st_forged
  = (mkCli (files st_forged) (actions st ++ [Printed (Verified (root_hash att))]), Value ()).
Proof.
  intros (expected & root & o & Hread & Hpin & Hcmd & Hrest)%verify_arm_Value Hatt forged st_forged.
  assert (expected = att) as -> by congruence.
  assert (Hforged : read_from_file (files st_forged !! attestation) = Ok forged).
  { subst st_forged. cbn [files]. rewrite lookup_insert_eq. apply read_legacy_document. }
  split; [exact Hforged|].
  apply (verify_arm_accepts attestation expected_root watch_dirs artifact_paths root_paths command st_forged
    forged root o).
  split; [exact Hforged|]. split; [exact Hpin|]. split; [reflexivity|]. exact Hrest.
Qed.
End facts.

Section reproduction.
Context `{Sha256} `{CommitmentJson} `{AttestationJson} `{OpsJson} `{F64} {Handle : Type}.

(** [trace] in one world and [verify] in another, each with the iteration order
    its hash tables have there. *)
Lemma reproduction_verifies `{!AttestationJsonLaws} (O1 O2 : HashOrder) fuel1 fuel2 sort1 sort2
    (w1 w2 : World Handle) output dump_ops watch_dirs artifact_paths root_paths allow command st st1
    root o1 o2 pinned :
  trace_arm (hash_order := O1) fuel1 sort1 w1 output dump_ops watch_dirs artifact_paths root_paths allow command st
    = (st1, Value ()) →
  w_current_dir w1 = Some root → w_current_dir w2 = Some root →
  observe fuel1 sort1 w1 root command watch_dirs artifact_paths root_paths = Value o1 →
  observe fuel2 sort2 w2 root command watch_dirs artifact_paths root_paths = Value o2 →
  (ob_dropped o2 ≤ 0)%Z → selected (ob_selected o2) = selected (ob_selected o1) →
  op_hash <$> canonical_operations (hash_order := O2) (cli_watch_prefixes w2 watch_dirs) o2
    = op_hash <$> canonical_operations (hash_order := O1) (cli_watch_prefixes w1 watch_dirs) o1 →
  let att := reproduced (hash_order := O1) w1 root command watch_dirs artifact_paths root_paths o1 in
  pinned = None ∨ pinned = Some (root_hash att) →
  verify_arm (hash_order := O2) fuel2 sort2 w2 output pinned watch_dirs artifact_paths root_paths command st1
  = (mkCli (files st1) (actions st1 ++ [Printed (Verified (root_hash att))]), Value ()).
Proof.
  intros Htrace Hr1 Hr2 Ho1 Ho2 Hdrop Hsel Hops. cbv zeta. intros Hpin.
  pose proof (trace_writes (hash_order := O1) fuel1 sort1 w1 output dump_ops watch_dirs artifact_paths root_paths allow
    command st) as Hw.
  rewrite Htrace in Hw. destruct Hw as [Hw _]. destruct (Hw eq_refl) as (root' & o' & Hr' & Ho' & _ & Hread).
  rewrite Hr1 in Hr'. injection Hr' as <-. rewrite Ho1 in Ho'. injection Ho' as <-.
  assert (Heq : reproduced (hash_order := O2) w2 root command watch_dirs artifact_paths root_paths o2
              = reproduced (hash_order := O1) w1 root command watch_dirs artifact_paths root_paths o1).
  { unfold reproduced, document, build_merkle_tree.
    rewrite (observe_mode _ _ _ _ _ _ _ _ _ Ho1), (observe_mode _ _ _ _ _ _ _ _ _ Ho2), Hsel.
    cbv zeta. by rewrite Hops. }
  apply (verify_arm_accepts (hash_order := O2) fuel2 sort2 w2 output pinned watch_dirs artifact_paths root_paths command st1
    _ root o2).
  split; [exact Hread|]. split.
  { intros p Hp. destruct Hpin as [->| ->]; [done|]. by injection Hp as <-. }
  split; [done|]. split; [done|]. split.
  { unfold reproduced, document, new_with_outputs. cbn [output_selection].
    rewrite (observe_mode _ _ _ _ _ _ _ _ _ Ho1), (observe_mode _ _ _ _ _ _ _ _ _ Ho2).
    apply selection_sorted. }
  split; [done|]. split; [done|]. by rewrite Heq.
Qed.

(** A reproduced build verifies: if [trace] succeeded in one world, and in
    another world the same command under the same flags, from the same directory
    and without losing events, gives the same outputs and operations with the same
    digests (whatever the events, processes and timings behind them), then
    [verify] of the file that [trace] wrote succeeds there, with the root pinned
    or not, and writes no file. *)
Theorem verify_accepts_reproduction `{!AttestationJsonLaws} `{HashOrder} fuel1 fuel2 sort1 sort2
    (w1 w2 : World Handle) output dump_ops watch_dirs artifact_paths root_paths allow command st st1
    root o1 o2 pinned :
  trace_arm fuel1 sort1 w1 output dump_ops watch_dirs artifact_paths root_paths allow command st
    = (st1, Value ()) →
  w_current_dir w1 = Some root → w_current_dir w2 = Some root →
  observe fuel1 sort1 w1 root command watch_dirs artifact_paths root_paths = Value o1 →
  observe fuel2 sort2 w2 root command watch_dirs artifact_paths root_paths = Value o2 →
  (ob_dropped o2 ≤ 0)%Z → selected (ob_selected o2) = selected (ob_selected o1) →
  op_hash <$> canonical_operations (cli_watch_prefixes w2 watch_dirs) o2
    = op_hash <$> canonical_operations (cli_watch_prefixes w1 watch_dirs) o1 →
  let att := reproduced w1 root command watch_dirs artifact_paths root_paths o1 in
  pinned = None ∨ pinned = Some (root_hash att) →
  verify_arm fuel2 sort2 w2 output pinned watch_dirs artifact_paths root_paths command st1
  = (mkCli (files st1) (actions st1 ++ [Printed (Verified (root_hash att))]), Value ()).
Proof. apply reproduction_verifies. Qed.
End reproduction.

(** ** Keys and signatures *)

Section signatures.
Context `{Sha256} `{CommitmentJson} `{AttestationJson} `{AttestationVec} `{F64} {Handle : Type}.
Context `{Base64} `{Hex} `{Ed25519} `{EnvelopeJson}.
Context `{!AttestationVecLaws} `{!Base64Laws} `{!HexLaws} `{!Ed25519Laws} `{!EnvelopeJsonLaws}.

Lemma without_nodes_id att : nodes (tree att) = [] → without_nodes att = att.
Proof. destruct att as [v p r q c s o [ls ns n]]. simpl. by intros ->. Qed.

Lemma sign_arm_run (w : World Handle) key doc envelope sk text att st :
  files st !! key = Some text → parse_signing_key text = Ok sk → read_from_file (files st !! doc) = Ok att →
  w_writable w envelope = true → ∃ st', sign_arm w key doc (Some envelope) st = (st', Value ()).
Proof.
  intros Hkey Hsk Hdoc Hw. unfold sign_arm.
  rewrite (cli_bind_run _ _ st st sk).
  2: { unfold read_key. rewrite (cli_bind_run _ _ st st (files st !! key)) by done.
       unfold lift. by rewrite Hkey, Hsk. }
  rewrite (cli_bind_run _ _ st st att) by by apply read_document_Value.
  cbv zeta. erewrite cli_bind_run; [|unfold write_file; rewrite Hw; reflexivity].
  eexists. reflexivity.
Qed.

(** What [verify-signature] says of the envelope that [sign] wrote. *)
Lemma sign_verify_outcome (w1 w2 : World Handle) private_key public_key key doc envelope att st st1 st2 :
  generate_key_arm w1 private_key public_key key st = (st1, Value ()) → private_key ≠ public_key →
  read_from_file (files st1 !! doc) = Ok att →
  sign_arm w2 private_key doc (Some envelope) st1 = (st2, Value ()) → envelope ≠ public_key →
  verify_signature_arm public_key envelope st2
  = match validate (without_nodes att) with
    | (att, Ok _) =>
        (mkCli (files st2) (actions st2 ++ [Printed (SignatureVerified public_key (predicate_type att)
           (root_hash att) (format_command (Attestation.command att)))]), Value ())
    | (_, Err e) => (st2, Bail (PayloadInvalid e))
    end.
Proof.
  intros Hgen Hne Hread Hsign Henv.
  destruct key_files_roundtrip as (Hsk & Hvk & _).
  (* The two key files. *)
  unfold generate_key_arm in Hgen.
  apply cli_bind_Value in Hgen as (? & [] & [-> _]%lift_Value & Hgen).
  apply cli_bind_Value in Hgen as (? & [] & [-> _]%lift_Value & Hgen).
  apply cli_bind_Value in Hgen as (sa & [] & Hwa%write_file_Value & Hgen).
  apply cli_bind_Value in Hgen as (sb & [] & Hb & Hgen).
  assert (Hfb : files sb = files sa) by (unfold restrict_file in Hb; case_match; [by injection Hb as <-|done]).
  clear Hb.
  apply cli_bind_Value in Hgen as (sc & [] & Hwc%write_file_Value & Hgen). injection Hgen as <-.
  simpl in Hread. rewrite Hfb in Hwc.
  assert (Hpriv : files sc !! private_key = Some (write_signing_key key))
    by (rewrite Hwc, Hwa, lookup_insert_ne by congruence; by rewrite lookup_insert_eq).
  assert (Hpub : files sc !! public_key = Some (write_verifying_key (verifying_key key)))
    by (rewrite Hwc; by rewrite lookup_insert_eq).
  (* The envelope. *)
  unfold sign_arm in Hsign. apply cli_bind_Value in Hsign as (s1 & sk & Hk & Hsign).
  unfold read_key in Hk. apply cli_bind_Value in Hk as (? & data & [= <- <-] & [-> Hk]%lift_Value).
  simpl in Hk. rewrite Hpriv, Hsk in Hk. simpl in Hk. injection Hk as <-.
  apply cli_bind_Value in Hsign as (? & att' & [-> Hatt]%read_document_Value & Hsign).
  simpl in Hatt. rewrite Hread in Hatt. injection Hatt as <-. cbv zeta in Hsign.
  apply cli_bind_Value in Hsign as (s3 & [] & Hw%write_file_Value & Hsign).
  assert (Hst2 : files st2 = files s3) by (by injection Hsign as <-). clear Hsign. simpl in Hw.
  assert (Hpub2 : files st2 !! public_key = Some (write_verifying_key (verifying_key key)))
    by (by rewrite Hst2, Hw, lookup_insert_ne by congruence).
  assert (Henv2 : files st2 !! envelope = Some (envelope_to_json (sign (attestation_to_vec att)
    (predicate_type att) key) +:+ String "010" ""))
    by (rewrite Hst2, Hw; apply lookup_insert_eq).
  unfold verify_signature_arm.
  rewrite (cli_bind_run _ _ st2 st2 (verifying_key key)).
  2: { unfold read_key. rewrite (cli_bind_run _ _ st2 st2 (files st2 !! public_key)) by done.
       unfold lift. by rewrite Hpub2, Hvk. }
  rewrite (cli_bind_run _ _ st2 st2 (files st2 !! envelope)) by done. rewrite Henv2.
  rewrite envelope_json_roundtrip.
  rewrite (cli_bind_run _ _ st2 st2 (sign (attestation_to_vec att) (predicate_type att) key)) by done.
  rewrite verify_sign. rewrite (cli_bind_run _ _ st2 st2 (attestation_to_vec att)) by done.
  rewrite attestation_vec_roundtrip. rewrite (cli_bind_run _ _ st2 st2 (without_nodes att)) by done.
  by destruct (validate (without_nodes att)) as [att' [[]|e]].
Qed.

(** C31. What [sign] signs, [verify-signature] accepts: with a key pair that
    [generate-key] wrote, the envelope of a document verifies under the public
    key file and reports the document's predicate, root and command.  The
    document is one that [repx] wrote, that is, one without stored tree nodes. *)
Theorem sign_verify_roundtrip (w1 w2 : World Handle) private_key public_key key doc envelope att st st1 st2 :
  generate_key_arm w1 private_key public_key key st = (st1, Value ()) → private_key ≠ public_key →
  read_from_file (files st1 !! doc) = Ok att → nodes (tree att) = [] →
  sign_arm w2 private_key doc (Some envelope) st1 = (st2, Value ()) → envelope ≠ public_key →
  verify_signature_arm public_key envelope st2
  = (mkCli (files st2) (actions st2 ++ [Printed (SignatureVerified public_key (predicate_type att)
       (root_hash att) (format_command (Attestation.command att)))]), Value ()).
Proof.
  intros Hgen Hne Hread Hnodes Hsign Henv.
  rewrite (sign_verify_outcome _ _ _ _ _ _ _ _ _ _ _ Hgen Hne Hread Hsign Henv).
  by rewrite without_nodes_id, (read_from_file_valid _ _ Hread).
Qed.

(** The other documents are those of version 0.1 that store the nodes of their
    tree and no leaves.  [sign] accepts one, but serialises it without the nodes,
    so the envelope it writes is rejected. *)
Theorem legacy_envelope_rejected (w1 w2 : World Handle) private_key public_key key doc envelope att st st1 st2 :
  generate_key_arm w1 private_key public_key key st = (st1, Value ()) → private_key ≠ public_key →
  read_from_file (files st1 !! doc) = Ok att → version att = "0.1.0" →
  leaves (tree att) = [] → root_hash att ≠ root_hash_of (mkTree [] [] (leaf_count (tree att))) →
  sign_arm w2 private_key doc (Some envelope) st1 = (st2, Value ()) → envelope ≠ public_key →
  verify_signature_arm public_key envelope st2 = (st2, Bail (PayloadInvalid LegacyRootMismatch)).
Proof.
  intros Hgen Hne Hread Hv Hl Hroot Hsign Henv.
  rewrite (sign_verify_outcome _ _ _ _ _ _ _ _ _ _ _ Hgen Hne Hread Hsign Henv).
  unfold validate, without_nodes. cbn [version root_hash tree]. rewrite Hv, Hl.
  rewrite bool_decide_true by done. by rewrite (bool_decide_false (root_hash att = _)) by exact Hroot.
Qed.
End signatures.

(** ** Limits *)

(** The private key is written before its permissions are restricted.  If the
    restriction fails, [generate-key] fails with the key in a file that was never
    restricted, and no public key. *)
Theorem private_key_unrestricted `{F64} `{Hex} `{Ed25519} {Handle} (w : World Handle)
    private_key public_key key st :
  w_exists w private_key = false → w_exists w public_key = false →
  w_writable w private_key = true → w_chmod w private_key = false →
  generate_key_arm w private_key public_key key st
  = (mkCli (<[private_key := write_signing_key key]> (files st))
       (actions st ++ [Wrote private_key (write_signing_key key)]), Bail (RestrictFailed private_key)).
Proof.
  intros He1 He2 Hw Hc. unfold generate_key_arm.
  rewrite (cli_bind_run _ _ st st tt) by (unfold lift; by rewrite He1).
  rewrite (cli_bind_run _ _ st st tt) by (unfold lift; by rewrite He2).
  erewrite cli_bind_run by (unfold write_file; rewrite Hw; reflexivity).
  unfold mbind, cli_bind, restrict_file. by rewrite Hc.
Qed.

Section limits.
Context `{Sha256} `{CommitmentJson} `{F64}.

Definition with_leaf_count (n : nat) (att : Attestation) : Attestation :=
  mkAttestation (version att) (predicate_type att) (root_hash att) (process_root att)
    (Attestation.command att) (output_selection att) (outputs att)
    (mkTree (leaves (tree att)) (nodes (tree att)) n).

(** The number of leaves that [explain] and [diff] print is taken from the file
    and checked by nothing: any number validates under the same root. *)
Theorem leaf_count_not_validated att att' n : leaves (tree att) ≠ [] → validate att = (att', Ok ()) →
  let forged := with_leaf_count n att in
  validate forged = (with_leaf_count n att', Ok ()) ∧ root_hash forged = root_hash att ∧
  MerkleLeaves n ∈ explain_attestation forged.
Proof.
  intros Hl [-> Hv]%validate_Ok. cbv zeta.
  assert (Hroot : root_hash_of (tree (with_leaf_count n att)) = root_hash_of (tree att)).
  { unfold root_hash_of, leaf_hashes. simpl. rewrite (bool_decide_false _ Hl). done. }
  split; [|split; [done|]].
  - apply validate_Ok. rewrite Hroot. split; [done|]. unfold process_root_ok in *. rewrite Hroot. exact Hv.
  - unfold explain_attestation. rewrite !elem_of_app. do 5 right. simpl. apply list_elem_of_here.
Qed.

(** A document of version 0.2 is read and validated, but [verify] never accepts
    it short of a SHA-256 collision: a run builds a v0.3 document, whose
    commitment is another string.  (The JSON text of a struct starts with a brace;
    the v0.3 encoding starts with the length of its domain tag.) *)
Theorem verify_v0_2_needs_collision `{AttestationJson} `{HashOrder} {Handle} fuel sort (w : World Handle)
    attestation expected_root watch_dirs artifact_paths root_paths command st st' expected :
  (∀ c, ∃ text, commitment_to_vec c = String "{" text) →
  read_from_file (files st !! attestation) = Ok expected →
  version expected = "0.2.0" ∨ version expected = "0.2.1" →
  verify_arm fuel sort w attestation expected_root watch_dirs artifact_paths root_paths command st
    = (st', Value ()) →
  ∃ x y, x ≠ y ∧ sha256_hex x = sha256_hex y.
Proof.
  intros Hjson Hread Hv (expected' & root & o & Hread' & _ & _ & _ & _ & _ & _ & Heq)%verify_arm_Value.
  rewrite Hread in Hread'. injection Hread' as <-.
  pose proof (read_from_file_valid _ _ Hread) as [_ Hok]%validate_Ok.
  destruct Hok as [[Hv' _]|[(_ & _ & Hhash)|[Hv' _]]]; [destruct Hv; congruence| |destruct Hv; congruence].
  rewrite <- Hhash in Heq. unfold commitment_hash_v0_2, digest in Heq.
  unfold reproduced, document, new_with_outputs in Heq. cbn [root_hash] in Heq.
  unfold commitment_hash_v0_3, digest in Heq. apply (inj (String.append "sha256:")) in Heq.
  eexists _, _. split; [|exact Heq]. intros Hsame.
  destruct (Hjson (mkCommitmentV0_2 "repx-attestation-v0.2" (root_hash_of (tree expected))
    (Attestation.command expected) (output_selection expected) (outputs expected))) as [text Htext].
  rewrite Htext in Hsame. unfold encode_commitment_v0_3, write_commitment_str in Hsame. discriminate Hsame.
Qed.
End limits.
