(* ===== verification/Harness.v ===== *)
(** * The determinism harness ([repx/src/harness.rs]) and [main]

    The harness repeats [trace] and reports how stable the root is.  Each run
    has a [World] of its own, so nothing is assumed to be equal between runs. *)
From S2P Require Export CliFacts.

Record HarnessConfig := mkConfig {
  hc_runs : nat;
  hc_watch_dirs : list string;
  hc_artifacts : list string;
  hc_output_roots : list string;
  hc_allow_dropped_events : bool;
  hc_command : list string;
  hc_output_dir : option string
}.

Record RunOutcome := mkOutcome {
  ro_attestation : Attestation;
  ro_path : string;
  ro_dropped_events : Z
}.

(** [format!("run-{:03}-attestation.json", run_index)]. *)
Definition run_file_name (run_index : nat) : string :=
  let text := decimal (Z.of_nat run_index) in
  let padding := match String.length text with 0 => "000" | 1 => "00" | 2 => "0" | _ => "" end in
  "run-" +:+ padding +:+ text +:+ "-attestation.json".

(** ** What the harness has copies of

    [harness.rs] repeats helpers of [main.rs], with other parameters. *)

Definition harness_shell_display_arg (arg : string) : string :=
  if arg =?= "" then "''"
  else if str_all display_plain arg then arg
  else "'" +:+ replace_quotes arg +:+ "'".

Definition harness_format_command (command : list string) : string :=
  join_words (harness_shell_display_arg <$> command).

Definition harness_metadata_path (workspace_root path : string) : string :=
  if path_is_absolute path then display_path workspace_root path else path.

Definition harness_output_selection_metadata (workspace_root : string)
    (artifact_paths root_paths : list string) (selected : SelectedOutputs) : OutputSelection :=
  mkSelection (match selected_mode selected with Inferred => "inferred" | Explicit => "explicit" end)
    (sort_strings (harness_metadata_path workspace_root <$> artifact_paths))
    (sort_strings (harness_metadata_path workspace_root <$> root_paths)).

Definition harness_attested_outputs_metadata (workspace_root : string) (outputs : list OutputFile)
    : list AttestedOutput :=
  (λ o, mkOutput (display_path workspace_root (output_path o)) (output_hash o)) <$> outputs.

Definition harness_percentage `{F64} (matches total : nat) : f64 :=
  f64_div (f64_mul (f64_of_usize matches) f64_hundred) (f64_of_usize total).

(** The attestation of one run. *)
Definition harness_document `{Sha256} (workspace_root : string)
    (command artifact_paths root_paths : list string) (canonical : list CanonicalOp)
    (selected_outputs : SelectedOutputs) : Attestation :=
  new_with_outputs (build_merkle_tree canonical) command
    (harness_output_selection_metadata workspace_root artifact_paths root_paths selected_outputs)
    (harness_attested_outputs_metadata workspace_root (selected selected_outputs)).

(** The copies agree with the originals, so the harness attests what [trace] does. *)
Lemma harness_document_eq `{Sha256} workspace_root command artifact_paths root_paths canonical o :
  harness_document workspace_root command artifact_paths root_paths canonical (ob_selected o)
  = document workspace_root command artifact_paths root_paths canonical o.
Proof. reflexivity. Qed.

Section harness.
Context `{Sha256} `{CommitmentJson} `{AttestationJson} `{F64} `{HashOrder} {Handle : Type}.
Context (fuel : nat) (sort : list RawEvent → list RawEvent).
(** The world in which the harness starts, and that of each run. *)
Context (w0 : World Handle) (worlds : nat → World Handle).
Context (config : HarnessConfig) (report_path : option string).

Definition out (line : HarnessLine) : cli unit := say (HarnessOut report_path line).

Fixpoint out_all (lines : list HarnessLine) : cli unit :=
  match lines with
  | [] => mret ()
  | line :: lines => _ ← out line; out_all lines
  end.

(** The body of the loop. *)
Definition harness_run (workspace_root : string) (prefixes : list string) (output_dir : string)
    (run_index : nat) : cli RunOutcome :=
  _ ← out (RunStarted run_index (hc_runs config));
  let w := worlds run_index in
  let path := path_push output_dir (run_file_name run_index) in
  before ← lift (of_walked (@snapshot (w_before w) fuel workspace_root));
  traced ← lift (of_partial (trace_command (w_machine w) fuel sort (hc_command config) (hc_watch_dirs config)));
  traced ← lift (of_traced traced);
  let '(events, root_process, dropped_events) := traced in
  after ← lift (of_walked (@snapshot (w_after w) fuel workspace_root));
  _ ← (if (0 <? dropped_events)%Z then
         if hc_allow_dropped_events config then out (RunWarning dropped_events)
         else _ ← out (RunFailed dropped_events); lift (Bail (RunDropped run_index dropped_events))
       else mret ());
  selected_outputs ← lift (of_result SelectFailed
    (select_outputs before after workspace_root (hc_artifacts config) (hc_output_roots config)));
  let o := mkObserved events root_process dropped_events selected_outputs in
  let attestation := harness_document workspace_root (hc_command config) (hc_artifacts config)
                       (hc_output_roots config) (canonical_operations prefixes o) selected_outputs in
  _ ← write_file (w_writable w) path (write_to_file attestation);
  _ ← out (RunRoot (str_take 16 (root_hash attestation)) (leaf_count (tree attestation)));
  mret (mkOutcome attestation path dropped_events).

Fixpoint harness_runs (workspace_root : string) (prefixes : list string) (output_dir : string)
    (indices : list nat) (outcomes : list RunOutcome) : cli (list RunOutcome) :=
  match indices with
  | [] => mret outcomes
  | run_index :: indices =>
      outcome ← harness_run workspace_root prefixes output_dir run_index;
      harness_runs workspace_root prefixes output_dir indices (outcomes ++ [outcome])
  end.

(** The lines after the runs.  The sum of the [u64] counts wraps. *)
Definition harness_summary (report : StabilityReport) (outcomes : list RunOutcome) : list HarnessLine :=
  [Summary (RootStability (root_matches report) (run_count report)
     (harness_percentage (root_matches report) (run_count report)));
   Summary (ProcessRootStability (process_root_matches report) (run_count report)
     (harness_percentage (process_root_matches report) (run_count report)));
   Summary (LeafJaccard (minimum_leaf_jaccard report) (mean_leaf_jaccard report))]
  ++ (if (root_matches report <? run_count report)%nat then
        MismatchesHeader
        :: ((λ run, Summary (MismatchedRun run)) <$> List.filter (λ run, negb (root_match run)) (runs report))
        ++ [DifferentRoots (run_count report - root_matches report) (run_count report)]
      else [AllIdentical (run_count report)])
  ++ (let total_dropped :=
        (foldl Z.add 0 (ro_dropped_events <$> outcomes) `mod` 18446744073709551616)%Z in
      if (0 <? total_dropped)%Z then [TotalDropped (hc_runs config) total_dropped] else []).

Definition run_harness : cli unit :=
  _ ← lift (if (hc_runs config <? 2)%nat then Bail (TooFewRuns (hc_runs config)) else Value ());
  workspace_root ← lift (match w_current_dir w0 with Some d => Value d | None => Bail NoWorkspace end);
  let prefixes := cli_watch_prefixes w0 (hc_watch_dirs config) in
  _ ← out (Banner (hc_runs config));
  _ ← out (HarnessCommand (harness_format_command (hc_command config)));
  _ ← (if bool_decide (hc_output_roots config = []) then mret ()
       else out (HarnessOutputRoots (hc_output_roots config)));
  _ ← (if bool_decide (hc_artifacts config = []) then mret ()
       else out (HarnessArtifacts (hc_artifacts config)));
  let output_dir := default "repx-harness-output" (hc_output_dir config) in
  _ ← lift (if w_writable w0 output_dir then Value () else Bail (WriteFailed output_dir));
  outcomes ← harness_runs workspace_root prefixes output_dir (seq 1 (hc_runs config)) [];
  let inputs := (λ o, (ro_path o, ro_attestation o)) <$> outcomes in
  report ← lift (match analyze inputs with Some r => Value r | None => Bail TooFewAttestations end);
  out_all (harness_summary report outcomes).
End harness.

(** ** The subcommands and their dispatch *)

Inductive Commands `{Ed25519} :=
  | CmdTrace (output : string) (dump_ops : option string) (watch_dirs artifacts output_roots : list string)
      (allow_dropped_events : bool) (command : list string)
  | CmdVerify (attestation : string) (expected_root : option string)
      (watch_dirs artifacts output_roots command : list string)
  | CmdExplain (attestation : string)
  | CmdDiff (expected actual : string)
  | CmdStability (attestations : list string) (json strict : bool)
  | CmdHarness (runs : nat) (output : option string) (attestation_dir : string)
      (watch_dirs artifacts output_roots : list string) (allow_dropped_events : bool) (command : list string)
  | CmdGenerateKey (private_key public_key : string) (key : SigningKey)
  | CmdSign (key attestation : string) (output : option string)
  | CmdVerifySignature (key envelope : string).

Section main.
Context `{Sha256} `{CommitmentJson} `{AttestationJson} `{AttestationVec} `{OpsJson}.
Context `{Base64} `{Hex} `{Ed25519} `{EnvelopeJson} `{F64} `{HashOrder} {Handle : Type}.

(** [main] after [Cli::parse]; the key of [CmdGenerateKey] is the pair drawn. *)
Definition main (fuel : nat) (sort : list RawEvent → list RawEvent) (w : World Handle)
    (worlds : nat → World Handle) (c : Commands) : cli unit :=
  match c with
  | CmdTrace output dump_ops watch_dirs artifacts output_roots allow command =>
      trace_arm fuel sort w output dump_ops watch_dirs artifacts output_roots allow command
  | CmdVerify attestation expected_root watch_dirs artifacts output_roots command =>
      verify_arm fuel sort w attestation expected_root watch_dirs artifacts output_roots command
  | CmdExplain attestation => explain_arm attestation
  | CmdDiff expected actual => diff_arm expected actual
  | CmdStability attestations json strict => stability_arm attestations json strict
  | CmdHarness runs output attestation_dir watch_dirs artifacts output_roots allow command =>
      let config := mkConfig runs watch_dirs artifacts output_roots allow command (Some attestation_dir) in
      match output with
      | Some report_path =>
          _ ← write_file (w_writable w) report_path "";
          _ ← run_harness fuel sort w worlds config output;
          say (ReportWritten report_path)
      | None => run_harness fuel sort w worlds config output
      end
  | CmdGenerateKey private_key public_key key => generate_key_arm w private_key public_key key
  | CmdSign key attestation output => sign_arm w key attestation output
  | CmdVerifySignature key envelope => verify_signature_arm key envelope
  end.
End main.

(** ** The verdict *)

Section verdict.
Context `{Sha256} `{CommitmentJson} `{AttestationJson} `{F64} `{HashOrder} {Handle : Type}.
Context (fuel : nat) (sort : list RawEvent → list RawEvent).
Context (w0 : World Handle) (worlds : nat → World Handle).
Context (config : HarnessConfig) (report_path : option string).

Definition is_verdict (a : Action) : bool :=
  match a with Printed (HarnessOut _ (AllIdentical _)) => true | _ => false end.

(** From [st] to [st'] no verdict was printed. *)
Definition undecided (st st' : CliState) : Prop :=
  ∃ new, actions st' = actions st ++ new ∧ Forall (λ a, is_verdict a = false) new.

#[local] Instance undecided_refl : Reflexive undecided.
Proof. intros st. exists []. by rewrite app_nil_r. Qed.
#[local] Instance undecided_trans : Transitive undecided.
Proof.
  intros x y z (n1 & E1 & F1) (n2 & E2 & F2). exists (n1 ++ n2).
  rewrite E2, E1, app_assoc. split; [done|]. by apply Forall_app.
Qed.

Lemma undecided_act a st : is_verdict a = false → undecided st (mkCli (files st) (actions st ++ [a])).
Proof. intros Ha. exists [a]. split; [done|]. by constructor. Qed.

Lemma out_Value line st st' : is_verdict (Printed (HarnessOut report_path line)) = false →
  out report_path line st = (st', Value ()) → undecided st st'.
Proof. intros Hl [= <-]. by apply undecided_act. Qed.

Lemma write_file_undecided writable path contents st st' :
  write_file writable path contents st = (st', Value ()) → undecided st st'.
Proof.
  unfold write_file. case_match; [|done]. intros [= <-].
  exists [Wrote path contents]. split; [done|]. by constructor.
Qed.

(** What a run of the harness is: [trace]'s run in that run's world, but
    canonicalised under the watch prefixes that the harness resolved before the
    first run, while [trace] resolves them after its run.  The document is the one
    [trace] would write if the prefixes agree, or an output was selected. *)
Definition run_of_trace (root : string) (i : nat) (outcome : RunOutcome) : Prop :=
  ∃ o, observe fuel sort (worlds i) root (hc_command config) (hc_watch_dirs config)
         (hc_artifacts config) (hc_output_roots config) = Value o ∧
    ((0 < ob_dropped o)%Z → hc_allow_dropped_events config = true) ∧
    ro_dropped_events outcome = ob_dropped o ∧
    ro_attestation outcome = document root (hc_command config) (hc_artifacts config)
      (hc_output_roots config) (canonical_operations (cli_watch_prefixes w0 (hc_watch_dirs config)) o) o ∧
    (cli_watch_prefixes (worlds i) (hc_watch_dirs config) = cli_watch_prefixes w0 (hc_watch_dirs config) ∨
     selected (ob_selected o) ≠ [] →
     ro_attestation outcome = reproduced (worlds i) root (hc_command config) (hc_watch_dirs config)
       (hc_artifacts config) (hc_output_roots config) o).

(** The prefixes only matter if no output was selected. *)
Lemma prefixes_irrelevant prefixes1 prefixes2 o : prefixes1 = prefixes2 ∨ selected (ob_selected o) ≠ [] →
  canonical_operations prefixes1 o = canonical_operations prefixes2 o.
Proof. intros [->|Hs]; [done|]. unfold canonical_operations. by rewrite !bool_decide_false. Qed.

Lemma harness_run_Value root output_dir i st st' outcome :
  harness_run fuel sort worlds config report_path root (cli_watch_prefixes w0 (hc_watch_dirs config))
    output_dir i st = (st', Value outcome) →
  undecided st st' ∧ run_of_trace root i outcome.
Proof.
  unfold harness_run. intros Hrun. cbv zeta in Hrun.
  apply cli_bind_Value in Hrun as (s1 & [] & Hu1%out_Value & Hrun); [|done].
  apply cli_bind_Value in Hrun as (? & before & [-> Hb]%lift_Value & Hrun).
  apply cli_bind_Value in Hrun as (? & traced & [-> Ht]%lift_Value & Hrun).
  apply cli_bind_Value in Hrun as (? & [[events rp] lost] & [-> Ht']%lift_Value & Hrun).
  apply cli_bind_Value in Hrun as (? & after & [-> Ha]%lift_Value & Hrun).
  apply cli_bind_Value in Hrun as (s2 & [] & Hdrop & Hrun).
  apply cli_bind_Value in Hrun as (? & sel & [-> Hsel]%lift_Value & Hrun).
  apply cli_bind_Value in Hrun as (s3 & [] & Hu3%write_file_undecided & Hrun).
  apply cli_bind_Value in Hrun as (s4 & [] & Hu4%out_Value & Hrun); [|done]. injection Hrun as <- <-.
  assert (Hd : undecided s1 s2 ∧ ((0 < lost)%Z → hc_allow_dropped_events config = true)).
  { destruct (Z.ltb_spec 0 lost); [destruct (hc_allow_dropped_events config)|].
    - split; [by apply (out_Value (RunWarning lost))|done].
    - discriminate Hdrop.
    - injection Hdrop as <-. split; [reflexivity|lia]. }
  destruct Hd as [Hu2 Hallow]. split; [by trans s1; [|trans s2; [|trans s3]]|].
  exists (mkObserved events rp lost sel). split; [|split_and!; [done..|]].
  2: { intros Hp. unfold reproduced. by rewrite (prefixes_irrelevant _ _ _ Hp). }
  unfold observe.
  rewrite Hb. cbn [mbind ended_bind]. rewrite Ht. cbn [mbind ended_bind]. rewrite Ht'.
  cbn [mbind ended_bind]. rewrite Ha. cbn [mbind ended_bind]. by rewrite Hsel.
Qed.

Lemma harness_runs_Value root output_dir indices outcomes st st' outcomes' :
  harness_runs fuel sort worlds config report_path root (cli_watch_prefixes w0 (hc_watch_dirs config))
    output_dir indices outcomes st = (st', Value outcomes') →
  undecided st st' ∧ ∃ new, outcomes' = outcomes ++ new ∧ Forall2 (run_of_trace root) indices new.
Proof.
  revert outcomes st. induction indices as [|i indices IH]; intros outcomes st; cbn [harness_runs].
  { intros [= <- <-]. split; [reflexivity|]. exists []. by rewrite app_nil_r. }
  intros (s1 & outcome & [Hu1 Ho]%harness_run_Value & Hrun)%cli_bind_Value.
  apply IH in Hrun as (Hu2 & new & -> & Hnew). split; [by trans s1|].
  exists (outcome :: new). rewrite <- app_assoc. split; [done|]. by constructor.
Qed.

Lemma out_all_eq lines st : out_all report_path lines st
  = (mkCli (files st) (actions st ++ ((λ l, Printed (HarnessOut report_path l)) <$> lines)), Value ()).
Proof.
  revert st. induction lines as [|line lines IH]; intros st; cbn [out_all].
  { rewrite app_nil_r. by destruct st. }
  rewrite (cli_bind_run _ _ st (mkCli (files st) (actions st ++ [Printed (HarnessOut report_path line)])) tt)
    by done. rewrite IH. cbn [files actions]. by rewrite <- app_assoc.
Qed.

(** Whether the summary has the line that all runs are identical. *)
Lemma summary_verdict report outcomes n :
  AllIdentical n ∈ harness_summary config report outcomes ↔
  n = run_count report ∧ run_count report ≤ root_matches report.
Proof.
  unfold harness_summary. rewrite !elem_of_app.
  assert (Hhead : AllIdentical n ∉ [Summary (RootStability (root_matches report) (run_count report)
     (harness_percentage (root_matches report) (run_count report)));
   Summary (ProcessRootStability (process_root_matches report) (run_count report)
     (harness_percentage (process_root_matches report) (run_count report)));
   Summary (LeafJaccard (minimum_leaf_jaccard report) (mean_leaf_jaccard report))]) by set_solver.
  assert (Htail : ∀ b k t, AllIdentical n ∉ (if b : bool then [TotalDropped k t] else []))
    by (intros [] k t; set_solver).
  destruct (Nat.ltb_spec (root_matches report) (run_count report)) as [Hlt|Hge].
  - split; [|lia]. intros [?|[Hin|Hin]]; [done| |by apply Htail in Hin]. exfalso.
    apply elem_of_cons in Hin as [?|Hin]; [done|]. apply elem_of_app in Hin as [Hin|Hin]; [|set_solver].
    apply list_elem_of_fmap in Hin as (? & ? & _). done.
  - split; [|intros [-> _]; right; left; set_solver].
    intros [?|[Hin|Hin]]; [done| |by apply Htail in Hin]. set_unfold in Hin. naive_solver.
Qed.

Lemma verdict_of_analysis first outcomes report n : length (first :: outcomes) = n →
  analyze ((λ o, (ro_path o, ro_attestation o)) <$> first :: outcomes) = Some report →
  run_count report = n ∧
  (run_count report ≤ root_matches report ↔
   Forall (λ o, root_hash (ro_attestation o) = root_hash (ro_attestation first)) outcomes).
Proof.
  intros Hn Han. destruct (analyze_spec ((λ o, (ro_path o, ro_attestation o)) <$> first :: outcomes)) as [_ Hspec].
  destruct (Hspec report Han) as (path & base & rest & Hin & _ & Hcount & Hbound & Hroots & _).
  rewrite length_fmap in Hcount. split; [by rewrite Hcount|].
  rewrite fmap_cons in Hin. injection Hin as <- <- _.
  assert (Hall : root_matches report = run_count report ↔
    Forall (λ o, root_hash (ro_attestation o) = root_hash (ro_attestation first)) (first :: outcomes))
    by (rewrite Hroots, Forall_fmap; done).
  rewrite Forall_cons in Hall. split; [intros; apply Hall; lia|]. intros Hf.
  assert (root_matches report = run_count report) by (by apply Hall). lia.
Qed.

(** C21. What the harness judges.  If it succeeds, it made at least two runs, each
    with the events and outputs that [trace] would observe in that run's world, with
    no event lost unless that was allowed, and with the document made from them
    under the watch prefixes that the harness resolved before the first run: the
    document that [trace] would write, if the prefixes still resolve to the same
    paths after the run or an output was selected ([harness_prefixes_diverge] shows
    a run where they do not).  And it prints that all runs are identical exactly
    when every run's root hash is the first's. *)
Theorem harness_verdict st st' :
  run_harness fuel sort w0 worlds config report_path st = (st', Value ()) →
  2 ≤ hc_runs config ∧ ∃ root first outcomes,
    w_current_dir w0 = Some root ∧
    Forall2 (run_of_trace root) (seq 1 (hc_runs config)) (first :: outcomes) ∧
    ∃ new, actions st' = actions st ++ new ∧
    (Printed (HarnessOut report_path (AllIdentical (hc_runs config))) ∈ new ↔
     Forall (λ o, root_hash (ro_attestation o) = root_hash (ro_attestation first)) outcomes).
Proof.
  unfold run_harness. intros Hrun.
  apply cli_bind_Value in Hrun as (? & [] & [-> Hruns]%lift_Value & Hrun).
  destruct (Nat.ltb_spec (hc_runs config) 2) as [|Hge]; [done|]. split; [done|].
  apply cli_bind_Value in Hrun as (? & root & [-> Hroot%current_dir_Value]%lift_Value & Hrun).
  cbv zeta in Hrun.
  apply cli_bind_Value in Hrun as (s1 & [] & Hu1%out_Value & Hrun); [|done].
  apply cli_bind_Value in Hrun as (s2 & [] & Hu2%out_Value & Hrun); [|done].
  apply cli_bind_Value in Hrun as (s3 & [] & Hu3 & Hrun).
  assert (undecided s2 s3) by (clear -Hu3; case_bool_decide; [by injection Hu3 as <-|by apply out_Value in Hu3]).
  apply cli_bind_Value in Hrun as (s4 & [] & Hu4 & Hrun).
  assert (undecided s3 s4) by (clear -Hu4; case_bool_decide; [by injection Hu4 as <-|by apply out_Value in Hu4]).
  apply cli_bind_Value in Hrun as (? & [] & [-> _]%lift_Value & Hrun).
  apply cli_bind_Value in Hrun as (s5 & outcomes & [Hu5 (new & -> & Hnew)]%harness_runs_Value & Hrun).
  apply cli_bind_Value in Hrun as (? & report & [-> Hreport]%lift_Value & Hrun).
  rewrite out_all_eq in Hrun. remember (harness_summary _ _ _) as lines eqn:Hlines in Hrun.
  injection Hrun as <-.
  assert (Hu : undecided st s5) by (trans s1; [done|]; trans s2; [done|]; trans s3; [done|]; by trans s4).
  destruct Hu as (pre & Hpre & Hquiet).
  pose proof (Forall2_length _ _ _ Hnew) as Hlen. rewrite length_seq in Hlen.
  destruct new as [|first outcomes]; [simpl in Hlen; lia|]. exists root, first, outcomes.
  split; [done|]. split; [done|]. simpl in Hpre. eexists. split; [cbn [actions]; rewrite Hpre; by rewrite <- app_assoc|].
  cbn [app] in *. destruct (analyze _) as [r|] eqn:Han; [|done]. injection Hreport as ->.
  destruct (verdict_of_analysis first outcomes report _ (eq_sym Hlen) Han) as [Hcount Hiff].
  rewrite elem_of_app. rewrite list_elem_of_fmap. split.
  - intros [Hin|(l & Hl & Hin)].
    + rewrite Forall_forall in Hquiet. by apply Hquiet in Hin.
    + injection Hl as <-. rewrite Hlines in Hin. apply summary_verdict in Hin as [_ Hle]. by apply Hiff.
  - intros Hall. right. exists (AllIdentical (hc_runs config)). split; [done|]. rewrite Hlines. apply summary_verdict.
    split; [by rewrite Hcount|by apply Hiff].
Qed.
End verdict.
