(* ===== verification/CliExamples.v ===== *)
(** * Commands run on a concrete world

    A build of [/home/out], traced without loss: [trace], [verify], [sign] and
    [verify-signature], and two runs of the harness. *)
From S2P Require Import Harness SetupFacts SliceOrder TracerExamples.

Module CliExamples.
Export SetupExamples AttestationExamples DsseExamples StabilityExamples.
#[export] Existing Instance forward_order.

(** ** Serialisers *)

#[export] Instance compact_json : AttestationVec := {| attestation_to_vec := attestation_to_json |}.
#[export] Instance compact_json_laws : AttestationVecLaws.
Proof. split. intros att. apply attestation_json_roundtrip. Qed.

(** The dump: the digests of the operations. *)
#[export] Instance digest_dump : OpsJson := {| ops_to_json ops := str_concat (op_hash <$> ops) |}.

(** The payload, the type and the signature, each counted. *)
Definition envelope_fields (e : Envelope) : string * string * list (string * string) :=
  (payload_type e, payload e, (λ s, (keyid s, sig s)) <$> signatures e).
Definition of_envelope_fields (x : string * string * list (string * string)) : Envelope :=
  let '(t, p, sigs) := x in mkEnvelope t p ((λ '(k, s), mkSignature k s) <$> sigs).

#[export] Instance bits_envelope : EnvelopeJson := {|
  envelope_to_json e := bits_of (encode (envelope_fields e));
  envelope_of_json s :=
    of_envelope_fields <$> decode (of_bits (str_take (String.length s - 1) s))
|}.

#[export] Instance bits_envelope_laws : EnvelopeJsonLaws.
Proof.
  split. intros e. cbn [envelope_to_json envelope_of_json bits_envelope].
  set (text := bits_of (encode (envelope_fields e))).
  assert (Hlen : String.length (text +:+ String "010" "") - 1 = String.length text)
    by (rewrite str_length_app; simpl; lia).
  rewrite Hlen, str_take_app. unfold text. rewrite of_bits_of, decode_encode. cbn [fmap option_fmap option_map].
  destruct e as [t p sigs]. unfold envelope_fields, of_envelope_fields. cbn [payload_type payload signatures].
  do 2 f_equal. rewrite <- list_fmap_compose. rewrite <- (list_fmap_id sigs) at 2.
  apply list_fmap_ext. by intros _ [? ?] _.
Qed.

(** ** The world *)

Definition home_before : WalkFs := {|
  symlink_type path := if path =?= "/home" then Some TypeDir else None;
  read_link _ := None; target_is_file _ := false; canonicalize := Some;
  read_dir _ := Some []; hash_contents _ := Returns None
|}.
Definition home_after : WalkFs := {|
  symlink_type path :=
    if path =?= "/home" then Some TypeDir else if path =?= "/home/out" then Some TypeFile else None;
  read_link _ := None; target_is_file _ := false; canonicalize := Some;
  read_dir _ := Some ["out"]; hash_contents _ := Returns (Some (digest "hello"))
|}.

(** The build under PID [p], with the child [c]. *)
Definition build_items (p c : Z) : list string :=
  [close_record 40 c 3; open_record 0 10 p 3 577 "/w/out"; fork_record 20 p c;
   open_record 1 25 99 5 0 "/w/in"; exit_record 50 p 0].
Definition build_machine (p c : Z) : Machine unit := machine_of p (build_items p c) (Some 0%Z).
Definition world_of (machine : Machine unit) : World unit := {|
  w_current_dir := Some "/home"; w_before := home_before; w_machine := machine;
  w_after := home_after; w_canonicalize := Some; w_writable _ := true; w_chmod _ := true; w_exists _ := false
|}.
(** The build, and the build again under other PIDs. *)
Definition build_world : World unit := world_of (build_machine 7 8).
Definition again_world : World unit := world_of (build_machine 4242 4250).

Definition observed_events (p c : ProcessInstance) : list TracedEvent :=
  [Exec p (Content (digest "hello"));
   FileOpen p "/w/out" 577 3 false (Content EMPTY_CONTENT_HASH);
   Fork p c;
   FileOpen p99 "/w/in" 0 5 true (Content (digest "hello"));
   FileClose c 3 (Some "/w/out") false (Some (Content (digest "hello")));
   Exit p 3].
Definition instance_of (p : Z) : ProcessInstance := mkInstance (mkLifetime p 0) 0.
Definition seen (p c : Z) : Observed :=
  mkObserved (observed_events (instance_of p) (instance_of c)) (instance_of p) 0
    (mkSelected Inferred [mkOutputFile "/home/out" (digest "hello")]).

Lemma build_observed :
  observe 5 ts_sort build_world "/home" ["make"] watch [] [] = Value (seen 7 8).
Proof. vm_compute. reflexivity. Qed.
Lemma again_observed :
  observe 5 ts_sort again_world "/home" ["make"] watch [] [] = Value (seen 4242 4250).
Proof. vm_compute. reflexivity. Qed.

Definition operations_of (w : World unit) (o : Observed) : list CanonicalOp :=
  canonical_operations (cli_watch_prefixes w watch) o.
(** The document of the build. *)
Definition traced : Attestation :=
  reproduced build_world "/home" ["make"] watch [] [] (seen 7 8).

Lemma same_operations :
  op_hash <$> operations_of again_world (seen 4242 4250)
  = op_hash <$> operations_of build_world (seen 7 8).
Proof. vm_compute. reflexivity. Qed.

Definition start : CliState := mkCli ∅ [].

(** ** Witnesses *)

Lemma trace_writes_document_witness :
  ∃ st, trace_arm 5 ts_sort build_world "app.json" None watch [] [] false ["make"] start = (st, Value ()) ∧
    read_from_file (files st !! "app.json") = Ok traced.
Proof.
  destruct (trace_arm_run 5 ts_sort build_world "app.json" watch [] [] false ["make"] start "/home"
    (seen 7 8) eq_refl build_observed (Z.le_refl 0) eq_refl) as (st & Hrun & _).
  exists st. split; [exact Hrun|].
  pose proof (trace_writes_document 5 ts_sort build_world "app.json" None watch [] [] false ["make"]
    start) as Hw.
  rewrite Hrun in Hw. destruct Hw as [Hw _]. destruct (Hw eq_refl) as (root & o & [= <-] & Ho & _ & Hread).
  rewrite build_observed in Ho. injection Ho as <-. exact Hread.
Defined.

Lemma verify_accepts_reproduction_witness :
  ∃ st, trace_arm 5 ts_sort build_world "app.json" None watch [] [] false ["make"] start = (st, Value ()) ∧
    verify_arm 5 ts_sort again_world "app.json" None watch [] [] ["make"] st
    = (mkCli (files st) (actions st ++ [Printed (Verified (root_hash traced))]), Value ()).
Proof.
  destruct (trace_arm_run 5 ts_sort build_world "app.json" watch [] [] false ["make"] start "/home"
    (seen 7 8) eq_refl build_observed (Z.le_refl 0) eq_refl) as (st & Hrun & _).
  exists st. split; [exact Hrun|].
  exact (verify_accepts_reproduction 5 5 ts_sort ts_sort build_world again_world "app.json" None watch
    [] [] false ["make"] start st "/home" (seen 7 8) (seen 4242 4250) None Hrun eq_refl eq_refl
    build_observed again_observed (Z.le_refl 0) eq_refl same_operations (or_introl eq_refl)).
Defined.

(** The files after [trace] wrote the document. *)
Definition written : CliState := mkCli {["app.json" := write_to_file traced]} [].

Lemma written_document : read_from_file (files written !! "app.json") = Ok traced.
Proof.
  unfold written. cbn [files]. rewrite lookup_singleton_eq. unfold traced, reproduced, document.
  apply read_write_roundtrip.
Qed.

Lemma again_same_root :
  root_hash traced = root_hash (reproduced again_world "/home" ["make"] watch [] [] (seen 4242 4250)).
Proof.
  unfold traced, reproduced, document, build_merkle_tree.
  pose proof same_operations as Hs. unfold operations_of in Hs. by rewrite Hs.
Qed.

Lemma verify_accepted :
  verify_arm 5 ts_sort again_world "app.json" (Some (root_hash traced)) watch [] [] ["make"] written
  = (mkCli (files written) [Printed (Verified (root_hash traced))], Value ()).
Proof.
  apply (verify_arm_accepts 5 ts_sort again_world "app.json" (Some (root_hash traced)) watch [] []
    ["make"] written traced "/home" (seen 4242 4250)).
  split; [exact written_document|]. split; [by intros pinned [= <-]|]. do 3 (split; [reflexivity|]).
  split; [exact again_observed|]. split; [exact (Z.le_refl 0)|]. exact again_same_root.
Qed.

Lemma verify_sound_witness :
  ∃ o, observe 5 ts_sort again_world "/home" ["make"] watch [] [] = Value o ∧ (ob_dropped o ≤ 0)%Z ∧
    outputs traced = [mkOutput "out" (digest "hello")] ∧
    outputs traced = outputs (reproduced again_world "/home" ["make"] watch [] [] o).
Proof.
  destruct (verify_sound 5 ts_sort again_world "app.json" (Some (root_hash traced)) watch [] [] ["make"]
    written _ verify_accepted) as (e & root & o & Hread & _ & _ & [= <-] & _ & Ho & Hdrop & _ & Hbind).
  rewrite written_document in Hread. injection Hread as <-.
  exists o. split; [exact Ho|]. split; [exact Hdrop|]. split; [vm_compute; reflexivity|].
  rewrite again_observed in Ho. injection Ho as <-.
  refine (proj1 (proj2 (Hbind eq_refl _ _ _))).
  - apply (bool_decide_unpack (fits_commitment _ _ _ _)). vm_compute. done.
  - apply (bool_decide_unpack (fits_commitment _ _ _ _)). vm_compute. done.
  - apply (bool_decide_unpack (no_collision _)). vm_compute. done.
Defined.

(** The attested output of the build exchanged for another. *)
Lemma legacy_outputs_unbound_witness :
  ∃ st, (∃ forged, read_from_file (files st !! "app.json") = Ok forged ∧
           outputs forged = [mkOutput "out" (digest "malware")] ∧ outputs forged ≠ outputs traced) ∧
    verify_arm 5 ts_sort again_world "app.json" (Some (root_hash traced)) watch [] [] ["make"] st
    = (mkCli (files st) [Printed (Verified (root_hash traced))], Value ()).
Proof.
  destruct (legacy_outputs_unbound 5 ts_sort again_world "app.json" (Some (root_hash traced)) watch [] []
    ["make"] written _ traced [mkOutput "out" (digest "malware")] verify_accepted written_document)
    as [Hread Hverify].
  eexists. split; [|exact Hverify]. eexists. split; [exact Hread|]. split; [reflexivity|].
  apply (bool_decide_unpack _). vm_compute. exact I.
Defined.

(** A state with the keys that [generate-key] wrote and the document. *)
Definition keyed : CliState := (generate_key_arm build_world "k.key" "k.pub" example_key written).1.

Lemma keyed_files :
  files keyed = <["k.pub" := write_verifying_key (verifying_key example_key)]>
    (<["k.key" := write_signing_key example_key]> (files written)).
Proof. reflexivity. Qed.

Lemma sign_verify_roundtrip_witness :
  ∃ st, sign_arm build_world "k.key" "app.json" (Some "app.dsse") keyed = (st, Value ()) ∧
    verify_signature_arm "k.pub" "app.dsse" st
    = (mkCli (files st) (actions st ++ [Printed (SignatureVerified "k.pub" (predicate_type traced)
         (root_hash traced) (format_command ["make"]))]), Value ()).
Proof.
  assert (Hgen : generate_key_arm build_world "k.key" "k.pub" example_key written = (keyed, Value ()))
    by reflexivity.
  assert (Hdoc : read_from_file (files keyed !! "app.json") = Ok traced).
  { rewrite keyed_files, !lookup_insert_ne by discriminate. exact written_document. }
  assert (Hkey : files keyed !! "k.key" = Some (write_signing_key example_key)).
  { rewrite keyed_files, lookup_insert_ne by discriminate. apply lookup_insert_eq. }
  destruct (sign_arm_run build_world "k.key" "app.json" "app.dsse" example_key _ traced keyed Hkey
    (proj1 key_files_roundtrip example_key) Hdoc eq_refl) as [st Hsign].
  exists st. split; [exact Hsign|].
  apply (sign_verify_roundtrip build_world build_world "k.key" "k.pub" example_key "app.json" "app.dsse"
    traced written keyed st Hgen); [discriminate|exact Hdoc|reflexivity|exact Hsign|discriminate].
Defined.

(** The same operations, another command. *)
Definition relinked : Attestation :=
  new_with_outputs (build_merkle_tree (finalize_ops [exec_op; exit_op])) ["make"; "install"]
    (mkSelection "explicit" ["/w/b.o"; "/w/a.o"] []) built.

Lemma made_example command : made
  (new_with_outputs (build_merkle_tree (finalize_ops [exec_op; exit_op])) command
     (mkSelection "explicit" ["/w/b.o"; "/w/a.o"] []) built).
Proof.
  exists (finalize_ops [exec_op; exit_op]), command, (mkSelection "explicit" ["/w/b.o"; "/w/a.o"] []), built.
  split; [|split; [|done]]; apply (bool_decide_unpack _); vm_compute; exact I.
Qed.

Lemma diff_explains_mismatch_witness :
  forallb neutral (print_attestation_diff relinked relinked) = true ∧
  forallb neutral (print_attestation_diff example_attestation relinked) = false.
Proof.
  split; [by apply diff_explains_mismatch; [apply made_example..|]|].
  destruct (forallb _ _) eqn:Hall; [|done].
  apply diff_explains_mismatch in Hall; [|apply made_example..]. vm_compute in Hall. discriminate Hall.
Defined.

(** Twenty outputs differ, all twenty are listed, and still more are announced. *)
Definition twenty : list AttestedOutput := (λ i, mkOutput (decimal (Z.of_nat i)) "h") <$> seq 1 20.
Example twenty_differences :
  let report := print_output_delta [] twenty in
  head report = Some (OutputsChanged 0 0 20) ∧ length report = 22 ∧ last report = Some MoreOutputs.
Proof. vm_compute. auto. Qed.

(** ** The harness *)

(** The harness only writes documents. *)
Definition blank_json : AttestationJson :=
  {| attestation_to_json _ := ""; attestation_of_json _ := None |}.
Definition twice : HarnessConfig := mkConfig 2 watch [] [] false ["make"] None.
Definition run_world (i : nat) : World unit := if (i =? 1)%nat then build_world else again_world.
Definition two_runs : CliState * ended unit :=
  @run_harness _ blank_json _ _ _ 5 ts_sort build_world run_world twice None start.

Lemma two_runs_end : two_runs.2 = Value ().
Proof. vm_compute. reflexivity. Qed.

Lemma harness_verdict_witness :
  two_runs = (two_runs.1, Value ()) ∧
  Printed (HarnessOut None (AllIdentical 2)) ∈ actions two_runs.1.
Proof.
  assert (Hrun : two_runs = (two_runs.1, Value ()))
    by (rewrite <- two_runs_end; destruct two_runs; reflexivity).
  split; [exact Hrun|]. unfold two_runs in Hrun.
  destruct (@harness_verdict _ blank_json _ _ _ 5 ts_sort build_world run_world twice None start _ Hrun)
    as (_ & root & first & outcomes & [= <-] & Hall & new & Hnew & Hverdict).
  unfold two_runs. rewrite Hnew. apply elem_of_app. right. apply Hverdict.
  cbn [hc_runs twice seq] in Hall. inversion_clear Hall as [|? ? ? ? H1 Hrest].
  inversion_clear Hrest as [|? second ? ? H2 Hnil]. inversion_clear Hnil. constructor; [|constructor].
  destruct H1 as (o1 & Ho1 & _ & _ & -> & _), H2 as (o2 & Ho2 & _ & _ & -> & _).
  pose proof (eq_trans (eq_sym Ho1) build_observed) as [= ->].
  pose proof (eq_trans (eq_sym Ho2) again_observed) as [= ->].
  exact (eq_sym again_same_root).
Defined.

(** The build makes [/link], a symbolic link to [/real], and an external process
    reads a file through it.  The harness, which looked at [/link] before the build,
    counts the read; [trace], which looks at it afterwards, does not. *)
Definition linking (made : bool) : World unit := {|
  w_current_dir := Some "/home"; w_before := home_before; w_machine := build_machine 7 8; w_after := home_before;
  w_canonicalize p := if (p =?= "/link") && made then Some "/real" else None;
  w_writable _ := true; w_chmod _ := true; w_exists _ := false
|}.
Definition linked_run : Observed :=
  mkObserved [Exec (instance_of 7) (Content (digest "make"));
              FileOpen p99 "/link/in" 0 5 true (Content (digest "hello")); Exit (instance_of 7) 0]
    (instance_of 7) 0 (mkSelected Inferred []).

Example harness_prefixes_diverge :
  length (canonical_operations (cli_watch_prefixes (linking false) ["/link"]) linked_run) = 3 ∧
  length (canonical_operations (cli_watch_prefixes (linking true) ["/link"]) linked_run) = 2.
Proof. vm_compute. auto. Qed.
End CliExamples.
