(* ===== verification/Rebuild.v ===== *)
(** * Verifying a rebuild

    The commands composed with the two canonicalisations: a second run of a build
    with the events of the first, under other process numbers and in another
    order, verifies against the document of the first. *)
From S2P Require Export CliFacts SliceSchedule CliExamples.

(** The pairs of events whose order the canonicalisation that is used depends on. *)
Definition must_precede (outputs : list OutputFile) (root : ProcessInstance) (prefixes : list string)
    (s : list Occurrence) (x y : Occurrence) : Prop :=
  if bool_decide (outputs = []) then conflict root prefixes s x y else slice_related x.2 y.2 = true.

(** [o2] is the run [o1] under other lifetimes and scheduled otherwise. *)
Record rebuild (prefixes : list string) (o1 o2 : Observed) (ρ : ProcessLifetime → ProcessLifetime)
    (s1 s2 : list Occurrence) : Prop := {
  rb_first : ob_events o1 = s1.*2;
  rb_second : ob_events o2 = rename_event ρ <$> s2.*2;
  rb_root : ob_root o2 = rename_instance ρ (ob_root o1);
  rb_outputs : selected (ob_selected o2) = selected (ob_selected o1);
  rb_same_events : s1 ≡ₚ s2;
  rb_distinct : NoDup s1;
  rb_order x y : must_precede (selected (ob_selected o1)) (ob_root o1) prefixes s1 x y →
    before s1 x y → before s2 x y
}.

(** What the slice needs besides: the processes that left files with the contents
    of an orphaned output, one that no process it includes produced, ran one tool.
    The walk of all events needs nothing of the kind. *)
Definition orphans_agree (o : Observed) : Prop :=
  selected (ob_selected o) = [] ∨
  orphan_writers_agree (scan (ob_root o) (ob_events o)) (selected (ob_selected o)).

(** The writers agree if a single tool writes. *)
Lemma one_tool_agrees st tool outputs :
  map_Forall (λ _ flow, writes flow ∪ renames flow ≠ ∅ → flow_tool_hash flow = tool) (flows st) →
  orphan_writers_agree st outputs.
Proof.
  intros Hall h w1 flow1 w2 flow2 _ _ Hf1 Hp1 Hf2 Hp2.
  rewrite (Hall w1 flow1 Hf1), (Hall w2 flow2 Hf2); [done|set_solver..].
Qed.

Lemma rebuild_leaves `{Sha256} (O1 O2 : HashOrder) `{!@HashOrderLaws O1, !@HashOrderLaws O2}
    prefixes o1 o2 ρ `{!Inj (=) (=) ρ} s1 s2 : rebuild prefixes o1 o2 ρ s1 s2 → orphans_agree o1 →
  op_hash <$> canonical_operations (hash_order := O2) prefixes o2
  = op_hash <$> canonical_operations (hash_order := O1) prefixes o1.
Proof.
  intros [Hfst Hsnd Hroot Hout Hp Hnd Hord] Hor. unfold orphans_agree in Hor. unfold canonical_operations. cbv zeta. unfold must_precede in Hord.
  rewrite Hout, Hsnd, Hroot. case_bool_decide as Hsel.
  - rewrite Hfst. by apply run_independent_leaves.
  - destruct Hor as [|Hor]; [done|]. rewrite Hfst in Hor |- *. by apply slice_run_leaves.
Qed.

Section rebuilds.
Context `{Sha256} `{CommitmentJson} `{AttestationJson} `{OpsJson} `{F64} {Handle : Type}.

(** C3. A rebuild verifies.  Suppose [trace] succeeded in one world.  Suppose that
    in another the same command ran under the same flags in a directory of the same
    name, with the same watch prefixes, and lost no event; that it selected the
    same outputs with the same contents; and that its events are those of the first
    run under other process numbers, interleaved in any order that keeps the pairs
    that [must_precede].  Suppose also that no output was selected, or that the
    processes which left files with the contents of an orphaned output (one that no
    process in the slice produced) ran one tool; without this the order of a hash
    table shows, see [slice_orphan_nondeterministic].  Then [verify] of the file that
    [trace] wrote succeeds there, with the root pinned or not, whatever order each
    run visits its hash tables in; and it writes no file. *)
Theorem rebuild_verifies `{!AttestationJsonLaws} (O1 O2 : HashOrder)
    `{!@HashOrderLaws O1, !@HashOrderLaws O2} fuel1 fuel2 sort1 sort2 (w1 w2 : World Handle) output
    dump_ops watch_dirs artifact_paths root_paths allow command st st1 root o1 o2 ρ `{!Inj (=) (=) ρ} s1 s2 pinned :
  trace_arm (hash_order := O1) fuel1 sort1 w1 output dump_ops watch_dirs artifact_paths root_paths allow command st
    = (st1, Value ()) →
  w_current_dir w1 = Some root → w_current_dir w2 = Some root →
  observe fuel1 sort1 w1 root command watch_dirs artifact_paths root_paths = Value o1 →
  observe fuel2 sort2 w2 root command watch_dirs artifact_paths root_paths = Value o2 →
  (ob_dropped o2 ≤ 0)%Z → cli_watch_prefixes w2 watch_dirs = cli_watch_prefixes w1 watch_dirs →
  rebuild (cli_watch_prefixes w1 watch_dirs) o1 o2 ρ s1 s2 → orphans_agree o1 →
  let att := reproduced (hash_order := O1) w1 root command watch_dirs artifact_paths root_paths o1 in
  pinned = None ∨ pinned = Some (root_hash att) →
  verify_arm (hash_order := O2) fuel2 sort2 w2 output pinned watch_dirs artifact_paths root_paths command st1
  = (mkCli (files st1) (actions st1 ++ [Printed (Verified (root_hash att))]), Value ()).
Proof.
  intros Htrace Hr1 Hr2 Ho1 Ho2 Hdrop Hpre Hre Hor att Hpin.
  apply (reproduction_verifies O1 O2 fuel1 fuel2 sort1 sort2 w1 w2 output dump_ops watch_dirs artifact_paths
    root_paths allow command st st1 root o1 o2 pinned); [done..|by apply (rb_outputs _ _ _ _ _ _ Hre)| |done].
  rewrite Hpre. by eapply rebuild_leaves.
Qed.
End rebuilds.

(** ** Example: the parent exits before its child closes the output *)

Module RebuildExamples.
Import CliExamples Toy.

(** The events of [CliExamples.build_items], some at other times. *)
Definition later_items (p c : Z) : list string :=
  [close_record 60 c 3; open_record 0 10 p 3 577 "/w/out"; fork_record 20 p c;
   open_record 1 15 99 5 0 "/w/in"; exit_record 50 p 0].
Definition later_world : World unit :=
  world_of (machine_of 4242 (later_items 4242 4250) (Some 0%Z)).

Definition first_run : list Occurrence := imap pair (ob_events (seen 7 8)).
Definition later_run : list Occurrence := omap (λ i, first_run !! i) [0; 1; 3; 2; 5; 4]%nat.

(** The processes of the two runs trade their numbers. *)
Definition trade_number (p : Z) : Z :=
  (if p =? 7 then 4242 else if p =? 4242 then 7 else if p =? 8 then 4250 else if p =? 4250 then 8 else p)%Z.
Definition trade (l : ProcessLifetime) : ProcessLifetime := mkLifetime (trade_number (pid l)) (generation l).

#[export] Instance trade_inj : Inj (=) (=) trade.
Proof.
  intros [p g] [q h] [= Hp ->]. f_equal. unfold trade_number in Hp.
  repeat match type of Hp with context [(?a =? ?b)%Z] => destruct (Z.eqb_spec a b) end; lia.
Qed.

Definition later_seen : Observed :=
  mkObserved (rename_event trade <$> later_run.*2) (instance_of 4242) 0 (ob_selected (seen 7 8)).

Lemma later_observed : observe 5 ts_sort later_world "/home" ["make"] watch [] [] = Value later_seen.
Proof. vm_compute. reflexivity. Qed.

Lemma later_rebuild prefixes : rebuild prefixes (seen 7 8) later_seen trade first_run later_run.
Proof.
  split; [done..| | |].
  - apply (bool_decide_unpack _). vm_compute. exact I.
  - apply (bool_decide_unpack _). vm_compute. exact I.
  - intros x y Hxy. unfold must_precede in Hxy. rewrite bool_decide_eq_false_2 in Hxy by done. revert x y Hxy.
    apply (reorders_spec (λ x y, slice_related x.2 y.2)). vm_compute. reflexivity.
Qed.

Lemma seen_orphans_agree : orphans_agree (seen 7 8).
Proof.
  right. apply (one_tool_agrees _ (Some (digest "hello"))). apply (bool_decide_unpack _). vm_compute. exact I.
Qed.

Lemma rebuild_verifies_witness :
  ∃ st, trace_arm 5 ts_sort build_world "app.json" None watch [] [] false ["make"] start = (st, Value ()) ∧
    verify_arm (hash_order := backward_order) 5 ts_sort later_world "app.json" None watch [] [] ["make"] st
    = (mkCli (files st) (actions st ++ [Printed (Verified (root_hash traced))]), Value ()).
Proof.
  destruct (trace_arm_run 5 ts_sort build_world "app.json" watch [] [] false ["make"] start "/home"
    (seen 7 8) eq_refl build_observed (Z.le_refl 0) eq_refl) as (st & Hrun & _).
  exists st. split; [exact Hrun|].
  exact (rebuild_verifies forward_order backward_order 5 5 ts_sort ts_sort build_world later_world "app.json" None
    watch [] [] false ["make"] start st "/home" (seen 7 8) later_seen trade first_run later_run None Hrun eq_refl
    eq_refl build_observed later_observed (Z.le_refl 0) eq_refl (later_rebuild _)
    seen_orphans_agree (or_introl eq_refl)).
Defined.
End RebuildExamples.
