(* ===== verification/TestFiles.v ===== *)
(** * What the repository's unit tests use

    The tests under [#\[cfg(test)\]] are definitions of the test files: each
    builds the events and files of its test and evaluates its assertions; the
    examples check them on the model, with the SHA-256 of [Fips180] where a test
    expects a digest and the cheaper [Toy] elsewhere.  A test of the program passes
    when it does not panic, so one of the model passes when it is [Returns true].  Here are the temporary directory that the tests write,
    [unwrap], and the processes of [ProcessInstance::test]. *)
From S2P Require Export FileIdentity Events.

(** [Option::unwrap]. *)
Definition unwrap {A} (x : option A) : partial A := match x with Some a => Returns a | None => Panics end.

(** [iter().any(..)]. *)
Definition any {A} (f : A → bool) (l : list A) : bool := existsb f l.

Definition test (pid : Z) : ProcessInstance := mkInstance (mkLifetime pid 0) 0.
Definition test_epoch (pid exec_epoch : Z) : ProcessInstance := mkInstance (mkLifetime pid 0) exec_epoch.

(** ** Files *)

(** The regular files of the host and their contents. *)
Abbreviation Disk := (gmap string string).

Definition written (files : list (string * string)) (host : Disk) : Disk :=
  foldl (λ d '(path, contents), <[path := contents]> d) host files.

Definition disk_files (d : Disk) : FileSystem := {|
  fs_metadata path :=
    match d !! path with
    | Some contents => IoOk {| is_file := true; file_len := Z.of_nat (String.length contents) |}
    | None => IoErr NotFound
    end;
  fs_open path :=
    match d !! path with
    | Some contents => IoOk {|
        file_metadata := IoOk {| is_file := true; file_len := Z.of_nat (String.length contents) |};
        file_seek := true; file_contents := Some contents |}
    | None => IoErr NotFound
    end
|}.

Section files.
Context `{Sha256} (d : Disk).

Definition observed (path : string) : partial FileObservation := @observe_path _ (disk_files d) path.
(** [hash_file_contents(path).unwrap()]. *)
Definition hashed (path : string) : partial string := @hash_file_contents _ (disk_files d) path ≫= unwrap.
End files.
