(* ===== verification/SliceTests.v ===== *)
(** * The unit tests of [repx/src/slice.rs]

    One definition per test, over any iteration order of the hash tables, any
    other files of the host and any name of the temporary directory; evaluated in
    two orders. *)
From S2P Require Export TestFiles SliceOrder.

Section slice_tests.
Context `{Sha256} `{HashOrder} (host : Disk) (nonce : string).

Definition unique_dir (name : string) : string := path_push "/tmp" ("repx-slice-" +:+ name +:+ "-" +:+ nonce).

Definition of_type (ty : OpType) (op : CanonicalOp) : bool := op_type op =?= ty.
Definition by_tool (tool : string) (op : CanonicalOp) : bool := tool_hash op =?= Some tool.
Definition gives (hash : string) (op : CanonicalOp) : bool := output_hashes op =?= [hash].

Definition slices_to_process_that_wrote_changed_output : partial bool :=
  let dir := unique_dir "basic" in
  let tool := path_push dir "tool" in
  let input := path_push dir "input.txt" in
  let output := path_push dir "output.txt" in
  let unrelated := path_push dir "unrelated.txt" in
  let d := written [(tool, "tool"); (input, "input"); (output, "output"); (unrelated, "unrelated")] host in
  output_hash ← hashed d output;
  tool_seen ← observed d tool;
  input_seen ← observed d input;
  output_seen ← observed d output;
  unrelated_seen ← observed d unrelated;
  let events := [
    Exec (test 10) tool_seen;
    FileOpen (test 10) input 0 3 false input_seen;
    FileOpen (test 10) output 1 4 false output_seen;
    FileClose (test 10) 4 (Some output) false (Some output_seen);
    FileOpen (test 11) unrelated 1 5 false unrelated_seen;
    FileClose (test 11) 5 (Some unrelated) false (Some unrelated_seen);
    Exit (test 10) 0] in
  let ops := canonicalize_output_slice events (test 10) [mkOutputFile output output_hash] in
  unrelated_hash ← hashed d unrelated;
  Returns (any (of_type OpExec) ops && any (of_type OpFileRead) ops && any (of_type OpFileWrite) ops
    && negb (any (λ op, any (λ hash, hash =?= unrelated_hash) (output_hashes op)) ops)).

Definition prefers_output_path_writer_over_same_hash_writer : partial bool :=
  let dir := unique_dir "path-writer" in
  let tool := path_push dir "tool" in
  let input := path_push dir "input.txt" in
  let output := path_push dir "output.txt" in
  let cache := path_push dir "cache.txt" in
  let volatile := path_push dir "volatile.txt" in
  let d := written [(tool, "tool"); (input, "input"); (output, "same"); (cache, "same");
                    (volatile, "volatile")] host in
  output_hash ← hashed d output;
  volatile_hash ← hashed d volatile;
  tool_seen ← observed d tool;
  input_seen ← observed d input;
  output_seen ← observed d output;
  volatile_seen ← observed d volatile;
  cache_seen ← observed d cache;
  let events := [
    Exec (test 10) tool_seen;
    FileOpen (test 10) input 0 3 false input_seen;
    FileOpen (test 10) output 1 4 false output_seen;
    FileClose (test 10) 4 (Some output) false (Some output_seen);
    Exec (test 20) tool_seen;
    FileOpen (test 20) volatile 0 5 false volatile_seen;
    FileOpen (test 20) cache 1 6 false cache_seen;
    FileClose (test 20) 6 (Some cache) false (Some cache_seen)] in
  let ops := canonicalize_output_slice events (test 10) [mkOutputFile output output_hash] in
  Returns (negb (any (λ op, any (λ hash, hash =?= volatile_hash) (input_hashes op)) ops)).

Definition child_output_writer_seeds_the_provenance_slice : partial bool :=
  let dir := unique_dir "child-writer" in
  let root_tool := path_push dir "root-tool" in
  let child_tool := path_push dir "child-tool" in
  let output := path_push dir "output.txt" in
  let d := written [(root_tool, "root"); (child_tool, "child"); (output, "output")] host in
  output_hash ← hashed d output;
  child_tool_hash ← hashed d child_tool;
  root_tool_seen ← observed d root_tool;
  child_tool_seen ← observed d child_tool;
  output_seen ← observed d output;
  let events := [
    Exec (test 10) root_tool_seen;
    Exec (test 11) child_tool_seen;
    FileOpen (test 11) output 1 4 false output_seen;
    FileClose (test 11) 4 (Some output) false (Some output_seen)] in
  let ops := canonicalize_output_slice events (test 10) [mkOutputFile output output_hash] in
  Returns (any (λ op, of_type OpExec op && by_tool child_tool_hash op) ops
    && any (λ op, of_type OpFileWrite op && by_tool child_tool_hash op && gives output_hash op) ops).

Definition read_only_close_does_not_claim_output_authorship : partial bool :=
  let dir := unique_dir "read-only-close" in
  let tool := path_push dir "tool" in
  let output := path_push dir "output.txt" in
  let d := written [(tool, "tool"); (output, "output")] host in
  tool_seen ← observed d tool;
  output_seen ← observed d output;
  output_hash ← hashed d output;
  let ops := canonicalize_output_slice [
      Exec (test 10) tool_seen;
      FileOpen (test 10) output 0 3 false output_seen;
      FileClose (test 10) 3 (Some output) false (Some output_seen)]
    (test 10) [mkOutputFile output output_hash] in
  Returns (negb (any (of_type OpExec) ops)
    && any (λ op, of_type OpFileWrite op && (process_index op =?= U32_MAX)) ops).

Definition output_slice_omits_unavailable_transient_dependencies : partial bool :=
  let dir := unique_dir "unavailable-transient" in
  let tool := path_push dir "tool" in
  let output := path_push dir "output.txt" in
  let d := written [(tool, "tool"); (output, "output")] host in
  let unavailable := Missing "sha256:random-temp-path" in
  tool_seen ← observed d tool;
  output_seen ← observed d output;
  output_hash ← hashed d output;
  let ops := canonicalize_output_slice [
      Exec (test 10) tool_seen;
      FileOpen (test 10) "/tmp/cc-random.s" 0 3 false unavailable;
      FileOpen (test 10) output 1 4 false unavailable;
      FileClose (test 10) 4 (Some output) false (Some output_seen)]
    (test 10) [mkOutputFile output output_hash] in
  Returns (any (of_type OpExec) ops
    && negb (any (λ op, any (starts_with "missing:") (input_hashes op ++ output_hashes op)) ops)).

Definition rename_propagates_writer_to_final_output_path : partial bool :=
  let dir := unique_dir "rename-output" in
  let writer_tool := path_push dir "writer-tool" in
  let renamer_tool := path_push dir "renamer-tool" in
  let temporary := path_push dir "artifact.tmp" in
  let output := path_push dir "artifact" in
  let d := written [(writer_tool, "writer"); (renamer_tool, "renamer"); (output, "artifact")] host in
  output_hash ← hashed d output;
  writer_tool_hash ← hashed d writer_tool;
  renamer_tool_hash ← hashed d renamer_tool;
  let content := Content output_hash in
  writer_tool_seen ← observed d writer_tool;
  renamer_tool_seen ← observed d renamer_tool;
  let ops := canonicalize_output_slice [
      Exec (test 10) writer_tool_seen;
      FileOpen (test 10) temporary 1 3 false content;
      FileClose (test 10) 3 (Some temporary) false (Some content);
      Exec (test 11) renamer_tool_seen;
      FileRename (test 11) temporary output 0 false content]
    (test 10) [mkOutputFile output output_hash] in
  Returns (any (λ op, of_type OpFileWrite op && by_tool writer_tool_hash op && gives output_hash op) ops
    && any (λ op, of_type OpFileRename op && by_tool renamer_tool_hash op && gives output_hash op) ops).

Definition rename_attribution_survives_reordered_events : partial bool :=
  let dir := unique_dir "rename-reorder" in
  let writer_tool := path_push dir "writer" in
  let renamer_tool := path_push dir "renamer" in
  let output := path_push dir "output" in
  let temp := path_push dir "output.tmp" in
  let d := written [(writer_tool, "writer"); (renamer_tool, "renamer"); (output, "content")] host in
  output_hash ← hashed d output;
  writer_tool_hash ← hashed d writer_tool;
  let content := Content output_hash in
  let writer := test 10 in
  let renamer := test 11 in
  writer_tool_seen ← observed d writer_tool;
  renamer_tool_seen ← observed d renamer_tool;
  let ops := canonicalize_output_slice [
      Exec writer writer_tool_seen;
      Exec renamer renamer_tool_seen;
      FileRename renamer temp output 0 false content;
      FileOpen writer temp 1 3 false content;
      FileClose writer 3 (Some temp) false (Some content)]
    writer [mkOutputFile output output_hash] in
  Returns (forallb (λ op, negb (process_index op =?= U32_MAX)) ops
    && any (λ op, of_type OpFileWrite op && by_tool writer_tool_hash op && gives output_hash op) ops).

Definition writable_fd_keeps_its_opening_exec_instance_across_reexec : partial bool :=
  let dir := unique_dir "reexec-writer" in
  let initial_tool := path_push dir "initial-tool" in
  let reexec_tool := path_push dir "reexec-tool" in
  let output := path_push dir "output.txt" in
  let d := written [(initial_tool, "initial"); (reexec_tool, "reexec"); (output, "output")] host in
  let initial := test 10 in
  let reexec := test_epoch 10 1 in
  initial_tool_hash ← hashed d initial_tool;
  reexec_tool_hash ← hashed d reexec_tool;
  output_hash ← hashed d output;
  initial_tool_seen ← observed d initial_tool;
  reexec_tool_seen ← observed d reexec_tool;
  output_seen ← observed d output;
  let ops := canonicalize_output_slice [
      Exec initial initial_tool_seen;
      FileOpen initial output 1 3 false output_seen;
      Exec reexec reexec_tool_seen;
      FileClose reexec 3 (Some output) false (Some output_seen)]
    initial [mkOutputFile output output_hash] in
  Returns (any (λ op, of_type OpFileWrite op && by_tool initial_tool_hash op && gives output_hash op) ops
    && negb (any (λ op, of_type OpFileWrite op && by_tool reexec_tool_hash op) ops)).

Definition forked_writer_inherits_parent_tool_without_a_synthetic_exec : partial bool :=
  let dir := unique_dir "fork-inheritance" in
  let tool := path_push dir "tool" in
  let output := path_push dir "output.txt" in
  let d := written [(tool, "tool"); (output, "output")] host in
  let parent := test 10 in
  let child := test 11 in
  tool_hash ← hashed d tool;
  output_hash ← hashed d output;
  tool_seen ← observed d tool;
  output_seen ← observed d output;
  let ops := canonicalize_output_slice [
      Exec parent tool_seen;
      Fork parent child;
      FileOpen child output 1 3 false output_seen;
      FileClose child 3 (Some output) false (Some output_seen)]
    parent [mkOutputFile output output_hash] in
  Returns (any (λ op, of_type OpFileWrite op && by_tool tool_hash op && gives output_hash op) ops
    && negb (any (of_type OpExec) ops)).

Definition inherited_writable_fd_remains_attributed_to_its_opener : partial bool :=
  let dir := unique_dir "inherited-fd" in
  let parent_tool := path_push dir "parent-tool" in
  let child_tool := path_push dir "child-tool" in
  let output := path_push dir "output.txt" in
  let d := written [(parent_tool, "parent"); (child_tool, "child"); (output, "output")] host in
  let parent := test 10 in
  let child := test 11 in
  let child_exec := test_epoch 11 1 in
  parent_tool_hash ← hashed d parent_tool;
  child_tool_hash ← hashed d child_tool;
  output_hash ← hashed d output;
  parent_tool_seen ← observed d parent_tool;
  child_tool_seen ← observed d child_tool;
  output_seen ← observed d output;
  let ops := canonicalize_output_slice [
      Exec parent parent_tool_seen;
      FileOpen parent output 1 3 false output_seen;
      Fork parent child;
      Exec child_exec child_tool_seen;
      FileClose child_exec 3 (Some output) false (Some output_seen)]
    parent [mkOutputFile output output_hash] in
  Returns (any (λ op, of_type OpFileWrite op && by_tool parent_tool_hash op && gives output_hash op) ops
    && negb (any (λ op, of_type OpFileWrite op && by_tool child_tool_hash op) ops)).

Definition slice_tests : list (partial bool) := [
  slices_to_process_that_wrote_changed_output;
  prefers_output_path_writer_over_same_hash_writer;
  child_output_writer_seeds_the_provenance_slice;
  read_only_close_does_not_claim_output_authorship;
  output_slice_omits_unavailable_transient_dependencies;
  rename_propagates_writer_to_final_output_path;
  rename_attribution_survives_reordered_events;
  writable_fd_keeps_its_opening_exec_instance_across_reexec;
  forked_writer_inherits_parent_tool_without_a_synthetic_exec;
  inherited_writable_fd_remains_attributed_to_its_opener].
End slice_tests.

Module SliceTestRuns.
Import Toy.

Example slice_tests_pass_forward :
  @slice_tests _ forward_order ∅ "4242-1754000000000000000" = repeat (Returns true) 10.
Proof. vm_compute. reflexivity. Qed.

Example slice_tests_pass_backward :
  @slice_tests _ backward_order ∅ "4242-1754000000000000000" = repeat (Returns true) 10.
Proof. vm_compute. reflexivity. Qed.
End SliceTestRuns.
