(* ===== verification/CanonTests.v ===== *)
(** * The unit tests of [repx/src/canonicalize.rs]

    One definition per test, over any other files of the host and any name of the
    temporary directory. *)
From S2P Require Export TestFiles Canonicalize.

Section canonicalize_tests.
Context `{Sha256} (host : Disk) (nonce : string).

Definition unique_test_dir (name : string) : string :=
  path_push "/tmp" ("repx-canonicalize-" +:+ name +:+ "-" +:+ nonce).

Definition is_op (ty : OpType) (op : CanonicalOp) : bool := op_type op =?= ty.
Definition has_tool (tool : string) (op : CanonicalOp) : bool := tool_hash op =?= Some tool.

Definition drops_external_opens_outside_watched_prefixes : partial bool :=
  not_watched ← observed host "/tmp/not-watched";
  let ops := canonicalize_events (test 1) ["/watched"]
    [FileOpen (test 2) "/tmp/not-watched" 1 3 true not_watched] in
  Returns (bool_decide (ops = [])).

Definition drops_external_mmaps_outside_watched_prefixes : partial bool :=
  not_watched ← observed host "/tmp/not-watched";
  let ops := canonicalize_events (test 1) ["/watched"]
    [FileMmap (test 2) 3 0 0x2 (Some "/tmp/not-watched") true (Some not_watched)] in
  Returns (bool_decide (ops = [])).

Definition fallback_external_pid_stays_external_after_exec : partial bool :=
  let dir := unique_test_dir "fallback-external" in
  let write_path := path_push dir "artifact.txt" in
  let mmap_path := path_push dir "input.txt" in
  let d := written [(write_path, "artifact"); (mmap_path, "input")] host in
  write_seen ← observed d write_path;
  true_seen ← observed d "/bin/true";
  mmap_seen ← observed d mmap_path;
  let ops := canonicalize_events (test 1) [dir] [
    FileOpen (test 2) write_path 1 3 false write_seen;
    Exec (test 2) true_seen;
    FileMmap (test 2) 4 0 0x2 (Some mmap_path) false (Some mmap_seen);
    FileClose (test 2) 3 (Some write_path) false (Some write_seen)] in
  Returns ((length (List.filter (is_op OpExec) ops) =?= 1)
    && any (λ op, is_op OpExternalFileRead op && (process_index op =?= U32_MAX)) ops
    && any (λ op, is_op OpExternalFileWrite op && (process_index op =?= U32_MAX)
                  && negb (bool_decide (output_hashes op = []))) ops
    && (length (List.filter (λ op, is_op OpFileRead op || is_op OpFileWrite op) ops) =?= 0)).

Definition read_write_open_records_both_input_and_output : partial bool :=
  let dir := unique_test_dir "rdwr" in
  let path := path_push dir "archive.a" in
  let d := written [(path, "archive")] host in
  observation ← observed d path;
  let ops := canonicalize_events (test 1) [] [
    FileOpen (test 1) path 2 3 false observation;
    FileClose (test 1) 3 (Some path) false (Some observation)] in
  Returns (any (is_op OpFileRead) ops && any (is_op OpFileWrite) ops).

Definition private_writable_mmap_is_a_read_not_a_write : partial bool :=
  let dir := unique_test_dir "private-mmap" in
  let path := path_push dir "library.so" in
  let d := written [(path, "library")] host in
  seen ← observed d path;
  let ops := canonicalize_events (test 1) [] [FileMmap (test 1) 3 0x3 0x2 (Some path) false (Some seen)] in
  Returns (any (is_op OpFileRead) ops && negb (any (is_op OpFileWrite) ops)).

Definition rename_and_unlink_are_distinct_operations : partial bool :=
  let dir := unique_test_dir "path-mutations" in
  let from := path_push dir "artifact.tmp" in
  let to := path_push dir "artifact" in
  let d := written [(to, "artifact")] host in
  observation ← observed d to;
  let ops := canonicalize_events (test 1) [] [
    FileRename (test 1) from to 0 false observation;
    FileUnlink (test 1) to 0 false observation] in
  Returns (any (is_op OpFileRename) ops && any (is_op OpFileDelete) ops).

Definition reexec_attributes_operations_to_the_active_executable : partial bool :=
  let initial := test 1 in
  let reexec := test_epoch 1 1 in
  let initial_tool := "sha256:initial-tool" in
  let reexec_tool := "sha256:reexec-tool" in
  let ops := canonicalize_events initial [] [
    Exec initial (Content initial_tool);
    FileOpen initial "/workspace/initial-input" 0 3 false (Content "sha256:initial-input");
    Exec reexec (Content reexec_tool);
    FileOpen reexec "/workspace/reexec-input" 0 4 false (Content "sha256:reexec-input")] in
  Returns (any (λ op, is_op OpFileRead op && has_tool initial_tool op
                      && (input_hashes op =?= ["sha256:initial-input"])) ops
    && any (λ op, is_op OpFileRead op && has_tool reexec_tool op
                  && (input_hashes op =?= ["sha256:reexec-input"])) ops).

Definition forked_process_inherits_the_parent_executable : partial bool :=
  let parent := test 1 in
  let child := test 2 in
  let tool := "sha256:parent-tool" in
  let ops := canonicalize_events parent [] [
    Exec parent (Content tool);
    Fork parent child;
    FileOpen child "/workspace/child-input" 0 3 false (Content "sha256:child-input")] in
  Returns (any (λ op, is_op OpFileRead op && has_tool tool op
                      && (input_hashes op =?= ["sha256:child-input"])) ops).

Definition inherited_writable_fd_closes_against_the_opening_instance : partial bool :=
  let parent := test 1 in
  let child := test 2 in
  let child_exec := test_epoch 2 1 in
  let parent_tool := "sha256:parent-tool" in
  let child_tool := "sha256:child-tool" in
  let ops := canonicalize_events parent [] [
    Exec parent (Content parent_tool);
    FileOpen parent "/workspace/output" 1 3 false (Content "sha256:old-output");
    Fork parent child;
    FileClose parent 3 (Some "/workspace/output") false (Some (Content "sha256:intermediate-output"));
    Exec child_exec (Content child_tool);
    FileClose child_exec 3 (Some "/workspace/output") false (Some (Content "sha256:output"))] in
  Returns (any (λ op, is_op OpFileWrite op && has_tool parent_tool op
                      && (output_hashes op =?= ["sha256:output"])) ops
    && negb (any (λ op, is_op OpFileWrite op && has_tool child_tool op) ops)).

Definition canonicalize_tests : list (partial bool) := [
  drops_external_opens_outside_watched_prefixes;
  drops_external_mmaps_outside_watched_prefixes;
  fallback_external_pid_stays_external_after_exec;
  read_write_open_records_both_input_and_output;
  private_writable_mmap_is_a_read_not_a_write;
  rename_and_unlink_are_distinct_operations;
  reexec_attributes_operations_to_the_active_executable;
  forked_process_inherits_the_parent_executable;
  inherited_writable_fd_closes_against_the_opening_instance].
End canonicalize_tests.

Module CanonTestRuns.
Import Toy.

(** On a host without [/bin/true], and on one with it. *)
Example canonicalize_tests_pass : canonicalize_tests ∅ "4242-1754" = repeat (Returns true) 9.
Proof. vm_compute. reflexivity. Qed.

Example canonicalize_tests_pass_with_true :
  canonicalize_tests {["/bin/true" := "ELF"]} "4242-1754" = repeat (Returns true) 9.
Proof. vm_compute. reflexivity. Qed.
End CanonTestRuns.
