(* ===== verification/FileTests.v ===== *)
(** * The unit tests of the file modules

    Those of [repx/src/file_identity.rs] and [repx/src/workspace.rs], over any
    other files of the host and any name of the temporary directory. *)
From S2P Require Export TestFiles Workspace.

(** [s.repeat(n)], the line feed, and [format!("{:>20}", n)]. *)
Definition repeated (s : string) (n : nat) : string := String.concat "" (repeat s n).
Definition line_feed : string := String "010" "".
Definition right20 (n : Z) : string :=
  repeated " " (20 - String.length (decimal n)) +:+ decimal n.

(** ** [file_identity.rs] *)

Section file_identity_tests.
Context `{Sha256} (host : Disk) (nonce : string).

Definition identity_of (path : string) : partial string :=
  observation ← observed host path; Returns (identity observation).

Definition system_state_matching_respects_path_boundaries : bool :=
  is_system_state "/proc/cpuinfo" && is_system_state "/etc/os-release"
  && negb (is_system_state "/etc/os-release-evil") && negb (is_system_state "/proc-evil/cpuinfo").

Definition go_telemetry_state_is_system_state : bool :=
  is_system_state "/root/.config/go/telemetry/local/go@go1.25.7-go1.25.7-linux-amd64-2026-06-12.v1.count"
  && is_system_state "/home/user/.config/go/telemetry/mode"
  && negb (is_system_state "/srv/go/telemetry-archive/data")
  && negb (is_system_state "/srv/django/telemetry/data").

Definition missing_files_are_bound_to_their_paths : partial bool :=
  first ← identity_of "/definitely-missing/repx-a";
  second ← identity_of "/definitely-missing/repx-b";
  Returns (starts_with "missing:sha256:" first && negb (first =?= second)).

Definition unavailable_session_paths_are_normalized : partial bool :=
  first ← identity_of "/tmp/tmp.ABCDEF/src/gone";
  second ← identity_of "/tmp/tmp.XYZ123/src/gone";
  compiler_first ← identity_of "/tmp/ccABCDEF.s";
  compiler_second ← identity_of "/tmp/ccUVWXYZ.s";
  Returns ((first =?= second) && (compiler_first =?= compiler_second)).

Definition watched_paths_respect_directory_boundaries : bool :=
  is_path_within "/tmp/build/out" "/tmp/build" && negb (is_path_within "/tmp/build-evil/out" "/tmp/build").

Definition import_config (package_path : string) : string :=
  "# import config" +:+ line_feed +:+ "packagefile fmt=" +:+ package_path +:+ line_feed.

Definition go_import_configs_normalize_random_work_roots : bool :=
  let first := import_config "/tmp/go-tmp/go-build123/b002/_pkg_.a" in
  let second := import_config "/tmp/go-tmp/go-build987/b002/_pkg_.a" in
  (normalize_go_import_config first =?= normalize_go_import_config second)
  && (normalize_go_import_config first =?= Some (import_config "$WORK/b002/_pkg_.a")).

Definition go_import_configs_preserve_stable_dependency_paths : bool :=
  let modinfo := "modinfo " +:+ String "034" ("same" +:+ String "034" line_feed) in
  let first := "packagefile fmt=/nix/store/first/fmt.a" +:+ line_feed +:+ modinfo in
  let second := "packagefile fmt=/nix/store/second/fmt.a" +:+ line_feed +:+ modinfo in
  (normalize_go_import_config first =?= None) && (normalize_go_import_config second =?= None).

Definition go_import_config_detection_is_path_scoped : bool :=
  is_go_import_config_path "/tmp/go-tmp/go-build123/b001/importcfg.link"
  && negb (is_go_import_config_path "/workspace/importcfg")
  && negb (is_go_import_config_path "/tmp/go-tmp/go-builder/b001/importcfg").

Definition unavailable_go_work_paths_are_normalized : partial bool :=
  first ← identity_of "/tmp/go-tmp/go-build123/b001/gone";
  second ← identity_of "/tmp/go-tmp/go-build987654/b001/gone";
  work_root_first ← identity_of "/tmp/go-tmp/go-build123";
  work_root_second ← identity_of "/tmp/go-tmp/go-build987654";
  unrelated ← identity_of "/tmp/go-tmp/go-builder/b001/gone";
  Returns (starts_with "missing:sha256:" first && (first =?= second) && (work_root_first =?= work_root_second)
    && negb (first =?= unrelated)).

Definition cache_entry (action_id output_id : string) (put_time : Z) : string :=
  "v1 " +:+ action_id +:+ " " +:+ output_id +:+ " " +:+ right20 0 +:+ " " +:+ right20 put_time +:+ line_feed.

Definition go_cache_entries_normalize_put_timestamps : partial bool :=
  let action_id := repeated "a" 64 in
  let output_id := repeated "b" 64 in
  let first := cache_entry action_id output_id 1111111111111111111 in
  let second := cache_entry action_id output_id 2222222222222222222 in
  let other_action := cache_entry output_id output_id 0 in
  let truncated := str_take (String.length first - 1) first in
  normal_first ← normalize_go_cache_entry first;
  normal_second ← normalize_go_cache_entry second;
  normal_other ← normalize_go_cache_entry other_action;
  not_an_entry ← normalize_go_cache_entry ("v1 not a cache entry" +:+ line_feed);
  normal_truncated ← normalize_go_cache_entry truncated;
  Returns ((normal_first =?= normal_second) && (normal_first =?= Some (cache_entry action_id output_id 0))
    && negb (normal_first =?= normal_other) && (not_an_entry =?= None) && (normal_truncated =?= None)).

Definition go_cache_entry_detection_requires_matching_shard_dir : bool :=
  let hash := "a1" +:+ repeated "c" 62 in
  is_go_cache_entry_path ("/cache/a1/" +:+ hash +:+ "-a")
  && negb (is_go_cache_entry_path ("/cache/ff/" +:+ hash +:+ "-a"))
  && negb (is_go_cache_entry_path ("/cache/a1/" +:+ hash +:+ "-d"))
  && negb (is_go_cache_entry_path "/cache/a1/short-a").

Definition identity_test_dir (name : string) : string :=
  path_push "/tmp" ("repx-file-identity-" +:+ name +:+ "-" +:+ nonce).

Definition observed_go_cache_entries_share_an_identity_across_timestamps : partial bool :=
  let root := identity_test_dir "go-cache-entry" in
  let action_id := "a1" +:+ repeated "c" 62 in
  let output_id := repeated "d" 64 in
  let first := path_push root ("one/a1/" +:+ action_id +:+ "-a") in
  let second := path_push root ("two/a1/" +:+ action_id +:+ "-a") in
  let d := written [(first, cache_entry action_id output_id 1111111111111111111);
                    (second, cache_entry action_id output_id 2222222222222222222)] host in
  first_seen ← observed d first;
  second_seen ← observed d second;
  Returns (first_seen =?= second_seen).

Definition observed_go_import_configs_share_an_identity_across_work_roots : partial bool :=
  let root := identity_test_dir "go-importcfg" in
  let first := path_push root "go-build123/b001/importcfg" in
  let second := path_push root "go-build987/b001/importcfg" in
  let d := written [(first, import_config "/tmp/go-tmp/go-build123/b002/_pkg_.a");
                    (second, import_config "/tmp/go-tmp/go-build987/b002/_pkg_.a")] host in
  first_seen ← observed d first;
  second_seen ← observed d second;
  Returns (first_seen =?= second_seen).

Definition file_identity_tests : list (partial bool) := [
  Returns system_state_matching_respects_path_boundaries;
  Returns go_telemetry_state_is_system_state;
  missing_files_are_bound_to_their_paths;
  unavailable_session_paths_are_normalized;
  Returns watched_paths_respect_directory_boundaries;
  Returns go_import_configs_normalize_random_work_roots;
  Returns go_import_configs_preserve_stable_dependency_paths;
  Returns go_import_config_detection_is_path_scoped;
  unavailable_go_work_paths_are_normalized;
  go_cache_entries_normalize_put_timestamps;
  Returns go_cache_entry_detection_requires_matching_shard_dir;
  observed_go_cache_entries_share_an_identity_across_timestamps;
  observed_go_import_configs_share_an_identity_across_work_roots].
End file_identity_tests.

(** ** [workspace.rs] *)

Section workspace_tests.
Context `{Sha256} (host : Disk) (nonce : string).

Definition workspace_dir (name : string) : string :=
  path_push "/tmp" ("repx-workspace-" +:+ name +:+ "-" +:+ nonce).

(** A tree of directories, regular files and symbolic links to files. *)
Definition name_below (dir path : string) : option string :=
  name ← strip_prefix (dir +:+ "/") path;
  if str_contains "/" name || (name =?= "") then None else Some name.

Definition tree_fs (dirs : list string) (files links : Disk) : WalkFs := {|
  symlink_type path :=
    if bool_decide (is_Some (links !! path)) then Some TypeSymlink
    else if bool_decide (is_Some (files !! path)) then Some TypeFile
    else if bool_decide (path ∈ dirs) then Some TypeDir else None;
  read_link path := links !! path;
  target_is_file path := bool_decide (is_Some (files !! default path (links !! path)));
  canonicalize := Some;
  read_dir dir :=
    if bool_decide (dir ∈ dirs) then
      Some (omap (name_below dir) (dirs ++ (map_to_list files).*1 ++ (map_to_list links).*1))
    else None;
  hash_contents path :=
    @hash_file_contents _ (disk_files files) (default path (links !! path))
|}.

(** [snapshot(root).unwrap()]. *)
Definition snapshot_of (dirs : list string) (files links : Disk) (root : string) : partial Snapshot :=
  match @snapshot (tree_fs dirs files links) 10 root with Walked s => Returns s | _ => Panics end.

(** [path.ends_with(suffix)]. *)
Definition ends_with (suffix path : string) : bool := bool_decide (is_Some (strip_suffix suffix path)).

Definition detects_changed_regular_file : partial bool :=
  let root := workspace_dir "regular" in
  before ← snapshot_of [root] host ∅ root;
  after ← snapshot_of [root] (written [(path_push root "artifact.txt", "artifact")] host) ∅ root;
  let outputs := changed_outputs before after in
  first ← unwrap (outputs !! 0);
  Returns ((length outputs =?= 1) && ends_with "artifact.txt" (output_path first)).

Definition follows_symlinked_output_file : partial bool :=
  let root := workspace_dir "symlink-root" in
  let target := workspace_dir "symlink-target" in
  before ← snapshot_of [root; target] host ∅ root;
  let files := written [(path_push target "artifact.txt", "artifact")] host in
  let links := {[path_push root "artifact-link" := path_push target "artifact.txt"]} in
  after ← snapshot_of [root; target] files links root;
  let outputs := changed_outputs before after in
  Returns (any (λ output, ends_with "artifact-link" (output_path output)) outputs).

Definition explicit_artifact_is_selected_even_if_unchanged : partial bool :=
  let root := workspace_dir "explicit-artifact" in
  let files := written [(path_push root "artifact.txt", "artifact")] host in
  before ← snapshot_of [root] files ∅ root;
  after ← snapshot_of [root] files ∅ root;
  chosen ← match select_outputs before after root ["artifact.txt"] [] with Ok s => Returns s | Err _ => Panics end;
  first ← unwrap (selected chosen !! 0);
  Returns ((match selected_mode chosen with Explicit => true | Inferred => false end)
    && (length (selected chosen) =?= 1) && ends_with "artifact.txt" (output_path first)).

Definition output_root_filters_changed_outputs : partial bool :=
  let root := workspace_dir "output-root" in
  let dirs := [root; path_push root "dist"; path_push root "logs"] in
  before ← snapshot_of dirs host ∅ root;
  let files := written [(path_push root "dist/app", "app"); (path_push root "logs/build.log", "log")] host in
  after ← snapshot_of dirs files ∅ root;
  chosen ← match select_outputs before after root [] ["dist"] with Ok s => Returns s | Err _ => Panics end;
  first ← unwrap (selected chosen !! 0);
  Returns ((length (selected chosen) =?= 1) && ends_with "dist/app" (output_path first)).

Definition workspace_tests : list (partial bool) := [
  detects_changed_regular_file; follows_symlinked_output_file;
  explicit_artifact_is_selected_even_if_unchanged; output_root_filters_changed_outputs].
End workspace_tests.

Module FileTestRuns.
Import Toy.

Example file_identity_tests_pass : file_identity_tests ∅ "1754" = repeat (Returns true) 13.
Proof. vm_compute. reflexivity. Qed.

Example workspace_tests_pass : workspace_tests ∅ "4242-1754" = repeat (Returns true) 4.
Proof. vm_compute. reflexivity. Qed.
End FileTestRuns.
