(* ===== verification/TracerTests.v ===== *)
(** * The unit tests of [repx/src/tracer.rs]

    Over an environment whose processes and files are those of the host; evaluated
    on one where the processes and files that the tests name do not exist. *)
From S2P Require Export TestFiles Tracer.

Section tracer_tests.
Context `{Sha256} {Handle : Type} (env : Env Handle).

Definition TEST_LIFETIME : ProcessLifetime := mkLifetime 1 0.

Definition test_state (root_pid : Z) : Collector (Handle := Handle) := new_collector root_pid "/workspace".

(** An open file without handle or observation, open for writing. *)
Definition test_file (path : string) (observation : option FileObservation) : OpenFileState :=
  mkOpenFile path (None : option Handle) 1 observation.

Definition path_at (st : Collector (Handle := Handle)) (l : ProcessLifetime) (fd : Z) : partial string :=
  s ← unwrap (fd_table st !! (l, fd)); Returns (of_path s).

Definition proc_target_must_match_more_than_an_absolute_basename : bool :=
  negb (paths_agree env "/tmp/first/output.o" "/tmp/second/output.o")
  && paths_agree env "relative/output.o" "/tmp/build/relative/output.o".

Definition rename_rewrites_open_file_paths_at_directory_boundaries : partial bool :=
  let st := with_fds {[(TEST_LIFETIME, 3%Z) := test_file "/tmp/old/artifact" None;
                       (TEST_LIFETIME, 4%Z) := test_file "/tmp/older/unrelated" None]} (test_state 1) in
  let st := rewrite_open_file_paths "/tmp/old" "/tmp/new" 0 st in
  third ← path_at st TEST_LIFETIME 3;
  fourth ← path_at st TEST_LIFETIME 4;
  Returns ((third =?= "/tmp/new/artifact") && (fourth =?= "/tmp/older/unrelated")).

Definition exchange_rename_swaps_open_file_paths : partial bool :=
  let st := with_fds {[(TEST_LIFETIME, 3%Z) := test_file "/tmp/left" None;
                       (TEST_LIFETIME, 4%Z) := test_file "/tmp/right" None]} (test_state 1) in
  let st := rewrite_open_file_paths "/tmp/left" "/tmp/right" RENAME_EXCHANGE st in
  third ← path_at st TEST_LIFETIME 3;
  fourth ← path_at st TEST_LIFETIME 4;
  Returns ((third =?= "/tmp/right") && (fourth =?= "/tmp/left")).

Definition root_exec_epochs_advance_after_the_synthetic_initial_exec : bool :=
  let '(st, first) := exec_process 42 (test_state 42) in
  let '(st, second) := exec_process 42 st in
  let '(st, third) := exec_process 42 st in
  (first =?= None) && (second =?= Some (test_epoch 42 1)) && (third =?= Some (test_epoch 42 2)).

Definition forked_processes_get_new_lifetimes_when_pids_are_reused : bool :=
  let '(st, (parent, child)) := fork_process env 1 2 (test_state 1) in
  let '(st, exec) := exec_process 2 st in
  let '(st, exited) := exit_process 2 st in
  let '(st, (_, reused)) := fork_process env 1 2 st in
  (parent =?= test 1) && (child =?= test 2) && (exec =?= Some (test_epoch 2 1)) && (exited =?= test_epoch 2 1)
  && (pid (lifetime reused) =?= 2%Z) && (generation (lifetime reused) =?= 1%Z) && (exec_epoch reused =?= 0%Z).

Definition forked_processes_inherit_open_descriptor_state : partial bool :=
  let st := test_state 1 in
  let st := with_fds (<[(lifetime (root_process st), 3%Z) :=
    test_file "/tmp/inherited" (Some (Content "sha256:input"))]> (fd_table st)) st in
  let '(st, (_, child)) := fork_process env 1 2 st in
  inherited ← unwrap (fd_table st !! (lifetime child, 3%Z));
  Returns ((of_path inherited =?= "/tmp/inherited") && (of_flags inherited =?= 1%Z)
    && (of_open_observation inherited =?= Some (Content "sha256:input"))).

Definition cached_working_directory_resolves_paths_after_proc_disappears : bool :=
  let st := test_state U32_MAX in
  let process := root_process st in
  (resolve_path env process AT_FDCWD "dist/hello" st).2 =?= "/workspace/dist/hello".

Definition forked_processes_inherit_cached_working_directories : bool :=
  let st := test_state (U32_MAX - 1) in
  let '(st, (_, child)) := fork_process env (U32_MAX - 1) U32_MAX st in
  (resolve_path env child AT_FDCWD "dist/hello" st).2 =?= "/workspace/dist/hello".

Definition tracer_tests : list (partial bool) := [
  Returns proc_target_must_match_more_than_an_absolute_basename;
  rename_rewrites_open_file_paths_at_directory_boundaries;
  exchange_rename_swaps_open_file_paths;
  Returns root_exec_epochs_advance_after_the_synthetic_initial_exec;
  Returns forked_processes_get_new_lifetimes_when_pids_are_reused;
  forked_processes_inherit_open_descriptor_state;
  Returns cached_working_directory_resolves_paths_after_proc_disappears;
  Returns forked_processes_inherit_cached_working_directories].
End tracer_tests.

Module TracerTestRuns.
Import Toy.

Definition empty_host : Env unit := mkEnv unit (λ _, None) (λ _, None) (λ _, IoErr NotFound) (λ _, IoErr NotFound)
  (λ _, {| file_metadata := IoErr NotFound; file_seek := false; file_contents := None |}) Some.

Example tracer_tests_pass : tracer_tests empty_host = repeat (Returns true) 8.
Proof. vm_compute. reflexivity. Qed.
End TracerTestRuns.
