(* ===== verification/DocumentTests.v ===== *)
(** * The unit tests of the document modules

    Those of [repx/src/merkle.rs], [attestation.rs], [dsse.rs], [stability.rs] and
    [harness.rs] and of [repx-common/src/lib.rs].  The frozen commitments of
    [attestation.rs] are digests that the program computes: the model computes the
    same with the SHA-256 of [Fips180] (and, for v0.2, compact JSON).  The key pairs
    that the tests generate are arguments. *)
From S2P Require Export TestFiles Fips180 Harness CliExamples.

(** ** [merkle.rs] and [repx-common] *)

Definition set_diff_does_not_cascade_after_an_insertion : bool :=
  let expected := mkTree ["a"; "c"] [] 2 in
  let actual := mkTree ["a"; "b"; "c"] [] 3 in
  let diff := diff_leaf_sets expected actual in
  bool_decide (missing diff = []) && (added diff =?= ["b"]).

Example set_diff_does_not_cascade : set_diff_does_not_cascade_after_an_insertion = true.
Proof. vm_compute. reflexivity. Qed.

(** ** [attestation.rs] *)

Section attestation_tests.
Context `{Sha256} `{CommitmentJson}.

Definition test_tree : MerkleTree := mkTree ["sha256:operation"] [] 1.

Definition accepted (x : Attestation * result ValidateError unit) : bool :=
  match x.2 with Ok _ => true | Err _ => false end.

Definition command_is_bound_into_the_attestation_root : bool :=
  let first := new_with_outputs test_tree ["make"] default_selection [] in
  let second := new_with_outputs test_tree ["make"; "release"] default_selection [] in
  negb (root_hash first =?= root_hash second).

Definition v0_2_commitment_encoding_is_frozen : bool :=
  let output_selection := mkSelection "explicit" ["dist/app"] ["dist"] in
  let outputs := [mkOutput "dist/app" "sha256:artifact"] in
  commitment_hash_v0_2 "sha256:process" ["make"; "release"] output_selection outputs
  =?= "sha256:acbd954b2c7a7196ef706989898068ac1b26c82237855ccc7c071b592953adc5".

Definition v0_3_commitment_encoding_is_deterministic : bool :=
  let output_selection := mkSelection "explicit" ["dist/app"] ["dist"] in
  let outputs := [mkOutput "dist/app" "sha256:artifact"] in
  let hash := commitment_hash_v0_3 "sha256:process" ["make"; "release"] output_selection outputs in
  let hash_empty := commitment_hash_v0_3 "sha256:process" ["make"] default_selection [] in
  (hash =?= "sha256:1f819e0c33fd80f8b324a0e528999a588ce1c1c1ca5c9b52061b5dad39b8b151")
  && (hash_empty =?= "sha256:ca5c89cc0b8fcdd83c6043fe04430ab3a27bac151d9845fa231ed9586b1f65b2").

Definition v0_3_encoding_rejects_fields_out_of_order : bool :=
  let att := new_with_outputs test_tree ["true"] default_selection [] in
  let hash_original := root_hash att in
  let att2 := new_with_outputs test_tree ["true"; "extra"] default_selection [] in
  negb (hash_original =?= root_hash att2).

Definition unknown_versions_are_rejected : bool :=
  let attestation := new_with_outputs test_tree ["true"] default_selection [] in
  let attestation :=
    mkAttestation "9.9.9" (predicate_type attestation) (root_hash attestation) (process_root attestation)
      (command attestation) (output_selection attestation) (outputs attestation) (tree attestation) in
  negb (accepted (validate attestation)).

Definition v0_3_0_attestations_pass_validation : bool :=
  let attestation := new_with_outputs test_tree ["true"] default_selection [] in
  (version attestation =?= "0.3.0") && accepted (validate attestation).

Definition v0_2_1_attestations_pass_validation : bool :=
  let process_root := root_hash_of test_tree in
  let root_hash := commitment_hash_v0_2 process_root ["true"] default_selection [] in
  let attestation :=
    mkAttestation "0.2.1" "https://repx.dev/process-provenance/v0.2.1" root_hash process_root ["true"]
      default_selection [] test_tree in
  accepted (validate attestation).

(** The second validation is of the document as the first one left it. *)
Definition legacy_roots_are_still_validated : bool :=
  let process_root := root_hash_of test_tree in
  let attestation :=
    mkAttestation "0.1.0" "https://repx.dev/process-provenance/v0.1" process_root "" ["true"]
      default_selection [] test_tree in
  let first := validate attestation in
  let attestation :=
    mkAttestation (version first.1) (predicate_type first.1) "sha256:tampered" (Attestation.process_root first.1)
      (command first.1) (output_selection first.1) (outputs first.1) (tree first.1) in
  accepted first && negb (accepted (validate attestation)).

Definition attestation_tests : list bool := [
  command_is_bound_into_the_attestation_root; v0_2_commitment_encoding_is_frozen;
  v0_3_commitment_encoding_is_deterministic; v0_3_encoding_rejects_fields_out_of_order;
  unknown_versions_are_rejected; v0_3_0_attestations_pass_validation;
  v0_2_1_attestations_pass_validation; legacy_roots_are_still_validated].
End attestation_tests.

(** Compact JSON, for strings without characters to escape. *)
Module CompactJson.
Definition quoted (s : string) : string := String "034" (s +:+ String "034" "").
Fixpoint separated (l : list string) : string :=
  match l with [] => "" | [s] => s | s :: l => s +:+ "," +:+ separated l end.
Definition array (l : list string) : string := "[" +:+ separated l +:+ "]".
Definition object (fields : list (string * string)) : string :=
  "{" +:+ separated ((λ '(name, value), quoted name +:+ ":" +:+ value) <$> fields) +:+ "}".
Definition selection (s : OutputSelection) : string :=
  object [("mode", quoted (mode s)); ("artifacts", array (quoted <$> artifacts s));
          ("output_roots", array (quoted <$> output_roots s))].
Definition output (o : AttestedOutput) : string :=
  object [("path", quoted (out_path o)); ("hash", quoted (out_hash o))].

#[export] Instance compact_commitment : CommitmentJson := {|
  commitment_to_vec c := object [
    ("domain", quoted (c2_domain c)); ("process_root", quoted (c2_process_root c));
    ("command", array (quoted <$> c2_command c)); ("output_selection", selection (c2_output_selection c));
    ("outputs", array (output <$> c2_outputs c))]
|}.
End CompactJson.

Module FrozenCommitments.
Import Fips180 CompactJson.

(** The digests frozen in the tests are those of the model, byte for byte. *)
Example attestation_tests_pass : attestation_tests = repeat true 8.
Proof. vm_compute. reflexivity. Qed.
End FrozenCommitments.

(** ** [repx-common/src/lib.rs] *)

Definition event_size_stays_small_enough_for_bursty_builds : bool := Nat.leb event_size 320.

Definition unknown_event_kinds_are_rejected : bool :=
  (kind_try_from 3 =?= Some KindProcessExec) && (kind_try_from 9 =?= Some KindProcessFork)
  && (kind_try_from 4294967295 =?= None).

Example common_tests_pass :
  event_size_stays_small_enough_for_bursty_builds = true ∧ unknown_event_kinds_are_rejected = true.
Proof. split; vm_compute; reflexivity. Qed.

(** ** [stability.rs] *)

Section stability_tests.
Context `{Sha256} `{F64, !EqDecision f64}.

Definition attestation_of (leaves : list string) (command : string) : Attestation :=
  new_with_outputs (mkTree leaves [] (length leaves)) [command] default_selection [].

Definition reports_root_and_leaf_set_stability : partial bool :=
  report ← unwrap (analyze [("first.json", attestation_of ["a"; "b"] "make");
                            ("second.json", attestation_of ["a"; "b"] "make");
                            ("third.json", attestation_of ["a"; "c"] "make")]);
  third ← unwrap (runs report !! 2);
  Returns ((root_matches report =?= 2) && (process_root_matches report =?= 2)
    && (minimum_leaf_jaccard report =?= f64_div (f64_of_usize 1) (f64_of_usize 3))
    && (missing_leaves third =?= 1) && (added_leaves third =?= 1)).

Definition empty_leaf_sets_are_identical : partial bool :=
  report ← unwrap (analyze [("first.json", attestation_of [] "true"); ("second.json", attestation_of [] "true")]);
  Returns (minimum_leaf_jaccard report =?= f64_one).
End stability_tests.

Module StabilityTestRuns.
Import Toy StabilityExamples.

Example stability_tests_pass :
  reports_root_and_leaf_set_stability = Returns true ∧ empty_leaf_sets_are_identical = Returns true.
Proof. split; vm_compute; reflexivity. Qed.
End StabilityTestRuns.

(** ** [dsse.rs] *)

Section dsse_tests.
Context `{Sha256} `{CommitmentJson} `{AttestationVec} `{AttestationJson}.
Context `{Base64} `{Hex} `{Ed25519} `{EnvelopeJson} (signing_key other_key : SigningKey).
#[local] Abbreviation verifying_key := (verifying_key signing_key).
#[local] Abbreviation wrong_verifying_key := (Dsse.verifying_key other_key).

Definition V0_3 : string := "https://repx.dev/process-provenance/v0.3.0".
Definition is_err {E A} (x : result E A) : bool := match x with Ok _ => false | Err _ => true end.
Definition unwrap_ok {E A} (x : result E A) : partial A := match x with Ok a => Returns a | Err _ => Panics end.

Definition pae_round_trips (json : string) : bool :=
  let encoded := pae V0_3 json in
  let encoded2 := pae V0_3 json in
  let encoded_other_type := pae "other" json in
  let encoded_other_payload := pae V0_3 "other" in
  (encoded =?= encoded2) && negb (encoded =?= encoded_other_type) && negb (encoded =?= encoded_other_payload).

Definition sign_and_verify_round_trip (json : string) : partial bool :=
  let envelope := sign json V0_3 signing_key in
  decoded ← unwrap_ok (verify envelope verifying_key);
  Returns (decoded =?= json).

Definition wrong_key_fails_verification : bool :=
  is_err (verify (sign "data" "type" signing_key) wrong_verifying_key).

Definition tampered_payload_is_rejected_by_verify : bool :=
  let envelope := sign "original" "type" signing_key in
  let envelope := mkEnvelope (payload_type envelope) (base64_encode "tampered") (signatures envelope) in
  is_err (verify envelope verifying_key).

Definition empty_signatures_is_rejected : bool :=
  is_err (verify (mkEnvelope "type" (base64_encode "data") []) verifying_key).

Definition key_hex_round_trip : partial bool :=
  let signing_hex := hex_encode (signing_key_to_bytes signing_key) in
  parsed_signing ← unwrap_ok (parse_signing_key signing_hex);
  let verifying_hex := hex_encode (verifying_key_to_bytes verifying_key) in
  parsed_verifying ← unwrap_ok (parse_verifying_key verifying_hex);
  Returns ((signing_key_to_bytes signing_key =?= signing_key_to_bytes parsed_signing)
    && (verifying_key_to_bytes verifying_key =?= verifying_key_to_bytes parsed_verifying)).

Definition signing_key_rejects_wrong_length : bool :=
  is_err (parse_signing_key "deadbeef") && is_err (parse_signing_key "").

Definition envelope_json_round_trip : partial bool :=
  let envelope := sign "test payload" "test-type" signing_key in
  let json := envelope_to_json envelope in
  parsed ← unwrap (envelope_of_json json);
  first ← unwrap (signatures envelope !! 0);
  first_parsed ← unwrap (signatures parsed !! 0);
  Returns ((payload_type envelope =?= payload_type parsed) && (payload envelope =?= payload parsed)
    && (length (signatures envelope) =?= length (signatures parsed)) && (sig first =?= sig first_parsed)).

Definition full_attestation_sign_and_verify : partial bool :=
  let att := new_with_outputs test_tree ["true"] default_selection [] in
  let payload := attestation_to_vec att in
  let envelope := sign payload (predicate_type att) signing_key in
  let envelope_json := envelope_to_json envelope in
  parsed_envelope ← unwrap (envelope_of_json envelope_json);
  verified_payload ← unwrap_ok (verify parsed_envelope verifying_key);
  verified_att ← unwrap (attestation_of_json verified_payload);
  let validated := validate verified_att in
  _ ← unwrap_ok validated.2;
  Returns ((verified_payload =?= payload) && (root_hash validated.1 =?= root_hash att)).
End dsse_tests.

Module DsseTestRuns.
Import Toy AttestationExamples DsseExamples CliExamples.

(** The fields of an envelope with one signature, each on a line. *)
Definition newline : string := String "010" "".
Definition lines_envelope : EnvelopeJson := {|
  envelope_to_json e :=
    String.concat newline (payload_type e :: payload e :: (signatures e ≫= λ s, [keyid s; sig s]));
  envelope_of_json s :=
    match str_split "010"%char s with
    | [t; p; k; g] => Some (mkEnvelope t p [mkSignature k g])
    | _ => None
    end
|}.
#[local] Existing Instance lines_envelope | 0.

Definition key_of (c : ascii) : key32 := default zero_key (to_key32 (String.concat "" (repeat (String c "") 32))).

Example dsse_tests_pass :
  pae_round_trips "{version:0.3.0}" = true ∧
  sign_and_verify_round_trip (key_of "a") "{version:0.3.0,root_hash:sha256:test}" = Returns true ∧
  wrong_key_fails_verification (key_of "a") (key_of "b") = true ∧
  tampered_payload_is_rejected_by_verify (key_of "a") = true ∧
  empty_signatures_is_rejected (key_of "a") = true ∧
  key_hex_round_trip (key_of "a") = Returns true ∧
  signing_key_rejects_wrong_length = true ∧
  envelope_json_round_trip (key_of "a") = Returns true ∧
  full_attestation_sign_and_verify (key_of "a") = Returns true.
Proof. repeat split; vm_compute; reflexivity. Qed.
End DsseTestRuns.

(** ** [harness.rs] *)

Section harness_tests.
Context `{Sha256} `{CommitmentJson} `{AttestationJson} `{F64} `{HashOrder} {Handle : Type}.
Context (fuel : nat) (sort : list RawEvent → list RawEvent) (w : World Handle) (worlds : nat → World Handle).

Definition harness_requires_at_least_two_runs : bool :=
  let config := mkConfig 1 [] [] [] false ["true"] None in
  match run_harness fuel sort w worlds config (Some "buffer") (mkCli ∅ []) with
  | (_, Bail (TooFewRuns _)) => true
  | _ => false
  end.

(** Whatever the worlds of the runs. *)
Lemma harness_test_passes : harness_requires_at_least_two_runs = true.
Proof. reflexivity. Qed.
End harness_tests.
